(* ===== verification/_CoqProject ===== *)
-Q . S2P
Prelude.v
Wire.v
Reorder.v
ReorderInv.v
ReorderTrace.v
ReorderSpec.v
Control.v
Float64.v
Sched.v
Link.v
LinkSpec.v
PathSelect.v
Fec.v
CodecCache.v
FecSpec.v
FecSound.v
Classify.v
Wgbridge.v
Engine.v
Client.v
Server.v
EngineLogic.v
ClientSafe.v
ClientSend.v
ServerSafe.v
ServerSpec.v
ClientCarry.v
ServerCarry.v
Lifecycle.v
ServerSource.v
ClientSink.v
EndToEnd.v
Text.v
Endpoint.v
Configuration.v
Keys.v
Boot.v
Netdev.v
Commands.v
Dashboard.v
Metrics.v
EngineExamples.v
