(* ===== verification/Prelude.v ===== *)
(** * Treccia: a verification development of the WAN-bonding daemon

    Treccia bonds several WAN uplinks into one encrypted tunnel. A client and
    a server daemon each embed wireguard-go; the multipath engine between
    WireGuard and the sockets decides, packet by packet, which uplink carries
    a ciphertext, and puts the stream together again on the other side.

    ** The program and its parts

    On the way out, [wgbridge.TunShim] shows every plaintext packet to the
    classifier ([classify]), which queues its class in the correlator
    ([wgbridge]); WireGuard encrypts; [EngineBind.Send] hands the ciphertext
    to the engine ([engine]), which finds its class again by its length. Bulk
    ciphertext is numbered, striped over the uplinks by the weighted scheduler
    ([sched]) and protected by Reed-Solomon parity ([fec]); realtime
    ciphertext is duplicated on the two best uplinks and interactive
    ciphertext sent on the best one ([pathmon]). Datagrams are framed by
    [wire]. On the way in, the engine parses a datagram, updates the receive
    statistics, feeds the FEC decoder, and pushes bulk packets through the
    resequencing buffer ([reorder]) to WireGuard. HELLO, BYE, PROBE, PROBE_ACK
    and CTRL datagrams ([control], authenticated by [wire/hmac.go]) register
    paths, measure them and report what was received. [config], [wgbridge]'s
    keys and device setup and the two commands start all of this; a metrics
    snapshot shows it on a dashboard.

    ** Files

    - [Prelude]: machine integers with explicit wrap-around, big-endian
      fields, Go slices, the [outcome] monad (value, error, panic), state
      machines with events ([act]), shared lemmas, tactics and hints.
    - [Wire]: src/internal/wire types.go, header.go, fec.go. Headers as
      records, [Put*] and [Parse*] as in the code.
    - [Control]: wire/hmac.go and internal/control. BLAKE2s is the class
      [Blake2s].
    - [Float64]: Go's float64 as the rational it denotes, with a [Rounding];
      the instances are IEEE binary64 and exact arithmetic.
    - [Reorder], [ReorderInv], [ReorderTrace], [ReorderSpec]: internal/reorder.
      The ring is a list of slots; callbacks and timer are events.
    - [Sched]: internal/sched.
    - [Link], [LinkSpec]: internal/pathmon/link.go.
    - [PathSelect]: internal/pathmon rxstats.go and select.go.
    - [Fec], [FecSpec], [FecSound]: internal/fec. The codec is the class
      [ReedSolomon] with its documented laws [ReedSolomonLaws] (instances: a
      single-parity codec and a copying one); the traversal order of a Go map
      is the class [MapOrder]. [CodecCache]: the cache of codecs.
    - [Classify]: internal/classify.
    - [Wgbridge]: internal/wgbridge correlator.go and bind.go; channels live
      in a heap of channels, so that a closed one stays reachable.
    - [Engine]: internal/buffers and engine/engine.go. The engine's record,
      the monad [eng] (engine state, events, panics) and the class [World]:
      clock, randomness, results of socket operations, contents of recycled
      slabs, order of map traversals. A slab on loan is a number and its
      memory; [Get] and [Put] are events.
    - [Client], [Server]: engine/client.go and engine/server.go. One
      definition per handler, and one per round of each loop. A pointer to a
      path or a session is its index or key; following one that is not there
      ([pathAt], [updPath], [sessAt], [updSess], [psAt], [updPs]) is a panic,
      as are a nil encoder, a nil buffer, a read or slice out of range and a
      zero divisor.
    - [EngineLogic]: weakest preconditions, the invariant [inv], triples
      [trip] that also account for slabs, and [rel] for relations between the
      ends of a computation.
    - [ClientSafe], [ClientSend]: theorems about the client;
      [ServerSafe], [ServerSpec]: about the server.
    - [Lifecycle]: the loops of a client, who starts them and what they rely
      on; [Run] and [WaitReady].
    - [Endpoint]: the session endpoints of wgbridge/bind.go and [Send], and
      the traffic of one session of the server.
    - [ClientCarry], [ServerCarry], [ServerSource], [ClientSink], [EndToEnd]:
      where the bytes come from. On the way out, an invariant of the client
      relates its encoder and its staged ciphertext to what WireGuard gave it
      ([ClientCarry]), and one of the server says that every packet it holds
      for a session is genuine ([ServerCarry]); on the way back the server is
      the source ([ServerSource]) and the client the sink ([ClientSink]).
      [EndToEnd] puts a network between the two, in either direction.
    - [Text], [Configuration], [Keys], [Boot]: the parts of Go's fmt, strconv
      and net/netip the code uses; internal/config and fec.ParseForce;
      wgbridge keys.go and wg.go; what cmd/treccia-client and
      cmd/treccia-server make of a configuration, and wgbridge/tunshim.go.
      File system and YAML are the class [Loader], Curve25519 the class
      [Curve], wireguard-go the class [WireGuard].
    - [Netdev]: wgbridge/netdev.go, as the sequence of netlink requests (class
      [Netlink]); net.ParseCIDR.
    - [Commands]: internal/cli, the flags, start-up and shutdown of both
      commands.
    - [Metrics], [Dashboard]: engine/metrics.go and internal/dashboard: a
      request through the router, the token and the handlers to a response.
    - [EngineExamples]: a concrete world, runs in it, and the engine theorems
      applied to them.

    ** What the theorems show

    - Framing and control plane ([Wire], [Control]): the parsers accept
      exactly the encodings of well-formed values and never panic; control
      messages are accepted only with a valid tag; encoders and parsers are
      inverse; the replay window is exact on 64-bit integers.
    - Resequencing ([ReorderSpec]): in-order release, conservation of packets,
      expiry of a gap, and the ring invariant, over every run.
    - Scheduling and selection ([Sched], [LinkSpec], [PathSelect]): fairness
      of the striping, choice of the best paths, ranges of every estimate, the
      up/down state machine.
    - Repair ([FecSpec], [FecSound]): any K of the K + M datagrams of a group
      give back exactly the missing packets; whatever the network does, the
      decoder recovers only packets that were sent; its memory is bounded; the codec cache cannot be told from none.
    - Classification ([Classify], [Wgbridge]): no packet makes the
      classifier panic, the dissector's fields, resynchronisation of the
      correlator (when no dropped packet has the length of the next sent one); the bind never misuses a
      channel and releases every slab once.
    - The engine ([ClientSafe], [ServerSpec]): in every run no operation
      panics, the invariant holds, and every slab is returned exactly once or
      still waiting in a buffer. An operation must be fit to run
      ([client_fit], [server_fit]): the flush loop has an encoder, which
      [life_sound] shows of the loops [Run] starts, and no flow's 64-bit
      packet counter is about to come round to zero.
    - The client ([ClientSend]): what is written for a ciphertext refines an
      abstract decision; numbers never repeat; ciphertext is staged until a
      path is registered; only an authentic fresh answer registers a path.
    - The server ([ServerSpec]): the session registry follows the lifecycle of
      the protocol ([server_registry]), exactly as the function [reg_after]
      says ([registry_exact]); what it takes to open, close or move a session;
      the reaper.
    - The tunnel ([EndToEnd]): over a network that loses, repeats, reorders
      and mixes in other datagrams, everything the server hands to WireGuard
      for a session is a ciphertext its client was given
      ([tunnel_integrity]), and everything the client hands to WireGuard is a
      ciphertext the server was given for its session
      ([downlink_integrity]). What a client writes is accepted by the parser
      of its kind ([client_frames_typed]); what the server writes for a
      session goes to that session's addresses ([send_isolated]).
    - The life of a client ([Lifecycle]): a loop never runs without what it
      uses, and [WaitReady] returns.
    - Start-up and observation ([Configuration], [Keys], [Boot], [Netdev],
      [Commands], [Metrics], [Dashboard]): loading accepts exactly the valid
      configurations, a loaded configuration meets the assumptions of the
      engine theorems, the interface is set up as configured, a client
      exits with a proper status, waits, or serves after its complete start-up
      sequence, and raises nothing before [WaitReady] returned; keys
      round-trip, snapshots are read-only and show each path's own values, and the dashboard's
      token gates every route.

    ** Bounds and fuel

    Loops over data are structural. The drain and expiry loops of the
    resequencing buffer take as fuel the size of the ring, 8192; they leave by
    their own condition before it is used up, wherever an operation runs them
    ([reorder_loops_end]). The
    decimal printer takes 20 digits, enough for 64 bits; the IPv6 parser and
    the trimming of white space take the length of the text, of which every
    round consumes a character. [fec_sound] and [tunnel_integrity] are about
    runs of at most 2^24 operations or ciphertexts, because group numbers have
    24 bits; the same goes for [downlink_integrity]. Geometries have at most
    64 data and 16 parity shards, as the configuration enforces; the laws of
    the codec are assumed up to 256 shards. [Classify_total] is about fewer
    than 2^64 packets, because a flow's packet counter has 64 bits. [WaitReady]
    takes a list of pauses; [WaitReady_returns] says how many are enough.

    ** Not modelled

    - Mutexes and the interleaving of goroutines inside one handler: a
      handler, or one round of a loop, is one atomic step; a run is any
      sequence of steps. Blocking reads, tickers and contexts are the
      environment that chooses the next step.
    - Infinities, NaN, the sign of zero and fused multiply-add of float64.
    - Logging, apart from what the dashboard logs; JSON encoding.
    - The listener inside net/http, signals, and the test tool
      test/netns/wansim.

    ** Plan

    Delivery in order across the tunnel. *)

From stdpp Require Export base list gmap fin_maps numbers option.
From Stdlib Require Export ZArith Lia.

#[global] Open Scope Z_scope.

(** [lia] sees through [/], [mod], [Z.quot] and [Z.rem] by constants. *)
Ltac Zify.zify_post_hook ::= Z.to_euclidean_division_equations.

Declare Scope go_scope.
Delimit Scope go_scope with go.

Create HintDb treccia.

(** ** Machine integers

    A Go integer of width [w] is a [Z] in the range of the type; every
    arithmetic result that can leave the range is wrapped explicitly. *)

Abbreviation two8 := 256.
Abbreviation two16 := 65536.
Abbreviation two24 := 16777216.
Abbreviation two31 := 2147483648.
Abbreviation two32 := 4294967296.
Abbreviation two63 := 9223372036854775808.
Abbreviation two64 := 18446744073709551616.

Definition u8 (x : Z) : Z := x mod two8.
Definition u16 (x : Z) : Z := x mod two16.
Definition u32 (x : Z) : Z := x mod two32.
Definition u64 (x : Z) : Z := x mod two64.
Definition i32 (x : Z) : Z := (x + two31) mod two32 - two31.
Definition i64 (x : Z) : Z := (x + two63) mod two64 - two63.

#[global] Arguments u8 : simpl never.
#[global] Arguments u16 : simpl never.
#[global] Arguments u32 : simpl never.
#[global] Arguments u64 : simpl never.
#[global] Arguments i32 : simpl never.
#[global] Arguments i64 : simpl never.
#[global] Arguments Z.shiftr : simpl never.
#[global] Arguments Z.shiftl : simpl never.
#[global] Arguments Z.lor : simpl never.
#[global] Arguments Z.land : simpl never.

Definition is_u8 (x : Z) : Prop := 0 <= x < two8.
Definition is_u16 (x : Z) : Prop := 0 <= x < two16.
Definition is_u24 (x : Z) : Prop := 0 <= x < two24.
Definition is_u32 (x : Z) : Prop := 0 <= x < two32.
Definition is_u64 (x : Z) : Prop := 0 <= x < two64.
Definition is_i32 (x : Z) : Prop := - two31 <= x < two31.
Definition is_i64 (x : Z) : Prop := - two63 <= x < two63.

(** Unfold the machine-integer vocabulary and hand the goal to [lia]. *)
Ltac ints :=
  unfold u8, u16, u32, u64, i32, i64, is_u8, is_u16, is_u24, is_u32, is_u64,
    is_i32, is_i64 in *.
Ltac mlia := ints; lia.

Lemma u8_id x : is_u8 x -> u8 x = x.
Proof. ints. apply Z.mod_small. Qed.
Lemma u16_id x : is_u16 x -> u16 x = x.
Proof. ints. apply Z.mod_small. Qed.
Lemma u32_id x : is_u32 x -> u32 x = x.
Proof. ints. apply Z.mod_small. Qed.
Lemma u64_id x : is_u64 x -> u64 x = x.
Proof. ints. apply Z.mod_small. Qed.
Lemma i32_id x : is_i32 x -> i32 x = x.
Proof. mlia. Qed.
Lemma i64_id x : is_i64 x -> i64 x = x.
Proof. mlia. Qed.
Lemma u8_range x : is_u8 (u8 x).
Proof. mlia. Qed.
Lemma u16_range x : is_u16 (u16 x).
Proof. mlia. Qed.
Lemma u32_range x : is_u32 (u32 x).
Proof. mlia. Qed.
Lemma u64_range x : is_u64 (u64 x).
Proof. mlia. Qed.
Lemma i32_range x : is_i32 (i32 x).
Proof. mlia. Qed.
Lemma i64_range x : is_i64 (i64 x).
Proof. mlia. Qed.
#[export] Hint Resolve u8_range u16_range u32_range u64_range i32_range i64_range
  : treccia.

(** Reinterpreting the same bits: [int64(uint64(x))] and [uint64(int64(x))]. *)
Lemma i64_u64 x : is_i64 x -> i64 (u64 x) = x.
Proof. mlia. Qed.
Lemma u64_i64 x : is_u64 x -> u64 (i64 x) = x.
Proof. mlia. Qed.
Lemma i32_u32 x : is_i32 x -> i32 (u32 x) = x.
Proof. mlia. Qed.

(** Case analysis on every boolean integer comparison in sight. *)
Ltac zcase :=
  repeat match goal with
  | |- context [?a <? ?b] => destruct (Z.ltb_spec a b)
  | |- context [?a <=? ?b] => destruct (Z.leb_spec a b)
  | |- context [?a =? ?b] => destruct (Z.eqb_spec a b)
  | H : context [?a <? ?b] |- _ => destruct (Z.ltb_spec a b)
  | H : context [?a <=? ?b] |- _ => destruct (Z.leb_spec a b)
  | H : context [?a =? ?b] |- _ => destruct (Z.eqb_spec a b)
  end.

Notation "a >? b" := (Z.ltb b a) (only parsing) : go_scope.
Notation "a >=? b" := (Z.leb b a) (only parsing) : go_scope.

(** ** Outcomes of Go code

    A call returns a value, returns a non-nil [error], or panics (an index
    or slice expression out of range). *)

Inductive outcome (E A : Type) : Type :=
  | Ret (a : A)
  | Err (e : E)
  | Panic.
Arguments Ret {E A} a.
Arguments Err {E A} e.
Arguments Panic {E A}.

#[export] Instance outcome_ret {E} : MRet (outcome E) := fun A a => Ret a.
#[export] Instance outcome_bind {E} : MBind (outcome E) := fun A B f m =>
  match m with Ret a => f a | Err e => Err e | Panic => Panic end.

(** [b[i]]: an out-of-range index panics. *)
Definition idx {E A} (b : list A) (i : nat) : outcome E A :=
  match b !! i with Some x => Ret x | None => Panic end.

(** [b[i:]]: panics when [i > len(b)]. *)
Definition slice_from {E A} (b : list A) (i : nat) : outcome E (list A) :=
  if decide (i <= length b)%nat then Ret (drop i b) else Panic.

(** [b[i:j]]: panics unless [i <= j <= len(b)] (no slice of the development
    re-extends into spare capacity). *)
Definition slice {E A} (b : list A) (i j : nat) : outcome E (list A) :=
  if decide (i <= j <= length b)%nat then Ret (take (j - i) (drop i b)) else Panic.

Lemma idx_lt {E A} (b : list A) i : (i < length b)%nat -> exists x, @idx E A b i = Ret x /\ b !! i = Some x.
Proof. intros [x Hx]%lookup_lt_is_Some. exists x. unfold idx. by rewrite Hx. Qed.

Lemma slice_from_le {E A} (b : list A) i :
  (i <= length b)%nat -> @slice_from E A b i = Ret (drop i b).
Proof. intros. unfold slice_from. by rewrite decide_True. Qed.

Lemma slice_le {E A} (b : list A) i j :
  (i <= j <= length b)%nat -> @slice E A b i j = Ret (take (j - i) (drop i b)).
Proof. intros. unfold slice. by rewrite decide_True. Qed.

(** ** Bytes and big-endian integers (encoding/binary) *)

Definition is_bytes (b : list Z) : Prop := Forall is_u8 b.

Lemma is_bytes_cons x b : is_bytes (x :: b) <-> is_u8 x /\ is_bytes b.
Proof. apply Forall_cons_iff. Qed.

Definition is_bytesb (b : list Z) : bool := forallb (fun x => (0 <=? x) && (x <? two8)) b.

Lemma is_bytesb_spec b : is_bytesb b = true -> is_bytes b.
Proof.
  unfold is_bytesb, is_bytes. rewrite forallb_forall, List.Forall_forall.
  intros H x Hx. specialize (H x Hx). ints. lia.
Qed.

(** Spread [is_bytes] over the explicit elements of a list. *)
Ltac bytes_inv :=
  repeat match goal with
  | H : is_bytes (_ :: _) |- _ => apply is_bytes_cons in H as [? H]
  end.

(** [be n x]: the [n] big-endian bytes that [PutUint(8n)] stores for [x]. *)
Fixpoint be (n : nat) (x : Z) : list Z :=
  match n with
  | O => []
  | S n' => u8 (Z.shiftr x (8 * Z.of_nat n')) :: be n' x
  end.

(** [be_val bs]: the integer whose big-endian bytes are [bs]
    ([b[0]<<24 | b[1]<<16 | ...]). *)
Definition be_val (bs : list Z) : Z :=
  foldl (fun acc b => Z.lor (Z.shiftl acc 8) b) 0 bs.

Lemma pow256 n : 2 ^ (8 * Z.of_nat n) = 256 ^ Z.of_nat n.
Proof. change 256 with (2 ^ 8). by rewrite <- Z.pow_mul_r by lia. Qed.

Lemma length_be n x : length (be n x) = n.
Proof. induction n; simpl; congruence. Qed.

Lemma be_is_bytes n x : is_bytes (be n x).
Proof. induction n; simpl; constructor; auto using u8_range. Qed.

Lemma lor_shift8 a b : is_u8 b -> Z.lor (Z.shiftl a 8) b = a * 256 + b.
Proof.
  intros Hb. rewrite Z.shiftl_mul_pow2 by lia.
  pose proof (Z.add_lor_land (a * 2 ^ 8) b).
  enough (Z.land (a * 2 ^ 8) b = 0) by lia.
  apply Z.bits_inj'. intros n Hn.
  rewrite Z.land_spec, Z.bits_0.
  destruct (Z.ltb_spec n 8).
  - by rewrite Z.mul_pow2_bits_low by lia.
  - replace b with (b mod 2 ^ 8) by (apply Z.mod_small; mlia).
    rewrite (Z.mod_pow2_bits_high b 8 n) by lia. by rewrite andb_false_r.
Qed.

Lemma foldl_be_val acc bs :
  is_bytes bs ->
  foldl (fun acc b => Z.lor (Z.shiftl acc 8) b) acc bs
  = acc * 256 ^ Z.of_nat (length bs) + be_val bs.
Proof.
  intros Hbs. unfold be_val. revert acc.
  induction Hbs as [|b bs Hb Hbs IH]; intros acc; cbn [foldl length].
  - change (Z.of_nat 0) with 0. rewrite Z.pow_0_r. lia.
  - rewrite (IH (Z.lor (Z.shiftl acc 8) b)), (IH (Z.lor (Z.shiftl 0 8) b)).
    rewrite !lor_shift8 by done.
    rewrite Nat2Z.inj_succ, Z.pow_succ_r by lia. lia.
Qed.

Lemma be_val_cons b bs :
  is_u8 b -> is_bytes bs -> be_val (b :: bs) = b * 256 ^ Z.of_nat (length bs) + be_val bs.
Proof.
  intros Hb Hbs. unfold be_val at 1. cbn [foldl].
  rewrite foldl_be_val by done. by rewrite lor_shift8.
Qed.

Lemma be_val_be n x : be_val (be n x) = x mod 256 ^ Z.of_nat n.
Proof.
  induction n as [|n IH]; [by rewrite Z.mod_1_r|].
  cbn [be]. rewrite be_val_cons by auto using u8_range, be_is_bytes.
  rewrite IH, length_be, Z.shiftr_div_pow2 by lia.
  rewrite Nat2Z.inj_succ, Z.pow_succ_r by lia.
  rewrite pow256. unfold u8. rewrite (Z.mul_comm 256), Z.rem_mul_r by (try apply Z.pow_nonzero; lia).
  lia.
Qed.

Lemma be_val_range bs : is_bytes bs -> 0 <= be_val bs < 256 ^ Z.of_nat (length bs).
Proof.
  induction 1 as [|b bs Hb Hbs IH]; [done|].
  rewrite be_val_cons by done. cbn [length].
  rewrite Nat2Z.inj_succ, Z.pow_succ_r by lia. ints. nia.
Qed.

(** The bytes of a number do not depend on its higher digits. *)
Lemma be_add_high n m a y :
  (n <= m)%nat -> be n (a * 256 ^ Z.of_nat m + y) = be n y.
Proof.
  induction n as [|n IHn]; intros Hn; [done|]. cbn [be].
  f_equal; [|apply IHn; lia].
  rewrite !Z.shiftr_div_pow2, !pow256 by lia.
  replace (Z.of_nat m) with (Z.of_nat n + (1 + (Z.of_nat m - Z.of_nat n - 1))) by lia.
  rewrite !Z.pow_add_r by lia.
  set (p := 256 ^ Z.of_nat n). set (r := 256 ^ (_ - 1)).
  replace (a * (p * (256 ^ 1 * r)) + y) with (y + (a * r * 256) * p) by lia.
  rewrite Z.div_add by (subst p; apply Z.pow_nonzero; lia).
  unfold u8. by rewrite Z.mod_add by lia.
Qed.

Lemma be_be_val bs : is_bytes bs -> be (length bs) (be_val bs) = bs.
Proof.
  induction 1 as [|b bs Hb Hbs IH]; [done|].
  cbn [length be]. pose proof (be_val_range bs Hbs) as HR.
  rewrite be_val_cons by done. f_equal; [|by rewrite be_add_high].
  rewrite Z.shiftr_div_pow2, pow256, Z.div_add_l, Z.div_small by lia.
  rewrite Z.add_0_r. by apply u8_id.
Qed.

(** [binary.BigEndian.PutUintN(b[off:], v)] and [b[off] = v]: overwrite
    [length bs] bytes of [b] at [off]; panics when they do not fit. *)
Definition put {E} (b : list Z) (off : nat) (bs : list Z) : outcome E (list Z) :=
  if decide (off + length bs <= length b)%nat
  then Ret (take off b ++ bs ++ drop (off + length bs) b)
  else Panic.

Lemma put_ok {E} b off bs :
  (off + length bs <= length b)%nat ->
  @put E b off bs = Ret (take off b ++ bs ++ drop (off + length bs) b).
Proof. intros. unfold put. by rewrite decide_True. Qed.

(** Run a sequence of stores into a buffer whose elements are explicit. *)
Ltac puts := repeat (rewrite put_ok by (cbn; lia); cbn).

(** [binary.BigEndian.UintN(b[off:])]: panics when fewer than [n] bytes are
    left. *)
Definition get_be {E} (n : nat) (b : list Z) (off : nat) : outcome E Z :=
  r ← slice_from b off;
  r ← slice r 0 n;
  mret (be_val r).

Lemma get_be_ok {E} n b off :
  (off + n <= length b)%nat -> @get_be E n b off = Ret (be_val (take n (drop off b))).
Proof.
  intros. unfold get_be. rewrite slice_from_le by lia. cbn.
  rewrite slice_le by (rewrite length_drop; lia). cbn.
  by rewrite drop_0, Nat.sub_0_r.
Qed.

(** Writing over the front of a buffer, field after field. *)
Lemma put_app {E} (x y z bs : list Z) off :
  off = length x -> length bs = length y ->
  @put E (x ++ y ++ z) off bs = Ret (x ++ bs ++ z).
Proof.
  intros -> Hl. rewrite put_ok by (rewrite !length_app; lia).
  rewrite take_app_length. do 2 f_equal.
  by rewrite drop_app_add, Hl, drop_app_length.
Qed.

(** The byte buffer split at a known prefix length. *)
Lemma split_at_len {A} (n : nat) (b : list A) :
  (n <= length b)%nat -> exists x y, b = x ++ y /\ length x = n.
Proof.
  intros. exists (take n b), (drop n b).
  rewrite take_drop, length_take. split; [done|lia].
Qed.

(** Reading back a stored field, with the bytes spelled out. *)
Lemma be_val_field n x : 0 <= x < 256 ^ Z.of_nat n -> be_val (be n x) = x.
Proof. intros. rewrite be_val_be. by apply Z.mod_small. Qed.

Lemma be_val_2 x : is_u16 x -> be_val [u8 (Z.shiftr x 8); u8 (Z.shiftr x 0)] = x.
Proof. apply (be_val_field 2). Qed.
Lemma be_val_3 x :
  is_u24 x -> be_val [u8 (Z.shiftr x 16); u8 (Z.shiftr x 8); u8 (Z.shiftr x 0)] = x.
Proof. apply (be_val_field 3). Qed.
Lemma be_val_4 x :
  is_u32 x -> be_val [u8 (Z.shiftr x 24); u8 (Z.shiftr x 16); u8 (Z.shiftr x 8);
                      u8 (Z.shiftr x 0)] = x.
Proof. apply (be_val_field 4). Qed.
Lemma be_val_8 x :
  is_u64 x -> be_val [u8 (Z.shiftr x 56); u8 (Z.shiftr x 48); u8 (Z.shiftr x 40);
                      u8 (Z.shiftr x 32); u8 (Z.shiftr x 24); u8 (Z.shiftr x 16);
                      u8 (Z.shiftr x 8); u8 (Z.shiftr x 0)] = x.
Proof. apply (be_val_field 8). Qed.
#[global] Arguments be_val : simpl never.

(** Reads past a length guard never panic, and return the stored field. *)
Ltac gets := repeat (rewrite get_be_ok by (cbn; lia); cbn).
Ltac fields := rewrite ?be_val_2, ?be_val_3, ?be_val_4, ?be_val_8 by done.

(** [uint32(x)<<16 | uint32(y)<<8 | uint32(z)] is a three-byte big-endian read. *)
Lemma be_val3 x y z :
  Z.lor (Z.lor (Z.shiftl x 16) (Z.shiftl y 8)) z = be_val [x; y; z].
Proof.
  unfold be_val. cbn [foldl]. rewrite Z.shiftl_0_l, Z.lor_0_l.
  by rewrite Z.shiftl_lor, Z.shiftl_shiftl by lia.
Qed.

Lemma be_1 x : is_u8 x -> be 1 x = [x].
Proof. intros. cbn. by rewrite Z.shiftr_0_r, u8_id. Qed.

(** Destruct a list known to have at least [n] elements into its elements. *)
Ltac explode_list b n :=
  lazymatch n with
  | O => idtac
  | S ?n' =>
      let x := fresh "x" in let b' := fresh "b" in
      destruct b as [|x b']; [cbn [length] in *; lia|]; explode_list b' n'
  end.

(** ** Time (package time)

    An instant is a count of nanoseconds; a [time.Duration] is an [int64]
    of nanoseconds. *)

Definition Microsecond : Z := 1000.
Definition Millisecond : Z := 1000000.
Definition Second : Z := 1000000000.

(** [t.Sub(u)]: saturates at the limits of [time.Duration]. *)
Definition Sub (t u : Z) : Z := Z.max (- two63) (Z.min (two63 - 1) (t - u)).

Lemma Sub_small t u : is_i64 (t - u) -> Sub t u = t - u.
Proof. unfold Sub. mlia. Qed.

(** ** Actions: operations on an object that also emit effects

    An operation of an object with state [S] that calls out (a callback, a
    timer, a socket) is a function [S -> S * list E]: the new state and the
    calls made, in order. *)

Definition act (S E : Type) : Type := S -> S * list E.

Definition andThen {S E} (f g : act S E) : act S E := fun s =>
  let '(s1, e1) := f s in
  let '(s2, e2) := g s1 in
  (s2, e1 ++ e2).

Definition pureStep {S E} (f : S -> S) : act S E := fun s => (f s, []).

Notation "f ;; g" := (andThen f g) : go_scope.

Lemma andThen_eq {S E} (f g : act S E) s :
  andThen f g s = ((g (f s).1).1, (f s).2 ++ (g (f s).1).2).
Proof. unfold andThen. destruct (f s) as [s1 e1]. cbn. by destruct (g s1). Qed.

Lemma andThen_fst {S E} (f g : act S E) s : (andThen f g s).1 = (g (f s).1).1.
Proof. by rewrite andThen_eq. Qed.

Lemma andThen_snd {S E} (f g : act S E) s : (andThen f g s).2 = (f s).2 ++ (g (f s).1).2.
Proof. by rewrite andThen_eq. Qed.

(** Running a sequence, step by step. *)
Lemma andThen_inv {S E} (f g : act S E) s s2 e :
  andThen f g s = (s2, e) ->
  exists s1 e1 e2, f s = (s1, e1) /\ g s1 = (s2, e2) /\ e = e1 ++ e2.
Proof.
  unfold andThen. destruct (f s) as [s1 e1]. destruct (g s1) as [s2' e2] eqn:Hg.
  intros [= <- <-]. exists s1, e1, e2. done.
Qed.

Lemma andThen_assoc {S E} (f g h : act S E) s :
  andThen f (andThen g h) s = andThen (andThen f g) h s.
Proof.
  unfold andThen. destruct (f s) as [s1 e1]. destruct (g s1) as [s2 e2].
  destruct (h s2) as [s3 e3]. by rewrite app_assoc.
Qed.

Lemma pureStep_then {S E} (f : S -> S) (g : act S E) s : andThen (pureStep f) g s = g (f s).
Proof. unfold andThen. cbn. by destruct (g (f s)). Qed.

Lemma pureStep_eq {S E} (f : S -> S) s : @pureStep S E f s = (f s, []).
Proof. done. Qed.

(** The zero value of a Go type ([var zero T]). *)
Class GoZero (T : Type) := zero : T.
#[global] Arguments zero T {_} : assert.

(** ** Lists *)

Lemma filter_all {A} (P : A -> Prop) `{forall x, Decision (P x)} l : Forall P l -> filter P l = l.
Proof. induction 1 as [|x l Hx _ IH]; [done|]. rewrite filter_cons, decide_True by done. by rewrite IH. Qed.
