(* ===== verification/Wire.v ===== *)
(** * The datagram format: internal/wire/types.go, header.go, fec.go

    The common header, the DATA and FEC framings, their encoders (stores
    into a caller's buffer, panicking when it is too short) and their
    parsers. *)

From S2P Require Import Prelude.

(** ** types.go *)

Definition Version : Z := 1.

Definition TypeData : Z := 0.
Definition TypeProbe : Z := 1.
Definition TypeProbeAck : Z := 2.
Definition TypeCtrl : Z := 3.
Definition TypeFEC : Z := 4.
Definition TypeHello : Z := 5.
Definition TypeHelloAck : Z := 6.
Definition TypeBye : Z := 7.
Definition maxType : Z := TypeBye.

Definition FlagDup : Z := 1.
Definition FlagFECInfo : Z := 2.

Definition ClassBulk : Z := 0.
Definition ClassRealtime : Z := 1.
Definition ClassInteractive : Z := 2.

Definition HeaderSize : nat := 4.
Definition DataHeaderSize : nat := 20.
Definition DataHeaderFECSize : nat := DataHeaderSize + 4.
Definition MACSize : nat := 16.

(** ** header.go *)

Inductive wire_error := ErrShortBuffer | ErrVersion | ErrType.

#[export] Instance wire_error_eq_dec : EqDecision wire_error.
Proof. solve_decision. Defined.

Abbreviation wire A := (outcome wire_error A).

Record Header := mkHeader {
  hType : Z;
  hFlags : Z;
  hPathID : Z;
  hEpoch : Z;
}.

#[export] Instance Header_eq_dec : EqDecision Header.
Proof. solve_decision. Defined.

Definition Class (h : Header) : Z := Z.land (Z.shiftr (hFlags h) 2) 0x3.

Definition ClassFlags (class : Z) : Z := Z.land (u8 (Z.shiftl class 2)) 0x0c.

Definition PutHeader (b : list Z) (h : Header) : wire (list Z) :=
  _ ← idx b (HeaderSize - 1);
  b ← put b 0 [Z.lor (Z.shiftl Version 4) (Z.land (hType h) 0x0f)];
  b ← put b 1 [hFlags h];
  b ← put b 2 [hPathID h];
  put b 3 [hEpoch h].

Definition ParseHeader (b : list Z) : wire Header :=
  if decide (length b < HeaderSize)%nat then Err ErrShortBuffer else
  b0 ← idx b 0;
  if negb (Z.shiftr b0 4 =? Version) then Err ErrVersion else
  b1 ← idx b 1;
  b2 ← idx b 2;
  b3 ← idx b 3;
  let h := mkHeader (Z.land b0 0x0f) b1 b2 b3 in
  if maxType <? hType h then Err ErrType else
  Ret h.

Record DataHeader := mkDataHeader {
  dHeader : Header;
  dSession : Z;
  dGlobalSeq : Z;
  dPathSeq : Z;
  dTxTS : Z;
  dFECGroup : Z;
  dFECIndex : Z;
}.

#[export] Instance DataHeader_eq_dec : EqDecision DataHeader.
Proof. solve_decision. Defined.

(** [d.Flags&FlagFECInfo != 0] *)
Definition hasFEC (h : Header) : bool := negb (Z.land (hFlags h) FlagFECInfo =? 0).

Definition Len (d : DataHeader) : nat :=
  if hasFEC (dHeader d) then DataHeaderFECSize else DataHeaderSize.

Definition PutDataHeader (b : list Z) (d : DataHeader) : wire (list Z * nat) :=
  let n := Len d in
  _ ← idx b (n - 1);
  b ← PutHeader b (dHeader d);
  b ← put b 4 (be 4 (dSession d));
  b ← put b 8 (be 4 (dGlobalSeq d));
  b ← put b 12 (be 4 (dPathSeq d));
  b ← put b 16 (be 4 (dTxTS d));
  if hasFEC (dHeader d) then
    b ← put b 20 [u8 (Z.shiftr (dFECGroup d) 16)];
    b ← put b 21 [u8 (Z.shiftr (dFECGroup d) 8)];
    b ← put b 22 [u8 (dFECGroup d)];
    b ← put b 23 [dFECIndex d];
    Ret (b, n)
  else Ret (b, n).

Definition ParseDataHeader (b : list Z) : wire (DataHeader * list Z) :=
  h ← ParseHeader b;
  if negb (hType h =? TypeData) then Err ErrType else
  let d := mkDataHeader h 0 0 0 0 0 0 in
  if decide (length b < Len d)%nat then Err ErrShortBuffer else
  session ← get_be 4 b 4;
  globalSeq ← get_be 4 b 8;
  pathSeq ← get_be 4 b 12;
  txTS ← get_be 4 b 16;
  if hasFEC h then
    b20 ← idx b 20;
    b21 ← idx b 21;
    b22 ← idx b 22;
    b23 ← idx b 23;
    rest ← slice_from b DataHeaderFECSize;
    Ret (mkDataHeader h session globalSeq pathSeq txTS
           (Z.lor (Z.lor (Z.shiftl b20 16) (Z.shiftl b21 8)) b22) b23, rest)
  else
    rest ← slice_from b DataHeaderSize;
    Ret (mkDataHeader h session globalSeq pathSeq txTS 0 0, rest).

(** ** fec.go *)

Definition FECHeaderSize : nat := 16.

Record FECHeader := mkFECHeader {
  fHeader : Header;
  fSession : Z;
  fGroup : Z;
  fIndex : Z;
  fK : Z;
  fM : Z;
  fShardLen : Z;
}.

Definition PutFECHeader (b : list Z) (f : FECHeader) : wire (list Z * nat) :=
  _ ← idx b (FECHeaderSize - 1);
  let h := fHeader f in
  b ← PutHeader b (mkHeader TypeFEC (hFlags h) (hPathID h) (hEpoch h));
  b ← put b 4 (be 4 (fSession f));
  b ← put b 8 [u8 (Z.shiftr (fGroup f) 16)];
  b ← put b 9 [u8 (Z.shiftr (fGroup f) 8)];
  b ← put b 10 [u8 (fGroup f)];
  b ← put b 11 [fIndex f];
  b ← put b 12 [fK f];
  b ← put b 13 [fM f];
  b ← put b 14 (be 2 (fShardLen f));
  Ret (b, FECHeaderSize).

Definition ParseFEC (b : list Z) : wire (FECHeader * list Z) :=
  h ← ParseHeader b;
  if negb (hType h =? TypeFEC) then Err ErrType else
  if decide (length b < FECHeaderSize)%nat then Err ErrShortBuffer else
  session ← get_be 4 b 4;
  b8 ← idx b 8;
  b9 ← idx b 9;
  b10 ← idx b 10;
  index ← idx b 11;
  k ← idx b 12;
  m ← idx b 13;
  shardLen ← get_be 2 b 14;
  let f := mkFECHeader h session
             (Z.lor (Z.lor (Z.shiftl b8 16) (Z.shiftl b9 8)) b10) index k m shardLen in
  if negb (shardLen =? Z.of_nat (length b) - Z.of_nat FECHeaderSize)
  then Err ErrShortBuffer else
  rest ← slice_from b FECHeaderSize;
  Ret (f, rest).

(** ** The encodings, as byte strings *)

Definition header_bytes (h : Header) : list Z :=
  [Z.lor (Z.shiftl Version 4) (Z.land (hType h) 0x0f); hFlags h; hPathID h; hEpoch h].

Definition data_bytes (d : DataHeader) : list Z :=
  header_bytes (dHeader d) ++ be 4 (dSession d) ++ be 4 (dGlobalSeq d)
  ++ be 4 (dPathSeq d) ++ be 4 (dTxTS d)
  ++ (if hasFEC (dHeader d) then be 3 (dFECGroup d) ++ [dFECIndex d] else []).

Definition fec_bytes (f : FECHeader) : list Z :=
  header_bytes (fHeader f) ++ be 4 (fSession f) ++ be 3 (fGroup f)
  ++ [fIndex f; fK f; fM f] ++ be 2 (fShardLen f).

#[global] Arguments data_bytes : simpl never.
#[global] Arguments fec_bytes : simpl never.

(** The values the Go types allow; a header decoded from the wire has a
    known type and, without [FlagFECInfo], zero FEC fields. *)
Definition wf_header (h : Header) : Prop :=
  0 <= hType h <= maxType /\ is_u8 (hFlags h) /\ is_u8 (hPathID h) /\ is_u8 (hEpoch h).

Definition wf_data (d : DataHeader) : Prop :=
  wf_header (dHeader d) /\ hType (dHeader d) = TypeData /\
  is_u32 (dSession d) /\ is_u32 (dGlobalSeq d) /\ is_u32 (dPathSeq d) /\
  is_u32 (dTxTS d) /\ is_u24 (dFECGroup d) /\ is_u8 (dFECIndex d) /\
  (hasFEC (dHeader d) = false -> dFECGroup d = 0 /\ dFECIndex d = 0).

Definition wf_fec (f : FECHeader) : Prop :=
  wf_header (fHeader f) /\ hType (fHeader f) = TypeFEC /\
  is_u32 (fSession f) /\ is_u24 (fGroup f) /\ is_u8 (fIndex f) /\ is_u8 (fK f) /\
  is_u8 (fM f) /\ is_u16 (fShardLen f).

Ltac sizes :=
  unfold DataHeaderFECSize, DataHeaderSize, FECHeaderSize, HeaderSize, MACSize in *.

(** *** The first byte *)

Lemma type_byte t :
  0 <= t <= maxType ->
  is_u8 (Z.lor (Z.shiftl Version 4) (Z.land t 0x0f)) /\
  Z.shiftr (Z.lor (Z.shiftl Version 4) (Z.land t 0x0f)) 4 = Version /\
  Z.land (Z.lor (Z.shiftl Version 4) (Z.land t 0x0f)) 0x0f = t.
Proof.
  intros Ht. unfold maxType, TypeBye in Ht.
  assert (t = 0 \/ t = 1 \/ t = 2 \/ t = 3 \/ t = 4 \/ t = 5 \/ t = 6 \/ t = 7) as Hc by lia.
  repeat destruct Hc as [->|Hc]; try subst t; by vm_compute.
Qed.

Lemma type_byte_inv b0 :
  is_u8 b0 -> Z.shiftr b0 4 = Version ->
  Z.lor (Z.shiftl Version 4) (Z.land (Z.land b0 0x0f) 0x0f) = b0.
Proof.
  intros Hb Hv. rewrite Z.shiftr_div_pow2 in Hv by lia. change (2 ^ 4) with 16 in Hv.
  unfold Version in Hv. rewrite <- Z.land_assoc. change (Z.land 15 15) with (Z.ones 4).
  rewrite Z.land_ones by lia. change (2 ^ 4) with 16.
  assert (b0 = 16 + b0 mod 16) as Heq by lia.
  assert (0 <= b0 mod 16 < 16) as Hr by lia.
  remember (b0 mod 16) as r eqn:Er. rewrite Heq. clear - Hr.
  assert (Hlow : Z.land 16 r = 0).
  { replace r with (r mod 2 ^ 4) by (apply Z.mod_small; lia).
    rewrite <- Z.land_ones, (Z.land_comm r), Z.land_assoc by lia. done. }
  pose proof (Z.add_lor_land (Z.shiftl Version 4) r) as Ha.
  change (Z.shiftl Version 4) with 16 in *. lia.
Qed.

(** *** Encoders *)

Lemma PutHeader_ok b h :
  (4 <= length b)%nat -> PutHeader b h = Ret (header_bytes h ++ drop 4 b).
Proof.
  intros Hb. explode_list b 4%nat. unfold PutHeader, header_bytes.
  cbn. puts. done.
Qed.

Lemma PutDataHeader_ok b d :
  (Len d <= length b)%nat ->
  PutDataHeader b d = Ret (data_bytes d ++ drop (Len d) b, Len d).
Proof.
  unfold PutDataHeader, data_bytes, Len. destruct (hasFEC (dHeader d)); intros Hb;
    sizes.
  - explode_list b 24%nat. cbn -[PutHeader be header_bytes].
    rewrite PutHeader_ok by (cbn; lia). cbn. puts.
    by rewrite !Z.shiftr_0_r.
  - explode_list b 20%nat. cbn -[PutHeader be header_bytes].
    rewrite PutHeader_ok by (cbn; lia). cbn. puts. done.
Qed.

Lemma PutFECHeader_ok b f :
  (FECHeaderSize <= length b)%nat -> hType (fHeader f) = TypeFEC ->
  PutFECHeader b f = Ret (fec_bytes f ++ drop FECHeaderSize b, FECHeaderSize).
Proof.
  intros Hb Ht. unfold FECHeaderSize in *. explode_list b 16%nat.
  unfold PutFECHeader, fec_bytes. cbn -[PutHeader be header_bytes].
  rewrite PutHeader_ok by (cbn; lia). cbn. puts.
  unfold header_bytes. by rewrite Ht, !Z.shiftr_0_r.
Qed.

(** [PutFECHeader] stores the FEC type whatever the header says. *)
Definition as_fec (f : FECHeader) : FECHeader :=
  let h := fHeader f in
  mkFECHeader (mkHeader TypeFEC (hFlags h) (hPathID h) (hEpoch h)) (fSession f) (fGroup f)
    (fIndex f) (fK f) (fM f) (fShardLen f).

Lemma PutFECHeader_as b f :
  (FECHeaderSize <= length b)%nat ->
  PutFECHeader b f = Ret (fec_bytes (as_fec f) ++ drop FECHeaderSize b, FECHeaderSize).
Proof. intros. by rewrite <- PutFECHeader_ok. Qed.

Lemma length_data_bytes d : length (data_bytes d) = Len d.
Proof. unfold data_bytes, Len. by destruct (hasFEC (dHeader d)). Qed.

Lemma length_fec_bytes f : length (fec_bytes f) = FECHeaderSize.
Proof. done. Qed.

(** *** Parsers *)

Lemma ParseHeader_typed h rest :
  0 <= hType h <= maxType -> ParseHeader (header_bytes h ++ rest) = Ret h.
Proof.
  intros Ht. destruct (type_byte _ Ht) as (_ & Hv & Hl).
  unfold ParseHeader, header_bytes. cbn -[Z.lor].
  rewrite Hv, Hl. change (Version =? Version) with true. cbn.
  destruct (Z.ltb_spec maxType (hType h)); [lia|]. by destruct h.
Qed.

Lemma ParseHeader_bytes h rest :
  wf_header h -> ParseHeader (header_bytes h ++ rest) = Ret h.
Proof. intros [Ht _]. by apply ParseHeader_typed. Qed.

(** The DATA parser refuses a FEC datagram. *)
Lemma ParseDataHeader_fec f shard :
  hType (fHeader f) = TypeFEC -> ParseDataHeader (fec_bytes f ++ shard) = Err ErrType.
Proof.
  intros Ht. unfold ParseDataHeader, fec_bytes. rewrite <- app_assoc, ParseHeader_typed.
  - cbn [mbind outcome_bind]. by rewrite Ht.
  - rewrite Ht. by vm_compute.
Qed.

Lemma ParseHeader_inv b h :
  is_bytes b -> ParseHeader b = Ret h ->
  wf_header h /\ exists rest, b = header_bytes h ++ rest.
Proof.
  intros Hb. unfold ParseHeader, HeaderSize. case_decide as Hlen; [done|].
  explode_list b 4%nat. cbn.
  bytes_inv.
  destruct (Z.eqb_spec (Z.shiftr x 4) Version) as [Hv|]; [|done]. cbn.
  destruct (Z.ltb_spec maxType (Z.land x 15)); [done|].
  intros [= <-]. unfold wf_header, header_bytes. cbn -[Z.lor].
  split; [|eexists; rewrite type_byte_inv by done; reflexivity].
  split_and!; try done. apply Z.land_nonneg. lia.
Qed.

Lemma ParseDataHeader_bytes d payload :
  wf_data d -> ParseDataHeader (data_bytes d ++ payload) = Ret (d, payload).
Proof.
  intros (Hh & Ht & Hs & Hg & Hp & Hx & Hfg & Hfi & Hno).
  unfold ParseDataHeader, data_bytes. rewrite <- !app_assoc, ParseHeader_bytes by done.
  destruct d as [h s g p t fg fi]; cbn -[be header_bytes] in *.
  rewrite Ht. change (TypeData =? TypeData) with true. unfold Len. sizes.
  cbn -[be header_bytes].
  destruct (hasFEC h).
  - cbn. gets. rewrite be_val3. fields. rewrite slice_from_le by (cbn; lia). done.
  - destruct Hno as [-> ->]; [done|].
    cbn. gets. fields. rewrite slice_from_le by (cbn; lia). done.
Qed.

(** A field read from the wire is in range, and re-encodes to its bytes. *)
Lemma field_range n bs :
  length bs = n -> is_bytes bs -> 0 <= be_val bs < 256 ^ Z.of_nat n.
Proof. intros <-. apply be_val_range. Qed.

Lemma field_bytes n bs : length bs = n -> is_bytes bs -> be n (be_val bs) = bs.
Proof. intros <-. apply be_be_val. Qed.

Ltac solve_bytes :=
  unfold is_bytes; repeat first [apply List.Forall_nil | apply List.Forall_cons; [done|]].
Ltac refields :=
  split_and!; try done;
  try (apply (field_range 4)||apply (field_range 3)||apply (field_range 2);
       [done|solve_bytes]).
Ltac rebytes := rewrite !field_bytes by (first [done | solve_bytes]); rewrite ?drop_0.

Lemma data_bytes_mk h s g p t fg fi :
  data_bytes (mkDataHeader h s g p t fg fi) =
  header_bytes h ++ be 4 s ++ be 4 g ++ be 4 p ++ be 4 t
  ++ (if hasFEC h then be 3 fg ++ [fi] else []).
Proof. done. Qed.

Lemma ParseDataHeader_inv b d payload :
  is_bytes b -> ParseDataHeader b = Ret (d, payload) ->
  wf_data d /\ b = data_bytes d ++ payload.
Proof.
  intros Hb. unfold ParseDataHeader.
  destruct (ParseHeader b) as [h| |] eqn:Hp; [|done|done].
  destruct (ParseHeader_inv _ _ Hb Hp) as [Hh [rest ->]]. clear Hp.
  cbn -[header_bytes]. destruct (Z.eqb_spec (hType h) TypeData) as [Ht|]; [|done].
  unfold Len. cbn -[header_bytes]. apply Forall_app in Hb as [_ Hb]. fold (is_bytes rest) in Hb.
  change (length (header_bytes h ++ rest)) with (4 + length rest)%nat.
  sizes. destruct (hasFEC h) eqn:HF; (case_decide as Hlen; [done|]).
  - explode_list rest 20%nat. bytes_inv.
    cbn. gets. rewrite slice_from_le by (cbn; lia). cbn. intros [= <- <-].
    rewrite be_val3. split.
    + unfold wf_data. cbn. rewrite HF. refields.
    + rewrite data_bytes_mk, HF. rebytes. done.
  - explode_list rest 16%nat. bytes_inv.
    cbn. gets. rewrite slice_from_le by (cbn; lia). cbn. intros [= <- <-].
    rewrite take_0. split.
    + unfold wf_data. cbn. rewrite HF. refields.
    + rewrite data_bytes_mk, HF. rebytes. done.
Qed.

Lemma ParseFEC_bytes f shard :
  wf_fec f -> fShardLen f = Z.of_nat (length shard) ->
  ParseFEC (fec_bytes f ++ shard) = Ret (f, shard).
Proof.
  intros (Hh & Ht & Hs & Hg & Hi & Hk & Hm & Hl) Hlen.
  unfold ParseFEC, fec_bytes. rewrite <- !app_assoc, ParseHeader_bytes by done.
  destruct f as [h s g i k m l]; cbn -[be header_bytes] in *.
  rewrite Ht. change (TypeFEC =? TypeFEC) with true. sizes. cbn.
  gets. rewrite be_val3. fields.
  rewrite (proj2 (Z.eqb_eq _ _)) by lia. cbn.
  rewrite slice_from_le by (cbn; lia). done.
Qed.

Lemma ParseFEC_inv b f shard :
  is_bytes b -> ParseFEC b = Ret (f, shard) ->
  wf_fec f /\ fShardLen f = Z.of_nat (length shard) /\ b = fec_bytes f ++ shard.
Proof.
  intros Hb. unfold ParseFEC.
  destruct (ParseHeader b) as [h| |] eqn:Hp; [|done|done].
  destruct (ParseHeader_inv _ _ Hb Hp) as [Hh [rest ->]]. clear Hp.
  cbn -[header_bytes]. destruct (Z.eqb_spec (hType h) TypeFEC) as [Ht|]; [|done].
  apply Forall_app in Hb as [_ Hb]. fold (is_bytes rest) in Hb.
  change (length (header_bytes h ++ rest)) with (4 + length rest)%nat.
  sizes. cbn [negb]. case_decide as Hlen; [done|]. explode_list rest 12%nat. bytes_inv.
  cbn. gets. case_match eqn:Hsl; [done|]. rewrite slice_from_le by (cbn; lia).
  cbn. intros [= <- <-]. apply negb_false_iff, Z.eqb_eq in Hsl.
  rewrite be_val3, drop_0 in *. rewrite take_0 in *. split_and!.
  - unfold wf_fec. cbn. refields.
  - cbn. lia.
  - unfold fec_bytes.
    cbn [fHeader fSession fGroup fIndex fK fM fShardLen]. rebytes. done.
Qed.

(** *** No panic on arbitrary input *)

Lemma ParseHeader_no_panic b : ParseHeader b <> Panic.
Proof.
  unfold ParseHeader, HeaderSize. case_decide as Hlen; [done|].
  explode_list b 4%nat. cbn. by repeat case_match.
Qed.

Lemma ParseHeader_len b h : ParseHeader b = Ret h -> (4 <= length b)%nat.
Proof. unfold ParseHeader, HeaderSize. case_decide as Hlen; [done|lia]. Qed.

Lemma ParseDataHeader_no_panic b : ParseDataHeader b <> Panic.
Proof.
  unfold ParseDataHeader, Len. destruct (ParseHeader b) as [h| |] eqn:Hp;
    [cbn|done|by destruct (ParseHeader_no_panic b)].
  sizes. destruct (hType h =? TypeData); [cbn|done].
  destruct (hasFEC h); (case_decide; [done|]).
  - explode_list b 24%nat. cbn. gets. by rewrite slice_from_le by (cbn; lia).
  - explode_list b 20%nat. cbn. gets. by rewrite slice_from_le by (cbn; lia).
Qed.

Lemma ParseFEC_no_panic b : ParseFEC b <> Panic.
Proof.
  unfold ParseFEC. destruct (ParseHeader b) as [h| |] eqn:Hp;
    [cbn|done|by destruct (ParseHeader_no_panic b)].
  sizes. destruct (hType h =? TypeFEC); [cbn|done].
  case_decide; [done|]. explode_list b 16%nat. cbn. gets.
  case_match; [done|]. by rewrite slice_from_le by (cbn; lia).
Qed.

(** ** Properties *)

(** C33: the DATA parser accepts exactly the encodings: on a byte string it
    returns header [d] and payload [p] if and only if [d] is a well-formed
    DATA header and the string is [d]'s encoding followed by [p]. *)
Theorem ParseDataHeader_iff b d p :
  is_bytes b ->
  ParseDataHeader b = Ret (d, p) <-> wf_data d /\ b = data_bytes d ++ p.
Proof.
  intros Hb. split; [by apply ParseDataHeader_inv|].
  intros [Hd ->]. by apply ParseDataHeader_bytes.
Qed.

Definition sample_data : DataHeader :=
  mkDataHeader (mkHeader 0 2 3 0) 0xdeadbeef 77 1000 4294967295 0x010203 9.

Lemma ParseDataHeader_iff_witness :
  exists b, is_bytes b /\
    (ParseDataHeader b = Ret (sample_data, [7; 8]) <->
     wf_data sample_data /\ b = data_bytes sample_data ++ [7; 8]).
Proof.
  exists (data_bytes sample_data ++ [7; 8]).
  assert (Hb : is_bytes (data_bytes sample_data ++ [7; 8]))
    by by apply is_bytesb_spec.
  exact (conj Hb (ParseDataHeader_iff _ sample_data [7; 8] Hb)).
Defined.

(** framing round trip of the sender: [PutDataHeader] into a slab that
    is long enough succeeds, reports [Len d] bytes, leaves the bytes behind
    the header alone, and the datagram [slab[:n] ++ ct] parses back to the
    same header and ciphertext. *)
Theorem PutDataHeader_roundtrip slab d ct :
  wf_data d -> (Len d <= length slab)%nat ->
  exists slab', PutDataHeader slab d = Ret (slab', Len d) /\
    drop (Len d) slab' = drop (Len d) slab /\
    ParseDataHeader (take (Len d) slab' ++ ct) = Ret (d, ct).
Proof.
  intros Hd Hl. assert (Hlen : length (data_bytes d) = Len d)
    by (unfold data_bytes, Len; by destruct (hasFEC _)).
  exists (data_bytes d ++ drop (Len d) slab).
  rewrite PutDataHeader_ok, <- Hlen, take_app_length, drop_app_length by done.
  split_and!; [done..|]. by apply ParseDataHeader_bytes.
Qed.

Lemma PutDataHeader_roundtrip_witness :
  exists slab', PutDataHeader (replicate 30 0) sample_data = Ret (slab', Len sample_data) /\
    drop (Len sample_data) slab' = drop (Len sample_data) (replicate 30 0) /\
    ParseDataHeader (take (Len sample_data) slab' ++ [1; 2]) = Ret (sample_data, [1; 2]).
Proof.
  apply (PutDataHeader_roundtrip (replicate 30 0) sample_data [1; 2]).
  - vm_compute. repeat split; intros; discriminate.
  - vm_compute. lia.
Defined.

(** the FEC parser accepts exactly the encodings whose shard length
    field equals the number of bytes that follow. *)
Theorem ParseFEC_iff b f shard :
  is_bytes b ->
  ParseFEC b = Ret (f, shard) <->
  wf_fec f /\ fShardLen f = Z.of_nat (length shard) /\ b = fec_bytes f ++ shard.
Proof.
  intros Hb. split; [by apply ParseFEC_inv|].
  intros (Hf & Hl & ->). by apply ParseFEC_bytes.
Qed.

Definition sample_fec : FECHeader :=
  mkFECHeader (mkHeader 4 0 1 0) 5 0xabcdef 10 10 2 3.

Lemma ParseFEC_iff_witness :
  is_bytes (fec_bytes sample_fec ++ [1; 2; 3]) /\
  (ParseFEC (fec_bytes sample_fec ++ [1; 2; 3]) = Ret (sample_fec, [1; 2; 3]) <->
   wf_fec sample_fec /\ fShardLen sample_fec = Z.of_nat (length [1; 2; 3]) /\
   fec_bytes sample_fec ++ [1; 2; 3] = fec_bytes sample_fec ++ [1; 2; 3]).
Proof.
  assert (Hb : is_bytes (fec_bytes sample_fec ++ [1; 2; 3]))
    by by apply is_bytesb_spec.
  exact (conj Hb (ParseFEC_iff _ sample_fec [1; 2; 3] Hb)).
Defined.

(** no datagram, however malformed, makes a data-plane parser panic. *)
Theorem parsers_never_panic b :
  ParseHeader b <> Panic /\ ParseDataHeader b <> Panic /\ ParseFEC b <> Panic.
Proof.
  split_and!; auto using ParseHeader_no_panic, ParseDataHeader_no_panic, ParseFEC_no_panic.
Qed.
