(* ===== verification/Reorder.v ===== *)
(** * The resequencing buffer: internal/reorder/buffer.go

    Definitions only: the ring of slots, its operations and the effects they
    have (the [deliver] and [drop] callbacks, the gap timer). The theory is
    in [ReorderInv] and [ReorderTrace]. *)

From S2P Require Import Prelude.
#[local] Open Scope go_scope.

Definition Size : Z := 8192.
Definition DefaultHold : Z := 75 * Millisecond.
Definition resetThreshold : Z := 16.

(** [Depth] is filled in by [Snapshot] only. *)
Record Stats := mkStats {
  Delivered : Z;
  Duplicates : Z;
  Late : Z;
  TimedOut : Z;
  Overflows : Z;
  Resets : Z;
  Depth : Z;
}.

Section Buffer.
Context {T : Type} `{GoZero T}.

Record slot := mkSlot {
  s_occupied : bool;
  s_seq : Z;
  s_arrival : Z;
  s_val : T;
}.

Definition zero_slot : slot := mkSlot false 0 0 (zero T).

(** The ring [slots [Size]slot[T]] is a finite map on the indices [0, Size)
    whose absent entries are still the zero slot; [timer] says whether
    [b.timer] is non-nil. *)
Record Buffer := mkBuffer {
  slots : gmap Z slot;
  started : bool;
  nextExpected : Z;
  occupied : Z;
  hold : Z;
  farLate : Z;
  timer : bool;
  stats : Stats;
}.

(** The calls the buffer makes: [deliver(v, late)], [drop(v)],
    [time.AfterFunc(d, b.onTimer)] and [b.timer.Stop()]. *)
Inductive event :=
  | Deliver (v : T) (late : bool)
  | Drop (v : T)
  | AfterFunc (d : Z)
  | StopTimer.

Definition slot_at (b : Buffer) (i : Z) : slot := default zero_slot (slots b !! i).

Definition with_slot (i : Z) (s : slot) (b : Buffer) : Buffer :=
  mkBuffer (<[i := s]> (slots b)) (started b) (nextExpected b) (occupied b) (hold b)
    (farLate b) (timer b) (stats b).
Definition with_started (x : bool) (b : Buffer) : Buffer :=
  mkBuffer (slots b) x (nextExpected b) (occupied b) (hold b) (farLate b) (timer b) (stats b).
Definition with_next (x : Z) (b : Buffer) : Buffer :=
  mkBuffer (slots b) (started b) x (occupied b) (hold b) (farLate b) (timer b) (stats b).
Definition with_occupied (x : Z) (b : Buffer) : Buffer :=
  mkBuffer (slots b) (started b) (nextExpected b) x (hold b) (farLate b) (timer b) (stats b).
Definition with_hold (x : Z) (b : Buffer) : Buffer :=
  mkBuffer (slots b) (started b) (nextExpected b) (occupied b) x (farLate b) (timer b) (stats b).
Definition with_farLate (x : Z) (b : Buffer) : Buffer :=
  mkBuffer (slots b) (started b) (nextExpected b) (occupied b) (hold b) x (timer b) (stats b).
Definition with_timer (x : bool) (b : Buffer) : Buffer :=
  mkBuffer (slots b) (started b) (nextExpected b) (occupied b) (hold b) (farLate b) x (stats b).
Definition with_stats (f : Stats -> Stats) (b : Buffer) : Buffer :=
  mkBuffer (slots b) (started b) (nextExpected b) (occupied b) (hold b) (farLate b) (timer b)
    (f (stats b)).

Definition inc_delivered (s : Stats) : Stats :=
  mkStats (u64 (Delivered s + 1)) (Duplicates s) (Late s) (TimedOut s) (Overflows s) (Resets s) (Depth s).
Definition inc_duplicates (s : Stats) : Stats :=
  mkStats (Delivered s) (u64 (Duplicates s + 1)) (Late s) (TimedOut s) (Overflows s) (Resets s) (Depth s).
Definition inc_late (s : Stats) : Stats :=
  mkStats (Delivered s) (Duplicates s) (u64 (Late s + 1)) (TimedOut s) (Overflows s) (Resets s) (Depth s).
Definition inc_timedOut (s : Stats) : Stats :=
  mkStats (Delivered s) (Duplicates s) (Late s) (u64 (TimedOut s + 1)) (Overflows s) (Resets s) (Depth s).
Definition inc_overflows (s : Stats) : Stats :=
  mkStats (Delivered s) (Duplicates s) (Late s) (TimedOut s) (u64 (Overflows s + 1)) (Resets s) (Depth s).
Definition inc_resets (s : Stats) : Stats :=
  mkStats (Delivered s) (Duplicates s) (Late s) (TimedOut s) (Overflows s) (u64 (Resets s + 1)) (Depth s).

Definition New : Buffer :=
  mkBuffer ∅ false 0 0 DefaultHold 0 false (mkStats 0 0 0 0 0 0 0).

Definition SetHold (d : Z) (b : Buffer) : Buffer :=
  let d := if d <? 2 * Millisecond then 2 * Millisecond else d in
  let d := if 250 * Millisecond <? d then 250 * Millisecond else d in
  with_hold d b.

Definition Snapshot (b : Buffer) : Stats :=
  let s := stats b in
  mkStats (Delivered s) (Duplicates s) (Late s) (TimedOut s) (Overflows s) (Resets s) (occupied b).

(** [insertLocked]: [now] is the reading of [b.now()]. *)
Definition insertLocked (now seq : Z) (val : T) : act Buffer event := fun b =>
  let s := slot_at b (seq mod Size) in
  if s_occupied s then
    (with_stats inc_duplicates b, [Drop val])
  else
    (with_occupied (occupied b + 1) (with_slot (seq mod Size) (mkSlot true seq now val) b), []).

(** Deliver the occupied slot [s] at index [i] and free it: the body shared
    by the loops of [drainLocked] and [flushLocked]. *)
Definition release (i : Z) (s : slot) : act Buffer event := fun b =>
  (with_occupied (occupied b - 1)
     (with_slot i (mkSlot false (s_seq s) (s_arrival s) (zero T))
        (with_stats inc_delivered b)),
   [Deliver (s_val s) false]).

(** One iteration of [drainLocked]'s loop fires when the slot at
    [nextExpected] holds exactly that sequence number. *)
Definition head_ready (b : Buffer) : bool :=
  let s := slot_at b (nextExpected b mod Size) in
  s_occupied s && (s_seq s =? nextExpected b).

Fixpoint drain_loop (fuel : nat) : act Buffer event := fun b =>
  match fuel with
  | O => (b, [])
  | S fuel =>
      if head_ready b then
        let i := nextExpected b mod Size in
        (release i (slot_at b i)
         ;; pureStep (fun b => with_next (u32 (nextExpected b + 1)) b)
         ;; drain_loop fuel) b
      else (b, [])
  end.

(** Every iteration frees one of the [Size] slots, so [Size] iterations
    reach the loop's exit (lemma [drainLocked_done]). *)
Definition drainLocked : act Buffer event := drain_loop (Z.to_nat Size).

Fixpoint flush_loop (n : nat) (i : Z) : act Buffer event := fun b =>
  match n with
  | O => (b, [])
  | S n =>
      if 0 <? occupied b then
        let j := u32 (nextExpected b + i) mod Size in
        let s := slot_at b j in
        if s_occupied s then (release j s ;; flush_loop n (i + 1)) b
        else flush_loop n (i + 1) b
      else (b, [])
  end.

Definition flushLocked : act Buffer event := flush_loop (Z.to_nat Size) 0.

Definition resetLocked (seq : Z) : act Buffer event :=
  flushLocked
  ;; pureStep (fun b => with_stats inc_resets (with_farLate 0 (with_next seq b))).

Definition armTimerLocked : act Buffer event := fun b =>
  if (occupied b =? 0) || timer b then (b, [])
  else (with_timer true b, [AfterFunc (hold b)]).

(** The far-out-of-window branches of [Push], behind and ahead. *)
Definition pushFar (now seq : Z) (val : T) : act Buffer event := fun b =>
  let b := with_farLate (farLate b + 1) b in
  if resetThreshold <=? farLate b then
    (resetLocked seq ;; insertLocked now seq val ;; drainLocked) b
  else (with_stats inc_late b, [Drop val]).

(** The code after [Push]'s switch. *)
Definition pushWindow (now seq : Z) (val : T) : act Buffer event :=
  pureStep (with_farLate 0)
  ;; insertLocked now seq val
  ;; drainLocked
  ;; armTimerLocked.

Definition Push (now seq : Z) (val : T) : act Buffer event := fun b =>
  let b := if started b then b else with_next seq (with_started true b) in
  let diff := i32 (seq - nextExpected b) in
  if diff <? 0 then
    if diff <? - Size then pushFar now seq val b
    else (with_stats inc_late b, [Deliver val true])
  else if Size <=? diff then
    if 4 * Size <? diff then pushFar now seq val b
    else
      (pureStep (with_stats inc_overflows)
       ;; flushLocked
       ;; pureStep (with_next seq)
       ;; pushWindow now seq val) b
  else pushWindow now seq val b.

(** The inner loop of [expireLocked]: the first occupied slot at or after
    the release point. *)
Fixpoint find_first (n : nat) (i : Z) (b : Buffer) : option slot :=
  match n with
  | O => None
  | S n =>
      let s := slot_at b (u32 (nextExpected b + i) mod Size) in
      if s_occupied s then Some s else find_first n (i + 1) b
  end.

Fixpoint expire_loop (fuel : nat) (now : Z) : act Buffer event := fun b =>
  match fuel with
  | O => (b, [])
  | S fuel =>
      if 0 <? occupied b then
        match find_first (Z.to_nat Size) 0 b with
        | None => (b, [])
        | Some first =>
            if Sub now (s_arrival first) <? hold b then (b, [])
            else
              (pureStep (fun b => with_next (s_seq first) (with_stats inc_timedOut b))
               ;; drainLocked
               ;; expire_loop fuel now) b
        end
      else (b, [])
  end.

(** Every iteration drains at least the packet it found (lemma
    [expireLocked_spec]). *)
Definition expireLocked (now : Z) : act Buffer event := expire_loop (Z.to_nat Size) now.

Definition onTimer (now : Z) : act Buffer event :=
  pureStep (with_timer false)
  ;; expireLocked now
  ;; (fun b => if 0 <? occupied b then (with_timer true b, [AfterFunc (hold b)]) else (b, [])).

Definition Tick (now : Z) : act Buffer event := expireLocked now.

Definition Close : act Buffer event :=
  (fun b => if timer b then (with_timer false b, [StopTimer]) else (b, []))
  ;; flushLocked.

End Buffer.

#[global] Arguments slot : clear implicits.
#[global] Arguments Buffer : clear implicits.
#[global] Arguments event : clear implicits.

(** Unfold the named operations before their loops when comparing terms. *)
#[global] Strategy 100 [drain_loop flush_loop expire_loop find_first Z.to_nat].
