(* ===== verification/ReorderInv.v ===== *)
(** * The resequencing buffer: invariant and effect of each operation

    The ring invariant, and for every operation of [Reorder] the packets it
    lets out (conservation), where they sit in the sequence space (order)
    and what it leaves unchanged. *)

From stdpp Require Import sorting.
From S2P Require Import Prelude Reorder.
#[local] Open Scope go_scope.

#[global] Opaque Size.

Lemma Size_eq : Size = 8192.
Proof. done. Qed.

(** ** Paths in the unwrapped sequence space

    [path lo ps hi]: from the last released position [lo], the positions
    [ps] are released in strictly increasing order, skipping at most
    [4 * Size] numbers at a time, and [hi] is the last one. *)

Fixpoint path (lo : Z) (ps : list Z) (hi : Z) : Prop :=
  match ps with
  | [] => lo = hi
  | p :: ps => lo < p <= lo + (4 * Size + 1) /\ path p ps hi
  end.

Lemma path_app lo ps mid qs hi :
  path lo ps mid -> path mid qs hi -> path lo (ps ++ qs) hi.
Proof. revert lo. induction ps as [|p ps IH]; cbn; [by intros ? ->|].
  intros lo [? ?] ?. eauto.
Qed.

Lemma path_shift c lo ps hi :
  path lo ps hi -> path (lo + c) (Z.add c <$> ps) (hi + c).
Proof.
  revert lo. induction ps as [|p ps IH]; cbn; [by intros ? ->|].
  intros lo [Hp Hps]. split; [lia|]. rewrite (Z.add_comm c p). by apply IH.
Qed.

Lemma path_le lo ps hi : path lo ps hi -> lo <= hi.
Proof. revert lo. induction ps as [|p ps IH]; cbn; [lia|]. intros lo [? ?%IH]. lia. Qed.

Lemma path_run k : forall p lo,
  lo < p <= lo + (4 * Size + 1) -> k <> O ->
  path lo (Z.add p <$> seqZ 0 (Z.of_nat k)) (p + Z.of_nat k - 1).
Proof.
  induction k as [|k IH]; intros p lo Hp Hk; [done|].
  rewrite seqZ_cons by lia. cbn -[Z.of_nat]. rewrite Z.add_0_r. split; [lia|].
  destruct (decide (k = O)) as [->|Hk']; [rewrite seqZ_nil by lia; cbn; lia|].
  replace (Z.add p <$> seqZ (Z.succ 0) (Z.pred (Z.of_nat (S k))))
    with (Z.add (p + 1) <$> seqZ 0 (Z.of_nat k)).
  - replace (p + Z.of_nat (S k) - 1) with (p + 1 + Z.of_nat k - 1) by lia.
    apply IH; [rewrite Size_eq; lia|done].
  - rewrite !fmap_add_seqZ. f_equal; lia.
Qed.

(** A path is a strictly increasing sequence. *)
Lemma path_sorted lo ps hi :
  path lo ps hi -> StronglySorted Z.lt ps /\ Forall (fun p => lo < p <= hi) ps.
Proof.
  revert lo. induction ps as [|p ps IH]; intros lo; cbn; [split; constructor|].
  intros [Hp Hps]. pose proof (path_le _ _ _ Hps). destruct (IH _ Hps) as [Hs Hf].
  split; constructor; [done| |lia|]; (eapply Forall_impl; [|exact Hf]); cbn; lia.
Qed.

Section Inv.
Context {T : Type} `{GoZero T}.
Implicit Types (b : Buffer T) (s : slot T) (evs : list (event T)).

(** The occupied slots. *)
Definition waiting b : gmap Z (slot T) :=
  filter (fun p => s_occupied p.2 = true) (slots b).

(** The packets waiting in the buffer. *)
Definition vals b : list T := s_val <$> (map_to_list (waiting b)).*2.

(** Distance of a sequence number ahead of the release point. *)
Definition off b (q : Z) : Z := u32 (q - nextExpected b).

Record ring b : Prop := {
  ring_next : is_u32 (nextExpected b);
  ring_slot : forall i s, waiting b !! i = Some s ->
    i = s_seq s mod Size /\ is_u32 (s_seq s) /\ off b (s_seq s) < Size;
  ring_count : occupied b = Z.of_nat (size (waiting b));
}.

(** The values that left the buffer, and those released in order. *)
Definition outs evs : list T :=
  omap (fun e => match e with Deliver v _ => Some v | Drop v => Some v | _ => None end) evs.
Definition inorder evs : list T :=
  omap (fun e => match e with Deliver v false => Some v | _ => None end) evs.

Lemma outs_app e1 e2 : outs (e1 ++ e2) = outs e1 ++ outs e2.
Proof. apply omap_app. Qed.
Lemma inorder_app e1 e2 : inorder (e1 ++ e2) = inorder e1 ++ inorder e2.
Proof. apply omap_app. Qed.

(** ** The occupied slots *)

Lemma waiting_lookup b i s :
  waiting b !! i = Some s <-> slots b !! i = Some s /\ s_occupied s = true.
Proof. apply map_lookup_filter_Some. Qed.

Lemma slot_at_occupied b i :
  s_occupied (slot_at b i) = true <-> waiting b !! i = Some (slot_at b i).
Proof.
  rewrite waiting_lookup. unfold slot_at. destruct (slots b !! i); cbn;
    (split; [by intros; split | by intros [? ?]]).
Qed.

Lemma slot_at_waiting b i s : waiting b !! i = Some s -> slot_at b i = s /\ s_occupied s = true.
Proof. rewrite waiting_lookup. unfold slot_at. intros [-> Ho]. done. Qed.

Lemma slot_at_free b i : s_occupied (slot_at b i) = false -> waiting b !! i = None.
Proof.
  intros Hf. destruct (waiting b !! i) as [s|] eqn:Hw; [|done].
  apply slot_at_waiting in Hw as [Hs Ho]. rewrite Hs in Hf. congruence.
Qed.

Lemma waiting_with_slot_occ i s b :
  s_occupied s = true -> waiting (with_slot i s b) = <[i := s]> (waiting b).
Proof. intros. apply map_filter_insert_True. done. Qed.

Lemma waiting_with_slot_free i s b :
  s_occupied s = false -> waiting (with_slot i s b) = delete i (waiting b).
Proof.
  intros Hs. unfold waiting, with_slot. cbn.
  rewrite map_filter_insert_False by (cbn; congruence).
  by rewrite map_filter_delete.
Qed.

Lemma ring_size b : ring b -> (size (waiting b) <= Z.to_nat Size)%nat.
Proof.
  intros Hr. rewrite <- size_dom, <- (length_seqZ 0 Size).
  rewrite <- (size_list_to_set (C := gset Z)) by apply NoDup_seqZ.
  apply subseteq_size. intros i [s Hs]%elem_of_dom.
  apply elem_of_list_to_set, elem_of_seqZ.
  apply (ring_slot _ Hr) in Hs as [-> _]. rewrite Size_eq. lia.
Qed.

(** Two sequence numbers of the window that share a ring index are equal:
    the comment "same window position means same sequence". *)
Lemma window_unique b q r :
  is_u32 q -> is_u32 r -> off b q < Size -> off b r < Size ->
  q mod Size = r mod Size -> q = r.
Proof. unfold off. rewrite Size_eq. ints. lia. Qed.

Lemma ring_unique b q s :
  ring b -> is_u32 q -> off b q < Size ->
  waiting b !! (q mod Size) = Some s -> s_seq s = q.
Proof.
  intros Hr Hq Ho Hs. destruct (ring_slot _ Hr _ _ Hs) as (Hi & Hu & Hw).
  symmetry. by apply (window_unique b).
Qed.

Lemma off_range b q : 0 <= off b q < two32.
Proof. apply u32_range. Qed.

Lemma off_next b i : 0 <= i < two32 -> off b (u32 (nextExpected b + i)) = i.
Proof. unfold off. ints. lia. Qed.

Lemma next_off b q : is_u32 q -> u32 (nextExpected b + off b q) = q.
Proof. unfold off. ints. lia. Qed.

(** ** Effect on the packets held *)

Lemma vals_insert b i s :
  waiting b !! i = None -> s_occupied s = true ->
  vals (with_slot i s b) ≡ₚ s_val s :: vals b.
Proof.
  intros Hi Ho. unfold vals. rewrite waiting_with_slot_occ by done.
  by rewrite map_to_list_insert.
Qed.

Lemma vals_delete b i s s' :
  waiting b !! i = Some s -> s_occupied s' = false ->
  vals b ≡ₚ s_val s :: vals (with_slot i s' b).
Proof.
  intros Hi Ho. unfold vals. rewrite waiting_with_slot_free by done.
  by rewrite <- (map_to_list_delete _ _ _ Hi).
Qed.

Lemma vals_empty b : waiting b = ∅ -> vals b = [].
Proof. unfold vals. intros ->. by rewrite map_to_list_empty. Qed.

(** ** Moving the release point, freeing and filling a slot *)

Lemma ring_shift b d :
  ring b -> 0 <= d < two32 ->
  (forall i s, waiting b !! i = Some s -> d <= off b (s_seq s)) ->
  ring (with_next (u32 (nextExpected b + d)) b).
Proof.
  intros Hr Hd Hall. constructor; cbn; [apply u32_range| |apply Hr].
  intros i s Hs. destruct (ring_slot _ Hr _ _ Hs) as (Hi & Hu & Hw).
  specialize (Hall _ _ Hs). split_and!; [done..|].
  unfold off in *. cbn. revert Hall Hw Hu Hd. rewrite Size_eq. ints. lia.
Qed.

Lemma ring_jump b q : waiting b = ∅ -> is_u32 q -> occupied b = 0 -> ring (with_next q b).
Proof.
  intros Hw Hq Ho. constructor; cbn; [done| |].
  - intros i s. change (waiting (with_next q b)) with (waiting b). by rewrite Hw.
  - change (waiting (with_next q b)) with (waiting b). by rewrite Hw, map_size_empty.
Qed.

Lemma release_spec b i s :
  ring b -> waiting b !! i = Some s ->
  ring (release i s b).1 /\
  waiting (release i s b).1 = delete i (waiting b) /\
  vals b ≡ₚ s_val s :: vals (release i s b).1.
Proof.
  intros Hr Hs. set (b' := (release i s b).1).
  set (s' := mkSlot false (s_seq s) (s_arrival s) (zero T)).
  assert (Hw : waiting b' = delete i (waiting b)) by exact (waiting_with_slot_free i s' b eq_refl).
  split_and!; [|done|exact (vals_delete b i s s' Hs eq_refl)].
  constructor.
  - apply Hr.
  - intros j t. rewrite Hw, lookup_delete_Some. intros [_ Ht]. by apply (ring_slot b).
  - rewrite Hw, map_size_delete_Some by eauto. cbn. rewrite (ring_count _ Hr).
    assert (size (waiting b) <> 0%nat) by (apply map_size_non_empty_iff; by intros Hz; rewrite Hz in Hs). lia.
Qed.

(** ** What the internal loops leave alone *)

Definition frame b := (timer b, hold b, started b, farLate b, Resets (stats b)).

Lemma drain_frame fuel : forall b, frame (drain_loop fuel b).1 = frame b.
Proof.
  induction fuel as [|fuel IH]; intros b; cbn [drain_loop]; [done|].
  destruct (head_ready b); [|done]. rewrite !andThen_fst. by rewrite IH.
Qed.

Lemma flush_frame n : forall i b, frame (flush_loop n i b).1 = frame b.
Proof.
  induction n as [|n IH]; intros i b; cbn [flush_loop]; [done|].
  destruct (0 <? occupied b); [|done]. destruct (s_occupied _); [|done].
  rewrite andThen_fst. by rewrite IH.
Qed.

Lemma drainLocked_frame b : frame (drainLocked b).1 = frame b.
Proof. apply drain_frame. Qed.

Lemma flushLocked_frame b : frame (flushLocked b).1 = frame b.
Proof. apply flush_frame. Qed.

Lemma insert_frame now seq v b : frame (insertLocked now seq v b).1 = frame b.
Proof. unfold insertLocked. by destruct (s_occupied _). Qed.

Lemma expire_frame now fuel : forall b, frame (expire_loop fuel now b).1 = frame b.
Proof.
  induction fuel as [|fuel IH]; intros b; cbn [expire_loop]; [done|].
  destruct (0 <? occupied b); [|done]. destruct (find_first _ _ _); [|done].
  destruct (_ <? _); [done|]. rewrite !andThen_fst.
  by rewrite IH, drainLocked_frame.
Qed.

(** ** The effect of an operation

    [tag] reads the sequence number back from a packet; the buffer is
    [tagged] when every waiting packet sits under its own number. *)

Context (tag : T -> Z).

Definition tagged b : Prop :=
  forall i s, waiting b !! i = Some s -> tag (s_val s) = s_seq s.

(** [effect Q b ins r ps]: running from [b] with the packets [ins] coming in
    gives [r]: the ring invariant holds again, nothing is lost or duplicated,
    and (when the incoming packets are tagged too, [Q]) the in-order releases
    sit at the positions [ps] counted from [b]'s release point. *)
Record effect (Q : Prop) b (ins : list T) (r : Buffer T * list (event T)) (ps : list Z) : Prop := {
  ef_ring : ring r.1;
  ef_perm : vals b ++ ins ≡ₚ outs r.2 ++ vals r.1;
  ef_pos : Q -> tagged b -> tagged r.1 /\
    tag <$> inorder r.2 = (fun p => u32 (nextExpected b + p)) <$> ps;
}.

Lemma effect_then Q b ins1 ins2 f g ps1 ps2 d :
  effect Q b ins1 (f b) ps1 ->
  nextExpected (f b).1 = u32 (nextExpected b + d) ->
  effect Q (f b).1 ins2 (g (f b).1) ps2 ->
  effect Q b (ins1 ++ ins2) ((f ;; g) b) (ps1 ++ (Z.add d <$> ps2)).
Proof.
  intros [Hr1 Hp1 Ho1] Hd [Hr2 Hp2 Ho2]. rewrite andThen_eq. constructor; cbn.
  - done.
  - rewrite outs_app, <- app_assoc, <- Hp2, !app_assoc. by rewrite Hp1.
  - intros HQ Ht. destruct (Ho1 HQ Ht) as [Ht1 Hi1]. destruct (Ho2 HQ Ht1) as [Ht2 Hi2].
    split; [done|]. rewrite inorder_app, !fmap_app, Hi1, Hi2. f_equal.
    rewrite <- list_fmap_compose. apply list_fmap_ext. intros _ p _. cbn.
    rewrite Hd. mlia.
Qed.

(** The same effect counted from another release point. *)
Lemma effect_from Q b b1 ins r ps d :
  waiting b1 = waiting b ->
  nextExpected b1 = u32 (nextExpected b + d) ->
  effect Q b1 ins r ps -> effect Q b ins r (Z.add d <$> ps).
Proof.
  intros Hw Hd [Hr Hp Ho]. constructor; [done| |].
  - unfold vals in *. by rewrite Hw in Hp.
  - intros HQ Ht. destruct Ho as [Ht' Hi]; [done|by unfold tagged; rewrite Hw|].
    split; [done|]. rewrite Hi, <- list_fmap_compose. apply list_fmap_ext.
    intros _ p _. cbn. rewrite Hd. mlia.
Qed.

Lemma effect_start Q b b1 ins r ps :
  waiting b1 = waiting b -> nextExpected b1 = nextExpected b ->
  effect Q b1 ins r ps -> effect Q b ins r ps.
Proof.
  intros Hw Hn [Hr Hp Ho]. constructor; [done| |].
  - unfold vals in *. by rewrite Hw in Hp.
  - intros HQ Ht. rewrite <- Hn. apply Ho; [done|]. unfold tagged. by rewrite Hw.
Qed.

Lemma effect_same Q b : ring b -> effect Q b [] (b, []) [].
Proof. intros Hr. constructor; cbn; [done|by rewrite app_nil_r|done]. Qed.

Lemma effect_next Q b q :
  ring (with_next q b) -> effect Q b [] (pureStep (with_next q) b) [].
Proof. intros Hr. constructor; cbn; [done|by rewrite app_nil_r|done]. Qed.

Lemma effect_release Q b i s p :
  ring b -> waiting b !! i = Some s -> s_seq s = u32 (nextExpected b + p) ->
  effect Q b [] (release i s b) [p].
Proof.
  intros Hr Hs Hq. destruct (release_spec b i s Hr Hs) as (Hr' & Hw & Hp).
  constructor; [done| |].
  - by rewrite app_nil_r.
  - intros HQ Ht. split.
    + intros j t. rewrite Hw, lookup_delete_Some. intros [_ Hj]. by apply (Ht j).
    + cbn. rewrite (Ht _ _ Hs), Hq. done.
Qed.

(** ** drainLocked *)

Lemma head_ready_waiting b :
  head_ready b = true ->
  waiting b !! (nextExpected b mod Size) = Some (slot_at b (nextExpected b mod Size)) /\
  s_seq (slot_at b (nextExpected b mod Size)) = nextExpected b.
Proof.
  unfold head_ready. intros [Ho Hq]%andb_prop.
  split; [by apply slot_at_occupied|by apply Z.eqb_eq].
Qed.

Lemma drain_step Q b :
  ring b -> head_ready b = true ->
  let i := nextExpected b mod Size in
  let f := release i (slot_at b i)
           ;; pureStep (fun b => with_next (u32 (nextExpected b + 1)) b) in
  effect Q b [] (f b) [0] /\ nextExpected (f b).1 = u32 (nextExpected b + 1) /\
  S (size (waiting (f b).1)) = size (waiting b).
Proof.
  intros Hr Hh i f. destruct (head_ready_waiting _ Hh) as [Hw Hq]. fold i in Hw, Hq.
  pose proof (ring_next _ Hr) as Hn.
  destruct (release_spec b i _ Hr Hw) as (Hr' & Hw' & _).
  set (b1 := (release i (slot_at b i) b).1) in *.
  assert (Hr1 : ring (with_next (u32 (nextExpected b1 + 1)) b1)).
  { apply ring_shift; [done|done|]. intros j t. rewrite Hw', lookup_delete_Some.
    intros [Hne Hj]. destruct (ring_slot _ Hr _ _ Hj) as (Hi & Hu & Ho).
    change (off b1 (s_seq t)) with (off b (s_seq t)).
    destruct (decide (off b (s_seq t) = 0)) as [E|]; [|pose proof (off_range b (s_seq t)); lia].
    destruct Hne. rewrite Hi. unfold i. f_equal. revert E Hu Hn. unfold off. ints. lia. }
  split_and!.
  - apply (effect_then Q b [] [] _ _ [0] [] 0).
    + apply effect_release; [done|done|]. rewrite Hq, Z.add_0_r. symmetry. by apply u32_id.
    + fold b1. cbn. rewrite Z.add_0_r. symmetry. by apply u32_id.
    + exact (effect_next Q b1 _ Hr1).
  - done.
  - change (waiting (f b).1) with (waiting b1). rewrite Hw'.
    rewrite map_size_delete_Some by eauto.
    assert (size (waiting b) <> 0%nat)
      by (apply map_size_non_empty_iff; by intros Hz; rewrite Hz in Hw). lia.
Qed.

Lemma seqZ_0_S k : seqZ 0 (Z.of_nat (S k)) = 0 :: (Z.add 1 <$> seqZ 0 (Z.of_nat k)).
Proof.
  rewrite seqZ_cons by lia. f_equal. rewrite fmap_add_seqZ. f_equal; lia.
Qed.

Lemma drain_loop_cons fuel b :
  head_ready b = true ->
  let i := nextExpected b mod Size in
  drain_loop (S fuel) b =
  ((release i (slot_at b i) ;; pureStep (fun b => with_next (u32 (nextExpected b + 1)) b))
   ;; drain_loop fuel) b.
Proof.
  intros Hh i. cbn [drain_loop]. rewrite Hh. by rewrite !andThen_eq.
Qed.

(** The run released by [n] iterations of the drain loop. *)
Lemma drain_loop_spec Q fuel b :
  ring b -> exists k : nat,
    effect Q b [] (drain_loop fuel b) (seqZ 0 (Z.of_nat k)) /\
    nextExpected (drain_loop fuel b).1 = u32 (nextExpected b + Z.of_nat k) /\
    (size (waiting (drain_loop fuel b).1) + k = size (waiting b))%nat /\
    (k = fuel \/ head_ready (drain_loop fuel b).1 = false) /\
    (head_ready b = true -> fuel <> O -> k <> O).
Proof.
  revert b. induction fuel as [|fuel IH]; intros b Hr.
  - exists O. pose proof (ring_next _ Hr). split_and!; cbn; [by apply effect_same| |lia|by left|done].
    rewrite Z.add_0_r. symmetry. by apply u32_id.
  - destruct (head_ready b) eqn:Hh.
    + rewrite (drain_loop_cons _ _ Hh).
      destruct (drain_step Q _ Hr Hh) as (He & Hn & Hs).
      set (f := release _ _ ;; _) in *.
      destruct (IH (f b).1 (ef_ring _ _ _ _ _ He)) as (k & He' & Hn' & Hs' & Hd & _).
      exists (S k). split_and!.
      * rewrite seqZ_0_S. by apply (effect_then Q b [] [] f _ [0]).
      * rewrite andThen_fst. rewrite Hn', Hn. mlia.
      * rewrite andThen_fst. lia.
      * rewrite andThen_fst. destruct Hd; [left; lia|by right].
      * done.
    + exists O. cbn [drain_loop]. rewrite Hh. pose proof (ring_next _ Hr).
      split_and!; cbn; [by apply effect_same| |lia|by right|done].
      rewrite Z.add_0_r. symmetry. by apply u32_id.
Qed.

Lemma waiting_empty_head b : size (waiting b) = 0%nat -> head_ready b = false.
Proof.
  intros Hz%map_size_empty_iff. destruct (head_ready b) eqn:Hh; [|done].
  apply head_ready_waiting in Hh as [Hh _]. by rewrite Hz in Hh.
Qed.

(** [drainLocked] always reaches its exit: the fuel is enough. *)
Lemma drainLocked_done Q b :
  ring b -> exists k : nat,
    effect Q b [] (drainLocked b) (seqZ 0 (Z.of_nat k)) /\
    nextExpected (drainLocked b).1 = u32 (nextExpected b + Z.of_nat k) /\
    (size (waiting (drainLocked b).1) + k = size (waiting b))%nat /\
    head_ready (drainLocked b).1 = false /\
    (head_ready b = true -> k <> O).
Proof.
  intros Hr. destruct (drain_loop_spec Q (Z.to_nat Size) b Hr) as (k & He & Hn & Hs & Hd & Hp).
  exists k. pose proof (ring_size _ Hr). split_and!; [done..| |].
  - destruct Hd as [->|]; [|done]. apply waiting_empty_head. unfold drainLocked. lia.
  - intros Hh. apply Hp; [done|]. rewrite Size_eq. lia.
Qed.

(** ** flushLocked *)

Lemma ring_empty b : ring b -> occupied b = 0 -> waiting b = ∅.
Proof. intros Hr Ho. apply map_size_empty_iff. rewrite (ring_count _ Hr) in Ho. lia. Qed.

(** Stepping over a free slot while scanning the window. *)
Lemma free_above b i :
  ring b ->
  s_occupied (slot_at b (u32 (nextExpected b + i) mod Size)) = false ->
  (forall j s, waiting b !! j = Some s -> i <= off b (s_seq s)) ->
  forall j s, waiting b !! j = Some s -> i + 1 <= off b (s_seq s).
Proof.
  intros Hr Hocc Hall j t Ht. pose proof (Hall _ _ Ht).
  destruct (decide (off b (s_seq t) = i)) as [E|]; [|lia].
  apply slot_at_free in Hocc. destruct (ring_slot _ Hr _ _ Ht) as (Hj & Hu & _).
  exfalso. rewrite Hj, <- (next_off b (s_seq t)), E in Ht by done. congruence.
Qed.

Lemma flush_loop_spec Q n : forall i b,
  ring b -> 0 <= i -> i + Z.of_nat n = Size ->
  (forall j s, waiting b !! j = Some s -> i <= off b (s_seq s)) ->
  exists ps,
    effect Q b [] (flush_loop n i b) ps /\
    nextExpected (flush_loop n i b).1 = nextExpected b /\
    occupied (flush_loop n i b).1 = 0 /\
    StronglySorted Z.lt ps /\ Forall (fun p => i <= p < Size) ps.
Proof.
  induction n as [|n IH]; intros i b Hr Hi Hn Hall; cbn [flush_loop].
  - exists []. split_and!; [by apply effect_same|done| |constructor|constructor].
    cbn. rewrite (ring_count _ Hr). enough (waiting b = ∅) as -> by done.
    apply map_empty. intros j. destruct (waiting b !! j) as [s|] eqn:Hs; [|done].
    pose proof (Hall _ _ Hs). apply (ring_slot _ Hr) in Hs. lia.
  - destruct (Z.ltb_spec 0 (occupied b)) as [Ho|Ho].
    2:{ exists []. split_and!; [by apply effect_same|done| |constructor|constructor].
        pose proof (ring_count _ Hr). cbn. lia. }
    set (q := u32 (nextExpected b + i)). set (j := q mod Size).
    assert (Hoq : off b q = i) by (apply off_next; rewrite Size_eq in Hn; lia).
    destruct (s_occupied (slot_at b j)) eqn:Hocc.
    + apply slot_at_occupied in Hocc. set (s := slot_at b j) in *.
      assert (Hq : s_seq s = q).
      { apply (ring_unique b); [done|apply u32_range|lia|done]. }
      destruct (release_spec _ _ _ Hr Hocc) as (Hr1 & Hw1 & _).
      destruct (IH (i + 1) (release j s b).1) as (ps & He & Hnx & Hz & Hs & Hf);
        [done|lia|lia| |].
      { intros j' t. rewrite Hw1, lookup_delete_Some. intros [Hne Ht].
        pose proof (Hall _ _ Ht) as Hge. destruct (ring_slot _ Hr _ _ Ht) as (Hj' & Hu & Hlt).
        change (off (release j s b).1 (s_seq t)) with (off b (s_seq t)).
        destruct (decide (off b (s_seq t) = i)) as [E|]; [|lia].
        destruct Hne. rewrite Hj'. unfold j. f_equal.
        rewrite <- (next_off b (s_seq t)) by done. by rewrite E. }
      exists (i :: ps). rewrite andThen_fst.
      split_and!; [|done|done| |].
      * replace (i :: ps) with ([i] ++ (Z.add 0 <$> ps)).
        2:{ cbn. f_equal. rewrite <- (list_fmap_id ps) at 2.
            apply list_fmap_ext. intros; cbn; lia. }
        apply (effect_then Q b [] []); [by apply effect_release| |done].
        cbn. rewrite Z.add_0_r. symmetry. apply u32_id, Hr.
      * constructor; [done|]. eapply Forall_impl; [|exact Hf]. cbn. lia.
      * constructor; [lia|]. eapply Forall_impl; [|exact Hf]. cbn. lia.
    + destruct (IH (i + 1) b) as (ps & He & Hnx & Hz & Hs & Hf);
        [done|lia|lia|by apply free_above|].
      exists ps. split_and!; [done..|]. eapply Forall_impl; [|exact Hf]. cbn. lia.
Qed.

Lemma flushLocked_spec Q b :
  ring b -> exists ps,
    effect Q b [] (flushLocked b) ps /\
    nextExpected (flushLocked b).1 = nextExpected b /\
    occupied (flushLocked b).1 = 0 /\ waiting (flushLocked b).1 = ∅ /\
    StronglySorted Z.lt ps /\ Forall (fun p => 0 <= p < Size) ps.
Proof.
  intros Hr. destruct (flush_loop_spec Q (Z.to_nat Size) 0 b) as (ps & He & Hn & Ho & Hs & Hf).
  - done.
  - lia.
  - rewrite Size_eq. lia.
  - intros. apply off_range.
  - exists ps. split_and!; try done. apply ring_empty; [apply He|done].
Qed.

(** ** insertLocked *)

Lemma insertLocked_spec now seq v b :
  ring b -> is_u32 seq -> off b seq < Size ->
  effect (tag v = seq) b [v] (insertLocked now seq v b) [] /\
  nextExpected (insertLocked now seq v b).1 = nextExpected b /\
  (waiting b = ∅ -> size (waiting (insertLocked now seq v b).1) = 1%nat /\
     (off b seq = 0 -> head_ready (insertLocked now seq v b).1 = true)).
Proof.
  intros Hr Hu Ho. unfold insertLocked.
  destruct (s_occupied (slot_at b (seq mod Size))) eqn:Hocc; cbn.
  - split_and!; [|done|].
    + constructor; cbn; [by constructor; apply Hr|by rewrite Permutation_app_comm|done].
    + intros Hw. apply slot_at_occupied in Hocc. by rewrite Hw in Hocc.
  - apply slot_at_free in Hocc. set (s := mkSlot true seq now v).
    assert (Hw : waiting (with_slot (seq mod Size) s b) = <[seq mod Size := s]> (waiting b))
      by by apply waiting_with_slot_occ.
    split_and!; [|done|].
    + constructor; cbn; [constructor; cbn| |].
      * apply Hr.
      * intros i t. change (waiting _) with (waiting (with_slot (seq mod Size) s b)).
        rewrite Hw, lookup_insert_Some. intros [[<- <-]|[_ Ht]]; [done|].
        by apply (ring_slot b).
      * change (waiting _) with (waiting (with_slot (seq mod Size) s b)).
        rewrite Hw, map_size_insert_None, (ring_count _ Hr) by done. lia.
      * rewrite Permutation_app_comm. symmetry. exact (vals_insert b _ s Hocc eq_refl).
      * intros HQ Ht. split; [|done]. intros i t.
        change (waiting _) with (waiting (with_slot (seq mod Size) s b)).
        rewrite Hw, lookup_insert_Some. intros [[<- <-]|[_ Ht']]; [done|]. by apply (Ht i).
    + intros Hz. change (waiting _) with (waiting (with_slot (seq mod Size) s b)).
      rewrite Hw, Hz, map_size_insert_None, map_size_empty by done. split; [done|].
      intros E. assert (nextExpected b = seq) as En.
      { rewrite <- (next_off b seq), E by done. rewrite Z.add_0_r. symmetry. apply u32_id, Hr. }
      unfold head_ready, slot_at. cbn. rewrite En, lookup_insert_eq. cbn.
      apply Z.eqb_refl.
Qed.

(** ** expireLocked *)

Lemma find_first_spec n : forall i b,
  ring b -> 0 <= i -> i + Z.of_nat n = Size ->
  (forall j s, waiting b !! j = Some s -> i <= off b (s_seq s)) ->
  match find_first n i b with
  | None => waiting b = ∅
  | Some s => exists p, i <= p < Size /\ s_seq s = u32 (nextExpected b + p) /\
      waiting b !! (s_seq s mod Size) = Some s /\
      (forall j t, waiting b !! j = Some t -> p <= off b (s_seq t))
  end.
Proof.
  induction n as [|n IH]; intros i b Hr Hi Hn Hall; cbn [find_first].
  - apply map_empty. intros j. destruct (waiting b !! j) as [s|] eqn:Hs; [|done].
    pose proof (Hall _ _ Hs). apply (ring_slot _ Hr) in Hs. lia.
  - set (q := u32 (nextExpected b + i)).
    assert (Hoq : off b q = i) by (apply off_next; rewrite Size_eq in Hn; lia).
    destruct (s_occupied (slot_at b (q mod Size))) eqn:Hocc.
    + apply slot_at_occupied in Hocc. set (s := slot_at b _) in *.
      assert (Hq : s_seq s = q)
        by (apply (ring_unique b); [done|apply u32_range|lia|done]).
      exists i. split_and!; [lia|lia|done|by rewrite Hq|done].
    + specialize (IH (i + 1) b Hr ltac:(lia) ltac:(lia) (free_above _ _ Hr Hocc Hall)).
      destruct (find_first n (i + 1) b) as [s|]; [|done].
      destruct IH as (p & Hp & Hrest). exists p. split; [lia|done].
Qed.

(** [moves Q b ins r]: an operation without a reset. The releases follow a
    path that starts behind [b]'s release point and ends just behind the new
    one. *)
Definition moves (Q : Prop) b ins (r : Buffer T * list (event T)) : Prop :=
  exists ps adv, effect Q b ins r ps /\ path (-1) ps (adv - 1) /\
    nextExpected r.1 = u32 (nextExpected b + adv).

Lemma moves_then Q b ins1 ins2 f g :
  moves Q b ins1 (f b) -> moves Q (f b).1 ins2 (g (f b).1) ->
  moves Q b (ins1 ++ ins2) ((f ;; g) b).
Proof.
  intros (ps1 & a1 & He1 & Hp1 & Hn1) (ps2 & a2 & He2 & Hp2 & Hn2).
  exists (ps1 ++ (Z.add a1 <$> ps2)), (a1 + a2). split_and!.
  - by apply effect_then.
  - eapply path_app; [done|]. apply (path_shift a1) in Hp2.
    replace (-1 + a1) with (a1 - 1) in Hp2 by lia.
    by replace (a2 - 1 + a1) with (a1 + a2 - 1) in Hp2 by lia.
  - rewrite andThen_fst. rewrite Hn2, Hn1. mlia.
Qed.

Lemma moves_start Q b b1 ins r :
  waiting b1 = waiting b -> nextExpected b1 = nextExpected b ->
  moves Q b1 ins r -> moves Q b ins r.
Proof.
  intros Hw Hn (ps & adv & He & Hp & Hn'). exists ps, adv.
  split_and!; [by apply (effect_start Q b b1)|done|by rewrite Hn', Hn].
Qed.

Lemma moves_still Q b ins r :
  ring b -> effect Q b ins r [] -> nextExpected r.1 = nextExpected b -> moves Q b ins r.
Proof.
  intros Hr He Hn. exists [], 0. split_and!; [done..|].
  rewrite Hn, Z.add_0_r. symmetry. apply u32_id, Hr.
Qed.

Lemma drainLocked_moves Q b : ring b -> moves Q b [] (drainLocked b).
Proof.
  intros Hr. destruct (drainLocked_done Q b Hr) as (k & He & Hn & _).
  destruct (decide (k = O)) as [->|Hk].
  - apply moves_still; [done..|]. rewrite Hn, Z.add_0_r. apply u32_id, Hr.
  - exists (seqZ 0 (Z.of_nat k)), (Z.of_nat k). split_and!; [done| |done].
    pose proof (path_run k 0 (-1) ltac:(rewrite Size_eq; lia) Hk) as Hp.
    rewrite fmap_add_seqZ in Hp. by rewrite !Z.add_0_l in Hp.
Qed.

(** Skipping the gap before the first waiting packet. *)
Lemma skipped_ring b first :
  ring b -> find_first (Z.to_nat Size) 0 b = Some first ->
  ring (with_next (s_seq first) (with_stats inc_timedOut b)).
Proof.
  intros Hr Hff. pose proof (find_first_spec (Z.to_nat Size) 0 b Hr) as Hs.
  rewrite Hff in Hs. destruct Hs as (p & Hp & Hq & Hw & Hmin);
    [lia|rewrite Size_eq; lia|intros; apply off_range|].
  rewrite Hq. constructor; cbn; [apply u32_range| |apply Hr].
  apply (ring_shift b p); [done|rewrite Size_eq in Hp; lia|done].
Qed.

(** One iteration of [expireLocked]: skip the gap, release the run. *)
Lemma expire_step Q b first :
  ring b -> find_first (Z.to_nat Size) 0 b = Some first ->
  let f := pureStep (fun b => with_next (s_seq first) (with_stats inc_timedOut b)) ;; drainLocked in
  moves Q b [] (f b) /\ head_ready (f b).1 = false /\
  (size (waiting (f b).1) < size (waiting b))%nat.
Proof.
  intros Hr Hff f. pose proof (find_first_spec (Z.to_nat Size) 0 b Hr) as Hs.
  rewrite Hff in Hs. destruct Hs as (p & Hp & Hq & Hw & Hmin);
    [lia|rewrite Size_eq; lia|intros; apply off_range|].
  set (b1 := with_next (s_seq first) (with_stats inc_timedOut b)).
  assert (Hr1 : ring b1) by by apply skipped_ring.
  assert (Hh : head_ready b1 = true).
  { unfold head_ready. apply slot_at_waiting in Hw as [Hw Ho].
    change (slot_at b1 (nextExpected b1 mod Size)) with (slot_at b (s_seq first mod Size)).
    rewrite Hw, Ho. cbn. by apply Z.eqb_refl. }
  destruct (drainLocked_done Q b1 Hr1) as (k & He & Hn & Hsz & Hd & Hk).
  specialize (Hk Hh).
  assert (f b = drainLocked b1) as ->.
  { apply pureStep_then. }
  split_and!; [|done|change (waiting b) with (waiting b1); lia].
  exists (Z.add p <$> seqZ 0 (Z.of_nat k)), (p + Z.of_nat k). split_and!.
  - by apply (effect_from Q b b1).
  - apply path_run; [rewrite Size_eq in *; lia|done].
  - rewrite Hn. cbn. rewrite Hq. mlia.
Qed.

(** The loop stops because nothing waits, or because the first waiting
    packet is younger than the hold time. *)
Definition expired_done (now : Z) b : Prop :=
  occupied b = 0 \/
  exists first, find_first (Z.to_nat Size) 0 b = Some first /\
    Sub now (s_arrival first) < hold b.

Lemma expire_loop_spec Q now fuel : forall b,
  ring b -> (size (waiting b) <= fuel)%nat ->
  moves Q b [] (expire_loop fuel now b) /\
  expired_done now (expire_loop fuel now b).1 /\
  (head_ready b = false -> head_ready (expire_loop fuel now b).1 = false).
Proof.
  induction fuel as [|fuel IH]; intros b Hr Hsz; cbn [expire_loop].
  - split_and!; [by apply moves_still; [|apply effect_same|]| |done].
    left. cbn. rewrite (ring_count _ Hr). lia.
  - destruct (Z.ltb_spec 0 (occupied b)) as [Ho|Ho].
    2:{ split_and!; [by apply moves_still; [|apply effect_same|]| |done].
        left. pose proof (ring_count _ Hr). cbn. lia. }
    destruct (find_first (Z.to_nat Size) 0 b) as [first|] eqn:Hff.
    2:{ pose proof (find_first_spec (Z.to_nat Size) 0 b Hr) as Hs. rewrite Hff in Hs.
        rewrite (ring_count _ Hr), Hs in Ho; [rewrite map_size_empty in Ho; lia|lia| |].
        - rewrite Size_eq; lia.
        - intros; apply off_range. }
    destruct (Z.ltb_spec (Sub now (s_arrival first)) (hold b)) as [Hy|Hy].
    { split_and!; [by apply moves_still; [|apply effect_same|]| |done]. right. eauto. }
    destruct (expire_step Q b first Hr Hff) as (Hm & Hh & Hlt).
    set (g := _ ;; drainLocked) in Hm, Hh, Hlt.
    assert (Hr1 : ring (g b).1) by (destruct Hm as (? & ? & He & _); apply He).
    destruct (IH (g b).1 Hr1 ltac:(lia)) as (Hm' & Hd & Hh').
    rewrite andThen_assoc. fold g.
    split_and!; [by apply (moves_then Q b [] [])| |]; rewrite andThen_fst; auto.
Qed.

Lemma expireLocked_spec Q now b :
  ring b ->
  moves Q b [] (expireLocked now b) /\
  expired_done now (expireLocked now b).1 /\
  (head_ready b = false -> head_ready (expireLocked now b).1 = false).
Proof. intros Hr. apply expire_loop_spec; [done|by apply ring_size]. Qed.

(** ** The same facts about a run [op b = (b', es)] *)

Lemma effect_seq Q b ins1 b1 e1 ps1 d ins2 b2 e2 ps2 :
  effect Q b ins1 (b1, e1) ps1 -> nextExpected b1 = u32 (nextExpected b + d) ->
  effect Q b1 ins2 (b2, e2) ps2 ->
  effect Q b (ins1 ++ ins2) (b2, e1 ++ e2) (ps1 ++ (Z.add d <$> ps2)).
Proof.
  intros H1 Hd H2.
  exact (effect_then Q b ins1 ins2 (fun _ => (b1, e1)) (fun _ => (b2, e2)) ps1 ps2 d H1 Hd H2).
Qed.

Lemma moves_seq Q b ins1 b1 e1 ins2 b2 e2 :
  moves Q b ins1 (b1, e1) -> moves Q b1 ins2 (b2, e2) ->
  moves Q b (ins1 ++ ins2) (b2, e1 ++ e2).
Proof.
  intros H1 H2.
  exact (moves_then Q b ins1 ins2 (fun _ => (b1, e1)) (fun _ => (b2, e2)) H1 H2).
Qed.

Lemma drain_run Q b b' es :
  drainLocked b = (b', es) -> ring b -> exists k : nat,
    effect Q b [] (b', es) (seqZ 0 (Z.of_nat k)) /\
    nextExpected b' = u32 (nextExpected b + Z.of_nat k) /\
    (size (waiting b') + k = size (waiting b))%nat /\
    head_ready b' = false /\ (head_ready b = true -> k <> O) /\
    moves Q b [] (b', es) /\ frame b' = frame b.
Proof.
  intros E Hr. destruct (drainLocked_done Q b Hr) as (k & H1 & H2 & H3 & H4 & H5).
  pose proof (drainLocked_moves Q b Hr) as H6. pose proof (drainLocked_frame b) as H7.
  rewrite E in *. exists k. done.
Qed.

Lemma flush_run Q b b' es :
  flushLocked b = (b', es) -> ring b -> exists ps,
    effect Q b [] (b', es) ps /\ nextExpected b' = nextExpected b /\
    occupied b' = 0 /\ waiting b' = ∅ /\
    StronglySorted Z.lt ps /\ Forall (fun p => 0 <= p < Size) ps /\ frame b' = frame b.
Proof.
  intros E Hr. destruct (flushLocked_spec Q b Hr) as (ps & H1 & H2 & H3 & H4 & H5 & H6).
  pose proof (flushLocked_frame b) as H7. rewrite E in *. exists ps. done.
Qed.

Lemma expire_run Q now b b' es :
  expireLocked now b = (b', es) -> ring b ->
  moves Q b [] (b', es) /\ expired_done now b' /\
  (head_ready b = false -> head_ready b' = false) /\ frame b' = frame b.
Proof.
  intros E Hr. destruct (expireLocked_spec Q now b Hr) as (H1 & H2 & H3).
  pose proof (expire_frame now (Z.to_nat Size) b) as H4. fold (expireLocked now) in H4.
  rewrite E in *. done.
Qed.

Lemma insert_run now seq v b b' es :
  insertLocked now seq v b = (b', es) -> ring b -> is_u32 seq -> off b seq < Size ->
  effect (tag v = seq) b [v] (b', es) [] /\ nextExpected b' = nextExpected b /\
  (waiting b = ∅ -> size (waiting b') = 1%nat /\ (off b seq = 0 -> head_ready b' = true)) /\
  frame b' = frame b.
Proof.
  intros E Hr Hu Ho. destruct (insertLocked_spec now seq v b Hr Hu Ho) as (H1 & H2 & H3).
  pose proof (insert_frame now seq v b) as H4. rewrite E in *. done.
Qed.

End Inv.

