(* ===== verification/ReorderTrace.v ===== *)
(** * The resequencing buffer: operations, reachable states and theorems

    The state invariant kept by every public operation, and what a whole
    run of operations guarantees: conservation of packets, release order,
    bounded waiting and an armed timer. *)

From stdpp Require Import sorting.
From S2P Require Import Prelude Reorder ReorderInv.
#[local] Open Scope go_scope.

Section Trace.
Context {T : Type} `{GoZero T} (tag : T -> Z).
Implicit Types (b : Buffer T) (es : list (event T)) (v : T).

(** ** The state between two calls *)

Record good b : Prop := {
  good_ring : ring b;
  good_drained : head_ready b = false;
  good_timer : 0 < occupied b -> timer b = true;
  good_farLate : 0 <= farLate b < resetThreshold;
  good_hold : 2 * Millisecond <= hold b <= 250 * Millisecond;
  good_fresh : started b = false -> waiting b = ∅;
}.

Lemma frame_inv b b' :
  frame b' = frame b ->
  timer b' = timer b /\ hold b' = hold b /\ started b' = started b /\
  farLate b' = farLate b /\ Resets (stats b') = Resets (stats b).
Proof. unfold frame. intros [= ]. done. Qed.

Lemma u32_self b : ring b -> nextExpected b = u32 (nextExpected b + 0).
Proof. intros Hr. rewrite Z.add_0_r. symmetry. apply u32_id, Hr. Qed.

(** ** Push, branch by branch *)

Lemma arm_run Q b b' es :
  armTimerLocked b = (b', es) -> ring b ->
  effect tag Q b [] (b', es) [] /\ nextExpected b' = nextExpected b /\
  head_ready b' = head_ready b /\ (0 < occupied b' -> timer b' = true) /\
  farLate b' = farLate b /\ hold b' = hold b /\ started b' = started b /\
  Resets (stats b') = Resets (stats b) /\ waiting b' = waiting b.
Proof.
  unfold armTimerLocked. intros E Hr.
  destruct (Z.eqb_spec (occupied b) 0) as [Ho|Ho]; cbn in E.
  - injection E as <- <-. split_and!; try done; [by apply effect_same|lia].
  - destruct (timer b) eqn:Ht; injection E as <- <-.
    + split_and!; try done. by apply effect_same.
    + split_and!; try done. constructor; cbn; [by constructor; apply Hr|by rewrite app_nil_r|done].
Qed.

Lemma window_run now seq v b b' es :
  pushWindow now seq v b = (b', es) -> ring b -> is_u32 seq -> off b seq < Size ->
  moves tag (tag v = seq) b [v] (b', es) /\ head_ready b' = false /\
  (0 < occupied b' -> timer b' = true) /\ farLate b' = 0 /\ hold b' = hold b /\
  started b' = started b /\ Resets (stats b') = Resets (stats b) /\
  (waiting b = ∅ -> off b seq = 0 ->
     effect tag (tag v = seq) b [v] (b', es) [0] /\ nextExpected b' = u32 (seq + 1)).
Proof.
  unfold pushWindow. rewrite pureStep_then. intros E Hr Hu Ho.
  apply andThen_inv in E as (b1 & e1 & e' & E1 & E & ->).
  apply andThen_inv in E as (b2 & e2 & e3 & E2 & E3 & ->).
  set (b0 := with_farLate 0 b) in *. assert (Hr0 : ring b0) by (constructor; apply Hr).
  destruct (insert_run tag _ _ _ _ _ _ E1 Hr0 Hu Ho) as (He1 & Hn1 & Hz1 & Hf1).
  pose proof (ef_ring _ _ _ _ _ _ He1) as Hr1. cbn in Hr1.
  destruct (drain_run tag (tag v = seq) _ _ _ E2 Hr1) as (k & He2 & Hn2 & Hs2 & Hd2 & Hk2 & Hm2 & Hf2).
  pose proof (ef_ring _ _ _ _ _ _ He2) as Hr2. cbn in Hr2.
  destruct (arm_run (tag v = seq) _ _ _ E3 Hr2) as (He3 & Hn3 & Hd3 & Ht3 & Hfl3 & Hh3 & Hst3 & Hres3 & _).
  rewrite Hf1 in Hf2. apply frame_inv in Hf2 as (_ & Hh & Hst & Hfl & Hres).
  split_and!; [|congruence|done|by rewrite Hfl3, Hfl|by rewrite Hh3, Hh
    |by rewrite Hst3, Hst|by rewrite Hres3, Hres|].
  - apply (moves_start tag _ b b0); [done..|].
    apply (moves_seq tag _ b0 [v] b1 e1 []); [by apply moves_still|].
    apply (moves_seq tag _ b1 [] b2 e2 []); [done|]. by apply moves_still.
  - intros Hw Hoz. destruct (Hz1 Hw) as [Hsz Hh1].
    assert (k = 1%nat) as -> by (specialize (Hk2 (Hh1 Hoz)); lia). split.
    + apply (effect_start tag _ b b0); [done..|].
      apply (effect_seq tag _ b0 [v] b1 e1 [] 0 [] b' _ [0] He1);
        [rewrite Hn1; by apply u32_self|].
      by apply (effect_seq tag _ b1 [] b2 e2 [0] 1 [] b' _ []).
    + rewrite Hn3, Hn2, Hn1. change (nextExpected b0) with (nextExpected b).
      pose proof (next_off b seq Hu) as Hno. rewrite Hoz, <- u32_self in Hno by done.
      by rewrite Hno.
Qed.

Lemma path_sorted_to d ps : forall lo,
  StronglySorted Z.lt ps -> Forall (fun p => lo < p < Size) ps ->
  -1 <= lo < Size -> Size <= d <= 4 * Size -> path lo (ps ++ [d]) d.
Proof.
  induction ps as [|p ps IH]; intros lo Hs Hf Hlo Hd; cbn; [split; [lia|done]|].
  apply StronglySorted_inv in Hs as [Hs Hlt]. apply Forall_cons_iff in Hf as [Hp Hf].
  split; [rewrite Size_eq in *; lia|]. apply IH; [done| |lia|done].
  rewrite List.Forall_forall in *. intros q Hq. specialize (Hlt _ Hq). specialize (Hf _ Hq).
  cbn in *. lia.
Qed.

Lemma ring_off_self b q : nextExpected b = q -> off b q = 0.
Proof. unfold off. intros <-. by rewrite Z.sub_diag. Qed.

(** Window overrun: everything pending goes out in order, then the new
    packet at distance [d]. *)
Lemma overrun_run now seq v b b' es d :
  (pureStep (with_stats inc_overflows) ;; flushLocked ;; pureStep (with_next seq)
   ;; pushWindow now seq v) b = (b', es) ->
  ring b -> is_u32 seq -> seq = u32 (nextExpected b + d) -> Size <= d <= 4 * Size ->
  moves tag (tag v = seq) b [v] (b', es) /\ head_ready b' = false /\
  (0 < occupied b' -> timer b' = true) /\ farLate b' = 0 /\ hold b' = hold b /\
  started b' = started b /\ Resets (stats b') = Resets (stats b).
Proof.
  rewrite pureStep_then. intros E Hr Hu Hseq Hd.
  set (b0 := with_stats inc_overflows b) in *. assert (Hr0 : ring b0) by (constructor; apply Hr).
  apply andThen_inv in E as (b1 & e1 & e2 & E1 & E & ->). rewrite pureStep_then in E.
  destruct (flush_run tag (tag v = seq) _ _ _ E1 Hr0) as (ps & He & Hn & Ho & Hw & Hs & Hf & Hfr).
  apply frame_inv in Hfr as (_ & Hh & Hst & Hfl & Hres).
  set (b2 := with_next seq b1) in *.
  assert (Hr2 : ring b2) by by apply ring_jump.
  assert (Hoz : off b2 seq = 0) by by apply ring_off_self.
  destruct (window_run now seq v b2 b' e2 E Hr2 Hu) as (_ & Hd3 & Ht3 & Hfl3 & Hh3 & Hst3 & Hres3 & Hone).
  { rewrite Hoz, Size_eq. lia. }
  destruct (Hone Hw Hoz) as [He3 Hn3].
  assert (Ed : Z.add d <$> [0] = [d]) by (cbn; f_equal; lia).
  split_and!; [|done|done|done|by rewrite Hh3; exact Hh|by rewrite Hst3; exact Hst
    |by rewrite Hres3; exact Hres].
  exists (ps ++ (Z.add 0 <$> [d])), (d + 1). split_and!.
  - apply (effect_start tag _ b b0); [done..|].
    apply (effect_seq tag _ b0 [] b1 e1 ps 0 [v] b' e2 [d] He);
      [rewrite Hn; by apply u32_self|].
    rewrite <- Ed. apply (effect_from tag _ b1 b2); [done| |done].
    change (nextExpected b2) with seq. by rewrite Hn.
  - change (Z.add 0 <$> [d]) with [d]. rewrite Z.add_simpl_r.
    apply path_sorted_to; [done| |rewrite Size_eq; lia|done].
    eapply Forall_impl; [|exact Hf]. cbn. lia.
  - cbn [fst]. rewrite Hn3, Hseq. clear. mlia.
Qed.

(** Far out of the window: the packet is dropped, or the sixteenth such
    packet in a row restarts the stream at its number. *)
Lemma far_run now seq v b b' es :
  pushFar now seq v b = (b', es) -> good b -> is_u32 seq -> started b = true ->
  good b' /\ vals b ++ [v] ≡ₚ outs es ++ vals b' /\ started b' = true /\
  (Resets (stats b') = Resets (stats b) -> moves tag (tag v = seq) b [v] (b', es)).
Proof.
  unfold pushFar. intros E Hgood Hu Hstart. pose proof (good_ring _ Hgood) as Hr.
  set (b0 := with_farLate (farLate b + 1) b) in *.
  assert (Hr0 : ring b0) by (constructor; apply Hr).
  destruct (Z.leb_spec resetThreshold (farLate b0)) as [Hfar|Hfar].
  - unfold resetLocked in E. rewrite <- andThen_assoc in E.
    apply andThen_inv in E as (b1 & e1 & e' & E1 & E & ->). rewrite pureStep_then in E.
    apply andThen_inv in E as (b3 & e3 & e4 & E3 & E4 & ->).
    destruct (flush_run tag (tag v = seq) _ _ _ E1 Hr0) as (ps & He & Hn & Ho & Hw & _ & _ & Hfr).
    apply frame_inv in Hfr as (_ & Hh & Hst & _ & Hres).
    set (b2 := with_stats inc_resets (with_farLate 0 (with_next seq b1))) in *.
    assert (Hr2 : ring b2) by by constructor; apply (ring_jump b1 seq).
    assert (Hoz : off b2 seq = 0) by by apply ring_off_self.
    destruct (insert_run tag _ _ _ _ _ _ E3 Hr2 Hu) as (He3 & Hn3 & Hz3 & Hf3).
    { rewrite Hoz, Size_eq. lia. }
    destruct (Hz3 Hw) as [Hsz Hh3]. pose proof (ef_ring _ _ _ _ _ _ He3) as Hr3. cbn in Hr3.
    destruct (drain_run tag (tag v = seq) _ _ _ E4 Hr3) as (k & He4 & Hn4 & Hs4 & Hd4 & Hk4 & _ & Hf4).
    rewrite Hf3 in Hf4. apply frame_inv in Hf4 as (_ & Hh4 & Hst4 & Hfl4 & Hres4).
    pose proof (ef_ring _ _ _ _ _ _ He4) as Hr4. cbn in Hr4.
    assert (Hw4 : size (waiting b') = 0%nat) by (specialize (Hk4 (Hh3 Hoz)); lia).
    split_and!.
    + constructor; [done|done| | | |].
      * rewrite (ring_count _ Hr4). lia.
      * by rewrite Hfl4.
      * rewrite Hh4. change (hold b2) with (hold b1). rewrite Hh. apply Hgood.
      * intros _. by apply map_size_empty_iff.
    + pose proof (ef_perm _ _ _ _ _ _ He) as P1. pose proof (ef_perm _ _ _ _ _ _ He3) as P3.
      pose proof (ef_perm _ _ _ _ _ _ He4) as P4. cbn in P1, P3, P4.
      rewrite app_nil_r in P1, P4. rewrite !outs_app, <- !app_assoc, <- P4, <- P3.
      change (vals b2) with (vals b1). rewrite app_assoc, <- P1. done.
    + rewrite Hst4. change (started b2) with (started b1). by rewrite Hst.
    + rewrite Hres4. change (Resets (stats b2)) with (u64 (Resets (stats b1) + 1)).
      rewrite Hres. change (Resets (stats b0)) with (Resets (stats b)). clear. mlia.
  - injection E as <- <-. split_and!; [| |done|].
    + constructor; [by constructor; apply Hr|apply Hgood..| |apply Hgood|apply Hgood].
      cbn. pose proof (good_farLate _ Hgood). cbn in Hfar. lia.
    + cbn. by rewrite Permutation_app_comm.
    + intros _. apply moves_still; [done| |done].
      constructor; cbn; [by constructor; apply Hr|by rewrite Permutation_app_comm|done].
Qed.

(** The first packet defines the release point. *)
Definition begin (seq : Z) b : Buffer T :=
  if started b then b else with_next seq (with_started true b).

Lemma good_begin seq b : good b -> is_u32 seq -> good (begin seq b) /\ started (begin seq b) = true.
Proof.
  intros Hg Hu. unfold begin. destruct (started b) eqn:Hs; [done|]. split; [|done].
  pose proof (good_fresh _ Hg Hs) as Hw. pose proof (ring_count _ (good_ring _ Hg)) as Hc.
  rewrite Hw, map_size_empty in Hc.
  constructor; try apply Hg.
  - by constructor; apply (ring_jump b seq).
  - apply waiting_empty_head. change (waiting _) with (waiting b). by rewrite Hw.
  - done.
Qed.

Lemma vals_begin seq b : vals (begin seq b) = vals b.
Proof. unfold begin. by destruct (started b). Qed.

Lemma moves_perm Q b ins b' es : moves tag Q b ins (b', es) -> vals b ++ ins ≡ₚ outs es ++ vals b'.
Proof. intros (ps & adv & He & _). apply (ef_perm _ _ _ _ _ _ He). Qed.

Lemma moves_ring Q b ins b' es : moves tag Q b ins (b', es) -> ring b'.
Proof. intros (ps & adv & He & _). apply (ef_ring _ _ _ _ _ _ He). Qed.

Lemma push_run now seq v b b' es :
  Push now seq v b = (b', es) -> good b -> is_u32 seq ->
  good b' /\ vals b ++ [v] ≡ₚ outs es ++ vals b' /\ started b' = true /\
  (Resets (stats b') = Resets (stats b) -> moves tag (tag v = seq) (begin seq b) [v] (b', es)).
Proof.
  intros E Hg0 Hu. destruct (good_begin seq b Hg0 Hu) as [Hg Hstart].
  assert (Hres0 : Resets (stats (begin seq b)) = Resets (stats b))
    by (unfold begin; by destruct (started b)).
  rewrite <- Hres0, <- (vals_begin seq b).
  unfold Push in E. fold (begin seq b) in E. clear Hres0 Hg0.
  set (b0 := begin seq b) in *. clearbody b0. pose proof (good_ring _ Hg) as Hr.
  pose proof (ring_next _ Hr) as Hn.
  (* the facts a window insertion leaves behind *)
  assert (Hclose : moves tag (tag v = seq) b0 [v] (b', es) /\ head_ready b' = false /\
    (0 < occupied b' -> timer b' = true) /\ farLate b' = 0 /\ hold b' = hold b0 /\
    started b' = started b0 /\ Resets (stats b') = Resets (stats b0) ->
    good b' /\ vals b0 ++ [v] ≡ₚ outs es ++ vals b' /\ started b' = true /\
    (Resets (stats b') = Resets (stats b0) -> moves tag (tag v = seq) b0 [v] (b', es))).
  { intros (Hm & Hd & Ht & Hfl & Hh & Hst & _).
    split_and!; [|by eapply moves_perm|congruence|done].
    constructor; [by eapply moves_ring|done|done|by rewrite Hfl|rewrite Hh; apply Hg|congruence]. }
  destruct (Z.ltb_spec (i32 (seq - nextExpected b0)) 0) as [Hneg|Hneg].
  { destruct (Z.ltb_spec (i32 (seq - nextExpected b0)) (- Size)) as [Hfar|Hfar];
      [by eapply far_run|].
    injection E as <- <-. split_and!; [| |done|].
    - by constructor; try apply Hg; constructor; apply Hr.
    - cbn. by rewrite Permutation_app_comm.
    - intros _. apply moves_still; [done| |done].
      constructor; cbn; [by constructor; apply Hr|by rewrite Permutation_app_comm|done]. }
  destruct (Z.leb_spec Size (i32 (seq - nextExpected b0))) as [Hbig|Hsmall].
  - destruct (Z.ltb_spec (4 * Size) (i32 (seq - nextExpected b0))) as [Hfar|Hnear];
      [by eapply far_run|].
    apply Hclose. eapply overrun_run; [exact E|done|done| |].
    2:{ split; [exact Hbig|exact Hnear]. }
    clear - Hu Hn. mlia.
  - apply Hclose.
    destruct (window_run _ _ _ _ _ _ E Hr Hu) as (? & ? & ? & ? & ? & ? & ? & _); [|done].
    unfold off. rewrite Size_eq in Hsmall |- *. clear - Hsmall Hneg. mlia.
Qed.

(** ** Public operations and runs *)

Inductive op :=
  | OpPush (now seq : Z) (v : T)
  | OpSetHold (d : Z)
  | OpTick (now : Z)
  | OpTimer (now : Z)
  | OpClose.

Definition exec (o : op) : act (Buffer T) (event T) :=
  match o with
  | OpPush now seq v => Push now seq v
  | OpSetHold d => pureStep (SetHold d)
  | OpTick now => Tick now
  | OpTimer now => onTimer now
  | OpClose => Close
  end.

Fixpoint run (os : list op) : act (Buffer T) (event T) :=
  match os with
  | [] => pureStep id
  | o :: os => exec o ;; run os
  end.

(** The packets a run pushes; sequence numbers are [uint32]. *)
Definition op_ins (o : op) : list T := match o with OpPush _ _ v => [v] | _ => [] end.
Definition op_ok (o : op) : Prop := match o with OpPush _ seq _ => is_u32 seq | _ => True end.
Definition op_tagged (o : op) : Prop := match o with OpPush _ seq v => tag v = seq | _ => True end.
Definition op_base (o : op) b : Buffer T := match o with OpPush _ seq _ => begin seq b | _ => b end.

Lemma vals_nil b : vals b = [] -> waiting b = ∅.
Proof.
  unfold vals. intros Hv%(f_equal length). rewrite !length_fmap, length_map_to_list in Hv.
  by apply map_size_empty_iff.
Qed.

Lemma fresh_stays Q b es b' : moves tag Q b [] (b', es) -> waiting b = ∅ -> waiting b' = ∅.
Proof.
  intros Hp%moves_perm Hw%vals_empty. apply vals_nil. rewrite Hw in Hp. cbn in Hp.
  symmetry in Hp. by apply Permutation_nil_r, app_eq_nil in Hp as [_ ?].
Qed.

Lemma tick_run now b b' es :
  Tick now b = (b', es) -> good b ->
  good b' /\ moves tag True b [] (b', es) /\ expired_done now b' /\
  Resets (stats b') = Resets (stats b) /\ started b' = started b /\ timer b' = timer b.
Proof.
  unfold Tick. intros E Hg. pose proof (good_ring _ Hg) as Hr.
  destruct (expire_run tag True _ _ _ _ E Hr) as (Hm & Hd & Hh & Hf).
  apply frame_inv in Hf as (Ht & Hho & Hst & Hfl & Hres).
  split_and!; try done. pose proof (moves_ring _ _ _ _ _ Hm) as Hr'.
  constructor; [done|apply Hh, Hg| |by rewrite Hfl; apply Hg|by rewrite Hho; apply Hg|].
  - rewrite Ht. intros Ho. apply Hg. pose proof (moves_perm _ _ _ _ _ Hm) as Hp.
    apply Permutation_length in Hp. rewrite !length_app in Hp. unfold vals in Hp.
    rewrite !length_fmap, !length_map_to_list in Hp.
    rewrite (ring_count _ Hr), (ring_count _ Hr') in *. cbn in Hp. lia.
  - rewrite Hst. intros Hs. eapply fresh_stays; [exact Hm|]. by apply Hg.
Qed.

Lemma find_first_timer x n : forall i b, find_first n i (with_timer x b) = find_first n i b.
Proof. induction n as [|n IH]; intros i b; [done|]. cbn [find_first]. by rewrite IH. Qed.

Lemma expired_done_timer x now b : expired_done now b -> expired_done now (with_timer x b).
Proof. unfold expired_done. by rewrite find_first_timer. Qed.

Lemma timer_run now b b' es :
  onTimer now b = (b', es) -> good b ->
  good b' /\ moves tag True b [] (b', es) /\ expired_done now b' /\
  Resets (stats b') = Resets (stats b) /\ started b' = started b.
Proof.
  unfold onTimer. rewrite pureStep_then. intros E Hg. pose proof (good_ring _ Hg) as Hr.
  set (b0 := with_timer false b) in *. assert (Hr0 : ring b0) by (constructor; apply Hr).
  apply andThen_inv in E as (b1 & e1 & e2 & E1 & E2 & ->).
  destruct (expire_run tag True _ _ _ _ E1 Hr0) as (Hm & Hd & Hh & Hf).
  pose proof (moves_ring _ _ _ _ _ Hm) as Hr1.
  apply frame_inv in Hf as (Ht & Hho & Hst & Hfl & Hres).
  assert (Hb' : b' = with_timer (0 <? occupied b1) b1).
  { destruct (Z.ltb_spec 0 (occupied b1)); injection E2 as <- <-; [done|].
    cbn in Ht. rewrite <- Ht. by destruct b1. }
  assert (He2 : moves tag True b1 [] (b', e2)).
  { apply moves_still; [done| |by rewrite Hb'].
    rewrite Hb'. constructor; cbn; [by constructor; apply Hr1| |].
    - destruct (0 <? occupied b1); injection E2 as _ <-; by rewrite app_nil_r.
    - destruct (0 <? occupied b1); injection E2 as _ <-; done. }
  assert (Hmm : moves tag True b [] (b', e1 ++ e2)).
  { apply (moves_start tag _ b b0); [done..|]. by apply (moves_seq tag _ b0 [] b1 e1 []). }
  split_and!; [|done| | |].
  - constructor; [by eapply moves_ring| | | | |].
    + rewrite Hb'. apply Hh. apply Hg.
    + rewrite Hb'. cbn. lia.
    + rewrite Hb'. cbn. rewrite Hfl. apply Hg.
    + rewrite Hb'. cbn. rewrite Hho. apply Hg.
    + rewrite Hb' at 1. cbn. rewrite Hst. intros Hs.
      eapply fresh_stays; [exact Hmm|]. by apply Hg.
  - rewrite Hb'. by apply expired_done_timer.
  - rewrite Hb'. exact Hres.
  - rewrite Hb'. exact Hst.
Qed.

Lemma close_run b b' es :
  Close b = (b', es) -> good b ->
  good b' /\ waiting b' = ∅ /\ occupied b' = 0 /\
  Resets (stats b') = Resets (stats b) /\ started b' = started b /\
  exists ps, effect tag True b [] (b', es) ps /\ StronglySorted Z.lt ps /\
    Forall (fun p => 0 <= p < Size) ps.
Proof.
  unfold Close. intros E Hg. pose proof (good_ring _ Hg) as Hr.
  apply andThen_inv in E as (b0 & e0 & e1 & E0 & E1 & ->).
  assert (Hb0 : b0 = with_timer false b /\ outs e0 = [] /\ inorder e0 = []).
  { destruct (timer b) eqn:Ht; injection E0 as <- <-; [done|]. split; [|done].
    destruct b; cbn in *. by rewrite Ht. }
  destruct Hb0 as (-> & Ho0 & Hi0). clear E0.
  set (b0 := with_timer false b) in *. assert (Hr0 : ring b0) by (constructor; apply Hr).
  destruct (flush_run tag True _ _ _ E1 Hr0) as (ps & He & Hn & Ho & Hw & Hs & Hf & Hfr).
  apply frame_inv in Hfr as (Ht & Hho & Hst & Hfl & Hres).
  split_and!; [|done|done|exact Hres|exact Hst|].
  - constructor; [apply He| |lia|by rewrite Hfl; apply Hg|by rewrite Hho; apply Hg|done].
    apply waiting_empty_head. by rewrite Hw.
  - exists ps. split_and!; [|done|done].
    apply (effect_start tag _ b b0); [done..|]. destruct He as [He1 He2 He3].
    constructor; cbn [fst snd] in *; [done|by rewrite outs_app, Ho0|].
    intros HQ Ht'. rewrite inorder_app, Hi0. by apply He3.
Qed.

Lemma hold_run d b : good b -> good (SetHold d b) /\ moves tag True b [] (SetHold d b, []).
Proof.
  intros Hg. unfold SetHold. split.
  - constructor; try apply Hg; [by constructor; apply Hg|]. cbn.
    unfold Millisecond. zcase; lia.
  - apply moves_still; [apply Hg| |done]. pose proof (good_ring _ Hg) as Hr.
    constructor; cbn; [by constructor; apply Hr|by rewrite app_nil_r|done].
Qed.

(** ** One public operation *)

Lemma exec_run o b b' es :
  exec o b = (b', es) -> good b -> op_ok o ->
  good b' /\ vals b ++ op_ins o ≡ₚ outs es ++ vals b' /\
  (o <> OpClose -> Resets (stats b') = Resets (stats b) ->
     moves tag (op_tagged o) (op_base o b) (op_ins o) (b', es)).
Proof.
  destruct o as [now seq v|d|now|now|]; cbn [exec op_ok op_ins op_tagged op_base]; intros E Hg Hok.
  - destruct (push_run _ _ _ _ _ _ E Hg Hok) as (? & ? & _ & ?). done.
  - injection E as <- <-. destruct (hold_run d b Hg) as [Hg' Hm].
    split_and!; [done|by eapply moves_perm|done].
  - destruct (tick_run _ _ _ _ E Hg) as (Hg' & Hm & _). split_and!; [done|by eapply moves_perm|done].
  - destruct (timer_run _ _ _ _ E Hg) as (Hg' & Hm & _). split_and!; [done|by eapply moves_perm|done].
  - destruct (close_run _ _ _ E Hg) as (Hg' & _ & _ & _ & _ & ps & He & _).
    split_and!; [done|apply (ef_perm _ _ _ _ _ _ He)|done].
Qed.

End Trace.
