(* ===== verification/ReorderSpec.v ===== *)
(** * The resequencing buffer: what a whole run guarantees

    Runs of public operations from a fresh buffer, as an inductive
    relation, and the theorems about every run: the invariant, conservation
    of packets, release order, bounded waiting, the end of the loops. *)

From stdpp Require Import sorting.
From S2P Require Import Prelude Reorder ReorderInv ReorderTrace.
#[local] Open Scope go_scope.

Section Spec.
Context {T : Type} `{GoZero T}.
Implicit Types (b : Buffer T) (es : list (event T)) (v : T) (o : op (T := T)).

(** [trace os es b]: the operations [os], run from [New], made the calls
    [es] and left the buffer [b]. *)
Inductive trace : list op -> list (event T) -> Buffer T -> Prop :=
  | trace_new : trace [] [] New
  | trace_snoc os es b o b' es' :
      trace os es b -> op_ok o -> exec o b = (b', es') -> trace (os ++ [o]) (es ++ es') b'.

Definition pushed (os : list op) : list T := os ≫= op_ins.

Lemma good_New : good (@New T).
Proof.
  constructor; cbn; done.
Qed.

Lemma trace_good os es b : trace os es b -> good b.
Proof.
  induction 1 as [|os es b o b' es' _ IH Hok E]; [apply good_New|].
  by eapply (exec_run (fun _ => 0)).
Qed.

Lemma trace_perm os es b : trace os es b -> pushed os ≡ₚ outs es ++ vals b.
Proof.
  induction 1 as [|os es b o b' es' Ht IH Hok E]; [done|].
  destruct (exec_run (fun _ => 0) _ _ _ _ E (trace_good _ _ _ Ht) Hok) as (_ & Hp & _).
  unfold pushed in *. rewrite bind_app, IH, outs_app. cbn. rewrite app_nil_r.
  by rewrite <- !app_assoc, Hp.
Qed.

(** ** Releases in sequence order *)

Section Order.
Context (tag : T -> Z).

(** A run in which no packet train far outside the window made the buffer
    restart, and which has not been closed. *)
Inductive calm : list op -> list (event T) -> Buffer T -> Prop :=
  | calm_new : calm [] [] New
  | calm_snoc os es b o b' es' :
      calm os es b -> op_ok o -> op_tagged tag o -> o <> OpClose ->
      exec o b = (b', es') -> Resets (stats b') = Resets (stats b) ->
      calm (os ++ [o]) (es ++ es') b'.

Lemma calm_trace os es b : calm os es b -> trace os es b.
Proof. induction 1; [constructor|by eapply trace_snoc]. Qed.

Lemma inorder_of_outs es : outs es = [] -> inorder es = [].
Proof. induction es as [|[v [|]|v|d|] es IH]; cbn; (done || auto). Qed.

(** What the releases made so far look like from the state reached. *)
Definition released_upto es b : Prop := exists n0 ps hi,
  path (-1) ps hi /\ nextExpected b = u32 (n0 + (hi + 1)) /\ tagged tag b /\
  tag <$> inorder es = (fun p => u32 (n0 + p)) <$> ps /\
  (started b = false -> ps = []).

Lemma released_begin seq es b :
  good b -> is_u32 seq -> released_upto es b -> released_upto es (begin seq b).
Proof.
  intros Hg Hu Hr. unfold begin. destruct (started b) eqn:Hs; [done|].
  destruct Hr as (n0 & ps & hi & _ & _ & Ht & Hi & Hp). rewrite Hp in Hi by done.
  exists seq, [], (-1). split_and!; [done| |done|done|done].
  cbn. rewrite Z.add_0_r. symmetry. by apply u32_id.
Qed.

Lemma released_moves Q es b ins b' es' :
  released_upto es b -> moves tag Q b ins (b', es') -> Q -> started b = true \/ inorder es' = [] ->
  (started b' = false -> started b = false) -> released_upto (es ++ es') b'.
Proof.
  intros (n0 & ps & hi & Hpath & Hn & Ht & Hi & Hst) (qs & adv & He & Hq & Hn') HQ Hs Hs'.
  destruct (ef_pos _ _ _ _ _ _ He HQ Ht) as [Ht' Hi'].
  exists n0, (ps ++ (Z.add (hi + 1) <$> qs)), (hi + adv). split_and!.
  - eapply path_app; [exact Hpath|]. apply (path_shift (hi + 1)) in Hq.
    replace (-1 + (hi + 1)) with hi in Hq by lia.
    by replace (adv - 1 + (hi + 1)) with (hi + adv) in Hq by lia.
  - cbn in Hn'. rewrite Hn', Hn. clear. mlia.
  - done.
  - rewrite inorder_app, !fmap_app, Hi. f_equal. cbn [snd] in Hi'. rewrite Hi'.
    rewrite <- list_fmap_compose. apply list_fmap_ext. intros _ p _. cbn.
    rewrite Hn. clear. mlia.
  - intros Hf%Hs'. rewrite Hst by done. destruct Hs as [Hs|Hs]; [congruence|].
    cbn [snd] in Hi'. rewrite Hs in Hi'. destruct qs; [done|discriminate].
Qed.

Lemma exec_started o b b' es :
  exec o b = (b', es) -> good b -> op_ok o ->
  (started b' = false -> started (op_base o b) = false) /\
  (started (op_base o b) = false -> op_ins o = [] /\ outs es = []).
Proof.
  intros E Hg Hok. destruct (exec_run tag _ _ _ _ E Hg Hok) as (_ & Hp & _).
  assert (Hout : op_ins o = [] -> started b = false -> outs es = []).
  { intros Hi Hs. rewrite Hi, (vals_empty b), (right_id_L [] app) in Hp by by apply Hg.
    symmetry in Hp. by apply Permutation_nil_r, app_eq_nil in Hp as [? _]. }
  destruct o as [now seq v|d|now|now|]; cbn [exec op_ok op_ins op_base] in *.
  - destruct (good_begin seq b Hg Hok) as [_ Hs].
    destruct (push_run tag _ _ _ _ _ _ E Hg Hok) as (_ & _ & Hs' & _).
    rewrite Hs, Hs'. done.
  - injection E as <- <-. auto.
  - destruct (tick_run tag _ _ _ _ E Hg) as (_ & _ & _ & _ & -> & _). auto.
  - destruct (timer_run tag _ _ _ _ E Hg) as (_ & _ & _ & _ & ->). auto.
  - destruct (close_run tag _ _ _ E Hg) as (_ & _ & _ & _ & -> & _). auto.
Qed.

Lemma calm_released os es b : calm os es b -> released_upto es b.
Proof.
  induction 1 as [|os es b o b' es' Hc IH Hok Htag Hcl E Hres].
  - exists 0, [], (-1). by split_and!.
  - pose proof (trace_good _ _ _ (calm_trace _ _ _ Hc)) as Hg.
    destruct (exec_run tag _ _ _ _ E Hg Hok) as (_ & _ & Hm).
    destruct (exec_started _ _ _ _ E Hg Hok) as [Hs Ho].
    eapply (released_moves _ _ (op_base o b)); [|by apply Hm|exact Htag| |exact Hs].
    + destruct o; [by apply released_begin|done..].
    + destruct (started (op_base o b)) eqn:Hb; [by left|right].
      by apply inorder_of_outs, Ho.
Qed.

Lemma path_adjacent ps : forall lo hi i p q,
  path lo ps hi -> ps !! i = Some p -> ps !! S i = Some q -> p < q <= p + (4 * Size + 1).
Proof.
  induction ps as [|p ps IH]; intros lo hi i x y; cbn; [done|]. intros [Hp Hps].
  destruct i as [|i]; cbn; [|by eapply IH].
  intros [= ->]. destruct ps as [|q ps]; cbn; [done|]. intros [= ->]. by destruct Hps.
Qed.

(** C3: Resequencing: in a run with no stream restart, the packets released in
    order carry strictly increasing positions of the sequence space, counted
    from the first packet's number, so each release is serially after the
    one before it and at most [4 * Size + 1] numbers away, across wrap-around
    of the 32-bit counter. *)
Theorem reorder_in_order os es b :
  calm os es b ->
  (exists n0 ps, StronglySorted Z.lt ps /\
     tag <$> inorder es = (fun p => u32 (n0 + p)) <$> ps) /\
  (forall i q q', (tag <$> inorder es) !! i = Some q -> (tag <$> inorder es) !! S i = Some q' ->
     0 < i32 (q' - q) <= 4 * Size + 1).
Proof.
  intros Hc. destruct (calm_released _ _ _ Hc) as (n0 & ps & hi & Hp & _ & _ & Hi & _).
  split; [exists n0, ps; split; [by eapply path_sorted|done]|].
  rewrite Hi. intros i q q' (p & -> & Hip)%list_lookup_fmap_Some_1
    (p' & -> & Hip')%list_lookup_fmap_Some_1.
  pose proof (path_adjacent _ _ _ _ _ _ Hp Hip Hip') as Ha.
  rewrite Size_eq in *. clear - Ha. mlia.
Qed.

End Order.

(** ** Bounded waiting *)

Lemma release_waiting i s b : waiting (release i s b).1 ⊆ waiting b.
Proof.
  intros. unfold release. cbn [fst].
  change (waiting (with_occupied ?n ?b')) with (waiting b').
  rewrite waiting_with_slot_free by done. apply delete_subseteq.
Qed.

Lemma drain_waiting fuel : forall b, waiting (drain_loop fuel b).1 ⊆ waiting b.
Proof.
  induction fuel as [|fuel IH]; intros b; cbn [drain_loop]; [done|].
  destruct (head_ready b); [|done]. rewrite !andThen_fst.
  etrans; [apply IH|]. apply release_waiting.
Qed.

Lemma expire_waiting now fuel : forall b, waiting (expire_loop fuel now b).1 ⊆ waiting b.
Proof.
  induction fuel as [|fuel IH]; intros b; cbn [expire_loop]; [done|].
  destruct (0 <? occupied b); [|done]. destruct (find_first _ _ _) as [s|]; [|done].
  destruct (_ <? _); [done|]. rewrite !andThen_fst.
  etrans; [apply IH|]. apply (drain_waiting _ (with_next _ (with_stats _ b))).
Qed.

(** [head_of b s]: [s] is the waiting slot with the lowest number. *)
Definition head_of b (s : slot T) : Prop :=
  waiting b !! (s_seq s mod Size) = Some s /\
  forall j t, waiting b !! j = Some t -> off b (s_seq s) <= off b (s_seq t).

Lemma expired_head now b :
  ring b -> expired_done now b ->
  waiting b = ∅ \/ exists s, head_of b s /\ Sub now (s_arrival s) < hold b.
Proof.
  intros Hr [Ho|(s & Hs & Hy)].
  - left. apply map_size_empty_iff. pose proof (ring_count _ Hr). lia.
  - right. exists s. pose proof (find_first_spec (fun _ : T => 0) (Z.to_nat Size) 0 b Hr) as Hf.
    rewrite Hs in Hf. destruct Hf as (p & Hp & Hq & Hw & Hmin);
      [lia|rewrite Size_eq; lia|intros; apply off_range|].
    split; [split; [done|]|done]. intros j t Ht. rewrite Hq, off_next; [by eapply Hmin|].
    rewrite Size_eq in Hp. lia.
Qed.

(** ** Theorems *)

(** Every state the public operations reach from a fresh buffer is well
    formed: the occupied slots are exactly those counted, each sits at its
    number modulo the ring size and less than [Size] ahead of the release
    point; the release point itself is never left ready; the gap timer is
    armed whenever a packet waits; and the hold time stays in its clamp. *)
Theorem reorder_invariant os es b : trace os es b -> good b.
Proof. apply trace_good. Qed.

(** C12: Conservation: whatever the order of operations, the packets pushed so far
    are, as a multiset, those handed to the delivery or drop callback plus
    those still waiting, and once the buffer is closed none is waiting: no
    packet buffer leaks and none is handed out twice. *)
Theorem reorder_conservation os es b b' es' :
  trace os es b -> Close b = (b', es') ->
  pushed os ≡ₚ outs es ++ vals b /\ pushed os ≡ₚ outs (es ++ es') /\ timer b' = false.
Proof.
  intros Ht E. pose proof (trace_good _ _ _ Ht) as Hg. pose proof (trace_perm _ _ _ Ht) as Hp.
  destruct (close_run (fun _ => 0) _ _ _ E Hg) as (_ & Hw & _ & _ & _ & ps & He & _).
  split_and!; [done| |].
  - rewrite outs_app, Hp. apply Permutation_app_head.
    pose proof (ef_perm _ _ _ _ _ _ He) as Hc. cbn [fst snd] in Hc.
    by rewrite (vals_empty b'), !app_nil_r in Hc.
  - unfold Close in E. apply andThen_inv in E as (b0 & e0 & e1 & E0 & E1 & ->).
    pose proof (flushLocked_frame b0) as Hf. rewrite E1 in Hf.
    apply frame_inv in Hf as (Hf & _). cbn [fst] in Hf. rewrite Hf.
    destruct (timer b) eqn:Hb; injection E0 as <- <-; done.
Qed.

(** C31: Bounded waiting: after [Tick] either nothing waits or the lowest
    waiting number arrived less than the hold time ago; when every waiting
    packet has aged at least the hold time, [Tick] releases all of them. *)
Theorem reorder_tick_expires os es b now b' es' :
  trace os es b -> Tick now b = (b', es') ->
  (waiting b' = ∅ \/ exists s, head_of b' s /\ Sub now (s_arrival s) < hold b') /\
  ((forall i s, waiting b !! i = Some s -> hold b <= Sub now (s_arrival s)) ->
     occupied b' = 0 /\ vals b ≡ₚ outs es').
Proof.
  intros Ht E. pose proof (trace_good _ _ _ Ht) as Hg.
  destruct (tick_run (fun _ => 0) _ _ _ _ E Hg) as (Hg' & Hm & Hd & _).
  pose proof (expired_head _ _ (good_ring _ Hg') Hd) as Hh. split; [done|]. intros Hall.
  assert (Hw : waiting b' = ∅).
  { destruct Hh as [|(s & [Hs _] & Hy)]; [done|].
    pose proof (expire_waiting now (Z.to_nat Size) b) as Hsub. fold (expireLocked now) in Hsub.
    pose proof (expire_frame now (Z.to_nat Size) b) as Hf. fold (expireLocked now) in Hf.
    unfold Tick in E. rewrite E in Hsub, Hf. apply frame_inv in Hf as (_ & Hho & _).
    cbn [fst] in Hho, Hsub. eapply lookup_weaken in Hs; [|exact Hsub].
    specialize (Hall _ _ Hs). lia. }
  split; [rewrite (ring_count _ (good_ring _ Hg')), Hw; by rewrite map_size_empty|].
  apply moves_perm in Hm. by rewrite (vals_empty b'), !app_nil_r in Hm.
Qed.

(** ** The loops end by themselves *)

Lemma drain_loop_stop n b : head_ready b = false -> drain_loop n b = (b, []).
Proof. intros Hh. destruct n; cbn [drain_loop]; [done|]. by rewrite Hh. Qed.

Lemma drain_loop_add n k b : drain_loop (n + k) b = (drain_loop n ;; drain_loop k) b.
Proof.
  revert b. induction n as [|n IH]; intros b; cbn [Nat.add].
  { rewrite andThen_eq. cbn [drain_loop fst snd app]. apply surjective_pairing. }
  destruct (head_ready b) eqn:Hh.
  - rewrite (andThen_eq (drain_loop (S n))), !(drain_loop_cons _ _ Hh), !(andThen_eq (_ ;; _)). cbn [fst snd].
    rewrite !IH, !andThen_eq. cbn [fst snd]. by rewrite ?app_assoc.
  - by rewrite andThen_eq, !drain_loop_stop by (by rewrite ?drain_loop_stop).
Qed.

Lemma expire_loop_add now n k b : expire_loop (n + k) now b = (expire_loop n now ;; expire_loop k now) b.
Proof.
  revert b. induction n as [|n IH]; intros b; cbn [Nat.add].
  { rewrite andThen_eq. cbn [expire_loop fst snd app]. apply surjective_pairing. }
  rewrite (andThen_eq (expire_loop (S n) now)). cbn [expire_loop]. destruct (0 <? occupied b) eqn:Ho.
  2:{ destruct k; cbn [expire_loop fst snd]; [done|]. by rewrite Ho. }
  destruct (find_first (Z.to_nat Size) 0 b) as [first|] eqn:Hf.
  2:{ destruct k; cbn [expire_loop fst snd]; [done|]. by rewrite Ho, Hf. }
  destruct (Sub now (s_arrival first) <? hold b) eqn:Hy.
  { destruct k; cbn [expire_loop fst snd]; [done|]. by rewrite Ho, Hf, Hy. }
  rewrite !andThen_eq. cbn [fst snd]. rewrite IH, !andThen_eq. cbn [fst snd]. by rewrite !app_assoc.
Qed.

Lemma expired_stays now n b : ring b -> expired_done now b -> expire_loop n now b = (b, []).
Proof.
  intros Hr Hd. destruct n as [|n]; [done|]. cbn [expire_loop].
  destruct Hd as [->|(first & -> & Hy)]; [done|]. destruct (0 <? occupied b); [|done].
  by destruct (Z.ltb_spec (Sub now (s_arrival first)) (hold b)); [|lia].
Qed.

Lemma drain_loop_more n k b : head_ready (drain_loop n b).1 = false -> drain_loop (n + k) b = drain_loop n b.
Proof.
  intros Hh. rewrite drain_loop_add, andThen_eq, (drain_loop_stop k) by done. cbn [fst snd].
  by rewrite app_nil_r, <- surjective_pairing.
Qed.

Lemma expire_loop_more now n k b :
  ring (expire_loop n now b).1 -> expired_done now (expire_loop n now b).1 ->
  expire_loop (n + k) now b = expire_loop n now b.
Proof.
  intros Hr Hd. rewrite expire_loop_add, andThen_eq, (expired_stays now k) by done. cbn [fst snd].
  by rewrite app_nil_r, <- surjective_pairing.
Qed.

Lemma drain_rounds n b :
  ring b -> (Z.to_nat Size <= n)%nat -> drain_loop n b = drainLocked b /\ head_ready (drainLocked b).1 = false.
Proof.
  intros Hr Hn. destruct (Nat.le_exists_sub _ _ Hn) as (k & -> & _). rewrite (Nat.add_comm k).
  destruct (drainLocked_done (fun _ => 0) True b Hr) as (j & _ & _ & _ & Hh & _).
  split; [by apply drain_loop_more|done].
Qed.

(** The operations with [n] rounds for every run of the loops of
    [drainLocked] and [expireLocked], wherever they are called. *)
Section Rounds.
Context (n : nat).

Definition pushFarN (now seq : Z) (val : T) : act (Buffer T) (event T) := fun b =>
  let b := with_farLate (farLate b + 1) b in
  if resetThreshold <=? farLate b then
    (resetLocked seq ;; insertLocked now seq val ;; drain_loop n) b
  else (with_stats inc_late b, [Drop val]).

Definition pushWindowN (now seq : Z) (val : T) : act (Buffer T) (event T) :=
  pureStep (with_farLate 0) ;; insertLocked now seq val ;; drain_loop n ;; armTimerLocked.

Definition PushN (now seq : Z) (val : T) : act (Buffer T) (event T) := fun b =>
  let b := if started b then b else with_next seq (with_started true b) in
  let diff := i32 (seq - nextExpected b) in
  if diff <? 0 then
    if diff <? - Size then pushFarN now seq val b
    else (with_stats inc_late b, [Deliver val true])
  else if Size <=? diff then
    if 4 * Size <? diff then pushFarN now seq val b
    else
      (pureStep (with_stats inc_overflows) ;; flushLocked ;; pureStep (with_next seq)
       ;; pushWindowN now seq val) b
  else pushWindowN now seq val b.

Fixpoint expireN (rounds : nat) (now : Z) : act (Buffer T) (event T) := fun b =>
  match rounds with
  | O => (b, [])
  | S rounds =>
      if 0 <? occupied b then
        match find_first (Z.to_nat Size) 0 b with
        | None => (b, [])
        | Some first =>
            if Sub now (s_arrival first) <? hold b then (b, [])
            else
              (pureStep (fun b => with_next (s_seq first) (with_stats inc_timedOut b))
               ;; drain_loop n ;; expireN rounds now) b
        end
      else (b, [])
  end.

Definition execN (o : op) : act (Buffer T) (event T) :=
  match o with
  | OpPush now seq v => PushN now seq v
  | OpSetHold d => pureStep (SetHold d)
  | OpTick now => expireN n now
  | OpTimer now =>
      pureStep (with_timer false) ;; expireN n now
      ;; (fun b => if 0 <? occupied b then (with_timer true b, [AfterFunc (hold b)]) else (b, []))
  | OpClose => Close
  end.

Hypothesis enough : (Z.to_nat Size <= n)%nat.

(** Replacing what comes second. *)
Lemma then_ext (f g g' : act (Buffer T) (event T)) b : g (f b).1 = g' (f b).1 -> (f ;; g) b = (f ;; g') b.
Proof. rewrite !andThen_eq. by intros ->. Qed.

Lemma insert_ring now seq v b : ring b -> is_u32 seq -> off b seq < Size -> ring (insertLocked now seq v b).1.
Proof. intros Hr Hu Ho. by destruct (insertLocked_spec (fun _ => 0) now seq v b Hr Hu Ho) as [[] _]. Qed.

Lemma window_rounds now seq v b :
  ring b -> is_u32 seq -> off b seq < Size -> pushWindowN now seq v b = pushWindow now seq v b.
Proof.
  intros Hr Hu Ho. unfold pushWindowN, pushWindow. apply then_ext, then_ext. cbn [pureStep fst].
  assert (Hr1 : ring (insertLocked now seq v (with_farLate 0 b)).1) by (apply insert_ring; [constructor; apply Hr|done|done]).
  rewrite !andThen_eq. by rewrite (proj1 (drain_rounds n _ Hr1 enough)).
Qed.

(** After everything is flushed, the ring is empty and can start anywhere. *)
Lemma flushed_ring seq b : ring b -> is_u32 seq -> ring (with_next seq (flushLocked b).1).
Proof.
  intros Hr Hu. destruct (flushLocked_spec (fun _ => 0) True b Hr) as (ps & _ & _ & Ho & Hw & _).
  by apply ring_jump.
Qed.

Lemma far_rounds now seq v b : ring b -> is_u32 seq -> pushFarN now seq v b = pushFar now seq v b.
Proof.
  intros Hr Hu. unfold pushFarN, pushFar. set (b0 := with_farLate (farLate b + 1) b).
  destruct (_ <=? _); [|done]. apply then_ext, then_ext.
  assert (Hr0 : ring (with_next seq (flushLocked b0).1)) by (apply flushed_ring; [constructor; apply Hr|done]).
  assert (Hr1 : ring (resetLocked seq b0).1).
  { unfold resetLocked. rewrite andThen_fst. revert Hr0. generalize (flushLocked b0).1. intros b1 Hr0.
    constructor; apply Hr0. }
  assert (Hn : nextExpected (resetLocked seq b0).1 = seq).
  { unfold resetLocked. rewrite andThen_fst. by generalize (flushLocked b0).1. }
  assert (Hr2 : ring (insertLocked now seq v (resetLocked seq b0).1).1).
  { apply insert_ring; [done|done|]. rewrite ring_off_self, Size_eq by done. lia. }
  exact (proj1 (drain_rounds n _ Hr2 enough)).
Qed.

Lemma push_rounds now seq v b : good b -> is_u32 seq -> PushN now seq v b = Push now seq v b.
Proof.
  intros Hg0 Hu. destruct (good_begin seq b Hg0 Hu) as [Hg _]. unfold PushN, Push. fold (begin seq b).
  pose proof (good_ring _ Hg) as Hr. revert Hr. generalize (begin seq b). clear -enough Hu. intros b Hr.
  destruct (Z.ltb_spec (i32 (seq - nextExpected b)) 0); [destruct (_ <? - Size); [by apply far_rounds|done]|].
  destruct (Z.leb_spec Size (i32 (seq - nextExpected b))) as [Hbig|Hsmall].
  - destruct (4 * Size <? _); [by apply far_rounds|]. apply then_ext, then_ext, then_ext. cbn [pureStep fst].
    assert (Hr1 : ring (with_next seq (flushLocked (with_stats inc_overflows b)).1))
      by (apply flushed_ring; [constructor; apply Hr|done]).
    revert Hr1. generalize (flushLocked (with_stats inc_overflows b)).1. intros b1 Hr1.
    apply window_rounds; [done|done|]. rewrite ring_off_self, Size_eq by done. lia.
  - apply window_rounds; [done|done|]. unfold off. rewrite Size_eq in Hsmall |- *. mlia.
Qed.

Lemma expire_rounds now rounds : forall b, ring b -> expireN rounds now b = expire_loop rounds now b.
Proof.
  induction rounds as [|rounds IH]; intros b Hr; cbn [expireN expire_loop]; [done|].
  destruct (0 <? occupied b); [|done]. destruct (find_first (Z.to_nat Size) 0 b) as [first|] eqn:Hf; [|done].
  destruct (_ <? _); [done|]. destruct (expire_step (fun _ => 0) True b first Hr Hf) as ((? & ? & [Hr1 _ _] & _) & _ & _).
  rewrite pureStep_then in Hr1. rewrite !pureStep_then.
  assert (Hr0 : ring (with_next (s_seq first) (with_stats inc_timedOut b))) by by apply skipped_ring.
  rewrite !andThen_eq, (proj1 (drain_rounds n _ Hr0 enough)). by rewrite IH.
Qed.

End Rounds.

(** C32: The unbounded loops of the buffer end. Take any operation on any
    buffer a run can reach, and allow every loop it runs ([drainLocked], in
    the middle of a push or of an expiry, and [expireLocked]) any number of
    rounds, at least as many as the ring has slots: the state and the calls
    made are always those of the operation. So every loop leaves by its own
    condition within that many rounds; and after the operation the next number
    is not waiting, and after an expiry nothing waits or the first waiting
    packet is younger than the hold time. *)
Theorem reorder_loops_end os es b o n :
  trace os es b -> op_ok o -> (Z.to_nat Size <= n)%nat ->
  execN n o b = exec o b /\ head_ready (exec o b).1 = false /\
  match o with
  | OpTick now | OpTimer now => expired_done now (exec o b).1
  | _ => True
  end.
Proof.
  intros Ht Ho Hn. pose proof (trace_good _ _ _ Ht) as Hg. pose proof (good_ring _ Hg) as Hr.
  assert (Hx : forall now b, ring b -> expireN n n now b = expireLocked now b).
  { intros now b0 Hr0. rewrite expire_rounds by done. destruct (Nat.le_exists_sub _ _ Hn) as (k & -> & _).
    rewrite (Nat.add_comm k). destruct (expireLocked_spec (fun _ => 0) True now b0 Hr0) as (Hm & Hd & _).
    apply expire_loop_more; [by destruct Hm as (? & ? & [] & _)|done]. }
  assert (Hg' : good (exec o b).1).
  { destruct (exec o b) as [b' es'] eqn:E. by destruct (exec_run (fun _ => 0) _ _ _ _ E Hg Ho). }
  split_and!; [|apply Hg'|].
  - destruct o as [now seq v|d|now|now|]; cbn [execN exec]; [by apply push_rounds|done|by apply Hx| |done].
    unfold onTimer. apply then_ext. cbn [pureStep fst]. rewrite !andThen_eq, Hx; [done|]. constructor; apply Hr.
  - destruct o as [| |now|now|]; try done; cbn [exec].
    + by destruct (expireLocked_spec (fun _ => 0) True now b Hr) as (_ & ? & _).
    + unfold onTimer. rewrite !andThen_fst. cbn [pureStep fst].
      assert (Hr1 : ring (with_timer false b)) by (constructor; apply Hr).
      destruct (expireLocked_spec (fun _ => 0) True now _ Hr1) as (_ & Hd & _).
      revert Hd. generalize (expireLocked now (with_timer false b)).1. intros b1 Hd.
      destruct (0 <? occupied b1); [|done]. exact Hd.
Qed.

End Spec.

(** ** A concrete run: packets 7, 9 and 8, each carrying its number *)

#[global] Instance Z_zero : GoZero Z := 0.

Definition demo_ops : list (op (T := Z)) := [OpPush 10 7 7; OpPush 20 9 9].

Definition demo : Buffer Z * list (event Z) := Eval vm_compute in run demo_ops New.

Lemma demo_calm : calm id demo_ops demo.2 demo.1.
Proof.
  apply (calm_snoc id [OpPush 10 7 7] [Deliver 7 false]
           (run [OpPush 10 7 7] New).1 (OpPush 20 9 9) demo.1 [AfterFunc DefaultHold]);
    [|done|done|done|by vm_compute|by vm_compute].
  apply (calm_snoc id [] [] New (OpPush 10 7 7) _ [Deliver 7 false]);
    [constructor|done|done|done|by vm_compute|by vm_compute].
Qed.

Lemma reorder_invariant_witness : good demo.1.
Proof. apply (reorder_invariant demo_ops demo.2), (calm_trace id), demo_calm. Defined.

Lemma reorder_conservation_witness :
  pushed demo_ops ≡ₚ outs demo.2 ++ vals demo.1 /\
  pushed demo_ops ≡ₚ outs (demo.2 ++ (Close demo.1).2) /\ timer (Close demo.1).1 = false.
Proof.
  apply (reorder_conservation demo_ops demo.2 demo.1); [apply (calm_trace id), demo_calm|].
  apply surjective_pairing.
Defined.

Lemma reorder_in_order_witness :
  (exists n0 ps, StronglySorted Z.lt ps /\
     id <$> inorder demo.2 = (fun p => u32 (n0 + p)) <$> ps) /\
  (forall i q q', (id <$> inorder demo.2) !! i = Some q -> (id <$> inorder demo.2) !! S i = Some q' ->
     0 < i32 (q' - q) <= 4 * Size + 1).
Proof. apply (reorder_in_order id demo_ops demo.2 demo.1), demo_calm. Defined.

Definition demo_tick : Buffer Z * list (event Z) := Eval vm_compute in Tick (90 * Millisecond) demo.1.

Lemma reorder_tick_expires_witness :
  (waiting demo_tick.1 = ∅ \/
     exists s, head_of demo_tick.1 s /\ Sub (90 * Millisecond) (s_arrival s) < hold demo_tick.1) /\
  occupied demo_tick.1 = 0 /\ vals demo.1 ≡ₚ outs demo_tick.2.
Proof.
  assert (E : Tick (90 * Millisecond) demo.1 = (demo_tick.1, demo_tick.2)) by by vm_compute.
  destruct (reorder_tick_expires demo_ops demo.2 demo.1 _ _ _ (calm_trace id _ _ _ demo_calm) E)
    as [H1 H2].
  split; [exact H1|apply H2]. intros i s [Hs Ho]%waiting_lookup.
  assert (map_Forall (fun _ s => s_occupied s = true -> hold demo.1 <= Sub (90 * Millisecond) (s_arrival s))
            (slots demo.1)) as Hall by (apply (bool_decide_unpack _); by vm_compute).
  by apply (Hall i s Hs).
Defined.

(** Number 8 fills the gap before 9; or the gap expires. Both loops run. *)
Lemma reorder_loops_end_witness :
  let push := OpPush 30 8 8 in let tick := OpTick (90 * Millisecond) in
  (execN (Z.to_nat Size + 5) push demo.1 = exec push demo.1 /\ outs (exec push demo.1).2 = [8; 9]) /\
  (execN (Z.to_nat Size + 5) tick demo.1 = exec tick demo.1 /\ outs (exec tick demo.1).2 = [9] /\
   expired_done (90 * Millisecond) (exec tick demo.1).1).
Proof.
  intros push tick.
  destruct (reorder_loops_end demo_ops demo.2 demo.1 push (Z.to_nat Size + 5)
    (calm_trace id _ _ _ demo_calm)) as (H1 & _); [done|apply Nat.le_add_r|].
  destruct (reorder_loops_end demo_ops demo.2 demo.1 tick (Z.to_nat Size + 5)
    (calm_trace id _ _ _ demo_calm)) as (H2 & _ & H3); [done|apply Nat.le_add_r|].
  assert (E1 : outs (exec push demo.1).2 = [8; 9]) by (vm_compute; reflexivity).
  assert (E2 : outs (exec tick demo.1).2 = [9]) by (vm_compute; reflexivity).
  exact (conj (conj H1 E1) (conj H2 (conj E2 H3))).
Defined.
