(* ===== verification/Control.v ===== *)
(** * The authenticated control plane: internal/wire/hmac.go, internal/control

    HELLO, BYE, PROBE, PROBE_ACK and CTRL datagrams: encoders, parsers, the
    authentication tag around them and the replay window. BLAKE2s is an
    interface; everything else is the code. *)

From Stdlib Require Import String Ascii.
From S2P Require Import Prelude Wire.

(** ** wire/hmac.go *)

(** golang.org/x/crypto/blake2s: [sum128 key] is the keyed 16-byte digest
    ([New128], [Write], [Sum]) and [sum256] the 32-byte one. All the code
    relies on is that a digest has its length and consists of bytes. *)
Class Blake2s := {
  sum128 : list Z -> list Z -> list Z;
  sum256 : list Z -> list Z;
  sum128_len : forall key msg, length (sum128 key msg) = MACSize;
  sum128_bytes : forall key msg, is_bytes (sum128 key msg);
  sum256_len : forall msg, length (sum256 msg) = 32%nat;
}.

Definition KeySize : nat := 32.

Definition bytes_of_string (s : string) : list Z :=
  (fun c => Z.of_N (N_of_ascii c)) <$> list_ascii_of_string s.

Record MAC := mkMAC { key : list Z }.

(** [NewMAC(key)]. *)
Definition NewMAC (key : list Z) : MAC := mkMAC key.

Section Mac.
Context `{Blake2s}.

Definition DeriveKey (psk : list Z) : list Z :=
  sum256 (bytes_of_string "treccia-control-v1:" ++ psk).

Definition Sum (m : MAC) (msg : list Z) : list Z := sum128 (key m) msg.

Definition AppendTag (m : MAC) (buf : list Z) : list Z := buf ++ Sum m buf.

(** [Verify] returns [(msg, true)] as [Some msg]. *)
Definition Verify (m : MAC) (buf : list Z) : wire (option (list Z)) :=
  if decide (length buf < MACSize)%nat then Ret None else
  msg ← slice buf 0 (length buf - MACSize);
  got ← slice_from buf (length buf - MACSize);
  Ret (if decide (got = Sum m msg) then Some msg else None).

(** ** control/hello.go *)

Definition ReplayWindow : Z := 30 * Second.

(** [now] is [now.Unix()], seconds. *)
Definition FreshTS (unixTS now : Z) : bool :=
  let d := i64 (now - unixTS) in
  let d := if d <? 0 then i64 (- d) else d in
  d <=? ReplayWindow / Second.

Record Hello := mkHello {
  heSession : Z;
  ClientID : Z;
  Features : Z;
  heUnixTS : Z;
}.

Definition helloBodySize : nat := 4 + 8 + 4 + 8.
Definition HelloSize : nat := HeaderSize + helloBodySize + MACSize.

Definition with_type (h : Header) (t : Z) : Header :=
  mkHeader t (hFlags h) (hPathID h) (hEpoch h).

(** The zeroed buffer [make([]byte, n)]. *)
Definition make (n : nat) : list Z := replicate n 0.

Definition EncodeHello (h : Header) (m : Hello) (mac : MAC) (ack : bool) : wire (list Z) :=
  let h := with_type h (if ack then TypeHelloAck else TypeHello) in
  buf ← PutHeader (make (HeaderSize + helloBodySize)) h;
  buf ← put buf 4 (be 4 (heSession m));
  buf ← put buf 8 (be 8 (ClientID m));
  buf ← put buf 16 (be 4 (Features m));
  buf ← put buf 20 (be 8 (u64 (heUnixTS m)));
  Ret (AppendTag mac buf).

(** The common prologue of the parsers: authenticate, check the length,
    decode the header and check its type; any failure is [ok = false]. *)
Definition openMsg {A} (datagram : list Z) (mac : MAC) (len_ok : nat -> bool)
    (type_ok : Z -> bool) (decode : list Z -> wire (option A)) : wire (option (Header * A)) :=
  v ← Verify mac datagram;
  match v with
  | None => Ret None
  | Some msg =>
      if negb (len_ok (length msg)) then Ret None else
      match ParseHeader msg with
      | Panic => Panic
      | Err _ => Ret None
      | Ret h =>
          if negb (type_ok (hType h)) then Ret None else
          r ← decode msg;
          Ret (match r with Some m => Some (h, m) | None => None end)
      end
  end.

Definition ParseHello (datagram : list Z) (mac : MAC) : wire (option (Header * Hello)) :=
  openMsg datagram mac (fun n => bool_decide (n = HeaderSize + helloBodySize)%nat)
    (fun t => (t =? TypeHello) || (t =? TypeHelloAck))
    (fun msg =>
       session ← get_be 4 msg 4;
       clientID ← get_be 8 msg 8;
       features ← get_be 4 msg 16;
       ts ← get_be 8 msg 20;
       Ret (Some (mkHello session clientID features (i64 ts)))).

Record Bye := mkBye { bySession : Z; byUnixTS : Z }.

Definition byeBodySize : nat := 4 + 8.
Definition ByeSize : nat := HeaderSize + byeBodySize + MACSize.

Definition EncodeBye (h : Header) (m : Bye) (mac : MAC) : wire (list Z) :=
  let h := with_type h TypeBye in
  buf ← PutHeader (make (HeaderSize + byeBodySize)) h;
  buf ← put buf 4 (be 4 (bySession m));
  buf ← put buf 8 (be 8 (u64 (byUnixTS m)));
  Ret (AppendTag mac buf).

Definition ParseBye (datagram : list Z) (mac : MAC) : wire (option (Header * Bye)) :=
  openMsg datagram mac (fun n => bool_decide (n = HeaderSize + byeBodySize)%nat)
    (fun t => t =? TypeBye)
    (fun msg =>
       session ← get_be 4 msg 4;
       ts ← get_be 8 msg 8;
       Ret (Some (mkBye session (i64 ts)))).

(** ** control/probe.go *)

Record Probe := mkProbe { prSession : Z; prSeq : Z; prTxTS : Z }.

Definition probeBodySize : nat := 4 + 4 + 8.
Definition ProbeSize : nat := HeaderSize + probeBodySize + MACSize.

Definition EncodeProbe (h : Header) (p : Probe) (mac : MAC) : wire (list Z) :=
  let h := with_type h TypeProbe in
  buf ← PutHeader (make (HeaderSize + probeBodySize)) h;
  buf ← put buf 4 (be 4 (prSession p));
  buf ← put buf 8 (be 4 (prSeq p));
  buf ← put buf 12 (be 8 (prTxTS p));
  Ret (AppendTag mac buf).

Definition ParseProbe (datagram : list Z) (mac : MAC) : wire (option (Header * Probe)) :=
  openMsg datagram mac (fun n => bool_decide (n = HeaderSize + probeBodySize)%nat)
    (fun t => t =? TypeProbe)
    (fun msg =>
       session ← get_be 4 msg 4;
       seq ← get_be 4 msg 8;
       ts ← get_be 8 msg 12;
       Ret (Some (mkProbe session seq ts))).

Record ProbeAck := mkProbeAck { paSession : Z; paSeq : Z; paTxTS : Z; HoldUS : Z }.

Definition probeAckBodySize : nat := 4 + 4 + 8 + 4.
Definition ProbeAckSize : nat := HeaderSize + probeAckBodySize + MACSize.

Definition EncodeProbeAck (h : Header) (p : ProbeAck) (mac : MAC) : wire (list Z) :=
  let h := with_type h TypeProbeAck in
  buf ← PutHeader (make (HeaderSize + probeAckBodySize)) h;
  buf ← put buf 4 (be 4 (paSession p));
  buf ← put buf 8 (be 4 (paSeq p));
  buf ← put buf 12 (be 8 (paTxTS p));
  buf ← put buf 20 (be 4 (HoldUS p));
  Ret (AppendTag mac buf).

Definition ParseProbeAck (datagram : list Z) (mac : MAC) : wire (option (Header * ProbeAck)) :=
  openMsg datagram mac (fun n => bool_decide (n = HeaderSize + probeAckBodySize)%nat)
    (fun t => t =? TypeProbeAck)
    (fun msg =>
       session ← get_be 4 msg 4;
       seq ← get_be 4 msg 8;
       ts ← get_be 8 msg 12;
       holdUS ← get_be 4 msg 20;
       Ret (Some (mkProbeAck session seq ts holdUS))).

(** ** control/ctrl.go *)

Definition tlvPathStats : Z := 1.

Record PathStats := mkPathStats {
  psPathID : Z;
  Highest : Z;
  RxPkts : Z;
  RxBytes : Z;
  OwdMinUS : Z;
  OwdAvgUS : Z;
}.

Definition pathStatsSize : nat := 1 + 4 + 4 + 8 + 4 + 4.

Record Ctrl := mkCtrl { ctSession : Z; ctPaths : list PathStats }.

Definition MaxCtrlPaths : nat := 40.

(** One [rec [2 + pathStatsSize]byte]. *)
Definition encodeRec (ps : PathStats) : wire (list Z) :=
  rec ← put (make (2 + pathStatsSize)) 0 [tlvPathStats];
  rec ← put rec 1 [Z.of_nat pathStatsSize];
  rec ← put rec 2 [psPathID ps];
  rec ← put rec 3 (be 4 (Highest ps));
  rec ← put rec 7 (be 4 (RxPkts ps));
  rec ← put rec 11 (be 8 (RxBytes ps));
  rec ← put rec 19 (be 4 (OwdMinUS ps));
  put rec 23 (be 4 (OwdAvgUS ps)).

Fixpoint appendRecs (buf : list Z) (paths : list PathStats) : wire (list Z) :=
  match paths with
  | [] => Ret buf
  | ps :: paths => rec ← encodeRec ps; appendRecs (buf ++ rec) paths
  end.

Definition EncodeCtrl (h : Header) (c : Ctrl) (mac : MAC) : wire (list Z) :=
  let h := with_type h TypeCtrl in
  let n := if decide (MaxCtrlPaths < length (ctPaths c))%nat
           then MaxCtrlPaths else length (ctPaths c) in
  buf ← PutHeader (make (HeaderSize + 4)) h;
  buf ← put buf 4 (be 4 (ctSession c));
  paths ← slice (ctPaths c) 0 n;
  buf ← appendRecs buf paths;
  Ret (AppendTag mac buf).

Definition decodeStats (body : list Z) : wire PathStats :=
  id ← idx body 0;
  highest ← get_be 4 body 1;
  rxPkts ← get_be 4 body 5;
  rxBytes ← get_be 8 body 9;
  owdMin ← get_be 4 body 17;
  owdAvg ← get_be 4 body 21;
  Ret (mkPathStats id highest rxPkts rxBytes owdMin owdAvg).

(** The record loop of [ParseCtrl]; every round consumes at least two bytes,
    so [length rest] rounds are enough. *)
Fixpoint parseRecs (fuel : nat) (rest : list Z) (acc : list PathStats)
    : wire (option (list PathStats)) :=
  match fuel with
  | O => Ret (Some acc)
  | S fuel =>
      if decide (2 <= length rest)%nat then
        typ ← idx rest 0;
        l ← idx rest 1;
        if decide (length rest < 2 + Z.to_nat l)%nat then Ret None else
        body ← slice rest 2 (2 + Z.to_nat l);
        rest ← slice_from rest (2 + Z.to_nat l);
        if negb (typ =? tlvPathStats) || negb (l =? Z.of_nat pathStatsSize)
        then parseRecs fuel rest acc
        else ps ← decodeStats body; parseRecs fuel rest (acc ++ [ps])
      else Ret (Some acc)
  end.

Definition ParseCtrl (datagram : list Z) (mac : MAC) : wire (option (Header * Ctrl)) :=
  openMsg datagram mac (fun n => bool_decide (HeaderSize + 4 <= n)%nat)
    (fun t => t =? TypeCtrl)
    (fun msg =>
       session ← get_be 4 msg 4;
       rest ← slice_from msg (HeaderSize + 4);
       ps ← parseRecs (length rest) rest [];
       Ret (match ps with Some ps => Some (mkCtrl session ps) | None => None end)).

(** ** The tag *)

Lemma Verify_iff mac d msg :
  Verify mac d = Ret (Some msg) <-> d = AppendTag mac msg.
Proof.
  unfold Verify, AppendTag. assert (Hl : length (Sum mac msg) = MACSize) by apply sum128_len.
  split.
  - case_decide as Hd; [done|]. rewrite slice_le, slice_from_le by lia. cbn.
    rewrite drop_0, Nat.sub_0_r. case_decide as Hg; [|done]. intros [= Hm].
    rewrite <- (take_drop (length d - MACSize) d) at 1. by rewrite Hg, Hm.
  - intros ->. rewrite length_app, Hl.
    rewrite decide_False by lia. rewrite slice_le, slice_from_le by (rewrite length_app; lia).
    cbn. rewrite drop_0, Nat.sub_0_r.
    replace (length msg + MACSize - MACSize)%nat with (length msg) by lia.
    rewrite take_app_length, drop_app_length. by rewrite decide_True.
Qed.

Lemma Verify_total mac d : exists v, Verify mac d = Ret v.
Proof.
  unfold Verify. case_decide; [eauto|]. rewrite slice_le, slice_from_le by lia. cbn. eauto.
Qed.

Context (mac : MAC).

Lemma openMsg_ok {A} len_ok type_ok (decode : list Z -> wire (option A)) h body m :
  wf_header h -> len_ok (length (header_bytes h ++ body)) = true -> type_ok (hType h) = true ->
  decode (header_bytes h ++ body) = Ret (Some m) ->
  openMsg (AppendTag mac (header_bytes h ++ body)) mac len_ok type_ok decode = Ret (Some (h, m)).
Proof.
  intros Hh Hl Ht Hd. unfold openMsg.
  rewrite (proj2 (Verify_iff mac _ _) eq_refl). cbn -[header_bytes].
  by rewrite Hl, ParseHeader_bytes, Ht, Hd.
Qed.

Lemma openMsg_inv {A} d len_ok type_ok (decode : list Z -> wire (option A)) h m :
  is_bytes d -> openMsg d mac len_ok type_ok decode = Ret (Some (h, m)) ->
  exists body, d = AppendTag mac (header_bytes h ++ body) /\ wf_header h /\ is_bytes body /\
    len_ok (length (header_bytes h ++ body)) = true /\ type_ok (hType h) = true /\
    decode (header_bytes h ++ body) = Ret (Some m).
Proof.
  unfold openMsg. intros Hb. destruct (Verify_total mac d) as [[msg|] Hv]; rewrite Hv; [|done].
  cbn. apply Verify_iff in Hv as ->. apply Forall_app in Hb as [Hb _].
  destruct (len_ok _) eqn:Hl; [|done]. cbn.
  destruct (ParseHeader msg) as [h'| |] eqn:Hp; [|done|done].
  destruct (ParseHeader_inv _ _ Hb Hp) as (Hh & body & ->).
  destruct (type_ok _) eqn:Ht; [|done]. cbn -[header_bytes].
  destruct (decode _) as [[m'|]| |] eqn:Hd; [|done..]. intros [= -> ->].
  apply Forall_app in Hb as [_ Hb]. exists body. done.
Qed.

Lemma openMsg_total {A} d len_ok type_ok (decode : list Z -> wire (option A)) :
  (forall msg, len_ok (length msg) = true -> exists r, decode msg = Ret r) ->
  exists r, openMsg d mac len_ok type_ok decode = Ret r.
Proof.
  intros Hd. unfold openMsg. destruct (Verify_total mac d) as [[msg|] ->]; cbn; [|eauto].
  destruct (len_ok _) eqn:Hl; cbn; [|eauto].
  destruct (ParseHeader msg) as [h| |] eqn:Hp; [|eauto|by destruct (ParseHeader_no_panic msg)].
  destruct (type_ok _); cbn; [|eauto]. destruct (Hd msg Hl) as [r ->]. cbn. eauto.
Qed.

(** ** What a message format promises

    [codec wf types enc Parse]: the parser returns on every input, and it
    accepts exactly the authenticated encodings of well-formed messages. *)
Record codec {M} (wf : M -> Prop) (types : Z -> Prop) (enc : Header -> M -> list Z)
    (Parse : list Z -> MAC -> wire (option (Header * M))) : Prop := {
  codec_total : forall d, exists r, Parse d mac = Ret r;
  codec_accept : forall d h m, is_bytes d ->
    Parse d mac = Ret (Some (h, m)) <->
    wf_header h /\ types (hType h) /\ wf m /\ d = AppendTag mac (enc h m);
}.

(** Fixed-size formats. *)
Lemma codec_fixed {M} (wf : M -> Prop) type_ok (body : M -> list Z) n decode :
  (forall h m, wf m -> decode (header_bytes h ++ body m) = Ret (Some m)) ->
  (forall m, length (body m) = n) ->
  (forall b, is_bytes b -> length b = n -> exists m, wf m /\ b = body m) ->
  (forall msg, length msg = (HeaderSize + n)%nat -> exists r, decode msg = Ret r) ->
  codec wf (fun t => type_ok t = true) (fun h m => header_bytes h ++ body m)
    (fun d mac => openMsg d mac (fun k => bool_decide (k = HeaderSize + n)%nat) type_ok decode).
Proof.
  intros Hdec Hlen Hinv Htot. constructor.
  - intros d. apply openMsg_total. intros msg Hl%bool_decide_eq_true. by apply Htot.
  - intros d h m Hb. split.
    + intros (b & -> & Hh & Hbb & Hl & Ht & Hd)%openMsg_inv; [|done].
      apply bool_decide_eq_true in Hl. rewrite length_app in Hl.
      destruct (Hinv b Hbb) as (m' & Hm' & ->); [cbn in Hl; lia|].
      rewrite Hdec in Hd by done. injection Hd as ->. done.
    + intros (Hh & Ht & Hm & ->). apply openMsg_ok; [done| |done|by apply Hdec].
      apply bool_decide_eq_true. by rewrite length_app, Hlen.
Qed.

(** ** The four fixed-size formats *)

Definition hello_body (m : Hello) : list Z :=
  be 4 (heSession m) ++ be 8 (ClientID m) ++ be 4 (Features m) ++ be 8 (u64 (heUnixTS m)).
Definition bye_body (m : Bye) : list Z := be 4 (bySession m) ++ be 8 (u64 (byUnixTS m)).
Definition probe_body (m : Probe) : list Z :=
  be 4 (prSession m) ++ be 4 (prSeq m) ++ be 8 (prTxTS m).
Definition ack_body (m : ProbeAck) : list Z :=
  be 4 (paSession m) ++ be 4 (paSeq m) ++ be 8 (paTxTS m) ++ be 4 (HoldUS m).

Definition wf_hello (m : Hello) : Prop :=
  is_u32 (heSession m) /\ is_u64 (ClientID m) /\ is_u32 (Features m) /\ is_i64 (heUnixTS m).
Definition wf_bye (m : Bye) : Prop := is_u32 (bySession m) /\ is_i64 (byUnixTS m).
Definition wf_probe (m : Probe) : Prop :=
  is_u32 (prSession m) /\ is_u32 (prSeq m) /\ is_u64 (prTxTS m).
Definition wf_ack (m : ProbeAck) : Prop :=
  is_u32 (paSession m) /\ is_u32 (paSeq m) /\ is_u64 (paTxTS m) /\ is_u32 (HoldUS m).

(** Close [exists m, wf m /\ b = body m] from the bytes of [b]. *)
Ltac refield :=
  match goal with
  | |- is_u32 _ => apply (field_range 4)
  | |- is_u64 _ => apply (field_range 8)
  end; [done|solve_bytes].

Lemma hello_codec :
  codec wf_hello (fun t => (t =? TypeHello) || (t =? TypeHelloAck) = true)
    (fun h m => header_bytes h ++ hello_body m) ParseHello.
Proof.
  apply (codec_fixed wf_hello _ hello_body helloBodySize).
  - intros h [s c f t] (Hs & Hc & Hf & Ht). cbn. gets. fields.
    rewrite be_val_8 by apply u64_range. by rewrite i64_u64.
  - done.
  - intros b Hb Hl. unfold helloBodySize in Hl. explode_list b 24%nat. destruct b; [|done].
    bytes_inv. clear Hl.
    exists (mkHello (be_val [x; x0; x1; x2]) (be_val [x3; x4; x5; x6; x7; x8; x9; x10])
             (be_val [x11; x12; x13; x14])
             (i64 (be_val [x15; x16; x17; x18; x19; x20; x21; x22]))).
    unfold wf_hello, hello_body. cbn [heSession ClientID Features heUnixTS].
    split; [split_and!; [refield..|apply i64_range]|].
    rewrite u64_i64 by refield. by rewrite !field_bytes by (first [done|solve_bytes]).
  - intros msg Hl. unfold helloBodySize in *. cbn in Hl. gets. eauto.
Qed.

Lemma bye_codec :
  codec wf_bye (fun t => (t =? TypeBye) = true)
    (fun h m => header_bytes h ++ bye_body m) ParseBye.
Proof.
  apply (codec_fixed wf_bye _ bye_body byeBodySize).
  - intros h [s t] (Hs & Ht). cbn. gets. fields.
    rewrite be_val_8 by apply u64_range. by rewrite i64_u64.
  - done.
  - intros b Hb Hl. unfold byeBodySize in Hl. explode_list b 12%nat. destruct b; [|done].
    bytes_inv. clear Hl.
    exists (mkBye (be_val [x; x0; x1; x2]) (i64 (be_val [x3; x4; x5; x6; x7; x8; x9; x10]))).
    unfold wf_bye, bye_body. cbn [bySession byUnixTS].
    split; [split_and!; [refield|apply i64_range]|].
    rewrite u64_i64 by refield. by rewrite !field_bytes by (first [done|solve_bytes]).
  - intros msg Hl. unfold byeBodySize in *. cbn in Hl. gets. eauto.
Qed.

Lemma probe_codec :
  codec wf_probe (fun t => (t =? TypeProbe) = true)
    (fun h m => header_bytes h ++ probe_body m) ParseProbe.
Proof.
  apply (codec_fixed wf_probe _ probe_body probeBodySize).
  - intros h [s q t] (Hs & Hq & Ht). cbn. gets. by fields.
  - done.
  - intros b Hb Hl. unfold probeBodySize in Hl. explode_list b 16%nat. destruct b; [|done].
    bytes_inv. clear Hl.
    exists (mkProbe (be_val [x; x0; x1; x2]) (be_val [x3; x4; x5; x6])
             (be_val [x7; x8; x9; x10; x11; x12; x13; x14])).
    unfold wf_probe, probe_body. cbn [prSession prSeq prTxTS]. split; [split_and!; refield|].
    by rewrite !field_bytes by (first [done|solve_bytes]).
  - intros msg Hl. unfold probeBodySize in *. cbn in Hl. gets. eauto.
Qed.

Lemma ack_codec :
  codec wf_ack (fun t => (t =? TypeProbeAck) = true)
    (fun h m => header_bytes h ++ ack_body m) ParseProbeAck.
Proof.
  apply (codec_fixed wf_ack _ ack_body probeAckBodySize).
  - intros h [s q t u] (Hs & Hq & Ht & Hu). cbn. gets. by fields.
  - done.
  - intros b Hb Hl. unfold probeAckBodySize in Hl. explode_list b 20%nat. destruct b; [|done].
    bytes_inv. clear Hl.
    exists (mkProbeAck (be_val [x; x0; x1; x2]) (be_val [x3; x4; x5; x6])
             (be_val [x7; x8; x9; x10; x11; x12; x13; x14]) (be_val [x15; x16; x17; x18])).
    unfold wf_ack, ack_body. cbn [paSession paSeq paTxTS HoldUS]. split; [split_and!; refield|].
    by rewrite !field_bytes by (first [done|solve_bytes]).
  - intros msg Hl. unfold probeAckBodySize in *. cbn in Hl. gets. eauto.
Qed.

(** The encoders build exactly these byte strings. *)
Lemma EncodeHello_eq h m ack :
  EncodeHello h m mac ack =
  Ret (AppendTag mac (header_bytes (with_type h (if ack then TypeHelloAck else TypeHello))
                      ++ hello_body m)).
Proof. unfold EncodeHello. rewrite PutHeader_ok by (cbn; lia). cbn. puts. done. Qed.

Lemma EncodeBye_eq h m :
  EncodeBye h m mac = Ret (AppendTag mac (header_bytes (with_type h TypeBye) ++ bye_body m)).
Proof. unfold EncodeBye. rewrite PutHeader_ok by (cbn; lia). cbn. puts. done. Qed.

Lemma EncodeProbe_eq h m :
  EncodeProbe h m mac = Ret (AppendTag mac (header_bytes (with_type h TypeProbe) ++ probe_body m)).
Proof. unfold EncodeProbe. rewrite PutHeader_ok by (cbn; lia). cbn. puts. done. Qed.

Lemma EncodeProbeAck_eq h m :
  EncodeProbeAck h m mac =
  Ret (AppendTag mac (header_bytes (with_type h TypeProbeAck) ++ ack_body m)).
Proof. unfold EncodeProbeAck. rewrite PutHeader_ok by (cbn; lia). cbn. puts. done. Qed.

(** ** CTRL: a list of type-length-value records *)

Definition stats_body (ps : PathStats) : list Z :=
  [psPathID ps] ++ be 4 (Highest ps) ++ be 4 (RxPkts ps) ++ be 8 (RxBytes ps)
  ++ be 4 (OwdMinUS ps) ++ be 4 (OwdAvgUS ps).

Definition wf_stats (ps : PathStats) : Prop :=
  is_u8 (psPathID ps) /\ is_u32 (Highest ps) /\ is_u32 (RxPkts ps) /\ is_u64 (RxBytes ps) /\
  is_u32 (OwdMinUS ps) /\ is_u32 (OwdAvgUS ps).

Definition tlv : Type := Z * list Z.
Definition tlv_bytes (r : tlv) : list Z := r.1 :: Z.of_nat (length r.2) :: r.2.
Definition wf_tlv (r : tlv) : Prop := is_u8 r.1 /\ is_bytes r.2 /\ (length r.2 < 256)%nat.

(** What a receiver understands of a record sequence: the path statistics,
    in order; records of another type or size are passed over. *)
Inductive reads : list tlv -> list PathStats -> Prop :=
  | reads_nil : reads [] []
  | reads_stats ps rs pss : wf_stats ps -> reads rs pss ->
      reads ((tlvPathStats, stats_body ps) :: rs) (ps :: pss)
  | reads_skip r rs pss : wf_tlv r -> ~ (r.1 = tlvPathStats /\ length r.2 = pathStatsSize) ->
      reads rs pss -> reads (r :: rs) pss.

Lemma decodeStats_body ps : wf_stats ps -> decodeStats (stats_body ps) = Ret ps.
Proof.
  destruct ps as [i h p b mn av]. intros (Hi & Hh & Hp & Hb & Hmn & Hav).
  unfold decodeStats, stats_body. cbn. gets. fields. done.
Qed.

#[local] Arguments stats_body : simpl never.

Lemma stats_body_mk i h p b mn av :
  stats_body (mkPathStats i h p b mn av) =
  [i] ++ be 4 h ++ be 4 p ++ be 8 b ++ be 4 mn ++ be 4 av.
Proof. done. Qed.

Lemma decodeStats_inv b :
  is_bytes b -> length b = pathStatsSize ->
  exists ps, decodeStats b = Ret ps /\ wf_stats ps /\ b = stats_body ps.
Proof.
  intros Hb Hl. unfold pathStatsSize in Hl. explode_list b 25%nat.
  destruct b0; [|done]. bytes_inv. clear Hl. unfold decodeStats. cbn. gets.
  eexists. split; [reflexivity|]. split; [unfold wf_stats; cbn [psPathID Highest RxPkts RxBytes OwdMinUS OwdAvgUS]|].
  - split_and!; [done|refield..].
  - rewrite stats_body_mk. by rewrite !field_bytes by (first [done|solve_bytes]).
Qed.

Lemma slice_tlv r rest :
  let b := tlv_bytes r ++ rest in
  @slice wire_error _ b 2 (2 + length r.2) = Ret r.2 /\
  @slice_from wire_error _ b (2 + length r.2) = Ret rest.
Proof.
  destruct r as [t b]. cbn [fst snd tlv_bytes]. unfold tlv_bytes. cbn [fst snd].
  rewrite slice_le, slice_from_le by (cbn; rewrite length_app; lia). cbn.
  rewrite drop_0, Nat.sub_0_r, take_app_length, drop_app_length. done.
Qed.

(** One round of the loop over a well-formed record. *)
Lemma parseRecs_step fuel r rest acc :
  parseRecs (S fuel) (tlv_bytes r ++ rest) acc =
  if negb (r.1 =? tlvPathStats) || negb (Z.of_nat (length r.2) =? Z.of_nat pathStatsSize)
  then parseRecs fuel rest acc
  else ps ← decodeStats r.2; parseRecs fuel rest (acc ++ [ps]).
Proof.
  destruct (slice_tlv r rest) as [H1 H2]. destruct r as [t b]. cbn [fst snd] in *.
  cbn [parseRecs]. rewrite decide_True by (cbn; lia). unfold tlv_bytes in *. cbn [fst snd] in *.
  cbn [app idx]. unfold idx. cbn [lookup list_lookup mbind outcome_bind]. rewrite Nat2Z.id.
  rewrite decide_False by (cbn; rewrite length_app; lia).
  cbn [app] in H1, H2. rewrite H1. cbn [mbind outcome_bind]. rewrite H2. done.
Qed.

Lemma parseRecs_reads rs pss : reads rs pss -> forall fuel tail acc,
  (length (rs ≫= tlv_bytes) + length tail <= fuel)%nat -> (length tail < 2)%nat ->
  parseRecs fuel ((rs ≫= tlv_bytes) ++ tail) acc = Ret (Some (acc ++ pss)).
Proof.
  induction 1 as [|ps rs pss Hps Hr IH|r rs pss Hw Hn Hr IH]; intros fuel tail acc Hf Ht.
  - cbn. rewrite app_nil_r. destruct fuel; [done|]. cbn. by rewrite decide_False by lia.
  - rewrite bind_cons, <- app_assoc. rewrite bind_cons, length_app in Hf.
    destruct fuel as [|fuel]; [cbn in Hf; lia|].
    rewrite parseRecs_step. cbn [fst snd].
    change (length (stats_body ps)) with pathStatsSize. rewrite !Z.eqb_refl. cbn [negb orb].
    rewrite decodeStats_body by done. cbn [mbind outcome_bind].
    rewrite IH by (done || (cbn in Hf; lia)). by rewrite <- app_assoc.
  - rewrite bind_cons, <- app_assoc. rewrite bind_cons, length_app in Hf.
    destruct fuel as [|fuel]; [cbn in Hf; lia|]. rewrite parseRecs_step.
    destruct (_ || _) eqn:Hskip; [apply IH; [cbn in Hf; lia|done]|]. exfalso. apply Hn.
    apply orb_false_iff in Hskip as [H1%negb_false_iff H2%negb_false_iff]. lia.
Qed.

(** Splitting the first record off. *)
Lemma tlv_split rest : is_bytes rest -> (2 <= length rest)%nat ->
  (exists r rest', wf_tlv r /\ is_bytes rest' /\ rest = tlv_bytes r ++ rest') \/
  (forall fuel acc, parseRecs (S fuel) rest acc = Ret None).
Proof.
  intros Hb Hl. destruct rest as [|t [|l rest]]; [cbn in Hl; lia..|]. bytes_inv.
  destruct (decide (Z.to_nat l <= length rest)%nat) as [Hle|Hle].
  - left. exists (t, take (Z.to_nat l) rest), (drop (Z.to_nat l) rest).
    assert (Z.of_nat (length (take (Z.to_nat l) rest)) = l)
      by (rewrite length_take_le by done; mlia).
    split_and!; [split_and!; cbn; [done|by apply Forall_take|mlia]|by apply Forall_drop|].
    unfold tlv_bytes. cbn. rewrite H2. by rewrite take_drop.
  - right. intros. cbn [parseRecs]. rewrite decide_True by (cbn; lia).
    unfold idx. cbn [lookup list_lookup mbind outcome_bind]. rewrite decide_True; [done|].
    cbn [length]. lia.
Qed.

Lemma tlv_stats r :
  wf_tlv r -> negb (r.1 =? tlvPathStats) || negb (Z.of_nat (length r.2) =? Z.of_nat pathStatsSize) = false ->
  exists ps, decodeStats r.2 = Ret ps /\ wf_stats ps /\ r = (tlvPathStats, stats_body ps).
Proof.
  intros (_ & Hb & _) [H1%negb_false_iff H2%negb_false_iff]%orb_false_iff.
  destruct (decodeStats_inv r.2 Hb) as (ps & Hd & Hw & Hr); [lia|].
  exists ps. split_and!; [done..|]. destruct r as [t b]. cbn in *. f_equal; [lia|done].
Qed.

Lemma parseRecs_inv fuel : forall rest acc r,
  is_bytes rest -> (length rest <= fuel)%nat -> parseRecs fuel rest acc = Ret (Some r) ->
  exists rs tail pss, reads rs pss /\ (length tail < 2)%nat /\ is_bytes tail /\
    rest = (rs ≫= tlv_bytes) ++ tail /\ r = acc ++ pss.
Proof.
  induction fuel as [|fuel IH]; intros rest acc r Hb Hf.
  { destruct rest; [|cbn in Hf; lia]. intros [= <-]. exists [], [], [].
    split_and!; [constructor|cbn; lia|constructor|done|by rewrite app_nil_r]. }
  destruct (decide (2 <= length rest)%nat) as [H2|H2].
  2:{ cbn [parseRecs]. rewrite decide_False by done. intros [= <-]. exists [], rest, [].
      split_and!; [constructor|lia|done|done|by rewrite app_nil_r]. }
  destruct (tlv_split rest Hb H2) as [(t & rest' & Hw & Hb' & ->)|Hno]; [|by rewrite Hno].
  rewrite parseRecs_step, length_app in *. cbn [tlv_bytes length] in Hf.
  destruct (_ || _) eqn:Hskip.
  - intros (rs & tail & pss & Hr & Ht & Htb & -> & ->)%IH; [|done|cbn in Hf; lia].
    exists (t :: rs), tail, pss. split_and!; try done; [|by rewrite bind_cons, app_assoc].
    apply reads_skip; [done| |done]. intros [H3 H4]. rewrite H3, H4 in Hskip. done.
  - destruct (tlv_stats t Hw Hskip) as (ps & -> & Hps & ->). cbn [mbind outcome_bind].
    intros (rs & tail & pss & Hr & Ht & Htb & -> & ->)%IH; [|done|cbn in Hf; lia].
    exists ((tlvPathStats, stats_body ps) :: rs), tail, (ps :: pss).
    split_and!; [by constructor|done|done| |by rewrite <- app_assoc].
    by rewrite bind_cons, <- app_assoc.
Qed.

Definition stats_tlv (ps : PathStats) : tlv := (tlvPathStats, stats_body ps).

Lemma encodeRec_eq ps : encodeRec ps = Ret (tlv_bytes (stats_tlv ps)).
Proof. unfold encodeRec. cbn. puts. done. Qed.

Lemma appendRecs_eq pss : forall buf,
  appendRecs buf pss = Ret (buf ++ ((stats_tlv <$> pss) ≫= tlv_bytes)).
Proof.
  induction pss as [|ps pss IH]; intros buf; cbn [appendRecs]; [by rewrite app_nil_r|].
  rewrite encodeRec_eq. cbn [mbind outcome_bind]. rewrite IH, fmap_cons, bind_cons.
  by rewrite <- app_assoc.
Qed.

Lemma EncodeCtrl_eq h c :
  EncodeCtrl h c mac =
  Ret (AppendTag mac (header_bytes (with_type h TypeCtrl) ++ be 4 (ctSession c)
         ++ ((stats_tlv <$> take MaxCtrlPaths (ctPaths c)) ≫= tlv_bytes))).
Proof.
  unfold EncodeCtrl. rewrite PutHeader_ok by (cbn; lia). cbn [mbind outcome_bind].
  rewrite put_ok by (cbn; lia). cbn [mbind outcome_bind].
  set (n := if decide _ then _ else _).
  assert (Hn : (n <= length (ctPaths c))%nat /\ take n (ctPaths c) = take MaxCtrlPaths (ctPaths c)).
  { unfold n. case_decide; [split; [lia|done]|]. split; [lia|]. by rewrite !take_ge by lia. }
  destruct Hn as [Hn Et]. rewrite slice_le by lia. cbn [mbind outcome_bind].
  rewrite appendRecs_eq, drop_0, Nat.sub_0_r, Et. cbn [mbind outcome_bind].
  do 2 f_equal.
Qed.

Lemma reads_stats_all pss : Forall wf_stats pss -> reads (stats_tlv <$> pss) pss.
Proof. induction 1; cbn; by constructor. Qed.

(** What a CTRL body with records [rs] and up to one stray byte looks like. *)
Definition ctrl_bytes (h : Header) (session : Z) (rs : list tlv) (tail : list Z) : list Z :=
  header_bytes h ++ be 4 session ++ (rs ≫= tlv_bytes) ++ tail.

Lemma ParseCtrl_bytes h session rs tail pss :
  wf_header h -> hType h = TypeCtrl -> is_u32 session -> reads rs pss -> (length tail < 2)%nat ->
  ParseCtrl (AppendTag mac (ctrl_bytes h session rs tail)) mac = Ret (Some (h, mkCtrl session pss)).
Proof.
  intros Hh Ht Hs Hr Htl. apply openMsg_ok; [done| |by rewrite Ht|].
  - apply bool_decide_eq_true. cbn. lia.
  - rewrite get_be_ok by (cbn; lia). cbn [mbind outcome_bind].
    rewrite slice_from_le by (cbn; lia). cbn [mbind outcome_bind].
    change (take 4 (drop 4 _)) with (be 4 session).
    change (drop (HeaderSize + 4) _) with ((rs ≫= tlv_bytes) ++ tail).
    rewrite (parseRecs_reads _ _ Hr) by (rewrite ?length_app; lia).
    cbn [mbind outcome_bind]. by rewrite be_val_field.
Qed.

Lemma ParseCtrl_inv d h c :
  is_bytes d -> ParseCtrl d mac = Ret (Some (h, c)) ->
  wf_header h /\ hType h = TypeCtrl /\ is_u32 (ctSession c) /\
  exists rs tail, reads rs (ctPaths c) /\ (length tail < 2)%nat /\
    d = AppendTag mac (ctrl_bytes h (ctSession c) rs tail).
Proof.
  intros Hb (body & -> & Hh & Hbb & Hl & Ht & Hd)%openMsg_inv; [|done].
  apply bool_decide_eq_true in Hl. rewrite length_app in Hl.
  cbn in Hl. explode_list body 4%nat.
  revert Hd. rewrite get_be_ok by (cbn; lia). cbn [mbind outcome_bind].
  rewrite slice_from_le by (cbn; lia). cbn [mbind outcome_bind].
  change (drop (HeaderSize + 4) _) with b0. change (take 4 (drop 4 _)) with [x; x0; x1; x2].
  bytes_inv. destruct (parseRecs _ _ _) as [[pss|]| |] eqn:Hp; [|done..].
  intros [= <-]. cbn [ctSession ctPaths].
  apply parseRecs_inv in Hp as (rs & tail & pss' & Hr & Htl & Htb & -> & ->); [|done..].
  split_and!; [done|lia|refield|]. exists rs, tail. split_and!; [done..|].
  unfold ctrl_bytes. rewrite field_bytes by (first [done|solve_bytes]). done.
Qed.

(** Every record of a CTRL is in its widths. *)
Lemma reads_wf rs pss : reads rs pss -> Forall wf_stats pss.
Proof. induction 1; [apply List.Forall_nil|by apply List.Forall_cons|done]. Qed.

Lemma ParseCtrl_stats d h c : is_bytes d -> ParseCtrl d mac = Ret (Some (h, c)) -> Forall wf_stats (ctPaths c).
Proof. intros Hb (_ & _ & _ & rs & tail & Hr & _)%ParseCtrl_inv; [|done]. by eapply reads_wf. Qed.

Lemma decodeStats_total b : (25 <= length b)%nat -> exists ps, decodeStats b = Ret ps.
Proof.
  intros Hl. unfold decodeStats. destruct (@idx_lt wire_error _ b 0 ltac:(lia)) as (x & -> & _).
  cbn. gets. eauto.
Qed.

Lemma parseRecs_total fuel : forall rest acc, exists r, parseRecs fuel rest acc = Ret r.
Proof.
  induction fuel as [|fuel IH]; intros rest acc; cbn [parseRecs]; [eauto|].
  case_decide as H2; [|eauto]. destruct rest as [|t [|l rest]]; [cbn in H2; lia..|].
  unfold idx. cbn [lookup list_lookup mbind outcome_bind].
  case_decide as Hl; [eauto|]. rewrite slice_le, slice_from_le by lia. cbn [mbind outcome_bind].
  destruct (_ || _) eqn:Hskip; [apply IH|].
  apply orb_false_iff in Hskip as [_ Hlen%negb_false_iff%Z.eqb_eq]. subst l.
  destruct (decodeStats_total (take (2 + Z.to_nat (Z.of_nat pathStatsSize) - 2)
    (drop 2 (t :: Z.of_nat pathStatsSize :: rest)))) as [ps ->]; [|apply IH].
  rewrite length_take_le; [cbn; lia|]. rewrite length_drop. lia.
Qed.

Lemma ParseCtrl_total d : exists r, ParseCtrl d mac = Ret r.
Proof.
  apply openMsg_total. intros msg Hl%bool_decide_eq_true. unfold HeaderSize in *.
  rewrite get_be_ok by lia. cbn [mbind outcome_bind]. rewrite slice_from_le by lia.
  cbn [mbind outcome_bind].
  destruct (parseRecs_total (length (drop (4 + 4) msg)) (drop (4 + 4) msg) []) as [r ->].
  cbn. eauto.
Qed.

(** ** Properties *)

(** C11: HELLO, HELLO_ACK, BYE, PROBE and PROBE_ACK are authenticated: each
    parser returns on every datagram, and accepts one if and only if it is a
    well-formed encoding of its own type followed by that encoding's tag;
    nothing is accepted unless the tag over header and body verifies. *)
Theorem control_authentic :
  codec wf_hello (fun t => (t =? TypeHello) || (t =? TypeHelloAck) = true)
    (fun h m => header_bytes h ++ hello_body m) ParseHello /\
  codec wf_bye (fun t => (t =? TypeBye) = true)
    (fun h m => header_bytes h ++ bye_body m) ParseBye /\
  codec wf_probe (fun t => (t =? TypeProbe) = true)
    (fun h m => header_bytes h ++ probe_body m) ParseProbe /\
  codec wf_ack (fun t => (t =? TypeProbeAck) = true)
    (fun h m => header_bytes h ++ ack_body m) ParseProbeAck.
Proof. split_and!; [apply hello_codec|apply bye_codec|apply probe_codec|apply ack_codec]. Qed.

Lemma wf_with_type h t : wf_header h -> 0 <= t <= maxType -> wf_header (with_type h t).
Proof. intros (_ & ?) Ht. by split. Qed.

Lemma AppendTag_len b : length (AppendTag mac b) = (length b + MACSize)%nat.
Proof. unfold AppendTag, Sum. by rewrite length_app, sum128_len. Qed.

Lemma AppendTag_bytes b : is_bytes b -> is_bytes (AppendTag mac b).
Proof. intros. apply Forall_app_2; [done|apply sum128_bytes]. Qed.

(** An encoder whose output is the tagged encoding round-trips. *)
Lemma codec_roundtrip {M} wf types enc Parse (m : M) h out n :
  codec wf types enc Parse -> out = Ret (AppendTag mac (enc h m)) ->
  wf_header h -> types (hType h) -> wf m -> is_bytes (enc h m) ->
  n = (length (enc h m) + MACSize)%nat ->
  exists d : list Z, out = Ret (E := wire_error) d /\ length d = n /\
    Parse d mac = Ret (Some (h, m)).
Proof.
  intros Hc -> Hh Ht Hm Hb ->. exists (AppendTag mac (enc h m)).
  split_and!; [done|apply AppendTag_len|].
  apply (codec_accept _ _ _ _ Hc); [by apply AppendTag_bytes|done].
Qed.

Lemma header_bytes_bytes h : wf_header h -> is_bytes (header_bytes h).
Proof.
  intros (Ht & Hf & Hp & He). destruct (type_byte _ Ht) as [Hb _].
  unfold header_bytes, is_bytes. repeat (apply List.Forall_cons; [done|]). apply List.Forall_nil.
Qed.

Ltac encodes codec eq :=
  eapply (codec_roundtrip _ _ _ _ _ _ _ _ codec); [apply eq|by apply wf_with_type|done|done| |done];
  apply Forall_app_2; [by apply header_bytes_bytes, wf_with_type|];
  repeat (apply Forall_app_2 || apply be_is_bytes).

(** A PROBE_ACK takes 40 bytes. *)
Lemma probe_ack_size h pa :
  wf_header h -> wf_ack pa -> exists d, EncodeProbeAck h pa mac = Ret d /\ length d = 40%nat /\
    ParseProbeAck d mac = Ret (Some (with_type h TypeProbeAck, pa)).
Proof. intros Hh Hp. encodes ack_codec EncodeProbeAck_eq. Qed.

(** C34: Encode/parse round trip of the fixed-size control messages: every
    encoder succeeds, and the parser returns the message with the header it
    was given (the type replaced), including negative timestamps; a HELLO or
    HELLO_ACK takes 44 bytes, a BYE 32 and a PROBE 36. *)
Theorem control_roundtrip h he ack by_ pr pa :
  wf_header h -> wf_hello he -> wf_bye by_ -> wf_probe pr -> wf_ack pa ->
  (exists d, EncodeHello h he mac ack = Ret d /\ length d = 44%nat /\
     ParseHello d mac = Ret (Some (with_type h (if ack then TypeHelloAck else TypeHello), he))) /\
  (exists d, EncodeBye h by_ mac = Ret d /\ length d = 32%nat /\
     ParseBye d mac = Ret (Some (with_type h TypeBye, by_))) /\
  (exists d, EncodeProbe h pr mac = Ret d /\ length d = 36%nat /\
     ParseProbe d mac = Ret (Some (with_type h TypeProbe, pr))) /\
  (exists d, EncodeProbeAck h pa mac = Ret d /\
     ParseProbeAck d mac = Ret (Some (with_type h TypeProbeAck, pa))).
Proof.
  intros Hh H1 H2 H3 H4. split_and!.
  - destruct ack; encodes hello_codec EncodeHello_eq.
  - encodes bye_codec EncodeBye_eq.
  - encodes probe_codec EncodeProbe_eq.
  - destruct (probe_ack_size h pa Hh H4) as (d & ? & _ & ?). by exists d.
Qed.

(** C35: The CTRL parser returns on every datagram, and accepts one if and
    only if it is an authenticated CTRL header, a session and a sequence of
    complete type-length-value records with at most one stray byte behind
    them; it then returns the path statistics among the records in order,
    passing over records of another type or size. *)
Theorem ParseCtrl_iff d h c :
  is_bytes d ->
  (exists r, ParseCtrl d mac = Ret r) /\
  (ParseCtrl d mac = Ret (Some (h, c)) <->
   wf_header h /\ hType h = TypeCtrl /\ is_u32 (ctSession c) /\
   exists rs tail, reads rs (ctPaths c) /\ (length tail < 2)%nat /\
     d = AppendTag mac (ctrl_bytes h (ctSession c) rs tail)).
Proof.
  intros Hb. split; [apply ParseCtrl_total|]. split; [by apply ParseCtrl_inv|].
  intros (Hh & Ht & Hs & rs & tail & Hr & Hl & ->). destruct c. by apply ParseCtrl_bytes.
Qed.

(** CTRL round trip: a report encodes to at most one MTU
    (1104 bytes) and decodes to its session and its first [MaxCtrlPaths]
    path records; nothing is lost when there are at most that many. *)
Theorem ctrl_roundtrip h c :
  wf_header h -> is_u32 (ctSession c) -> Forall wf_stats (ctPaths c) ->
  exists d, EncodeCtrl h c mac = Ret d /\ (length d <= 1104)%nat /\
    ParseCtrl d mac =
      Ret (Some (with_type h TypeCtrl, mkCtrl (ctSession c) (take MaxCtrlPaths (ctPaths c)))).
Proof.
  intros Hh Hs Hp. rewrite EncodeCtrl_eq. eexists. split_and!; [done| |].
  - rewrite AppendTag_len, !length_app, length_be.
    set (l := take _ _). assert (Hl : (length l <= 40)%nat) by (unfold l; rewrite length_take; unfold MaxCtrlPaths; lia).
    enough (length ((stats_tlv <$> l) ≫= tlv_bytes) = 27 * length l)%nat as ->
      by (change (length (header_bytes _)) with 4%nat; unfold MACSize; lia).
    clear. induction l as [|ps l IH]; [done|]. rewrite fmap_cons, bind_cons, length_app, IH.
    change (length (tlv_bytes (stats_tlv ps))) with 27%nat. cbn. lia.
  - rewrite <- (app_nil_r ((stats_tlv <$> _) ≫= _)).
    apply (ParseCtrl_bytes (with_type h TypeCtrl) _ _ []); [by apply wf_with_type|done..| |cbn; lia].
    apply reads_stats_all. by apply Forall_take.
Qed.

End Mac.

(** The replay window on 64-bit seconds: within any two clocks less than
    2^63 seconds apart a timestamp is fresh exactly when it is at most 30
    seconds away, on either side. The one exception is a distance of exactly
    2^63 seconds into the past, whose negation overflows and which is
    accepted. *)
Theorem FreshTS_iff unixTS now :
  is_i64 unixTS -> is_i64 now ->
  (Z.abs (now - unixTS) < two63 -> FreshTS unixTS now = true <-> Z.abs (now - unixTS) <= 30) /\
  (FreshTS unixTS now = true <->
     Z.abs (i64 (now - unixTS)) <= 30 \/ i64 (now - unixTS) = - two63).
Proof.
  intros Hu Hn. unfold FreshTS. change (ReplayWindow / Second) with 30.
  assert (Hi : is_i64 (i64 (now - unixTS))) by apply i64_range.
  split.
  - intros Hd. rewrite i64_id by mlia. revert Hd. zcase; mlia.
  - revert Hi. generalize (i64 (now - unixTS)). intros d Hd. zcase; mlia.
Qed.

(** ** Witnesses *)

Lemma FreshTS_iff_witness :
  (Z.abs (1700000000 - 1700000030) < two63 ->
     FreshTS 1700000030 1700000000 = true <-> Z.abs (1700000000 - 1700000030) <= 30) /\
  (FreshTS 1700000030 1700000000 = true <->
     Z.abs (i64 (1700000000 - 1700000030)) <= 30 \/ i64 (1700000000 - 1700000030) = - two63).
Proof. apply (FreshTS_iff 1700000030 1700000000); vm_compute; split; congruence. Defined.

(** A digest with the required lengths: an XOR fold of key and message. *)
Definition xor_fold (n : nat) (msg : list Z) : list Z :=
  replicate n (u8 (foldl Z.lxor 0 msg)).

#[global] Program Instance toy_blake2s : Blake2s := {
  sum128 key msg := xor_fold 16 (key ++ msg);
  sum256 msg := xor_fold 32 msg;
}.
Next Obligation. done. Qed.
Next Obligation.
  intros. apply Forall_replicate, u8_range.
Qed.
Next Obligation. done. Qed.

Definition toy_mac : MAC := NewMAC (DeriveKey [112; 115; 107]).

Lemma control_authentic_witness :
  codec toy_mac wf_probe (fun t => (t =? TypeProbe) = true)
    (fun h m => header_bytes h ++ probe_body m) ParseProbe.
Proof. exact (proj1 (proj2 (proj2 (control_authentic toy_mac)))). Defined.

Lemma control_roundtrip_witness :
  exists d, EncodeHello (mkHeader 0 0 2 1) (mkHello 7 (two64 - 1) 3 (-5)) toy_mac true = Ret d /\
    length d = 44%nat /\
    ParseHello d toy_mac = Ret (Some (mkHeader TypeHelloAck 0 2 1, mkHello 7 (two64 - 1) 3 (-5))).
Proof.
  refine (proj1 (control_roundtrip toy_mac (mkHeader 0 0 2 1) (mkHello 7 (two64 - 1) 3 (-5)) true
           (mkBye 1 2) (mkProbe 1 2 3) (mkProbeAck 1 2 3 4) _ _ _ _ _));
    vm_compute; repeat split; congruence.
Defined.

Definition toy_stats : PathStats := mkPathStats 1 100 98 123456789012 5 7.

Lemma ctrl_roundtrip_witness :
  exists d, EncodeCtrl (mkHeader 0 0 2 1) (mkCtrl 9 [toy_stats]) toy_mac = Ret d /\
    (length d <= 1104)%nat /\
    ParseCtrl d toy_mac = Ret (Some (mkHeader TypeCtrl 0 2 1, mkCtrl 9 [toy_stats])).
Proof.
  apply (ctrl_roundtrip toy_mac (mkHeader 0 0 2 1) (mkCtrl 9 [toy_stats]));
    [vm_compute; repeat split; congruence..|].
  apply List.Forall_cons; [vm_compute; repeat split; congruence|apply List.Forall_nil].
Defined.

(** A datagram with an unknown record in front of a known one. *)
Definition toy_ctrl : list Z :=
  AppendTag toy_mac (ctrl_bytes (mkHeader TypeCtrl 0 2 1) 9 [(77, [1; 2; 3]); stats_tlv toy_stats] [5]).

Lemma ParseCtrl_iff_witness :
  ParseCtrl toy_ctrl toy_mac = Ret (Some (mkHeader TypeCtrl 0 2 1, mkCtrl 9 [toy_stats])) /\
  exists rs tail, reads rs [toy_stats] /\ (length tail < 2)%nat /\
     toy_ctrl = AppendTag toy_mac (ctrl_bytes (mkHeader TypeCtrl 0 2 1) 9 rs tail).
Proof.
  assert (Hb : is_bytes toy_ctrl) by by apply is_bytesb_spec.
  assert (Hp : ParseCtrl toy_ctrl toy_mac = Ret (Some (mkHeader TypeCtrl 0 2 1, mkCtrl 9 [toy_stats])))
    by by vm_compute.
  split; [exact Hp|].
  apply (ParseCtrl_iff toy_mac toy_ctrl (mkHeader TypeCtrl 0 2 1) (mkCtrl 9 [toy_stats]) Hb), Hp.
Defined.
