(* ===== verification/Float64.v ===== *)
(** * Go's float64

    A finite float64 is the rational it denotes; every arithmetic operation
    rounds its exact result. [Rounding] states what the development relies
    on of a rounding; [binary64] is IEEE 754 round-to-nearest-even with 53
    significant bits and gradual underflow, [exact] is the idealisation
    without rounding. Overflow to infinity, NaN and the sign of zero are not
    modelled: the quantities of this program are finite and far from the
    limits of the type. *)

From Stdlib Require Export QArith Qround Qabs Qpower Qfield Lqa.
From S2P Require Import Prelude.

#[global] Open Scope Z_scope.

Class Rounding := rnd : Q -> Q.

Class RoundingLaws `(Rounding) : Prop := {
  rnd_proper :: Proper (Qeq ==> Qeq) rnd;
  rnd_mono : forall x y, (x <= y -> rnd x <= rnd y)%Q;
  rnd_0 : (rnd 0 == 0)%Q;
  rnd_1 : (rnd 1 == 1)%Q;
  rnd_idem : forall x, (rnd (rnd x) == rnd x)%Q;
  rnd_double : forall x, (0 <= x -> rnd x <= 2 * x)%Q;
}.

(** ** Operations *)

Section Ops.
Context `{Rounding}.
Definition fadd (x y : Q) : Q := rnd (x + y)%Q.
Definition fsub (x y : Q) : Q := rnd (x - y)%Q.
Definition fmul (x y : Q) : Q := rnd (x * y)%Q.
Definition fdiv (x y : Q) : Q := rnd (x / y)%Q.
(** [float64(n)] of an integer, and a floating-point literal. *)
Definition ofint (n : Z) : Q := rnd (inject_Z n).
Definition lit (q : Q) : Q := rnd q.
End Ops.

Definition Qltb (x y : Q) : bool := match (x ?= y)%Q with Lt => true | _ => false end.

Lemma Qltb_spec x y : BoolSpec (x < y)%Q (y <= x)%Q (Qltb x y).
Proof.
  unfold Qltb. destruct (x ?= y)%Q eqn:E; constructor.
  - apply Qeq_alt in E. rewrite E. apply Qle_refl.
  - by apply Qlt_alt in E.
  - apply Qgt_alt in E. by apply Qlt_le_weak.
Qed.

#[global] Instance Qle_preorder : PreOrder Qle.
Proof. split; [exact Qle_refl|exact Qle_trans]. Qed.

#[global] Instance Qltb_proper : Proper (Qeq ==> Qeq ==> eq) Qltb.
Proof. intros x x' Hx y y' Hy. unfold Qltb. by rewrite Hx, Hy. Qed.

(** Case analysis on every float comparison in sight. *)
Ltac qcase :=
  repeat match goal with
  | |- context [Qltb ?a ?b] => destruct (Qltb_spec a b)
  | H : context [Qltb ?a ?b] |- _ => destruct (Qltb_spec a b)
  end.

(** ** General facts *)

Section Laws.
Context `{RoundingLaws}.

Lemma rnd_nonneg x : (0 <= x -> 0 <= rnd x)%Q.
Proof. intros Hx. rewrite <- rnd_0. by apply rnd_mono. Qed.

Lemma rnd_le_1 x : (x <= 1 -> rnd x <= 1)%Q.
Proof. intros Hx. rewrite <- rnd_1. by apply rnd_mono. Qed.

Lemma rnd_ge_1 x : (1 <= x -> 1 <= rnd x)%Q.
Proof. intros Hx. rewrite <- rnd_1. by apply rnd_mono. Qed.

Lemma fmul_unit x y : (0 <= x <= 1 -> 0 <= y <= 1 -> 0 <= fmul x y <= 1)%Q.
Proof.
  intros [] []. unfold fmul. split; [apply rnd_nonneg; nra|apply rnd_le_1; nra].
Qed.

(** A step of a fraction [k <= 1/4] towards 1 stays between the value and 1. *)
Lemma recover_unit k x : (0 <= k <= 1 # 4 -> 0 <= x <= 1 ->
  rnd x == x -> x <= fadd x (fmul k (fsub 1 x)) <= 1)%Q.
Proof.
  intros [Hk0 Hk] [Hx0 Hx] Hr. unfold fadd, fmul, fsub.
  assert (H1 : (0 <= rnd (1 - x) <= 2 * (1 - x))%Q)
    by (split; [apply rnd_nonneg; lra|apply rnd_double; lra]).
  assert (H2 : (0 <= rnd (k * rnd (1 - x)) <= 2 * (k * rnd (1 - x)))%Q)
    by (split; [apply rnd_nonneg; nra|apply rnd_double; nra]).
  split; [rewrite <- Hr at 1; apply rnd_mono; lra|apply rnd_le_1; nra].
Qed.

End Laws.

(** ** The idealisation *)

Definition exact : Rounding := fun x => x.

#[global] Instance exact_laws : RoundingLaws exact.
Proof. constructor; unfold rnd, exact; try (intros; lra). by intros x y ->. Qed.

(** ** IEEE 754 binary64 *)

(** The nearest integer, ties to even. *)
Definition rne (x : Q) : Z :=
  let f := Qfloor x in
  match ((x - inject_Z f) ?= 1 # 2)%Q with
  | Lt => f
  | Gt => f + 1
  | Eq => if Z.even f then f else f + 1
  end.

Definition pow2 (e : Z) : Q := Qpower 2 e.

(** The exponent of the last significant bit of [n # d], at least -1074. *)
Definition ulp_exp (x : Q) : Z :=
  let e := Z.log2 (Qnum x) - Z.log2 (QDen x) - 53 in
  let e := if Qltb x (pow2 (e + 53)) then e else e + 1 in
  Z.max (-1074) e.

Definition rnd_pos (x : Q) : Q :=
  let e := ulp_exp x in
  (inject_Z (rne (x * pow2 (- e))) * pow2 e)%Q.

Definition binary64 : Rounding := fun x =>
  let x := Qred x in
  if 0 <? Qnum x then Qred (rnd_pos x)
  else if Qnum x <? 0 then Qred (- rnd_pos (- x))%Q
  else 0%Q.

Lemma Qle_Z x y : (inject_Z x <= inject_Z y)%Q -> x <= y.
Proof. by rewrite <- Zle_Qle. Qed.
Lemma Qlt_Z x y : (inject_Z x < inject_Z y)%Q -> x < y.
Proof. by rewrite <- Zlt_Qlt. Qed.
Lemma Z_Qle x y : x <= y -> (inject_Z x <= inject_Z y)%Q.
Proof. by rewrite <- Zle_Qle. Qed.
Lemma Z_Qlt x y : x < y -> (inject_Z x < inject_Z y)%Q.
Proof. by rewrite <- Zlt_Qlt. Qed.

(** *** Powers of two *)

Lemma pow2_pos e : (0 < pow2 e)%Q.
Proof. apply Qpower_0_lt. lra. Qed.

Lemma pow2_add a b : (pow2 (a + b) == pow2 a * pow2 b)%Q.
Proof. apply Qpower_plus. lra. Qed.

Lemma pow2_Z e : 0 <= e -> (pow2 e == inject_Z (2 ^ e))%Q.
Proof. intros. unfold pow2. symmetry. by apply (Zpower_Qpower 2). Qed.

Lemma pow2_le a b : a <= b -> (pow2 a <= pow2 b)%Q.
Proof.
  intros Hab. replace b with (a + (b - a)) by lia. rewrite pow2_add, (pow2_Z (b - a)) by lia.
  pose proof (pow2_pos a). assert (1 <= inject_Z (2 ^ (b - a)))%Q; [|nra].
  apply (Z_Qle 1). pose proof (Z.pow_pos_nonneg 2 (b - a)). lia.
Qed.

Lemma pow2_inv e : (pow2 (- e) * pow2 e == 1)%Q.
Proof. rewrite <- pow2_add. replace (- e + e) with 0 by lia. done. Qed.

Lemma pow2_lt_inv a b : (pow2 a < pow2 b)%Q -> a < b.
Proof.
  intros Hlt. destruct (Z.lt_ge_cases a b) as [|Hge]; [done|].
  apply pow2_le in Hge. lra.
Qed.

Lemma scale_down y e : (y * pow2 e * pow2 (- e) == y)%Q.
Proof. rewrite <- Qmult_assoc, (Qmult_comm (pow2 e)), pow2_inv. lra. Qed.

Lemma scale_up y e : (y * pow2 (- e) * pow2 e == y)%Q.
Proof. rewrite <- Qmult_assoc, pow2_inv. lra. Qed.

(** Scaling an inequality by a power of two. *)
Lemma scale_le x y e : (x <= y * pow2 e <-> x * pow2 (- e) <= y)%Q.
Proof.
  pose proof (pow2_pos e). pose proof (pow2_pos (- e)). split; intros Hx.
  - rewrite <- (scale_down y e). apply Qmult_le_compat_r; lra.
  - rewrite <- (scale_up x e). apply Qmult_le_compat_r; lra.
Qed.

Lemma scale_ge x y e : (y * pow2 e <= x <-> y <= x * pow2 (- e))%Q.
Proof.
  pose proof (pow2_pos e). pose proof (pow2_pos (- e)). split; intros Hx.
  - rewrite <- (scale_down y e). apply Qmult_le_compat_r; lra.
  - rewrite <- (scale_up x e). apply Qmult_le_compat_r; lra.
Qed.

(** *** Rounding to an integer *)

Lemma rne_cases x :
  (rne x = Qfloor x /\ x - inject_Z (Qfloor x) <= 1 # 2 \/
   rne x = (Qfloor x + 1)%Z /\ 1 # 2 <= x - inject_Z (Qfloor x))%Q.
Proof.
  unfold rne. destruct (_ ?= _)%Q eqn:E.
  - apply Qeq_alt in E. destruct (Z.even _); [left|right]; (split; [done|lra]).
  - apply Qlt_alt in E. left. split; [done|lra].
  - apply Qgt_alt in E. right. split; [done|lra].
Qed.

Lemma floor_bounds x : (inject_Z (Qfloor x) <= x < inject_Z (Qfloor x) + 1)%Q.
Proof.
  split; [apply Qfloor_le|]. pose proof (Qlt_floor x) as Hf.
  rewrite inject_Z_plus in Hf. exact Hf.
Qed.

Lemma rne_near x : (x - (1 # 2) <= inject_Z (rne x) <= x + (1 # 2))%Q.
Proof.
  pose proof (floor_bounds x). destruct (rne_cases x) as [[-> ?]|[-> ?]];
    rewrite ?inject_Z_plus; change (inject_Z 1) with 1%Q; lra.
Qed.

Lemma rne_ge k x : (inject_Z k <= x)%Q -> k <= rne x.
Proof.
  intros Hk. pose proof (rne_near x) as [Hn _].
  assert (inject_Z k < inject_Z (rne x + 1))%Q as Hz%Qlt_Z; [|lia].
  rewrite inject_Z_plus. change (inject_Z 1) with 1%Q. lra.
Qed.

Lemma rne_le k x : (x <= inject_Z k)%Q -> rne x <= k.
Proof.
  intros Hk. pose proof (rne_near x) as [_ Hn].
  assert (inject_Z (rne x) < inject_Z (k + 1))%Q as Hz%Qlt_Z; [|lia].
  rewrite inject_Z_plus. change (inject_Z 1) with 1%Q. lra.
Qed.

#[global] Instance rne_proper : Proper (Qeq ==> eq) rne.
Proof. intros x y Hxy. unfold rne. rewrite (Qfloor_comp _ _ Hxy). by rewrite Hxy. Qed.

Lemma rne_mono x y : (x <= y)%Q -> rne x <= rne y.
Proof.
  intros Hxy. pose proof (floor_bounds x). pose proof (floor_bounds y).
  pose proof (Qfloor_resp_le _ _ Hxy) as Hf.
  destruct (Z.eq_dec (Qfloor x) (Qfloor y)) as [E|Hne].
  - destruct (Qlt_le_dec x y) as [Hlt|Hge]; [|by rewrite (rne_proper x y) by lra].
    destruct (rne_cases x) as [[Hx Hx']|[Hx Hx']], (rne_cases y) as [[Hy Hy']|[Hy Hy']];
      rewrite Hx, Hy, E in *; (lia || lra).
  - destruct (rne_cases x) as [[-> _]|[-> _]], (rne_cases y) as [[-> _]|[-> _]]; lia.
Qed.

Lemma rne_Z k : rne (inject_Z k) = k.
Proof. apply Z.le_antisymm; [apply rne_le|apply rne_ge]; apply Qle_refl. Qed.

Lemma rne_double x : (0 <= x -> inject_Z (rne x) <= 2 * x)%Q.
Proof.
  intros Hx. pose proof (rne_near x) as [_ Hn].
  destruct (Qlt_le_dec x (1 # 2)) as [Hlt|Hge]; [|lra].
  assert (rne x < 1) as Hr by (apply Qlt_Z; change (inject_Z 1) with 1%Q; lra).
  assert (inject_Z (rne x) <= inject_Z 0)%Q by (apply Z_Qle; lia).
  change (inject_Z 0) with 0%Q in *. lra.
Qed.

(** *** The exponent *)

Lemma ulp_exp_spec x :
  (0 < x)%Q ->
  -1074 <= ulp_exp x /\ (x < pow2 (ulp_exp x + 53))%Q /\
  ((pow2 (ulp_exp x + 52) <= x)%Q \/ ulp_exp x = -1074).
Proof.
  destruct x as [n d]. intros Hx. assert (Hn : 0 < n) by (unfold Qlt in Hx; cbn in Hx; lia).
  assert (Hlog : forall m, 0 < m -> (pow2 (Z.log2 m) <= inject_Z m)%Q /\ (inject_Z m < pow2 (Z.log2 m + 1))%Q).
  { intros m Hm. pose proof (Z.log2_spec m Hm) as [H1 H2]. pose proof (Z.log2_nonneg m).
    rewrite !pow2_Z by lia. split; [by apply Z_Qle|by apply Z_Qlt]. }
  destruct (Hlog n Hn) as [Hn1 Hn2]. destruct (Hlog (Zpos d) eq_refl) as [Hd1 Hd2]. clear Hlog.
  assert (Hq : (n # d == inject_Z n / inject_Z (Zpos d))%Q) by (rewrite Qmake_Qdiv; done).
  set (e := Z.log2 n - Z.log2 (Zpos d)).
  assert (Hp : (0 < inject_Z (Zpos d))%Q) by by apply (Z_Qlt 0).
  assert (Hmul : ((n # d) * inject_Z (Zpos d) == inject_Z n)%Q) by (rewrite Hq; field; lra).
  assert (Hlo : (pow2 (e - 1) <= n # d)%Q).
  { assert (Ht : (pow2 (e - 1) * inject_Z (Zpos d) <= (n # d) * inject_Z (Zpos d))%Q); [|nra].
    rewrite Hmul. etrans; [|exact Hn1]. replace (Z.log2 n) with (e - 1 + (Z.log2 (Zpos d) + 1)) by lia.
    rewrite (pow2_add (e - 1)). pose proof (pow2_pos (e - 1)). nra. }
  assert (Hhi : (n # d < pow2 (e + 1))%Q).
  { assert (Ht : ((n # d) * inject_Z (Zpos d) < pow2 (e + 1) * inject_Z (Zpos d))%Q); [|nra].
    rewrite Hmul. eapply Qlt_le_trans; [exact Hn2|].
    replace (Z.log2 n + 1) with (e + 1 + Z.log2 (Zpos d)) by lia.
    rewrite (pow2_add (e + 1)). pose proof (pow2_pos (e + 1)). nra. }
  clear Hmul Hq Hp Hn1 Hn2 Hd1 Hd2.
  set (e1 := if Qltb (n # d) (pow2 (e - 53 + 53)) then e - 53 else e - 53 + 1).
  assert (H1 : (pow2 (e1 + 52) <= n # d)%Q /\ (n # d < pow2 (e1 + 53))%Q).
  { unfold e1. destruct (Qltb_spec (n # d) (pow2 (e - 53 + 53))) as [Hl|Hl].
    - by replace (e - 53 + 52) with (e - 1) by lia.
    - replace (e - 53 + 1 + 52) with (e - 53 + 53) by lia.
      by replace (e - 53 + 1 + 53) with (e + 1) by lia. }
  change (ulp_exp (n # d)) with (Z.max (-1074) e1). destruct H1 as [H1 H2].
  split_and!; [lia| |].
  - eapply Qlt_le_trans; [exact H2|]. apply pow2_le. lia.
  - destruct (Z.max_spec (-1074) e1) as [[_ ->]|[_ ->]]; [by left|by right].
Qed.

(** *** Positive numbers *)

Lemma rnd_pos_le x k : (0 < x)%Q -> (x <= inject_Z k * pow2 (ulp_exp x))%Q ->
  (rnd_pos x <= inject_Z k * pow2 (ulp_exp x))%Q.
Proof.
  intros Hx Hk%scale_le%rne_le%Z_Qle. unfold rnd_pos.
  apply Qmult_le_compat_r; [done|]. apply Qlt_le_weak, pow2_pos.
Qed.

Lemma rnd_pos_ge x k : (0 < x)%Q -> (inject_Z k * pow2 (ulp_exp x) <= x)%Q ->
  (inject_Z k * pow2 (ulp_exp x) <= rnd_pos x)%Q.
Proof.
  intros Hx Hk%scale_ge%rne_ge%Z_Qle. unfold rnd_pos.
  apply Qmult_le_compat_r; [done|]. apply Qlt_le_weak, pow2_pos.
Qed.

Lemma pow2_shift k e : 0 <= k -> (pow2 (e + k) == inject_Z (2 ^ k) * pow2 e)%Q.
Proof. intros. rewrite pow2_add, (pow2_Z k) by done. apply Qmult_comm. Qed.

Lemma rnd_pos_mono x y : (0 < x -> x <= y -> rnd_pos x <= rnd_pos y)%Q.
Proof.
  intros Hx Hxy. assert (Hy : (0 < y)%Q) by lra.
  destruct (ulp_exp_spec x Hx) as (Hx0 & Hx1 & Hx2). destruct (ulp_exp_spec y Hy) as (Hy0 & Hy1 & Hy2).
  destruct (Z.lt_trichotomy (ulp_exp x) (ulp_exp y)) as [Hlt|[E|Hgt]].
  - destruct Hy2 as [Hy2|]; [|lia].
    etrans; [apply (rnd_pos_le x (2 ^ 53)); [done|]; rewrite <- pow2_shift by lia; lra|].
    etrans; [|apply (rnd_pos_ge y (2 ^ 52)); [done|]; rewrite <- pow2_shift by lia; lra].
    rewrite <- !pow2_shift by lia. apply pow2_le. lia.
  - unfold rnd_pos. rewrite E. pose proof (pow2_pos (ulp_exp y)). pose proof (pow2_pos (- ulp_exp y)).
    apply Qmult_le_compat_r; [|lra]. apply Z_Qle, rne_mono, Qmult_le_compat_r; lra.
  - destruct Hx2 as [Hx2|]; [|lia].
    assert (ulp_exp x + 52 < ulp_exp y + 53) by (apply pow2_lt_inv; lra). lia.
Qed.

Lemma rnd_pos_nonneg x : (0 < x -> 0 <= rnd_pos x)%Q.
Proof.
  intros Hx. pose proof (rnd_pos_ge x 0 Hx) as Hr. change (inject_Z 0) with 0%Q in Hr.
  rewrite Qmult_0_l in Hr. apply Hr. lra.
Qed.

Lemma rnd_pos_double x : (0 < x -> rnd_pos x <= 2 * x)%Q.
Proof.
  intros Hx. unfold rnd_pos. pose proof (pow2_pos (ulp_exp x)). pose proof (pow2_pos (- ulp_exp x)).
  assert (Hz : (0 <= x * pow2 (- ulp_exp x))%Q) by nra. apply rne_double in Hz.
  apply (Qmult_le_compat_r _ _ (pow2 (ulp_exp x))) in Hz; [|lra].
  rewrite <- Qmult_assoc, scale_up in Hz. done.
Qed.

(** Multiples of the last place are kept. *)
Lemma rnd_pos_fix x k e :
  (0 < x)%Q -> (x == inject_Z k * pow2 e)%Q -> ulp_exp x <= e -> (rnd_pos x == x)%Q.
Proof.
  intros Hx E He. apply Qle_antisym.
  - rewrite E at 2. replace e with (ulp_exp x + (e - ulp_exp x)) by lia.
    rewrite pow2_shift, Qmult_assoc, <- inject_Z_mult by lia.
    apply rnd_pos_le; [done|]. rewrite inject_Z_mult, <- Qmult_assoc, <- pow2_shift by lia.
    replace (ulp_exp x + (e - ulp_exp x)) with e by lia. rewrite E. lra.
  - rewrite E at 1. replace e with (ulp_exp x + (e - ulp_exp x)) by lia.
    rewrite pow2_shift, Qmult_assoc, <- inject_Z_mult by lia.
    apply rnd_pos_ge; [done|]. rewrite inject_Z_mult, <- Qmult_assoc, <- pow2_shift by lia.
    replace (ulp_exp x + (e - ulp_exp x)) with e by lia. rewrite E. lra.
Qed.

Lemma ulp_exp_bound z e : (0 < z)%Q -> (z < pow2 (e + 53))%Q -> -1074 <= e -> ulp_exp z <= e.
Proof.
  intros Hz Hlt He. destruct (ulp_exp_spec z Hz) as (_ & _ & [H1|]); [|lia].
  assert (ulp_exp z + 52 < e + 53) by (apply pow2_lt_inv; lra). lia.
Qed.

Lemma rnd_pos_idem x z : (0 < x)%Q -> (0 < z)%Q -> (z == rnd_pos x)%Q -> (rnd_pos z == z)%Q.
Proof.
  intros Hx Hz E. destruct (ulp_exp_spec x Hx) as (He & Hx1 & _).
  set (e := ulp_exp x) in *. set (k := rne (x * pow2 (- e))).
  assert (Ek : (z == inject_Z k * pow2 e)%Q) by done.
  assert (Hk : k <= 2 ^ 53).
  { apply rne_le, scale_le. rewrite <- pow2_shift by lia. lra. }
  destruct (Z.eq_dec k (2 ^ 53)) as [E53|Hne].
  - assert (E2 : (z == inject_Z (2 ^ 52) * pow2 (e + 1))%Q).
    { rewrite Ek, E53, <- !pow2_shift by lia. by replace (e + 1 + 52) with (e + 53) by lia. }
    apply (rnd_pos_fix z _ _ Hz E2), ulp_exp_bound; [done| |lia].
    rewrite E2, <- pow2_shift by lia. replace (e + 1 + 53) with (e + 1 + 52 + 1) by lia.
    rewrite (pow2_add (e + 1 + 52) 1). pose proof (pow2_pos (e + 1 + 52)). change (pow2 1) with 2%Q. lra.
  - apply (rnd_pos_fix z _ _ Hz Ek), ulp_exp_bound; [done| |done].
    rewrite Ek, pow2_shift by lia. apply Qmult_lt_compat_r; [apply pow2_pos|]. apply Z_Qlt. lia.
Qed.

(** *** The laws *)

Lemma binary64_cases x :
  (0 < x /\ binary64 x == rnd_pos (Qred x) \/
   x < 0 /\ binary64 x == - rnd_pos (- Qred x) \/
   x == 0 /\ binary64 x == 0)%Q.
Proof.
  unfold binary64. pose proof (Qred_correct x) as Hx.
  assert (Hs : forall y, (0 < Qnum y <-> (0 < y)%Q) /\ (Qnum y < 0 <-> (y < 0)%Q))
    by (intros [n d]; unfold Qlt; cbn; lia).
  destruct (Hs (Qred x)) as [H1 H2].
  destruct (Z.ltb_spec 0 (Qnum (Qred x))) as [Hp|Hp];
    [|destruct (Z.ltb_spec (Qnum (Qred x)) 0) as [Hn|Hn]].
  - left. rewrite Qred_correct. split; [|done]. apply H1 in Hp. lra.
  - right; left. rewrite Qred_correct. split; [|done]. apply H2 in Hn. lra.
  - right; right. split; [|done]. destruct (Q_dec (Qred x) 0) as [[Hl|Hl]|Hl]; [..|lra].
    + apply H2 in Hl. lia.
    + apply H1 in Hl. lia.
Qed.

#[global] Instance binary64_laws : RoundingLaws binary64.
Proof.
  constructor.
  - intros x y Hxy. unfold rnd, binary64. by rewrite (Qred_complete _ _ Hxy).
  - intros x y Hxy. unfold rnd. pose proof (Qred_correct x). pose proof (Qred_correct y).
    assert (Hpos : forall z, (0 < z -> 0 <= rnd_pos z)%Q) by apply rnd_pos_nonneg.
    destruct (binary64_cases x) as [[Hx ->]|[[Hx ->]|[Hx ->]]],
      (binary64_cases y) as [[Hy ->]|[[Hy ->]|[Hy ->]]]; try lra.
    + apply rnd_pos_mono; lra.
    + pose proof (Hpos (- Qred x)%Q). pose proof (Hpos (Qred y)). lra.
    + apply Qopp_le_compat, rnd_pos_mono; lra.
    + pose proof (Hpos (- Qred x)%Q). lra.
    + pose proof (Hpos (Qred y)). lra.
  - done.
  - done.
  - intros x. unfold rnd. destruct (binary64_cases x) as [[Hx E]|[[Hx E]|[Hx E]]].
    + pose proof (Qred_correct x). pose proof (rnd_pos_nonneg (Qred x)).
      destruct (binary64_cases (binary64 x)) as [[Hy ->]|[[Hy ->]|[Hy ->]]]; [|lra|lra].
      pose proof (Qred_correct (binary64 x)) as Hr. etrans; [|exact Hr].
      apply (rnd_pos_idem (Qred x)); lra.
    + pose proof (Qred_correct x). pose proof (rnd_pos_nonneg (- Qred x)).
      destruct (binary64_cases (binary64 x)) as [[Hy ->]|[[Hy ->]|[Hy ->]]]; [lra| |lra].
      pose proof (Qred_correct (binary64 x)) as Hr.
      rewrite (rnd_pos_idem (- Qred x) (- Qred (binary64 x))); lra.
    + destruct (binary64_cases (binary64 x)) as [[Hy ->]|[[Hy ->]|[Hy ->]]]; lra.
  - intros x Hx. unfold rnd. pose proof (Qred_correct x).
    destruct (binary64_cases x) as [[Hy ->]|[[Hy ->]|[Hy ->]]]; [|lra|lra].
    pose proof (rnd_pos_double (Qred x)). lra.
Qed.
