(* ===== verification/Sched.v ===== *)
(** * The transmit scheduler: internal/sched/weighted.go

    Smooth weighted round robin. The definitions are generic in the
    floating-point rounding; the fairness theorem is about the exact
    arithmetic the algorithm approximates. *)

From S2P Require Import Prelude Float64.

(** [credits] of [Weighted]. *)
Record Weighted := mkWeighted { credits : gmap Z Q }.

Definition NewWeighted : Weighted := mkWeighted ∅.

(** Reading a missing key of a Go map gives the zero value. *)
Definition credit (w : gmap Z Q) (id : Z) : Q := default 0%Q (w !! id).

Section Pick.
Context `{Rounding}.

Definition weightFloor : Q := lit (1 # 20).

(** The sum and the number of the known (positive) weights. *)
Definition known_weights (weights : list Q) : Q * Z :=
  foldl (fun '(total, known) wt =>
           if Qltb 0 wt then (fadd total wt, known + 1) else (total, known)) (0%Q, 0) weights.

Definition mean (weights : list Q) : Q :=
  let '(total, known) := known_weights weights in
  if 0 <? known then fdiv total (ofint known) else 1%Q.

(** Unknown weights replaced by the mean. *)
Definition filled (weights : list Q) : list Q :=
  (fun wt => if Qltb 0 wt then wt else mean weights) <$> weights.

Definition floor_share (sum x : Q) : Q :=
  let s := fdiv x sum in if Qltb s weightFloor then weightFloor else s.

(** The normalised shares of [n] paths; slots of [shares] beyond the weights
    keep the zero of [make([]float64, n)] until they are floored. *)
Definition shares (n : nat) (weights : list Q) : list Q :=
  let raw := filled weights in
  let sum := foldl fadd 0%Q raw in
  let floored := floor_share sum <$> (raw ++ replicate (n - length raw) 0%Q) in
  let total := foldl fadd 0%Q floored in
  (fun s => fdiv s total) <$> floored.

(** The credit loop over the pairs [(ids[i], shares[i])]. *)
Fixpoint pick_loop (i : Z) (l : list (Z * Q)) (best : Z) (bestCredit : Q) (cs : gmap Z Q)
    : gmap Z Q * Z * Q :=
  match l with
  | [] => (cs, best, bestCredit)
  | (id, share) :: l =>
      let c := fadd (credit cs id) share in
      let cs := <[id := c]> cs in
      if (best =? -1) || Qltb bestCredit c
      then pick_loop (i + 1) l i c cs
      else pick_loop (i + 1) l best bestCredit cs
  end.

(** [Panic] is the index [shares[i]] out of range when there are more
    weights than ids. *)
Definition Pick (ids : list Z) (weights : list Q) (w : Weighted) : outcome unit (Weighted * Z) :=
  if decide (length ids = 0%nat) then Ret (w, -1) else
  if decide (length ids = 1%nat) then Ret (w, 0) else
  if decide (length ids < length weights)%nat then Panic else
  let cs := if decide (length ids * 2 < size (credits w))%nat then ∅ else credits w in
  let '(cs, best, _) := pick_loop 0 (zip ids (shares (length ids) weights)) (-1) 0%Q cs in
  id ← idx ids (Z.to_nat best);
  Ret (mkWeighted (<[id := fsub (credit cs id) 1]> cs), best).

(** ** The loop *)

(** The candidate credits, in path order. *)
Definition candidates (cs : gmap Z Q) (l : list (Z * Q)) : list Q :=
  (fun p => fadd (credit cs p.1) p.2) <$> l.

Lemma credit_insert_ne cs i j x : i <> j -> credit (<[i := x]> cs) j = credit cs j.
Proof. intros. unfold credit. by rewrite lookup_insert_ne. Qed.

Lemma credit_insert_eq cs i x : credit (<[i := x]> cs) i = x.
Proof. unfold credit. by rewrite lookup_insert_eq. Qed.

Lemma candidates_insert cs l id x : id ∉ l.*1 -> candidates (<[id := x]> cs) l = candidates cs l.
Proof.
  intros Hid. apply list_fmap_ext. intros k [j s] Hj. cbn.
  rewrite credit_insert_ne; [done|]. intros ->. apply Hid.
  apply list_elem_of_fmap. exists (j, s). split; [done|]. by eapply list_elem_of_lookup_2.
Qed.

Lemma pick_loop_spec l : forall i best bc cs,
  NoDup l.*1 -> 0 <= i -> -1 <= best < i ->
  let '(cs', b, c) := pick_loop i l best bc cs in
  (forall j id s, l !! j = Some (id, s) -> credit cs' id = fadd (credit cs id) s) /\
  (forall id, id ∉ l.*1 -> cs' !! id = cs !! id) /\
  (best <> -1 -> (bc <= c)%Q) /\ Forall (fun x => x <= c)%Q (candidates cs l) /\
  ((b = best /\ c = bc /\ (best <> -1 \/ l = [])) \/
   exists j : nat, b = i + Z.of_nat j /\ candidates cs l !! j = Some c).
Proof.
  induction l as [|[id s] l IH]; intros i best bc cs Hnd Hi Hb; cbn [pick_loop].
  { split_and!; [done|done|intros; apply Qle_refl|constructor|]. left. auto. }
  apply list.NoDup_cons in Hnd as [Hid Hnd]. set (c0 := fadd (credit cs id) s).
  assert (Hrest : forall best' bc', -1 <= best' < i + 1 -> best' <> -1 ->
    (best <> -1 -> (bc <= bc')%Q) -> (c0 <= bc')%Q ->
    ((best' = best /\ bc' = bc) \/ (best' = i /\ bc' = c0)) ->
    let '(cs', b, c) := pick_loop (i + 1) l best' bc' (<[id := c0]> cs) in
    (forall j id' s', ((id, s) :: l) !! j = Some (id', s') -> credit cs' id' = fadd (credit cs id') s') /\
    (forall id', id' ∉ ((id, s) :: l).*1 -> cs' !! id' = cs !! id') /\
    (best <> -1 -> (bc <= c)%Q) /\ Forall (fun x => x <= c)%Q (candidates cs ((id, s) :: l)) /\
    ((b = best /\ c = bc /\ (best <> -1 \/ (id, s) :: l = [])) \/
     exists j : nat, b = i + Z.of_nat j /\ candidates cs ((id, s) :: l) !! j = Some c)).
  { intros best' bc' Hb' Hne Hbc Hc0 Hor.
    specialize (IH (i + 1) best' bc' (<[id := c0]> cs) Hnd ltac:(lia) Hb').
    destruct (pick_loop _ _ _ _ _) as [[cs' b] c]. destruct IH as (H1 & H2 & H3 & H4 & H5).
    rewrite candidates_insert in H4, H5 by done. specialize (H3 Hne).
    assert (Hcid : cs' !! id = Some c0) by (rewrite H2 by done; apply lookup_insert_eq).
    split_and!.
    - intros [|j] id' s' Hj; cbn in Hj; [injection Hj as <- <-; unfold credit at 1; by rewrite Hcid|].
      rewrite (H1 _ _ _ Hj). rewrite credit_insert_ne; [done|]. intros ->. apply Hid.
      apply list_elem_of_fmap. exists (id', s'). split; [done|]. by eapply list_elem_of_lookup_2.
    - intros id' Hid'. cbn in Hid'. rewrite not_elem_of_cons in Hid'. destruct Hid' as [Hn Hn'].
      rewrite H2 by done. by rewrite lookup_insert_ne.
    - intros Hbest. etrans; [by apply Hbc|done].
    - cbn. constructor; [fold c0; etrans; done|done].
    - destruct H5 as [(-> & -> & _)|(j & -> & Hj)].
      + destruct Hor as [[-> ->]|[-> ->]]; [left; auto|right]. exists 0%nat. split; [lia|done].
      + right. exists (S j). split; [lia|done]. }
  destruct (Z.eqb_spec best (-1)) as [->|Hne]; cbn [orb].
  - apply Hrest; [lia|lia|done|apply Qle_refl|auto].
  - destruct (Qltb_spec bc c0) as [Hlt|Hge].
    + apply Hrest; [lia|lia|intros; lra|apply Qle_refl|auto].
    + apply Hrest; [lia|done|intros; apply Qle_refl|done|auto].
Qed.

End Pick.

(** ** Sums of rationals *)

Definition Qsum (l : list Q) : Q := foldr Qplus 0%Q l.

Lemma Qsum_cons x l : (Qsum (x :: l) == x + Qsum l)%Q.
Proof. apply Qeq_refl. Qed.

Lemma Qsum_div l d : (~ d == 0 -> Qsum ((fun x => x / d) <$> l) == Qsum l / d)%Q.
Proof.
  intros Hd. induction l as [|x l IH]; [cbn; field; done|].
  rewrite fmap_cons, !Qsum_cons, IH. field. done.
Qed.

Lemma Qsum_nonneg l : Forall (fun x => 0 <= x)%Q l -> (0 <= Qsum l)%Q.
Proof. induction 1 as [|x l Hx Hl IH]; [apply Qle_refl|]. rewrite Qsum_cons. lra. Qed.

Lemma Qsum_pos l : l <> [] -> Forall (fun x => 0 < x)%Q l -> (0 < Qsum l)%Q.
Proof.
  intros Hne Hf. destruct Hf as [|x l Hx Hl]; [done|]. rewrite Qsum_cons.
  assert (0 <= Qsum l)%Q; [|lra]. apply Qsum_nonneg. eapply Forall_impl; [|exact Hl]. cbn. intros; lra.
Qed.

Lemma Qsum_le_0 m l : Forall (fun x => x <= m)%Q l -> (m <= 0)%Q -> (Qsum l <= 0)%Q.
Proof.
  intros Hf Hm. induction Hf as [|x l Hx Hl IH]; [apply Qle_refl|]. rewrite Qsum_cons. lra.
Qed.

(** If every element exceeds -1, the rest of the sum weighs at least minus
    the number of other elements. *)
Lemma Qsum_lower l : Forall (fun x => -1 < x)%Q l -> (- inject_Z (Z.of_nat (length l)) <= Qsum l)%Q.
Proof.
  induction 1 as [|x l Hx Hl IH]; [vm_compute; congruence|]. rewrite Qsum_cons. cbn [length].
  rewrite Nat2Z.inj_succ. unfold Z.succ. rewrite inject_Z_plus. change (inject_Z 1) with 1%Q. lra.
Qed.

Lemma Qsum_lookup l : forall i x, l !! i = Some x -> Forall (fun x => -1 < x)%Q l ->
  (2 <= length l)%nat -> (x - inject_Z (Z.of_nat (length l)) + 1 < Qsum l)%Q.
Proof.
  assert (Hstrict : forall l, l <> [] -> Forall (fun x => -1 < x)%Q l ->
    (- inject_Z (Z.of_nat (length l)) < Qsum l)%Q).
  { intros [|y l'] Hne; [done|]. intros [Hy Hl']%Forall_cons_iff. rewrite Qsum_cons.
    pose proof (Qsum_lower l' Hl') as Hlow. cbn [length]. rewrite Nat2Z.inj_succ. unfold Z.succ.
    rewrite inject_Z_plus. change (inject_Z 1) with 1%Q. lra. }
  induction l as [|y l IH]; intros i x Hi Hf Hlen; [done|].
  apply Forall_cons_iff in Hf as [Hy Hf]. rewrite Qsum_cons. cbn [length] in *.
  rewrite Nat2Z.inj_succ. unfold Z.succ. rewrite inject_Z_plus. change (inject_Z 1) with 1%Q.
  destruct i as [|i]; cbn in Hi.
  - injection Hi as ->. assert (l <> []) as Hl by (intros ->; cbn in Hlen; lia).
    pose proof (Hstrict l Hl Hf). lra.
  - destruct (decide (2 <= length l)%nat) as [H2|H2]; [pose proof (IH _ _ Hi Hf H2); lra|].
    destruct l as [|z [|? ?]]; [done| |cbn in H2; lia]. destruct i; [|done].
    injection Hi as ->. rewrite Qsum_cons. change (Qsum []) with 0%Q.
    change (inject_Z (Z.of_nat (length [x]))) with 1%Q. lra.
Qed.

Lemma Qsum_zip a : forall b, length a = length b ->
  (Qsum (zip_with Qplus a b) == Qsum a + Qsum b)%Q.
Proof.
  induction a as [|x a IH]; intros [|y b] Hl; try done. cbn [zip_with].
  rewrite !Qsum_cons, IH by (cbn in Hl; lia). lra.
Qed.

(** Sums under a pointwise update in which one element also pays 1. *)
Lemma Qsum_update a : forall b c (k : nat), length b = length a -> length c = length a ->
  (k < length a)%nat ->
  (forall j x y z, a !! j = Some x -> b !! j = Some y -> c !! j = Some z ->
     z == x + y - (if decide (j = k) then 1 else 0))%Q ->
  (Qsum c == Qsum a + Qsum b - 1)%Q.
Proof.
  assert (Hno : forall a b c, length b = length a -> length c = length a ->
    (forall j x y z, a !! j = Some x -> b !! j = Some y -> c !! j = Some z -> z == x + y)%Q ->
    (Qsum c == Qsum a + Qsum b)%Q).
  { clear. induction a as [|x a IH]; intros [|y b] [|z c] Hb Hc Hp; try done.
    rewrite !Qsum_cons, (IH b c); [rewrite (Hp 0%nat x y z) by done; lra|cbn in *; lia..|].
    intros j. apply (Hp (S j)). }
  induction a as [|x a IH]; intros [|y b] [|z c] k Hb Hc Hk Hp; try (cbn in *; lia).
  rewrite !Qsum_cons. pose proof (Hp 0%nat x y z eq_refl eq_refl eq_refl) as H0.
  destruct k as [|k].
  - rewrite (Hno a b c); [rewrite H0, decide_True by done; lra|cbn in *; lia..|].
    intros j x' y' z' H1 H2 H3. rewrite (Hp (S j) x' y' z') by done. rewrite decide_False by lia. lra.
  - rewrite (IH b c k); [rewrite H0, decide_False by lia; lra|cbn in *; lia..|].
    intros j x' y' z' H1 H2 H3. rewrite (Hp (S j) x' y' z') by done.
    destruct (decide (j = k)) as [->|]; [by rewrite !decide_True|by rewrite !decide_False by lia].
Qed.

(** ** Range *)

Section Range.
Context `{Rounding}.

Lemma pick_loop_range l : forall i best bc cs, 0 <= i -> -1 <= best < i ->
  let b := (pick_loop i l best bc cs).1.2 in
  (best <> -1 /\ b = best) \/ (l = [] /\ b = best) \/ i <= b < i + Z.of_nat (length l).
Proof.
  induction l as [|[id s] l IH]; intros i best bc cs Hi Hb; cbn [pick_loop]; [by right; left|].
  cbn [length]. destruct (Z.eqb_spec best (-1)) as [->|Hne]; cbn [orb].
  - specialize (IH (i + 1) i (fadd (credit cs id) s) (<[id := fadd (credit cs id) s]> cs)). cbn in IH |- *. lia.
  - destruct (Qltb _ _); cbn.
    + specialize (IH (i + 1) i (fadd (credit cs id) s) (<[id := fadd (credit cs id) s]> cs)). cbn in IH. lia.
    + specialize (IH (i + 1) best bc (<[id := fadd (credit cs id) s]> cs)). cbn in IH. lia.
Qed.

Lemma length_shares n weights : (length weights <= n)%nat -> length (shares n weights) = n.
Proof.
  intros Hl. unfold shares, filled. rewrite !length_fmap, length_app, length_replicate, length_fmap. lia.
Qed.

Lemma Pick_ret ids weights w :
  (2 <= length ids)%nat -> length weights = length ids ->
  exists id w' b, Pick ids weights w = Ret (w', Z.of_nat b) /\ ids !! b = Some id /\
    let '(cs, best, _) := pick_loop 0 (zip ids (shares (length ids) weights)) (-1) 0%Q
      (if decide (length ids * 2 < size (credits w))%nat then ∅ else credits w) in
    best = Z.of_nat b /\ w' = mkWeighted (<[id := fsub (credit cs id) 1]> cs).
Proof.
  intros H2 Hw. unfold Pick. rewrite !decide_False by lia.
  set (l := zip _ _). set (c0 := if decide _ then _ else _).
  assert (Hl : length l = length ids).
  { unfold l. rewrite length_zip_with, length_shares by lia. lia. }
  pose proof (pick_loop_range l 0 (-1) 0%Q c0 ltac:(lia) ltac:(lia)) as Hr. cbn zeta in Hr.
  destruct (pick_loop 0 l (-1) 0%Q c0) as [[cs best] c]. cbn in Hr.
  assert (0 <= best < Z.of_nat (length ids)) as Hb.
  { destruct Hr as [|[[-> ->]|]]; [lia| |lia]. cbn in Hl. lia. }
  destruct (@idx_lt unit _ ids (Z.to_nat best)) as (id & Hi & Hid); [lia|].
  exists id, (mkWeighted (<[id := fsub (credit cs id) 1]> cs)), (Z.to_nat best).
  rewrite Hi. cbn. rewrite Z2Nat.id by lia. done.
Qed.

End Range.

(** ** Exact arithmetic *)

Section Exact.
#[local] Existing Instance exact.

Lemma foldl_fadd l : forall a, (foldl fadd a l == a + Qsum l)%Q.
Proof.
  induction l as [|x l IH]; intros a; cbn [foldl]; [cbn; lra|].
  rewrite IH, Qsum_cons. unfold fadd, rnd, exact. lra.
Qed.

Lemma known_weights_pos weights : forall t k, (0 <= t)%Q -> 0 <= k -> (0 < k -> (0 < t)%Q) ->
  let '(t', k') := foldl (fun '(total, known) wt =>
     if Qltb 0 wt then (fadd total wt, known + 1) else (total, known)) (t, k) weights in
  0 <= k' /\ (0 < k' -> (0 < t')%Q).
Proof.
  induction weights as [|wt weights IH]; intros t k Ht Hk Hp; cbn [foldl]; [done|].
  destruct (Qltb_spec 0 wt); [|by apply IH].
  apply IH; unfold fadd, rnd, exact; [lra|lia|lra].
Qed.

Lemma mean_pos weights : (0 < mean weights)%Q.
Proof.
  unfold mean. pose proof (known_weights_pos weights 0%Q 0 (Qle_refl 0) ltac:(lia) ltac:(lia)) as Hk.
  fold (known_weights weights) in Hk. destruct (known_weights weights) as [t k].
  destruct Hk as [Hk Ht]. destruct (Z.ltb_spec 0 k) as [Hlt|]; [|done].
  unfold fdiv, ofint, rnd, exact. specialize (Ht Hlt). apply (Z_Qlt 0) in Hlt.
  apply Qlt_shift_div_l; [exact Hlt|]. lra.
Qed.

Lemma filled_pos weights : Forall (fun x => 0 < x)%Q (filled weights).
Proof.
  unfold filled. pose proof (mean_pos weights). apply Forall_fmap, List.Forall_forall.
  intros x _. cbn. by destruct (Qltb_spec 0 x).
Qed.

Lemma floor_share_bounds sum x :
  (0 < sum -> 0 < x -> 1 # 20 <= floor_share sum x /\ x / sum <= floor_share sum x <= x / sum + (1 # 20))%Q.
Proof.
  intros Hs Hx. unfold floor_share, weightFloor, lit, fdiv, rnd, exact.
  assert (0 < x / sum)%Q by (apply Qlt_shift_div_l; lra).
  destruct (Qltb_spec (x / sum) (1 # 20)); lra.
Qed.

Lemma Qsum_fmap_le (f g : Q -> Q) l :
  Forall (fun x => (f x <= g x)%Q) l -> (Qsum (f <$> l) <= Qsum (g <$> l))%Q.
Proof.
  induction 1 as [|x l Hx Hl IH]; [apply Qle_refl|]. rewrite !fmap_cons, !Qsum_cons. lra.
Qed.

Lemma Qsum_fmap_add (f : Q -> Q) k l :
  (Qsum ((fun x => f x + k) <$> l) == Qsum (f <$> l) + inject_Z (Z.of_nat (length l)) * k)%Q.
Proof.
  induction l as [|x l IH]; [change (0 == 0 + 0 * k)%Q; lra|].
  rewrite !fmap_cons, !Qsum_cons, IH. cbn [length].
  rewrite Nat2Z.inj_succ. unfold Z.succ. rewrite inject_Z_plus. change (inject_Z 1) with 1%Q. lra.
Qed.

(** The shares are positive, sum to one, and none is below [1 / (20 + n)]. *)
Lemma shares_spec n weights :
  (0 < n)%nat -> length weights = n ->
  length (shares n weights) = n /\ (Qsum (shares n weights) == 1)%Q /\
  Forall (fun s => 1 / (20 + inject_Z (Z.of_nat n)) <= s)%Q (shares n weights).
Proof.
  intros Hn Hw. split; [by apply length_shares; lia|].
  pose proof (filled_pos weights) as Hpos. unfold shares.
  set (raw := filled weights) in *. assert (Hraw : length raw = n) by (unfold raw, filled; by rewrite length_fmap).
  assert (Hne : raw <> []) by (intros E; rewrite E in Hraw; cbn in Hraw; lia).
  rewrite Hraw, Nat.sub_diag. cbn [replicate]. rewrite app_nil_r.
  set (sum := foldl fadd 0%Q raw).
  assert (Hsum : (sum == Qsum raw)%Q) by (unfold sum; rewrite foldl_fadd; lra).
  pose proof (Qsum_pos raw Hne Hpos) as Hsp.
  set (fl := floor_share sum <$> raw).
  assert (Hfl : Forall (fun s => 1 # 20 <= s)%Q fl).
  { apply Forall_fmap. eapply Forall_impl; [|exact Hpos]. intros x Hx. cbn in *.
    apply floor_share_bounds; lra. }
  set (total := foldl fadd 0%Q fl).
  assert (Htot : (total == Qsum fl)%Q) by (unfold total; rewrite foldl_fadd; lra).
  assert (Htp : (0 < Qsum fl)%Q).
  { apply Qsum_pos; [unfold fl; by destruct raw|]. eapply Forall_impl; [|exact Hfl]. cbn. intros; lra. }
  assert (Hle : (Qsum fl <= 1 + inject_Z (Z.of_nat n) * (1 # 20))%Q).
  { etrans; [apply (Qsum_fmap_le _ (fun x => x / sum + (1 # 20))%Q)|].
    - eapply Forall_impl; [|exact Hpos]. intros x Hx. cbn in *. apply floor_share_bounds; lra.
    - rewrite (Qsum_fmap_add (fun x => x / sum)%Q), Qsum_div, Hraw, Hsum by lra.
      assert (Qsum raw / Qsum raw == 1)%Q as -> by (field; lra). lra. }
  split.
  - unfold fdiv, rnd, exact. rewrite Qsum_div, Htot by lra. field. lra.
  - apply Forall_fmap. eapply Forall_impl; [|exact Hfl]. intros s Hs. cbn in *.
    unfold fdiv, rnd, exact. rewrite Htot.
    assert (0 < inject_Z (Z.of_nat n))%Q by (apply (Z_Qlt 0); lia).
    apply Qle_shift_div_l; [done|].
    assert (1 / (20 + inject_Z (Z.of_nat n)) * Qsum fl
      == Qsum fl / (20 + inject_Z (Z.of_nat n)))%Q as -> by (field; lra).
    apply Qle_shift_div_r; [lra|]. nra.
Qed.

(** ** One pick *)

Definition within (ids : list Z) (w : Weighted) : Prop := dom (credits w) ⊆ list_to_set (C := gset Z) ids.

Lemma within_size ids w : NoDup ids -> within ids w -> (size (credits w) <= length ids)%nat.
Proof.
  intros Hnd Hw. rewrite <- size_dom, <- (size_list_to_set (C := gset Z) ids) by done.
  by apply subseteq_size.
Qed.

(** The credits of the paths, in path order. *)
Definition balance (ids : list Z) (w : Weighted) : list Q := credit (credits w) <$> ids.

Lemma Pick_step ids weights w :
  NoDup ids -> (2 <= length ids)%nat -> length weights = length ids -> within ids w ->
  let sh := shares (length ids) weights in
  exists w' b, Pick ids weights w = Ret (w', Z.of_nat b) /\ (b < length ids)%nat /\ within ids w' /\
    (forall j x y z, balance ids w !! j = Some x -> sh !! j = Some y -> balance ids w' !! j = Some z ->
       z == x + y - (if decide (j = b) then 1 else 0))%Q /\
    exists c y, balance ids w !! b = Some c /\ sh !! b = Some y /\
      forall j x y', balance ids w !! j = Some x -> sh !! j = Some y' -> (x + y' <= c + y)%Q.
Proof.
  intros Hnd H2 Hw Hin sh. destruct (Pick_ret ids weights w H2 Hw) as (id & w' & b & HP & Hid & Hloop).
  fold sh in Hloop. assert (Hsh : length sh = length ids) by (apply length_shares; lia).
  pose proof (within_size _ _ Hnd Hin) as Hsz. rewrite decide_False in Hloop by lia.
  assert (Hfst : (zip ids sh).*1 = ids) by (apply fst_zip; lia).
  assert (Hlk : forall j, zip ids sh !! j = (i ← ids !! j; s ← sh !! j; Some (i, s)))
    by (intros; apply lookup_zip_with).
  pose proof (pick_loop_spec (zip ids sh) 0 (-1) 0%Q (credits w)) as Hs.
  rewrite Hfst in Hs. specialize (Hs Hnd ltac:(lia) ltac:(lia)).
  destruct (pick_loop _ _ _ _ _) as [[cs best] c]. destruct Hloop as [-> ->].
  destruct Hs as (Hc & Hout & _ & Hmax & Hb).
  assert (Hcand : candidates (credits w) (zip ids sh) !! b = Some c).
  { destruct Hb as [(Hb & _)|(j & Hb & Hj)]; [lia|]. by replace b with j by lia. }
  assert (Hbl : (b < length ids)%nat) by by apply lookup_lt_Some in Hid.
  destruct (lookup_lt_is_Some_2 sh b) as [y Hy]; [lia|].
  assert (Hcy : c = fadd (credit (credits w) id) y).
  { unfold candidates in Hcand. rewrite list_lookup_fmap, Hlk, Hid, Hy in Hcand. by injection Hcand. }
  exists (mkWeighted (<[id := fsub (credit cs id) 1]> cs)), b. split_and!; [done|done| | |].
  - unfold within in *. cbn. rewrite dom_insert. intros k [->%elem_of_singleton|Hk]%elem_of_union.
    + apply elem_of_list_to_set. by eapply list_elem_of_lookup_2.
    + destruct (decide (k ∈ ids)) as [|Hk']; [by apply elem_of_list_to_set|].
      apply Hin. apply elem_of_dom. apply elem_of_dom in Hk. by rewrite Hout in Hk.
  - intros j x y' z Hx Hy' Hz. unfold balance in Hx, Hz. rewrite list_lookup_fmap in Hx, Hz.
    destruct (ids !! j) as [k|] eqn:Hk; [|done]. cbn in Hx, Hz.
    injection Hx as <-. injection Hz as <-.
    pose proof (Hc j k y') as Hck. rewrite Hlk, Hk, Hy' in Hck. specialize (Hck eq_refl).
    destruct (decide (j = b)) as [->|Hjb].
    + rewrite Hid in Hk. injection Hk as <-. rewrite credit_insert_eq, Hck.
      unfold fsub, fadd, rnd, exact. lra.
    + rewrite credit_insert_ne, Hck; [unfold fadd, rnd, exact; lra|]. intros ->.
      apply Hjb. by eapply NoDup_lookup.
  - exists (credit (credits w) id), y. split_and!; [unfold balance; by rewrite list_lookup_fmap, Hid|done|].
    intros j x y' Hx Hy'. unfold balance in Hx. rewrite list_lookup_fmap in Hx.
    destruct (ids !! j) as [k|] eqn:Hk; [|done]. injection Hx as <-.
    assert (Hj : candidates (credits w) (zip ids sh) !! j = Some (fadd (credit (credits w) k) y')).
    { unfold candidates. by rewrite list_lookup_fmap, Hlk, Hk, Hy'. }
    rewrite Forall_lookup in Hmax. specialize (Hmax _ _ Hj). cbn in Hmax. rewrite Hcy in Hmax.
    exact Hmax.
Qed.

(** ** Fairness *)

Record fair (ids : list Z) (w : Weighted) : Prop := {
  fair_within : within ids w;
  fair_zero : (Qsum (balance ids w) == 0)%Q;
  fair_low : Forall (fun x => -1 < x)%Q (balance ids w);
}.

Lemma fair_New ids : fair ids NewWeighted.
Proof.
  constructor.
  - unfold within. cbn. set_solver.
  - induction ids as [|i ids IH]; [done|].
    change (0 + Qsum (balance ids NewWeighted) == 0)%Q. rewrite IH. lra.
  - apply Forall_fmap, List.Forall_forall. intros i _. done.
Qed.

Lemma length_balance ids w : length (balance ids w) = length ids.
Proof. apply length_fmap. Qed.

Lemma fair_step ids weights w :
  NoDup ids -> (2 <= length ids)%nat -> length weights = length ids -> fair ids w ->
  let sh := shares (length ids) weights in
  exists w' b, Pick ids weights w = Ret (w', Z.of_nat b) /\ (b < length ids)%nat /\ fair ids w' /\
    (forall j x y z, balance ids w !! j = Some x -> sh !! j = Some y -> balance ids w' !! j = Some z ->
       z == x + y - (if decide (j = b) then 1 else 0))%Q.
Proof.
  intros Hnd H2 Hw [Hin Hz Hlow] sh.
  destruct (Pick_step ids weights w Hnd H2 Hw Hin) as (w' & b & HP & Hb & Hin' & Hupd & c & y & Hc & Hy & Hmax).
  fold sh in Hupd, Hy, Hmax.
  destruct (shares_spec (length ids) weights ltac:(lia) Hw) as (Hl & Hone & Hpos). fold sh in Hl, Hone, Hpos.
  assert (Hspos : Forall (fun s => 0 < s)%Q sh).
  { eapply Forall_impl; [|exact Hpos]. intros s Hs. cbn in *.
    assert (0 < inject_Z (Z.of_nat (length ids)))%Q by (apply (Z_Qlt 0); lia).
    eapply Qlt_le_trans; [|exact Hs]. apply Qlt_shift_div_l; lra. }
  pose proof (length_balance ids w) as Hlb. pose proof (length_balance ids w') as Hlb'.
  assert (Hwin : (0 < c + y)%Q).
  { apply Qnot_le_lt. intros Hneg.
    set (after := zip_with Qplus (balance ids w) sh).
    assert (Qsum after <= 0)%Q as Hle.
    { apply (Qsum_le_0 (c + y)%Q); [|done]. apply Forall_lookup. intros j z Hj.
      apply lookup_zip_with_Some in Hj as (x & y' & -> & Hx & Hy'). by eapply Hmax. }
    assert (Qsum after == Qsum (balance ids w) + Qsum sh)%Q as Hsum; [|lra].
    apply Qsum_zip. lia. }
  exists w', b. split_and!; [done|done| |done]. constructor; [done| |].
  - rewrite (Qsum_update (balance ids w) sh (balance ids w') b) by (lia || done). lra.
  - apply Forall_lookup. intros j z Hj. pose proof (lookup_lt_Some _ _ _ Hj) as Hlt.
    destruct (lookup_lt_is_Some_2 (balance ids w) j) as [x Hx]; [lia|].
    destruct (lookup_lt_is_Some_2 sh j) as [y' Hy']; [lia|].
    rewrite (Hupd j x y' z) by done. rewrite Forall_lookup in Hlow, Hspos.
    specialize (Hlow _ _ Hx). specialize (Hspos _ _ Hy'). cbn in Hlow, Hspos.
    case_decide as Hjb; [|lra]. subst j. rewrite Hc in Hx. rewrite Hy in Hy'.
    injection Hx as ->. injection Hy' as ->. lra.
Qed.

(** [N] packets scheduled over the same paths. *)
Fixpoint picks (N : nat) (ids : list Z) (weights : list Q) (w : Weighted)
    : outcome unit (Weighted * list Z) :=
  match N with
  | O => Ret (w, [])
  | S N =>
      r ← Pick ids weights w;
      r' ← picks N ids weights r.1;
      Ret (r'.1, r.2 :: r'.2)
  end.

(** How many of them path [i] carried. *)
Definition carried (i : nat) (bs : list Z) : Z :=
  Z.of_nat (length (filter (fun b => b = Z.of_nat i) bs)).

Lemma carried_cons i (b : nat) bs :
  carried i (Z.of_nat b :: bs) = carried i bs + (if decide (i = b) then 1 else 0).
Proof.
  unfold carried. rewrite filter_cons. case_decide; case_decide; subst; cbn [length]; lia.
Qed.

Lemma picks_spec ids weights N : forall w,
  NoDup ids -> (2 <= length ids)%nat -> length weights = length ids -> fair ids w ->
  exists w' bs, picks N ids weights w = Ret (w', bs) /\ fair ids w' /\
    Forall (fun b => 0 <= b < Z.of_nat (length ids)) bs /\ length bs = N /\
    forall j x y z, balance ids w !! j = Some x -> shares (length ids) weights !! j = Some y ->
      balance ids w' !! j = Some z ->
      (z == x + inject_Z (Z.of_nat N) * y - inject_Z (carried j bs))%Q.
Proof.
  induction N as [|N IH]; intros w Hnd H2 Hw Hf; cbn [picks].
  { exists w, []. split_and!; [done|done|constructor|done|]. intros j x y z Hx Hy Hz.
    rewrite Hx in Hz. injection Hz as ->.
    change (inject_Z (Z.of_nat 0)) with 0%Q. change (inject_Z (carried j [])) with 0%Q. lra. }
  destruct (fair_step ids weights w Hnd H2 Hw Hf) as (w1 & b & -> & Hb & Hf1 & Hupd).
  cbn [mbind outcome_bind]. cbn [fst snd].
  destruct (IH w1 Hnd H2 Hw Hf1) as (w2 & bs & -> & Hf2 & Hr & Hl & Hupd2).
  cbn [mbind outcome_bind]. exists w2, (Z.of_nat b :: bs).
  split_and!; [done|done|constructor; [lia|done]|cbn; lia|]. intros j x y z Hx Hy Hz.
  pose proof (lookup_lt_Some _ _ _ Hx) as Hlt. rewrite length_balance in Hlt.
  destruct (lookup_lt_is_Some_2 (balance ids w1) j) as [x1 Hx1]; [by rewrite length_balance|].
  rewrite (Hupd2 j x1 y z), (Hupd j x y x1), carried_cons by done.
  rewrite Nat2Z.inj_succ. unfold Z.succ. rewrite !inject_Z_plus. change (inject_Z 1) with 1%Q.
  case_decide; change (inject_Z 1) with 1%Q; change (inject_Z 0) with 0%Q; lra.
Qed.

(** C10: Fair splitting: over any number [N] of packets on a fixed set of [n >= 2]
    paths, starting fresh, the number of packets path [i] carries stays within
    [n - 1] of [N] times its share (and never more than one ahead); the shares
    are a probability distribution and each is at least [1 / (20 + n)], so no
    live path starves. *)
Theorem Pick_fair ids weights N :
  NoDup ids -> (2 <= length ids)%nat -> length weights = length ids ->
  let n := inject_Z (Z.of_nat (length ids)) in
  let sh := shares (length ids) weights in
  (Qsum sh == 1)%Q /\ Forall (fun s => 1 / (20 + n) <= s)%Q sh /\
  exists w bs, picks N ids weights NewWeighted = Ret (w, bs) /\ length bs = N /\
    forall i s, sh !! i = Some s ->
      (inject_Z (Z.of_nat N) * s - (n - 1) < inject_Z (carried i bs)
       < inject_Z (Z.of_nat N) * s + 1)%Q.
Proof.
  intros Hnd H2 Hw n sh. destruct (shares_spec (length ids) weights ltac:(lia) Hw) as (Hl & Hone & Hmin).
  split_and!; [done|done|].
  destruct (picks_spec ids weights N NewWeighted Hnd H2 Hw (fair_New ids)) as (w & bs & HP & [Hin Hz Hlow] & _ & HN & Hupd).
  exists w, bs. split_and!; [done|done|]. intros i s Hs.
  pose proof (lookup_lt_Some _ _ _ Hs) as Hlt. unfold sh in Hlt. rewrite Hl in Hlt.
  destruct (lookup_lt_is_Some_2 (balance ids w) i) as [z Hzi]; [by rewrite length_balance|].
  destruct (lookup_lt_is_Some_2 (balance ids NewWeighted) i) as [x Hx]; [by rewrite length_balance|].
  pose proof (Hupd i x s z Hx Hs Hzi) as Heq.
  assert (x = 0%Q) as ->.
  { unfold balance in Hx. rewrite list_lookup_fmap in Hx. destruct (ids !! i); [by injection Hx as <-|done]. }
  pose proof (Qsum_lookup _ _ _ Hzi Hlow) as Hup. rewrite length_balance in Hup. specialize (Hup H2).
  fold n in Hup. rewrite Forall_lookup in Hlow. specialize (Hlow _ _ Hzi). cbn in Hlow. lra.
Qed.

Lemma Pick_fair_witness :
  let n := inject_Z 3 in
  let sh := shares 3 [10; 30; 0]%Q in
  (Qsum sh == 1)%Q /\ Forall (fun s => 1 / (20 + n) <= s)%Q sh /\
  exists w bs, picks 8 [7; 1; 3] [10; 30; 0]%Q NewWeighted = Ret (w, bs) /\ length bs = 8%nat /\
    forall i s, sh !! i = Some s ->
      (inject_Z 8 * s - (n - 1) < inject_Z (carried i bs) < inject_Z 8 * s + 1)%Q.
Proof.
  apply (Pick_fair [7; 1; 3] [10; 30; 0]%Q 8); [|cbn; lia|done].
  apply (bool_decide_unpack _). by vm_compute.
Defined.

End Exact.

(** The credits a pick starts from: stale ones are dropped wholesale. *)
Definition purged (ids : list Z) (w : Weighted) : gmap Z Q :=
  if decide (length ids * 2 < size (credits w))%nat then ∅ else credits w.

(** Choice of the path, in binary64 or any other arithmetic: with no path the
    answer is -1 and with one path it is that path, leaving the credits
    alone; with two or more paths and a weight for each, the call does not
    panic and its answer is the index of a path whose topped-up credit is
    maximal. *)
Theorem Pick_index `{Rounding} ids weights w :
  NoDup ids -> length weights = length ids ->
  let sh := shares (length ids) weights in
  let topped id s := fadd (credit (purged ids w) id) s in
  (length ids = 0%nat -> Pick ids weights w = Ret (w, -1)) /\
  (length ids = 1%nat -> Pick ids weights w = Ret (w, 0)) /\
  ((2 <= length ids)%nat ->
   exists w' b id s, Pick ids weights w = Ret (w', Z.of_nat b) /\
     ids !! b = Some id /\ sh !! b = Some s /\
     forall j id' s', ids !! j = Some id' -> sh !! j = Some s' -> (topped id' s' <= topped id s)%Q).
Proof.
  intros Hnd Hw sh topped. split_and!.
  - intros Hl. unfold Pick. by rewrite decide_True.
  - intros Hl. unfold Pick. rewrite decide_False by lia. by rewrite decide_True.
  - intros H2. destruct (Pick_ret ids weights w H2 Hw) as (id & w' & b & HP & Hid & Hloop).
    fold sh (purged ids w) in Hloop. assert (Hsh : length sh = length ids) by (apply length_shares; lia).
    pose proof (lookup_lt_Some _ _ _ Hid) as Hb.
    destruct (lookup_lt_is_Some_2 sh b) as [s Hs]; [lia|].
    assert (Hcand : forall j i x, ids !! j = Some i -> sh !! j = Some x ->
      candidates (purged ids w) (zip ids sh) !! j = Some (topped i x)).
    { intros j i x Hi Hx. unfold candidates. rewrite list_lookup_fmap.
      rewrite (lookup_zip_with pair ids sh j), Hi, Hx. done. }
    pose proof (pick_loop_spec (zip ids sh) 0 (-1) 0%Q (purged ids w)) as Hspec.
    rewrite fst_zip in Hspec by lia. specialize (Hspec Hnd ltac:(lia) ltac:(lia)).
    destruct (pick_loop _ _ _ _ _) as [[cs best] c]. destruct Hloop as [-> _].
    destruct Hspec as (_ & _ & _ & Hmax & Hor). rewrite Forall_lookup in Hmax.
    exists w', b, id, s. split_and!; [done..|]. intros j id' s' Hj Hj'.
    assert (c = topped id s) as <-.
    { destruct Hor as [(? & _)|(k & Hk & Hc)]; [lia|]. assert (k = b) as -> by lia.
      rewrite (Hcand b id s) in Hc by done. by injection Hc. }
    by apply (Hmax j), Hcand.
Qed.

Lemma Pick_index_witness :
  exists w' b id s, Pick (H := binary64) [7; 1] [1; 3]%Q NewWeighted = Ret (w', Z.of_nat b) /\
    [7; 1] !! b = Some id /\ shares (H := binary64) 2 [1; 3]%Q !! b = Some s.
Proof.
  destruct (Pick_index (H := binary64) [7; 1] [1; 3]%Q NewWeighted) as (_ & _ & Hp); [|done|].
  - apply (bool_decide_unpack _). by vm_compute.
  - destruct (Hp ltac:(cbn; lia)) as (w' & b & id & s & H1 & H2 & H3 & _).
    exact (ex_intro _ w' (ex_intro _ b (ex_intro _ id (ex_intro _ s (conj H1 (conj H2 H3)))))).
Defined.
