(* ===== verification/Link.v ===== *)
(** * Path quality and liveness: internal/pathmon/link.go

    One [Link] per path and sending direction: the UP/DOWN state machine fed
    by probes, the RFC 6298 round-trip estimator, and the loss, delay and
    early-drop discounts fed by the receiver's reports. *)

From S2P Require Import Prelude Float64.

Definition ProbeInterval : Z := 100 * Millisecond.
Definition ProbeIntervalDown : Z := 500 * Millisecond.
Definition probeLossDown : Z := 3.
Definition probeAckUp : Z := 3.
Definition capacityWindow : Z := 10 * Second.
Definition targetQueueUS : Z := 30000.
Definition baselineWindow : Z := 30 * Second.

Record capSample := mkCapSample { cs_t : Z; cs_bps : Q }.

Record Snapshot := mkSnapshot {
  sUp : bool;
  sSRTT : Z;
  sRTTVar : Z;
  sLossEWMA : Q;
  sCapacityBps : Q;
  sLossFactor : Q;
  sDelayFactor : Q;
  sQueueMs : Q;
  sWeightBps : Q;
}.

Record probeSent := mkProbeSent { p_seq : Z; p_at : Z }.

(** The two buckets [owdBase[i]], [owdBaseSet[i]] are options, and the zero
    [time.Time] of [owdBucketAt] is [None]. *)
Record Link := mkLink {
  up : bool;
  srtt : Z;
  rttvar : Z;
  hasRTT : bool;
  lossEWMA : Q;
  lossFactor : Q;
  delayFactor : Q;
  queueUS : Q;
  aqmProb : Q;
  capSamples : list capSample;
  lastHighest : Z;
  haveCtrl : bool;
  lastRxPkts : Z;
  lastRxBytes : Z;
  lastCtrlTime : Z;
  owdBase0 : option Z;
  owdBase1 : option Z;
  owdBucketAt : option Z;
  consecAcked : Z;
  lastProbeSeq : Z;
  outstanding : list probeSent;
}.

Definition set_up (x : bool) (l : Link) : Link := mkLink x (srtt l) (rttvar l) (hasRTT l)
  (lossEWMA l) (lossFactor l) (delayFactor l) (queueUS l) (aqmProb l) (capSamples l) (lastHighest
  l) (haveCtrl l) (lastRxPkts l) (lastRxBytes l) (lastCtrlTime l) (owdBase0 l) (owdBase1 l)
  (owdBucketAt l) (consecAcked l) (lastProbeSeq l) (outstanding l).
Definition set_srtt (x : Z) (l : Link) : Link := mkLink (up l) x (rttvar l) (hasRTT l) (lossEWMA
  l) (lossFactor l) (delayFactor l) (queueUS l) (aqmProb l) (capSamples l) (lastHighest l)
  (haveCtrl l) (lastRxPkts l) (lastRxBytes l) (lastCtrlTime l) (owdBase0 l) (owdBase1 l)
  (owdBucketAt l) (consecAcked l) (lastProbeSeq l) (outstanding l).
Definition set_rttvar (x : Z) (l : Link) : Link := mkLink (up l) (srtt l) x (hasRTT l) (lossEWMA
  l) (lossFactor l) (delayFactor l) (queueUS l) (aqmProb l) (capSamples l) (lastHighest l)
  (haveCtrl l) (lastRxPkts l) (lastRxBytes l) (lastCtrlTime l) (owdBase0 l) (owdBase1 l)
  (owdBucketAt l) (consecAcked l) (lastProbeSeq l) (outstanding l).
Definition set_hasRTT (x : bool) (l : Link) : Link := mkLink (up l) (srtt l) (rttvar l) x
  (lossEWMA l) (lossFactor l) (delayFactor l) (queueUS l) (aqmProb l) (capSamples l) (lastHighest
  l) (haveCtrl l) (lastRxPkts l) (lastRxBytes l) (lastCtrlTime l) (owdBase0 l) (owdBase1 l)
  (owdBucketAt l) (consecAcked l) (lastProbeSeq l) (outstanding l).
Definition set_lossEWMA (x : Q) (l : Link) : Link := mkLink (up l) (srtt l) (rttvar l) (hasRTT l)
  x (lossFactor l) (delayFactor l) (queueUS l) (aqmProb l) (capSamples l) (lastHighest l)
  (haveCtrl l) (lastRxPkts l) (lastRxBytes l) (lastCtrlTime l) (owdBase0 l) (owdBase1 l)
  (owdBucketAt l) (consecAcked l) (lastProbeSeq l) (outstanding l).
Definition set_lossFactor (x : Q) (l : Link) : Link := mkLink (up l) (srtt l) (rttvar l) (hasRTT
  l) (lossEWMA l) x (delayFactor l) (queueUS l) (aqmProb l) (capSamples l) (lastHighest l)
  (haveCtrl l) (lastRxPkts l) (lastRxBytes l) (lastCtrlTime l) (owdBase0 l) (owdBase1 l)
  (owdBucketAt l) (consecAcked l) (lastProbeSeq l) (outstanding l).
Definition set_delayFactor (x : Q) (l : Link) : Link := mkLink (up l) (srtt l) (rttvar l) (hasRTT
  l) (lossEWMA l) (lossFactor l) x (queueUS l) (aqmProb l) (capSamples l) (lastHighest l)
  (haveCtrl l) (lastRxPkts l) (lastRxBytes l) (lastCtrlTime l) (owdBase0 l) (owdBase1 l)
  (owdBucketAt l) (consecAcked l) (lastProbeSeq l) (outstanding l).
Definition set_queueUS (x : Q) (l : Link) : Link := mkLink (up l) (srtt l) (rttvar l) (hasRTT l)
  (lossEWMA l) (lossFactor l) (delayFactor l) x (aqmProb l) (capSamples l) (lastHighest l)
  (haveCtrl l) (lastRxPkts l) (lastRxBytes l) (lastCtrlTime l) (owdBase0 l) (owdBase1 l)
  (owdBucketAt l) (consecAcked l) (lastProbeSeq l) (outstanding l).
Definition set_aqmProb (x : Q) (l : Link) : Link := mkLink (up l) (srtt l) (rttvar l) (hasRTT l)
  (lossEWMA l) (lossFactor l) (delayFactor l) (queueUS l) x (capSamples l) (lastHighest l)
  (haveCtrl l) (lastRxPkts l) (lastRxBytes l) (lastCtrlTime l) (owdBase0 l) (owdBase1 l)
  (owdBucketAt l) (consecAcked l) (lastProbeSeq l) (outstanding l).
Definition set_capSamples (x : list capSample) (l : Link) : Link := mkLink (up l) (srtt l) (rttvar
  l) (hasRTT l) (lossEWMA l) (lossFactor l) (delayFactor l) (queueUS l) (aqmProb l) x (lastHighest
  l) (haveCtrl l) (lastRxPkts l) (lastRxBytes l) (lastCtrlTime l) (owdBase0 l) (owdBase1 l)
  (owdBucketAt l) (consecAcked l) (lastProbeSeq l) (outstanding l).
Definition set_lastHighest (x : Z) (l : Link) : Link := mkLink (up l) (srtt l) (rttvar l) (hasRTT
  l) (lossEWMA l) (lossFactor l) (delayFactor l) (queueUS l) (aqmProb l) (capSamples l) x
  (haveCtrl l) (lastRxPkts l) (lastRxBytes l) (lastCtrlTime l) (owdBase0 l) (owdBase1 l)
  (owdBucketAt l) (consecAcked l) (lastProbeSeq l) (outstanding l).
Definition set_haveCtrl (x : bool) (l : Link) : Link := mkLink (up l) (srtt l) (rttvar l) (hasRTT
  l) (lossEWMA l) (lossFactor l) (delayFactor l) (queueUS l) (aqmProb l) (capSamples l)
  (lastHighest l) x (lastRxPkts l) (lastRxBytes l) (lastCtrlTime l) (owdBase0 l) (owdBase1 l)
  (owdBucketAt l) (consecAcked l) (lastProbeSeq l) (outstanding l).
Definition set_lastRxPkts (x : Z) (l : Link) : Link := mkLink (up l) (srtt l) (rttvar l) (hasRTT
  l) (lossEWMA l) (lossFactor l) (delayFactor l) (queueUS l) (aqmProb l) (capSamples l)
  (lastHighest l) (haveCtrl l) x (lastRxBytes l) (lastCtrlTime l) (owdBase0 l) (owdBase1 l)
  (owdBucketAt l) (consecAcked l) (lastProbeSeq l) (outstanding l).
Definition set_lastRxBytes (x : Z) (l : Link) : Link := mkLink (up l) (srtt l) (rttvar l) (hasRTT
  l) (lossEWMA l) (lossFactor l) (delayFactor l) (queueUS l) (aqmProb l) (capSamples l)
  (lastHighest l) (haveCtrl l) (lastRxPkts l) x (lastCtrlTime l) (owdBase0 l) (owdBase1 l)
  (owdBucketAt l) (consecAcked l) (lastProbeSeq l) (outstanding l).
Definition set_lastCtrlTime (x : Z) (l : Link) : Link := mkLink (up l) (srtt l) (rttvar l) (hasRTT
  l) (lossEWMA l) (lossFactor l) (delayFactor l) (queueUS l) (aqmProb l) (capSamples l)
  (lastHighest l) (haveCtrl l) (lastRxPkts l) (lastRxBytes l) x (owdBase0 l) (owdBase1 l)
  (owdBucketAt l) (consecAcked l) (lastProbeSeq l) (outstanding l).
Definition set_owdBase0 (x : option Z) (l : Link) : Link := mkLink (up l) (srtt l) (rttvar l)
  (hasRTT l) (lossEWMA l) (lossFactor l) (delayFactor l) (queueUS l) (aqmProb l) (capSamples l)
  (lastHighest l) (haveCtrl l) (lastRxPkts l) (lastRxBytes l) (lastCtrlTime l) x (owdBase1 l)
  (owdBucketAt l) (consecAcked l) (lastProbeSeq l) (outstanding l).
Definition set_owdBase1 (x : option Z) (l : Link) : Link := mkLink (up l) (srtt l) (rttvar l)
  (hasRTT l) (lossEWMA l) (lossFactor l) (delayFactor l) (queueUS l) (aqmProb l) (capSamples l)
  (lastHighest l) (haveCtrl l) (lastRxPkts l) (lastRxBytes l) (lastCtrlTime l) (owdBase0 l) x
  (owdBucketAt l) (consecAcked l) (lastProbeSeq l) (outstanding l).
Definition set_owdBucketAt (x : option Z) (l : Link) : Link := mkLink (up l) (srtt l) (rttvar l)
  (hasRTT l) (lossEWMA l) (lossFactor l) (delayFactor l) (queueUS l) (aqmProb l) (capSamples l)
  (lastHighest l) (haveCtrl l) (lastRxPkts l) (lastRxBytes l) (lastCtrlTime l) (owdBase0 l)
  (owdBase1 l) x (consecAcked l) (lastProbeSeq l) (outstanding l).
Definition set_consecAcked (x : Z) (l : Link) : Link := mkLink (up l) (srtt l) (rttvar l) (hasRTT
  l) (lossEWMA l) (lossFactor l) (delayFactor l) (queueUS l) (aqmProb l) (capSamples l)
  (lastHighest l) (haveCtrl l) (lastRxPkts l) (lastRxBytes l) (lastCtrlTime l) (owdBase0 l)
  (owdBase1 l) (owdBucketAt l) x (lastProbeSeq l) (outstanding l).
Definition set_lastProbeSeq (x : Z) (l : Link) : Link := mkLink (up l) (srtt l) (rttvar l) (hasRTT
  l) (lossEWMA l) (lossFactor l) (delayFactor l) (queueUS l) (aqmProb l) (capSamples l)
  (lastHighest l) (haveCtrl l) (lastRxPkts l) (lastRxBytes l) (lastCtrlTime l) (owdBase0 l)
  (owdBase1 l) (owdBucketAt l) (consecAcked l) x (outstanding l).
Definition set_outstanding (x : list probeSent) (l : Link) : Link := mkLink (up l) (srtt l)
  (rttvar l) (hasRTT l) (lossEWMA l) (lossFactor l) (delayFactor l) (queueUS l) (aqmProb l)
  (capSamples l) (lastHighest l) (haveCtrl l) (lastRxPkts l) (lastRxBytes l) (lastCtrlTime l)
  (owdBase0 l) (owdBase1 l) (owdBucketAt l) (consecAcked l) (lastProbeSeq l) x.

Section Link.
Context `{Rounding}.

Definition lossCut : Q := lit (7 # 10).
Definition lossRecover : Q := lit (1 # 20).
Definition minLossFactor : Q := lit (1 # 20).
Definition delayCut : Q := lit (85 # 100).
Definition delayRecover : Q := lit (1 # 20).
Definition minDelayFactor : Q := lit (1 # 10).
Definition maxAQMProb : Q := lit (15 # 100).

Definition NewLink : Link :=
  mkLink false 0 0 false 0 1 1 0 0 [] 0 false 0 0 0 None None None 0 0 [].

Definition probeRTOLocked (l : Link) : Z :=
  let rto := i64 (srtt l + i64 (4 * rttvar l)) in
  let rto := if rto <? 3 * ProbeInterval then 3 * ProbeInterval else rto in
  if 2 * Second <? rto then 2 * Second else rto.

(** [minLossFactor * 4] is a constant expression, exact before conversion. *)
Definition goDownLocked (l : Link) : Link :=
  set_lossFactor (lit ((1 # 20) * 4)) (set_outstanding [] (set_consecAcked 0 (set_up false l))).

(** Returns the link, the probe sequence and whether it just went down. *)
Definition OnProbeSent (now : Z) (l : Link) : Link * Z * bool :=
  let expired :=
    match outstanding l with
    | [] => false
    | o :: _ => up l && (probeRTOLocked l <? Sub now (p_at o))
    end in
  let l := if expired then set_outstanding [] (goDownLocked l) else l in
  let l := set_lastProbeSeq (u32 (lastProbeSeq l + 1)) l in
  let out := outstanding l ++ [mkProbeSent (lastProbeSeq l) now] in
  let out := if decide (32 < length out)%nat then drop (length out - 32) out else out in
  (set_outstanding out l, lastProbeSeq l, expired).

(** The search of [OnProbeAck]: the probes after the first one with this
    sequence, when there is one. *)
Fixpoint ackOutstanding (seq : Z) (out : list probeSent) : option (list probeSent) :=
  match out with
  | [] => None
  | o :: out => if p_seq o =? seq then Some out else ackOutstanding seq out
  end.

Definition updateRTT (rtt : Z) (l : Link) : Link :=
  if 0 <? rtt then
    if negb (hasRTT l) then
      set_hasRTT true (set_rttvar (Z.quot rtt 2) (set_srtt rtt l))
    else
      let dev := i64 (srtt l - rtt) in
      let dev := if dev <? 0 then i64 (- dev) else dev in
      let l := set_rttvar (Z.quot (i64 (i64 (3 * rttvar l) + dev)) 4) l in
      set_srtt (Z.quot (i64 (i64 (7 * srtt l) + rtt)) 8) l
  else l.

(** Returns the link and whether it just came up. *)
Definition OnProbeAck (seq rtt : Z) (l : Link) : Link * bool :=
  match ackOutstanding seq (outstanding l) with
  | None => (l, false)
  | Some out =>
      let l := set_outstanding out l in
      let l := set_consecAcked (consecAcked l + 1) l in
      let l := updateRTT rtt l in
      if negb (up l) && (probeAckUp <=? consecAcked l) then (set_up true l, true) else (l, false)
  end.

Definition MarkDown (l : Link) : Link := goDownLocked l.

(** The rolling two-bucket minimum, and the baseline it gives. *)
Definition updateBaseline (owdMinUS now : Z) (l : Link) : Link :=
  let l := match owdBucketAt l with None => set_owdBucketAt (Some now) l | Some _ => l end in
  let l :=
    match owdBucketAt l with
    | Some at_ =>
        if baselineWindow / 2 <? Sub now at_ then
          set_owdBucketAt (Some now) (set_owdBase1 None (set_owdBase0 (owdBase1 l) l))
        else l
    | None => l
    end in
  match owdBase1 l with
  | None => set_owdBase1 (Some owdMinUS) l
  | Some b1 => if i32 (owdMinUS - b1) <? 0 then set_owdBase1 (Some owdMinUS) l else l
  end.

Definition baseline (l : Link) : Z :=
  let base := default 0 (owdBase1 l) in
  match owdBase0 l with
  | Some b0 => if i32 (b0 - base) <? 0 then b0 else base
  | None => base
  end.

(** The LEDBAT-style discount for a standing queue of [q] microseconds. *)
Definition discountDelay (q : Q) (l : Link) : Link :=
  if Qltb (ofint (2 * targetQueueUS)) q then
    let cut := fdiv (ofint (2 * targetQueueUS)) q in
    let cut := if Qltb cut (lit (1 # 2)) then lit (1 # 2) else cut in
    let cut := if Qltb delayCut cut then delayCut else cut in
    let df := fmul (delayFactor l) cut in
    set_delayFactor (if Qltb df minDelayFactor then minDelayFactor else df) l
  else if Qltb q (ofint targetQueueUS) then
    set_delayFactor (fadd (delayFactor l) (fmul delayRecover (fsub 1 (delayFactor l)))) l
  else l.

(** The early-drop probability for the same queue. *)
Definition updateAQM (q : Q) (l : Link) : Link :=
  let excess := fsub q (ofint (2 * targetQueueUS)) in
  if Qltb 0 excess then
    let p := fdiv excess (ofint (8 * targetQueueUS)) in
    set_aqmProb (if Qltb maxAQMProb p then maxAQMProb else p) l
  else set_aqmProb 0%Q l.

Definition standingQueue (owdAvgUS : Z) (l : Link) : Q :=
  let q := ofint (i32 (owdAvgUS - baseline l)) in
  if Qltb q 0 then 0%Q else q.

Definition updateDelayLocked (owdMinUS owdAvgUS now : Z) (l : Link) : Link :=
  let l := updateBaseline owdMinUS now l in
  let q := standingQueue owdAvgUS l in
  updateAQM q (discountDelay q (set_queueUS q l)).

(** [d.Seconds()]: whole seconds plus the nanosecond rest, in float64. *)
Definition Seconds (d : Z) : Q :=
  fadd (ofint (Z.quot d Second)) (fdiv (ofint (Z.rem d Second)) (ofint Second)).

(** The loss discount of one report with [expected] new sequence numbers of
    which [received] arrived. *)
Definition updateLoss (expected received : Z) (l : Link) : Link :=
  if 0 <? expected then
    let loss := fsub 1 (fdiv (ofint received) (ofint expected)) in
    let loss := if Qltb loss 0 then 0%Q else loss in
    let loss := if Qltb 1 loss then 1%Q else loss in
    let l := set_lossEWMA (fadd (fmul (lit (9 # 10)) (lossEWMA l)) (fmul (lit (1 # 10)) loss)) l in
    if Qltb (lit (1 # 100)) loss then
      let lf := fmul (lossFactor l) lossCut in
      set_lossFactor (if Qltb lf minLossFactor then minLossFactor else lf) l
    else set_lossFactor (fadd (lossFactor l) (fmul lossRecover (fsub 1 (lossFactor l)))) l
  else if received =? 0 then
    let l := set_lossEWMA (fmul (lossEWMA l) (lit (95 # 100))) l in
    set_lossFactor (fadd (lossFactor l) (fmul lossRecover (fsub 1 (lossFactor l)))) l
  else l.

(** Drop samples from the front while they are older than the window. *)
Fixpoint pruneSamples (cutoff : Z) (ss : list capSample) : list capSample :=
  match ss with
  | [] => []
  | s :: rest => if cs_t s <? cutoff then pruneSamples cutoff rest else ss
  end.

Definition updateCapacity (deltaBytes dt now : Z) (l : Link) : Link :=
  if (0 <? deltaBytes) && (10 * Millisecond <=? dt) then
    let bps := fdiv (fmul (ofint deltaBytes) 8) (Seconds dt) in
    let ss := capSamples l ++ [mkCapSample now bps] in
    set_capSamples (pruneSamples (now - capacityWindow) ss) l
  else l.

Definition setCtrl (highest rxPkts rxBytes now : Z) (l : Link) : Link :=
  set_lastCtrlTime now (set_lastRxBytes rxBytes (set_lastRxPkts rxPkts (set_lastHighest highest l))).

Definition OnCtrl (highest rxPkts rxBytes owdMinUS owdAvgUS now : Z) (l : Link) : Link :=
  let l := updateDelayLocked owdMinUS owdAvgUS now l in
  if negb (haveCtrl l) then setCtrl highest rxPkts rxBytes now (set_haveCtrl true l)
  else
    let expected := i32 (highest - lastHighest l) in
    let received := i32 (rxPkts - lastRxPkts l) in
    let deltaBytes := u64 (rxBytes - lastRxBytes l) in
    let dt := Sub now (lastCtrlTime l) in
    let l := setCtrl highest rxPkts rxBytes now l in
    if dt <=? 0 then l
    else updateCapacity deltaBytes dt now (updateLoss expected received l).

Definition capacityBpsLocked (l : Link) : Q :=
  foldl (fun max s => if Qltb max (cs_bps s) then cs_bps s else max) 0%Q (capSamples l).

Definition Weight (l : Link) : Q := fmul (fmul (capacityBpsLocked l) (lossFactor l)) (delayFactor l).

Definition LinkSnapshot (l : Link) : Snapshot :=
  mkSnapshot (up l) (srtt l) (rttvar l) (lossEWMA l) (capacityBpsLocked l) (lossFactor l)
    (delayFactor l) (fdiv (queueUS l) 1000) (Weight l).

Definition DropProb (l : Link) : Q := aqmProb l.
Definition Up (l : Link) : bool := up l.

End Link.
