(* ===== verification/LinkSpec.v ===== *)
(** * Path quality and liveness: invariant and theorems *)

From S2P Require Import Prelude Float64 Link.

(** The operations of a link, in any order the engine may call them. *)
Inductive link_op :=
  | LSent (now : Z)
  | LAck (seq rtt : Z)
  | LDown
  | LCtrl (highest rxPkts rxBytes owdMinUS owdAvgUS now : Z).

Section Inv.
Context {R : Rounding} {RL : RoundingLaws R}.

Definition link_step (o : link_op) (l : Link) : Link :=
  match o with
  | LSent now => (OnProbeSent now l).1.1
  | LAck seq rtt => (OnProbeAck seq rtt l).1
  | LDown => MarkDown l
  | LCtrl h p b mn av now => OnCtrl h p b mn av now l
  end.

Inductive reachable : Link -> Prop :=
  | reach_new : reachable NewLink
  | reach_step o l : reachable l -> reachable (link_step o l).

(** A float64 value lies on the rounding grid. *)
Definition representable (x : Q) : Prop := (rnd x == x)%Q.

Lemma representable_rnd x : representable (rnd x).
Proof. apply rnd_idem. Qed.

Lemma representable_0 : representable 0.
Proof. apply rnd_0. Qed.

Lemma representable_1 : representable 1.
Proof. apply rnd_1. Qed.

#[local] Hint Resolve representable_rnd representable_0 representable_1 : treccia.

Lemma lit_unit q : (0 <= q <= 1 -> 0 <= lit q <= 1)%Q.
Proof. intros []. unfold lit. split; [by apply rnd_nonneg|by apply rnd_le_1]. Qed.

(** ** The quality estimates *)

Record estimates (l : Link) : Prop := {
  est_loss : (minLossFactor <= lossFactor l <= 1)%Q;
  est_loss_rep : representable (lossFactor l);
  est_delay : (minDelayFactor <= delayFactor l <= 1)%Q;
  est_delay_rep : representable (delayFactor l);
  est_aqm : (0 <= aqmProb l <= maxAQMProb)%Q;
  est_queue : (0 <= queueUS l)%Q;
  est_ewma : (0 <= lossEWMA l)%Q;
  est_cap : Forall (fun s => 0 <= cs_bps s /\ representable (cs_bps s))%Q (capSamples l);
}.

(** Raising a discount towards 1, and cutting it down to its floor. *)
Lemma discount_recover floor x :
  (0 <= floor -> floor <= x <= 1 -> representable x ->
   floor <= fadd x (fmul (lit (1 # 20)) (fsub 1 x)) <= 1)%Q.
Proof.
  intros Hf [Hx Hx1] Hr. assert (0 <= lit (1 # 20) <= 1 # 4)%Q.
  { unfold lit. split; [by apply rnd_nonneg|]. etrans; [by apply rnd_double|]. done. }
  destruct (recover_unit (lit (1 # 20)) x); [done|lra|done|lra].
Qed.

Lemma discount_cut floor x y :
  (representable floor -> 0 <= floor <= 1 -> 0 <= x <= 1 -> 0 <= y <= 1 ->
   let z := if Qltb (fmul x y) floor then floor else fmul x y in
   floor <= z <= 1 /\ representable z)%Q.
Proof.
  intros Hr Hf Hx Hy. pose proof (fmul_unit x y Hx Hy). cbn.
  destruct (Qltb_spec (fmul x y) floor); (split; [lra|]); [done|apply rnd_idem].
Qed.

Lemma Qdiv_nonneg a b : (0 <= a -> 0 <= b -> 0 <= a / b)%Q.
Proof. intros Ha Hb. apply Qmult_le_0_compat; [done|by apply Qinv_le_0_compat]. Qed.

Lemma fdiv_nonneg a b : (0 <= a -> 0 <= b -> 0 <= fdiv a b)%Q.
Proof. intros. by apply rnd_nonneg, Qdiv_nonneg. Qed.

Lemma ofint_nonneg n : 0 <= n -> (0 <= ofint n)%Q.
Proof. intros Hn. apply rnd_nonneg, (Z_Qle 0), Hn. Qed.

Lemma floor_loss_unit : (0 <= minLossFactor <= 1)%Q.
Proof. by apply lit_unit. Qed.
Lemma floor_delay_unit : (0 <= minDelayFactor <= 1)%Q.
Proof. by apply lit_unit. Qed.

Lemma updateBaseline_ok mn now l : estimates l -> estimates (updateBaseline mn now l).
Proof. intros Hl. unfold updateBaseline. repeat case_match; constructor; apply Hl. Qed.

Lemma discountDelay_ok q l : estimates l -> estimates (discountDelay q l).
Proof.
  intros Hl. pose proof floor_delay_unit as Hfd. pose proof (est_delay _ Hl) as Hd.
  unfold discountDelay. destruct (Qltb_spec (ofint (2 * targetQueueUS)) q) as [Hbig|_].
  - set (cut := if Qltb delayCut _ then delayCut else _).
    assert (Hdc : (0 <= delayCut <= 1)%Q) by by apply lit_unit.
    assert (Hh : (0 <= lit (1 # 2) <= 1)%Q) by by apply lit_unit.
    assert (Hc : (0 <= cut <= 1)%Q) by (unfold cut; qcase; lra).
    destruct (discount_cut minDelayFactor (delayFactor l) cut) as [Hz Hzr];
      [apply rnd_idem|done|lra|done|].
    constructor; try apply Hl; done.
  - destruct (Qltb q _); [|done]. constructor; try apply Hl; [|apply rnd_idem].
    apply discount_recover; [apply Hfd|done|apply Hl].
Qed.

Lemma updateAQM_ok q l : (0 <= q)%Q -> estimates l -> estimates (updateAQM q l).
Proof.
  intros Hq Hl. assert (Hm : (0 <= maxAQMProb <= 1)%Q) by by apply lit_unit. unfold updateAQM.
  destruct (Qltb_spec 0 (fsub q (ofint (2 * targetQueueUS)))) as [He|_].
  - set (p := fdiv _ _). assert (0 <= p)%Q by (apply fdiv_nonneg; [lra|by apply ofint_nonneg]).
    constructor; try apply Hl. cbn. destruct (Qltb_spec maxAQMProb p); lra.
  - constructor; try apply Hl. cbn. lra.
Qed.

Lemma standingQueue_nonneg av l : (0 <= standingQueue av l)%Q.
Proof. unfold standingQueue. by destruct (Qltb_spec (ofint (i32 (av - baseline l))) 0). Qed.

Lemma updateDelayLocked_ok mn av now l : estimates l -> estimates (updateDelayLocked mn av now l).
Proof.
  intros Hl%(updateBaseline_ok mn now). unfold updateDelayLocked.
  pose proof (standingQueue_nonneg av (updateBaseline mn now l)) as Hq.
  apply updateAQM_ok, discountDelay_ok; [done|]. constructor; try apply Hl. done.
Qed.

Lemma updateLoss_ok e r l : estimates l -> estimates (updateLoss e r l).
Proof.
  intros Hl. pose proof floor_loss_unit as Hf. pose proof (est_loss _ Hl) as Hlf.
  pose proof (est_loss_rep _ Hl) as Hlr. pose proof (est_ewma _ Hl) as Hle. unfold updateLoss. destruct (0 <? e).
  - set (loss := if Qltb 1 _ then 1%Q else _).
    assert (Hloss : (0 <= loss <= 1)%Q) by (unfold loss; qcase; lra).
    clearbody loss. set (l1 := set_lossEWMA _ l).
    assert (H1 : estimates l1).
    { constructor; try apply Hl. cbn. unfold fadd, fmul. apply rnd_nonneg.
      assert (0 <= lit (9 # 10) <= 1)%Q by by apply lit_unit.
      assert (0 <= lit (1 # 10) <= 1)%Q by by apply lit_unit.
      assert (0 <= rnd (lit (9 # 10) * lossEWMA l))%Q by (apply rnd_nonneg; nra).
      assert (0 <= rnd (lit (1 # 10) * loss))%Q by (apply rnd_nonneg; nra). lra. }
    destruct (Qltb _ loss).
    + destruct (discount_cut minLossFactor (lossFactor l1) lossCut) as [Hz Hzr];
        [apply rnd_idem|done|cbn; lra|by apply lit_unit|]. constructor; try apply H1; done.
    + constructor; try apply H1; [|apply rnd_idem]. apply discount_recover; [apply Hf|done|done].
  - destruct (r =? 0); [|done]. constructor; try apply Hl; cbn; [|apply rnd_idem|].
    + apply discount_recover; [apply Hf|done|done].
    + apply rnd_nonneg. assert (0 <= lit (95 # 100) <= 1)%Q by by apply lit_unit. nra.
Qed.

Lemma pruneSamples_suffix cutoff ss : exists pre, ss = pre ++ pruneSamples cutoff ss.
Proof.
  induction ss as [|s ss [pre IH]]; cbn; [by exists []|]. destruct (_ <? _); [|by exists []].
  exists (s :: pre). cbn. by rewrite <- IH.
Qed.

Lemma updateCapacity_ok db dt now l : estimates l -> estimates (updateCapacity db dt now l).
Proof.
  intros Hl. unfold updateCapacity.
  destruct (Z.ltb_spec 0 db); cbn [andb]; [|done].
  destruct (Z.leb_spec (10 * Millisecond) dt); [|done].
  set (ss := capSamples l ++ _). constructor; try apply Hl. cbn.
  destruct (pruneSamples_suffix (now - capacityWindow) ss) as [pre Hpre].
  assert (Hss : Forall (fun s => 0 <= cs_bps s /\ representable (cs_bps s))%Q ss).
  { apply Forall_app_2; [apply Hl|]. apply List.Forall_cons; [|apply List.Forall_nil]. cbn.
    split; [|apply rnd_idem]. apply fdiv_nonneg.
    - apply rnd_nonneg. pose proof (ofint_nonneg db). assert (0 <= ofint db)%Q by (apply ofint_nonneg; lia). lra.
    - unfold Seconds. apply rnd_nonneg. unfold Millisecond, Second in *.
      assert (0 <= ofint (Z.quot dt 1000000000))%Q by (apply ofint_nonneg; lia).
      assert (0 <= fdiv (ofint (Z.rem dt 1000000000)) (ofint 1000000000))%Q
        by (apply fdiv_nonneg; apply ofint_nonneg; lia). lra. }
  rewrite Hpre in Hss. by apply Forall_app in Hss as [_ Hss].
Qed.

Lemma OnCtrl_ok h p b mn av now l : estimates l -> estimates (OnCtrl h p b mn av now l).
Proof.
  intros Hl. unfold OnCtrl. pose proof (updateDelayLocked_ok mn av now l Hl) as H0.
  set (l0 := updateDelayLocked mn av now l) in *. clearbody l0.
  destruct (haveCtrl l0); cbn [negb]; [|constructor; apply H0].
  assert (H1 : estimates (setCtrl h p b now l0)) by (constructor; apply H0).
  destruct (_ <=? 0); [done|]. by apply updateCapacity_ok, updateLoss_ok.
Qed.

Lemma goDown_ok l : estimates l -> estimates (goDownLocked l).
Proof.
  intros Hl. constructor; try apply Hl; cbn; [|apply rnd_idem].
  unfold minLossFactor, lit. split; [by apply rnd_mono|by apply rnd_le_1].
Qed.

Lemma updateRTT_ok rtt l : estimates l -> estimates (updateRTT rtt l).
Proof. intros Hl. unfold updateRTT. repeat case_match; try done; constructor; apply Hl. Qed.

Lemma OnProbeSent_ok now l : estimates l -> estimates (OnProbeSent now l).1.1.
Proof.
  intros Hl. pose proof (goDown_ok _ Hl) as Hd. unfold OnProbeSent. cbn [fst].
  destruct (match outstanding l with [] => false | _ => _ end); constructor; apply Hl || apply Hd.
Qed.

Lemma OnProbeAck_ok seq rtt l : estimates l -> estimates (OnProbeAck seq rtt l).1.
Proof.
  intros Hl. unfold OnProbeAck. destruct (ackOutstanding _ _) as [out|]; [|done].
  set (l1 := set_consecAcked _ _). assert (H1 : estimates l1) by (constructor; apply Hl).
  pose proof (updateRTT_ok rtt l1 H1) as H2. cbv zeta. set (l2 := updateRTT rtt l1) in *. clearbody l2.
  destruct (negb (up l2) && _); [constructor; apply H2|done].
Qed.

Lemma reachable_estimates l : reachable l -> estimates l.
Proof.
  induction 1 as [|[now|seq rtt| |h p b mn av now] l _ IH]; cbn [link_step];
    [|by apply OnProbeSent_ok|by apply OnProbeAck_ok|by apply goDown_ok|by apply OnCtrl_ok].
  pose proof floor_loss_unit. pose proof floor_delay_unit.
  assert (0 <= maxAQMProb <= 1)%Q by by apply lit_unit.
  constructor; cbn; auto with treccia; lra.
Qed.

End Inv.

(** ** Loss average and weight in binary64 *)

Section Binary64.
#[local] Existing Instance binary64.

(** The two weights of the average, rounded, still sum to at most 1. *)
Lemma ewma_weights : (rnd (lit (9 # 10) + lit (1 # 10)) <= 1)%Q.
Proof. vm_compute. congruence. Qed.

Lemma ewma_step x loss : (0 <= x <= 1 -> 0 <= loss <= 1 ->
  fadd (fmul (lit (9 # 10)) x) (fmul (lit (1 # 10)) loss) <= 1)%Q.
Proof.
  intros Hx Hloss. etrans; [|exact ewma_weights]. unfold fadd. apply rnd_mono.
  assert (H9 : (0 <= lit (9 # 10) <= 1)%Q) by by apply lit_unit.
  assert (H1 : (0 <= lit (1 # 10) <= 1)%Q) by by apply lit_unit.
  assert (fmul (lit (9 # 10)) x <= lit (9 # 10))%Q.
  { unfold lit at 2. rewrite <- rnd_idem. apply rnd_mono. fold (lit (9 # 10)). nra. }
  assert (fmul (lit (1 # 10)) loss <= lit (1 # 10))%Q; [|lra].
  unfold lit at 2. rewrite <- rnd_idem. apply rnd_mono. fold (lit (1 # 10)). nra.
Qed.

Lemma updateLoss_ewma e r l : (0 <= lossEWMA l <= 1 -> lossEWMA (updateLoss e r l) <= 1)%Q.
Proof.
  intros Hl. unfold updateLoss. destruct (0 <? e); [|destruct (r =? 0); [|apply Hl]].
  - set (loss := if Qltb 1 _ then 1%Q else _).
    assert (Hloss : (0 <= loss <= 1)%Q) by (unfold loss; qcase; lra). clearbody loss.
    cbv zeta. destruct (Qltb _ loss); cbn; by apply ewma_step.
  - cbn. apply rnd_le_1. assert (0 <= lit (95 # 100) <= 1)%Q by by apply lit_unit. nra.
Qed.

Lemma updateDelay_ewma mn av now l : lossEWMA (updateDelayLocked mn av now l) = lossEWMA l.
Proof.
  unfold updateDelayLocked, updateAQM, discountDelay, updateBaseline.
  by repeat (case_match; cbn).
Qed.

Lemma updateRTT_ewma rtt l : lossEWMA (updateRTT rtt l) = lossEWMA l.
Proof. unfold updateRTT. by repeat case_match. Qed.

Lemma OnCtrl_ewma h p b mn av now l :
  (0 <= lossEWMA l <= 1 -> lossEWMA (OnCtrl h p b mn av now l) <= 1)%Q.
Proof.
  intros Hl. unfold OnCtrl. rewrite <- (updateDelay_ewma mn av now l) in Hl.
  set (l0 := updateDelayLocked mn av now l) in *. clearbody l0.
  destruct (haveCtrl l0); cbn [negb]; [|apply Hl]. destruct (_ <=? 0); [apply Hl|].
  unfold updateCapacity. destruct (_ && _); cbn; by apply updateLoss_ewma.
Qed.

Lemma reachable_ewma l : reachable l -> (lossEWMA l <= 1)%Q.
Proof.
  intros Hr. induction Hr as [|[now|seq rtt| |h p b mn av now] l Hr IH]; cbn [link_step]; [done|..].
  - unfold OnProbeSent. cbn [fst]. by destruct (match outstanding l with [] => false | _ => _ end).
  - unfold OnProbeAck. destruct (ackOutstanding _ _); [|done]. cbv zeta.
    destruct (negb _ && _); cbn; by rewrite updateRTT_ewma.
  - done.
  - pose proof (est_ewma _ (reachable_estimates _ Hr)). by apply OnCtrl_ewma.
Qed.

Lemma capacity_ok l : estimates l ->
  (0 <= capacityBpsLocked l)%Q /\ representable (capacityBpsLocked l) /\
  Forall (fun s => cs_bps s <= capacityBpsLocked l)%Q (capSamples l).
Proof.
  intros Hl. unfold capacityBpsLocked.
  assert (Hgen : forall ss m, (0 <= m)%Q -> representable m ->
    Forall (fun s => 0 <= cs_bps s /\ representable (cs_bps s))%Q ss ->
    let c := foldl (fun max s => if Qltb max (cs_bps s) then cs_bps s else max) m ss in
    (m <= c)%Q /\ representable c /\ Forall (fun s => cs_bps s <= c)%Q ss).
  { clear. induction ss as [|s ss IH]; intros m Hm Hr Hss; cbn [foldl];
      [split_and!; [apply Qle_refl|done|constructor]|].
    apply Forall_cons_iff in Hss as [[Hs Hsr] Hss].
    destruct (Qltb_spec m (cs_bps s)) as [Hlt|Hge].
    - destruct (IH (cs_bps s) Hs Hsr Hss) as (H1 & H2 & H3). cbv zeta.
      split_and!; [lra|done|constructor; done].
    - destruct (IH m Hm Hr Hss) as (H1 & H2 & H3). cbv zeta.
      split_and!; [done|done|constructor; [lra|done]]. }
  apply Hgen; [apply Qle_refl|apply rnd_0|apply Hl].
Qed.

Lemma fmul_le_rep x y : (0 <= x -> representable x -> 0 <= y <= 1 -> 0 <= fmul x y <= x)%Q.
Proof.
  intros Hx Hr Hy. unfold fmul. split; [apply rnd_nonneg; nra|].
  unfold representable in Hr. rewrite <- Hr at 2. apply rnd_mono. nra.
Qed.

Lemma Weight_bounds l : estimates l -> (0 <= Weight l <= capacityBpsLocked l)%Q.
Proof.
  intros Hl. destruct (capacity_ok _ Hl) as (Hc & Hcr & _). pose proof (est_loss _ Hl).
  pose proof (est_delay _ Hl). pose proof floor_loss_unit. pose proof floor_delay_unit.
  destruct (fmul_le_rep (capacityBpsLocked l) (lossFactor l)) as [Ha Hb]; [lra|done|lra|].
  destruct (fmul_le_rep (fmul (capacityBpsLocked l) (lossFactor l)) (delayFactor l));
    [lra|apply rnd_idem|lra|]. unfold Weight. lra.
Qed.

(** C28: Whatever the sequence of probes, acks, failures and (arbitrary, even
    hostile) reports, in binary64 arithmetic the loss discount stays in
    [0.05, 1], the queueing discount in [0.1, 1], the early-drop probability
    in [0, 0.15], the loss average in [0, 1], and the scheduling weight
    between zero and the measured capacity, the maximum of the samples. *)
Theorem link_estimates l :
  reachable l ->
  (minLossFactor <= lossFactor l <= 1 /\ minDelayFactor <= delayFactor l <= 1 /\
   0 <= DropProb l <= maxAQMProb /\ 0 <= lossEWMA l <= 1 /\
   0 <= Weight l <= capacityBpsLocked l)%Q /\
  Forall (fun s => cs_bps s <= capacityBpsLocked l)%Q (capSamples l).
Proof.
  intros Hr. pose proof (reachable_estimates _ Hr) as Hl.
  destruct (capacity_ok _ Hl) as (Hc & Hcr & Hmax).
  split; [|done]. split_and!; try apply Hl; [by apply reachable_ewma|..].
  all: destruct (Weight_bounds l Hl); lra.
Qed.

Definition demo_link : Link :=
  link_step (LCtrl 300 190 900000 5 90000 (2 * Second))
    (link_step (LCtrl 100 100 1000 5 7 Second) NewLink).

Lemma link_estimates_witness :
  reachable demo_link /\ (0 <= Weight demo_link <= capacityBpsLocked demo_link)%Q.
Proof.
  assert (Hr : reachable demo_link) by (repeat apply reach_step; apply reach_new).
  split; [exact Hr|]. apply (link_estimates demo_link Hr).
Defined.

End Binary64.

(** ** Liveness *)

Section Liveness.
Context {R : Rounding}.

(** The unanswered probes carry consecutive numbers ending at the last one
    sent, and there are at most 32 of them. *)
Record live (l : Link) : Prop := {
  live_last : is_u32 (lastProbeSeq l);
  live_len : (length (outstanding l) <= 32)%nat;
  live_seq : forall j o, outstanding l !! j = Some o ->
    p_seq o = u32 (lastProbeSeq l - (Z.of_nat (length (outstanding l)) - 1 - Z.of_nat j));
  live_acks : 0 <= consecAcked l;
  live_up : up l = true -> probeAckUp <= consecAcked l;
}.

(** What the quality updates leave alone. *)
Definition liveness (l : Link) := (up l, consecAcked l, lastProbeSeq l, outstanding l).

Lemma liveness_inv l l' : liveness l' = liveness l ->
  up l' = up l /\ consecAcked l' = consecAcked l /\ lastProbeSeq l' = lastProbeSeq l /\
  outstanding l' = outstanding l.
Proof. unfold liveness. intros E. by injection E as -> -> -> ->. Qed.

Lemma live_frame l l' : liveness l' = liveness l -> live l -> live l'.
Proof. intros (E1 & E2 & E3 & E4)%liveness_inv [? ? ? ? ?]. constructor; by rewrite ?E1, ?E2, ?E3, ?E4. Qed.

Lemma OnCtrl_liveness h p b mn av now l : liveness (OnCtrl h p b mn av now l) = liveness l.
Proof.
  assert (Hd : liveness (updateDelayLocked mn av now l) = liveness l).
  { unfold updateDelayLocked, updateAQM, discountDelay, updateBaseline. by repeat (case_match; cbn). }
  unfold OnCtrl. rewrite <- Hd. set (l0 := updateDelayLocked mn av now l). clearbody l0.
  destruct (haveCtrl l0); cbn [negb]; [|done]. destruct (_ <=? 0); [done|].
  unfold updateCapacity, updateLoss. by repeat (case_match; cbn).
Qed.

Lemma updateRTT_liveness rtt l : liveness (updateRTT rtt l) = liveness l.
Proof. unfold updateRTT. by repeat case_match. Qed.

Lemma goDown_live l : live l -> live (goDownLocked l).
Proof. intros Hl. constructor; cbn; [apply Hl|lia|done|lia|done]. Qed.

Lemma ackOutstanding_suffix seq out out' :
  ackOutstanding seq out = Some out' ->
  exists pre o, out = pre ++ o :: out' /\ p_seq o = seq /\ Forall (fun o => p_seq o <> seq) pre.
Proof.
  induction out as [|o out IH]; cbn; [done|]. destruct (Z.eqb_spec (p_seq o) seq) as [E|Hne].
  - intros [= <-]. by exists [], o.
  - intros (pre & o' & -> & Hs & Hf)%IH. exists (o :: pre), o'. split_and!; [done..|by constructor].
Qed.

(** A suffix of consecutive numbers is consecutive. *)
Lemma live_suffix l pre out :
  live l -> outstanding l = pre ++ out -> live (set_outstanding out l).
Proof.
  intros Hl E. constructor; cbn; try apply Hl.
  - pose proof (live_len _ Hl) as Hlen. rewrite E, length_app in Hlen. lia.
  - intros j o Hj. rewrite (live_seq _ Hl (length pre + j) o).
    + rewrite E, length_app. f_equal. lia.
    + rewrite E. by rewrite lookup_app_r, Nat.add_comm, Nat.add_sub by lia.
Qed.

Lemma append_live l now :
  live l -> let s := u32 (lastProbeSeq l + 1) in
  let out := outstanding l ++ [mkProbeSent s now] in
  live (set_outstanding (if decide (32 < length out)%nat then drop (length out - 32) out else out)
          (set_lastProbeSeq s l)).
Proof.
  intros Hl s out.
  assert (Hseq : forall j o, out !! j = Some o ->
    p_seq o = u32 (s - (Z.of_nat (length out) - 1 - Z.of_nat j))).
  { intros j o Hj. unfold out in *. rewrite length_app. cbn [length].
    destruct (decide (j < length (outstanding l))%nat) as [Hlt|Hge].
    - rewrite lookup_app_l in Hj by done. rewrite (live_seq _ Hl _ _ Hj). unfold s. mlia.
    - rewrite lookup_app_r in Hj by lia. apply list_lookup_singleton_Some in Hj as [Hj <-].
      cbn. unfold s. mlia. }
  assert (Hlen : (length out <= 33)%nat).
  { unfold out. rewrite length_app. pose proof (live_len _ Hl). cbn. lia. }
  constructor; cbn; [apply u32_range| | |apply Hl|apply Hl].
  - case_decide; [rewrite length_drop; lia|lia].
  - intros j o Hj. case_decide as Hd; [|by apply Hseq].
    rewrite lookup_drop in Hj. rewrite (Hseq _ _ Hj). rewrite length_drop. f_equal. lia.
Qed.

(** The part of [OnProbeSent] before the new probe. *)
Definition expire (now : Z) (l : Link) : Link :=
  if match outstanding l with [] => false | o :: _ => up l && (probeRTOLocked l <? Sub now (p_at o)) end
  then set_outstanding [] (goDownLocked l) else l.

Lemma OnProbeSent_live now l : live l -> live (OnProbeSent now l).1.1.
Proof.
  intros Hl. assert (He : live (expire now l)).
  { unfold expire. destruct (match outstanding l with [] => false | _ => _ end); [|done].
    by apply goDown_live. }
  exact (append_live (expire now l) now He).
Qed.

Lemma OnProbeAck_live seq rtt l : live l -> live (OnProbeAck seq rtt l).1.
Proof.
  intros Hl. unfold OnProbeAck. destruct (ackOutstanding seq (outstanding l)) as [out|] eqn:E; [|done].
  destruct (ackOutstanding_suffix _ _ _ E) as (pre & o & Ho & _ & _).
  assert (H1 : live (set_outstanding out l)).
  { apply (live_suffix l (pre ++ [o])); [done|]. by rewrite Ho, <- app_assoc. }
  set (l1 := set_consecAcked _ _).
  assert (H2 : live l1).
  { constructor; cbn; try apply H1; pose proof (live_acks _ Hl); [lia|].
    intros Hu. pose proof (live_up _ Hl Hu). lia. }
  cbv zeta. pose proof (live_frame _ _ (updateRTT_liveness rtt l1) H2) as H3.
  set (l2 := updateRTT rtt l1) in *. clearbody l2.
  destruct (up l2) eqn:Hu; cbn [negb andb]; [done|].
  destruct (Z.leb_spec probeAckUp (consecAcked l2)); [|done].
  constructor; cbn; try apply H3. done.
Qed.

Lemma reachable_live l : reachable l -> live l.
Proof.
  induction 1 as [|[now|seq rtt| |h p b mn av now] l _ IH]; cbn [link_step].
  - constructor; cbn; [done|lia|done|lia|done].
  - by apply OnProbeSent_live.
  - by apply OnProbeAck_live.
  - by apply goDown_live.
  - by eapply live_frame; [apply OnCtrl_liveness|].
Qed.

(** Probe bookkeeping: in every reachable state at most 32 probes are
    outstanding, numbered consecutively up to the last one sent, a path that
    is up has been acknowledged at least three times since it was last down,
    and an acknowledgement is counted once: repeating it changes nothing. *)
Theorem link_probes l :
  reachable l -> live l /\
  forall seq rtt rtt', OnProbeAck seq rtt' (OnProbeAck seq rtt l).1 = ((OnProbeAck seq rtt l).1, false).
Proof.
  intros Hr. pose proof (reachable_live _ Hr) as Hl. split; [done|]. intros seq rtt rtt'.
  assert (Hno : ackOutstanding seq (outstanding (OnProbeAck seq rtt l).1) = None);
    [|unfold OnProbeAck at 1; by rewrite Hno].
  unfold OnProbeAck. destruct (ackOutstanding seq (outstanding l)) as [out|] eqn:E; [|done].
  assert (Hout : forall l', liveness l' = liveness (set_consecAcked (consecAcked l + 1) (set_outstanding out l)) ->
    outstanding l' = out) by (by intros l' (_ & _ & _ & ->)%liveness_inv).
  cbv zeta. set (l2 := updateRTT _ _). assert (outstanding l2 = out) as Ho by (apply Hout, updateRTT_liveness).
  assert (outstanding (if negb (up l2) && (probeAckUp <=? consecAcked l2)
    then (set_up true l2, true) else (l2, false)).1 = out) as -> by (by destruct (_ && _)).
  destruct (ackOutstanding_suffix _ _ _ E) as (pre & o & Hl0 & Hs & _).
  destruct (ackOutstanding seq out) as [out2|] eqn:E2; [|done].
  destruct (ackOutstanding_suffix _ _ _ E2) as (pre2 & o2 & Hl2 & Hs2 & _). exfalso.
  pose proof (live_seq _ Hl (length pre) o) as H1.
  pose proof (live_seq _ Hl (length pre + 1 + length pre2) o2) as H2.
  pose proof (live_len _ Hl) as Hlen. rewrite Hl0, Hl2 in H1, H2, Hlen.
  rewrite H1 in Hs by by rewrite list_lookup_middle.
  rewrite H2 in Hs2.
  - rewrite !length_app in *. cbn in *. rewrite !length_app in *. cbn in *. clear - Hs Hs2 Hlen. mlia.
  - change (pre ++ o :: pre2 ++ o2 :: out2) with (pre ++ [o] ++ pre2 ++ o2 :: out2).
    rewrite !app_assoc. apply list_lookup_middle. rewrite !length_app. cbn. lia.
Qed.

(** Failure detection, exactly: the retransmission timeout always lies between
    300 ms and 2 s; sending a probe takes an up path down exactly when the
    oldest unanswered probe is older than the timeout; the path then forgets
    its probes and acks and restarts with a loss discount of 0.2. *)
Theorem link_down_exact l now l' seq down :
  OnProbeSent now l = (l', seq, down) ->
  3 * ProbeInterval <= probeRTOLocked l <= 2 * Second /\
  (down = true <-> up l = true /\ exists o rest, outstanding l = o :: rest /\
     probeRTOLocked l < Sub now (p_at o)) /\
  (down = true -> up l' = false /\ consecAcked l' = 0 /\ lossFactor l' = lit ((1 # 20) * 4) /\
     outstanding l' = [mkProbeSent seq now]) /\
  (down = false -> up l' = up l).
Proof.
  intros E. assert (Hrto : 3 * ProbeInterval <= probeRTOLocked l <= 2 * Second).
  { unfold probeRTOLocked, ProbeInterval, Millisecond, Second. zcase; lia. }
  split; [done|]. unfold OnProbeSent in E. injection E as <- <- <-.
  destruct (outstanding l) as [|o rest] eqn:Ho.
  - split_and!; [|done|done]. split; [done|]. intros (_ & o & rest & [=] & _).
  - destruct (up l) eqn:Hu; cbn [andb].
    + destruct (Z.ltb_spec (probeRTOLocked l) (Sub now (p_at o))) as [Hlt|Hge].
      * split_and!; [|done|done]. split; [|done]. intros _. split; [done|]. by exists o, rest.
      * split_and!; [|done|done]. split; [done|]. intros (_ & o' & rest' & [= <- <-] & Hlt). lia.
    + split_and!; [|done|done]. split; [done|]. by intros [? _].
Qed.

(** Probes sent at the probe interval, or faster, up to [now]. *)
Fixpoint cadence (now : Z) (out : list probeSent) : Prop :=
  match out with
  | [] => True
  | o :: rest =>
      match rest with [] => now | o' :: _ => p_at o' end - p_at o <= ProbeInterval /\ cadence now rest
  end.

Lemma cadence_span now out : cadence now out -> forall o rest, out = o :: rest ->
  now - p_at o <= Z.of_nat (length out) * ProbeInterval.
Proof.
  induction out as [|x out IH]; intros Hc o rest E; [done|]. injection E as <- <-. destruct Hc as [Hx Hc].
  destruct out as [|y out]; cbn [length] in *; [lia|]. specialize (IH Hc _ _ eq_refl). lia.
Qed.

(** C29: Failure detection: sending a probe takes a path down only when it was
    up and its oldest unanswered probe is more than three probe intervals old,
    so that, when probes leave at the probe interval, at least three are
    unanswered; it does take it down when that probe is more than two seconds
    old. A path taken down forgets its probes and acks and restarts with a
    loss discount of 0.2; otherwise its state stays. *)
Theorem link_down l now l' seq down :
  OnProbeSent now l = (l', seq, down) ->
  (down = true -> up l = true /\ exists o rest, outstanding l = o :: rest /\
     3 * ProbeInterval < Sub now (p_at o) /\
     (cadence now (outstanding l) -> (3 <= length (outstanding l))%nat)) /\
  (forall o rest, up l = true -> outstanding l = o :: rest -> 2 * Second < Sub now (p_at o) -> down = true) /\
  (down = true -> up l' = false /\ consecAcked l' = 0 /\ lossFactor l' = lit ((1 # 20) * 4) /\
     outstanding l' = [mkProbeSent seq now]) /\
  (down = false -> up l' = up l).
Proof.
  intros E. destruct (link_down_exact _ _ _ _ _ E) as (Hrto & Hd & Hc & Hs). split_and!; [| |done|done].
  - intros (Hu & o & rest & Ho & Hlt)%Hd. split; [done|]. exists o, rest. split_and!; [done|lia|].
    intros Hcad. pose proof (cadence_span _ _ Hcad _ _ Ho) as Hspan.
    unfold Sub, ProbeInterval, Millisecond in *. lia.
  - intros o rest Hu Ho Hlt. apply Hd. split; [done|]. exists o, rest. split; [done|lia].
Qed.

(** Recovery: an acknowledgement brings the path up exactly when the path
    is down, the probe it answers is outstanding and at least two others
    were counted since it went down; an unknown acknowledgement changes
    nothing. *)
Theorem link_up l seq rtt l' came :
  OnProbeAck seq rtt l = (l', came) ->
  (came = true <-> up l = false /\ probeAckUp - 1 <= consecAcked l /\
     exists o, o ∈ outstanding l /\ p_seq o = seq) /\
  (came = true -> up l' = true) /\ (came = false -> up l' = up l) /\
  ((forall o, o ∈ outstanding l -> p_seq o <> seq) -> l' = l).
Proof.
  unfold OnProbeAck. intros E. destruct (ackOutstanding seq (outstanding l)) as [out|] eqn:Ha.
  - destruct (ackOutstanding_suffix _ _ _ Ha) as (pre & o & Ho & Hs & _).
    assert (Hin : o ∈ outstanding l) by (rewrite Ho; set_solver).
    set (l1 := set_consecAcked (consecAcked l + 1) (set_outstanding out l)) in *. cbv zeta in E.
    assert (up (updateRTT rtt l1) = up l /\ consecAcked (updateRTT rtt l1) = consecAcked l + 1) as [Hu Hc]
      by by destruct (liveness_inv _ _ (updateRTT_liveness rtt l1)) as (? & ? & _).
    change (consecAcked (set_outstanding out l)) with (consecAcked l) in E. fold l1 in E.
    set (l2 := updateRTT rtt l1) in *. clearbody l2. rewrite Hu, Hc in E.
    destruct (up l) eqn:Hup; cbn [negb andb] in E.
    + injection E as <- <-. split_and!; [|done|congruence|by intros Hno; destruct (Hno o)].
      split; [done|]. by intros [? _].
    + destruct (Z.leb_spec probeAckUp (consecAcked l + 1)); injection E as <- <-.
      * split_and!; [|done|done|by intros Hno; destruct (Hno o)].
        split; [|done]. intros _. split_and!; [done|lia|]. by exists o.
      * split_and!; [|done|congruence|by intros Hno; destruct (Hno o)]. split; [done|lia].
  - injection E as <- <-. split_and!; [|done|done|done]. split; [done|].
    intros (_ & _ & o & Hin & Hs). exfalso. revert Ha Hin Hs. clear.
    induction (outstanding l) as [|o' out IH]; cbn; [set_solver|].
    destruct (Z.eqb_spec (p_seq o') seq); [done|]. intros ? [->|?]%elem_of_cons; [done|by auto].
Qed.

(** ** The round-trip estimator *)

Definition rtt_in (lo hi : Z) (o : link_op) : Prop :=
  match o with LAck _ rtt => rtt <= 0 \/ lo <= rtt <= hi | _ => True end.

Definition rtt_hull (lo hi : Z) (l : Link) : Prop :=
  if hasRTT l then lo <= srtt l <= hi /\ 0 <= rttvar l <= hi else srtt l = 0 /\ rttvar l = 0.

Definition rtts (l : Link) := (srtt l, rttvar l, hasRTT l).

Lemma rtt_hull_frame lo hi l l' : rtts l' = rtts l -> rtt_hull lo hi l -> rtt_hull lo hi l'.
Proof. unfold rtts, rtt_hull. intros E. by injection E as -> -> ->. Qed.

Lemma updateRTT_hull lo hi rtt l :
  0 < lo -> hi < 2 ^ 60 -> rtt <= 0 \/ lo <= rtt <= hi -> rtt_hull lo hi l ->
  rtt_hull lo hi (updateRTT rtt l).
Proof.
  intros Hlo Hhi Hr Hl. unfold updateRTT. destruct (Z.ltb_spec 0 rtt) as [Hpos|]; [|done].
  destruct Hr as [|Hr]; [lia|]. unfold rtt_hull in Hl. destruct (hasRTT l) eqn:Hh; cbn [negb].
  - unfold rtt_hull. cbn. rewrite Hh. rewrite !(i64_id (srtt l - rtt)) by mlia.
    destruct Hl as [[Hs1 Hs2] [Hv1 Hv2]].
    set (dev := if srtt l - rtt <? 0 then _ else _).
    assert (Hdev : 0 <= dev <= hi).
    { unfold dev. destruct (Z.ltb_spec (srtt l - rtt) 0); [rewrite i64_id by mlia|]; lia. }
    clearbody dev. rewrite !(i64_id (3 * rttvar l)), !(i64_id (7 * srtt l)) by mlia.
    rewrite !i64_id by mlia. rewrite !Z.quot_div_nonneg by lia. lia.
  - unfold rtt_hull. cbn. rewrite Z.quot_div_nonneg by lia. lia.
Qed.

Lemma OnCtrl_rtts h p b mn av now l : rtts (OnCtrl h p b mn av now l) = rtts l.
Proof.
  assert (Hd : rtts (updateDelayLocked mn av now l) = rtts l).
  { unfold updateDelayLocked, updateAQM, discountDelay, updateBaseline. by repeat (case_match; cbn). }
  unfold OnCtrl. rewrite <- Hd. set (l0 := updateDelayLocked mn av now l). clearbody l0.
  destruct (haveCtrl l0); cbn [negb]; [|done]. destruct (_ <=? 0); [done|].
  unfold updateCapacity, updateLoss. by repeat (case_match; cbn).
Qed.

Lemma link_step_hull lo hi o l :
  0 < lo -> hi < 2 ^ 60 -> rtt_in lo hi o -> rtt_hull lo hi l -> rtt_hull lo hi (link_step o l).
Proof.
  intros Hlo Hhi Ho Hl. destruct o as [now|seq rtt| |h p b mn av now]; cbn [link_step].
  - revert Hl. apply rtt_hull_frame. unfold OnProbeSent. cbn [fst].
    by destruct (match outstanding l with [] => false | _ => _ end).
  - unfold OnProbeAck. destruct (ackOutstanding _ _) as [out|]; [|done]. cbv zeta.
    set (l1 := set_consecAcked _ _). pose proof (updateRTT_hull lo hi rtt l1 Hlo Hhi Ho Hl) as H1.
    set (l2 := updateRTT rtt l1) in *. clearbody l2.
    destruct (_ && _); [by revert H1; apply rtt_hull_frame|done].
  - by revert Hl; apply rtt_hull_frame.
  - revert Hl. apply rtt_hull_frame, OnCtrl_rtts.
Qed.

(** C30: The round-trip estimator stays within its samples: if every positive
    sample lies between [lo] and [hi] (below 2^60 ns), then after any run the
    smoothed RTT lies between them too and the variation is at most [hi], so
    the 64-bit arithmetic never overflows and the timeout is
    [srtt + 4 * rttvar] clamped to 300 ms .. 2 s. *)
Theorem link_rtt lo hi ops :
  0 < lo -> hi < 2 ^ 60 -> Forall (rtt_in lo hi) ops ->
  let l := foldl (fun l o => link_step o l) NewLink ops in
  rtt_hull lo hi l /\
  probeRTOLocked l = Z.min (2 * Second) (Z.max (3 * ProbeInterval) (srtt l + 4 * rttvar l)).
Proof.
  intros Hlo Hhi Hf l.
  assert (Hl : rtt_hull lo hi l).
  { unfold l. assert (Hgen : forall l0, rtt_hull lo hi l0 ->
      rtt_hull lo hi (foldl (fun l o => link_step o l) l0 ops)); [|by apply Hgen].
    induction Hf as [|o ops Ho _ IH]; intros l0 H0; cbn [foldl]; [done|].
    by apply IH, link_step_hull. }
  split; [done|]. clearbody l. unfold probeRTOLocked.
  assert (0 <= srtt l <= 2 ^ 60 /\ 0 <= rttvar l <= 2 ^ 60) as [H1 H2].
  { unfold rtt_hull in Hl. destruct (hasRTT l); lia. }
  rewrite (i64_id (4 * rttvar l)) by mlia. rewrite i64_id by mlia.
  unfold ProbeInterval, Millisecond, Second. zcase; lia.
Qed.

End Liveness.

(** ** Witnesses: a path that comes up, falls silent and goes down *)

Section Demo.
#[local] Existing Instance binary64.

Definition demo_up_ops : list link_op :=
  [LSent 0; LAck 1 (20 * Millisecond); LSent (100 * Millisecond); LAck 2 (24 * Millisecond);
   LSent (200 * Millisecond)].

Definition demo_rising : Link := foldl (fun l o => link_step o l) NewLink demo_up_ops.
Definition demo_up : Link := link_step (LSent (300 * Millisecond)) (link_step (LAck 3 0) demo_rising).

Lemma demo_up_reachable : reachable demo_up.
Proof. repeat apply reach_step. apply reach_new. Qed.

Lemma link_probes_witness :
  live demo_up /\
  OnProbeAck 4 5 (OnProbeAck 4 1 demo_up).1 = ((OnProbeAck 4 1 demo_up).1, false).
Proof.
  destruct (link_probes demo_up demo_up_reachable) as [H1 H2]. split; [exact H1|apply H2].
Defined.

(** The path falls silent; probes leave every 100 ms. *)
Definition demo_silent : Link :=
  foldl (fun l o => link_step o l) demo_up
    [LSent (400 * Millisecond); LSent (500 * Millisecond); LSent (600 * Millisecond)].

Lemma link_down_witness :
  let now := 700 * Millisecond in
  (OnProbeSent now demo_silent).2 = true /\ up (OnProbeSent now demo_silent).1.1 = false /\
  (3 <= length (outstanding demo_silent))%nat.
Proof.
  intros now.
  assert (E : OnProbeSent now demo_silent =
    ((OnProbeSent now demo_silent).1.1, (OnProbeSent now demo_silent).1.2, true)) by by vm_compute.
  destruct (link_down demo_silent now _ _ _ E) as (H1 & _ & H2 & _).
  destruct (H1 eq_refl) as (_ & o & rest & _ & _ & H3).
  split_and!; [by vm_compute|by apply H2|apply H3]. vm_compute. repeat split; congruence.
Defined.

Lemma link_up_witness : up (OnProbeAck 3 0 demo_rising).1 = true.
Proof.
  assert (E : OnProbeAck 3 0 demo_rising = ((OnProbeAck 3 0 demo_rising).1, true)) by by vm_compute.
  destruct (link_up demo_rising 3 0 _ _ E) as (_ & H1 & _). apply H1. reflexivity.
Defined.

Lemma link_rtt_witness :
  rtt_hull (20 * Millisecond) (24 * Millisecond) demo_rising /\
  probeRTOLocked demo_rising
  = Z.min (2 * Second) (Z.max (3 * ProbeInterval) (srtt demo_rising + 4 * rttvar demo_rising)).
Proof.
  assert (Hf : Forall (rtt_in (20 * Millisecond) (24 * Millisecond)) demo_up_ops).
  { unfold demo_up_ops.
    repeat (apply List.Forall_cons; [first [exact I|right; vm_compute; split; congruence]|]).
    apply List.Forall_nil. }
  exact (link_rtt (20 * Millisecond) (24 * Millisecond) demo_up_ops eq_refl eq_refl Hf).
Defined.

End Demo.
