(* ===== verification/PathSelect.v ===== *)
(** * Receive statistics and path selection: internal/pathmon/rxstats.go, select.go

    What a path has received (echoed to the sender in CTRL), the sizing of
    the reorder hold from one-way delays, and the choice of the best paths
    for latency-sensitive packets. *)

From S2P Require Import Prelude Float64 Link.

(** ** rxstats.go *)

Record RxStats := mkRxStats {
  rx_started : bool;
  rx_highest : Z;
  rx_pkts : Z;
  rx_bytes : Z;
  haveOwd : bool;
  owdEwma : Q;
  owdVar : Q;
  owdMin : Z;
  haveWin : bool;
  lastData : Z;
}.

(** [int64(x)] and [int32(x)] of a float: truncation towards zero (the
    values of this program are in range, lemma [OnData_range]). *)
Definition trunc (x : Q) : Z := Z.quot (Qnum x) (QDen x).

Section Rx.
Context {R : Rounding}.

Definition NewRxStats : RxStats := mkRxStats false 0 0 0 false 0 0 0 false 0.

Definition OnData (pathSeq size owdUS now : Z) (r : RxStats) : RxStats :=
  let newer := negb (rx_started r) || (0 <? i32 (pathSeq - rx_highest r)) in
  let highest := if newer then pathSeq else rx_highest r in
  let started := newer || rx_started r in
  let o := ofint owdUS in
  let '(ewma, var) :=
    if negb (haveOwd r) then (o, 0%Q)
    else
      let dev := Qabs (fsub o (owdEwma r)) in
      (fadd (fmul (lit (7 # 8)) (owdEwma r)) (fmul (lit (1 # 8)) o),
       fadd (fmul (lit (3 # 4)) (owdVar r)) (fmul (lit (1 # 4)) dev)) in
  let lower := negb (haveWin r) || (owdUS <? owdMin r) in
  mkRxStats started highest (u32 (rx_pkts r + 1)) (u64 (rx_bytes r + u64 size)) true ewma var
    (if lower then owdUS else owdMin r) (lower || haveWin r) now.

(** The record to put into CTRL; [None] is [ok = false]. *)
Definition Report (r : RxStats) : RxStats * option (Z * Z * Z * Z * Z) :=
  if negb (rx_started r) then (r, None)
  else
    (mkRxStats (rx_started r) (rx_highest r) (rx_pkts r) (rx_bytes r) (haveOwd r) (owdEwma r)
       (owdVar r) (owdMin r) false (lastData r),
     Some (rx_highest r, rx_pkts r, rx_bytes r, u32 (owdMin r), u32 (i32 (trunc (owdEwma r))))).

Definition Peek (r : RxStats) : Z * Z := (rx_pkts r, rx_bytes r).

Definition OwdView (now staleness : Z) (r : RxStats) : option (Q * Q) :=
  if negb (haveOwd r) || (staleness <? Sub now (lastData r)) then None
  else Some (owdEwma r, owdVar r).

Definition MaxFloat64 : Q := inject_Z ((2 ^ 53 - 1) * 2 ^ 971).

(** The loop of [ComputeHold]: lowest and highest delay, highest jitter. *)
Definition hold_scan (views : list (Q * Q)) : Q * Q * Q :=
  foldl (fun '(minE, maxE, maxJ) '(e, j) =>
           (if Qltb e minE then e else minE, if Qltb maxE e then e else maxE,
            if Qltb maxJ j then j else maxJ))
        (MaxFloat64, Qopp MaxFloat64, 0%Q) views.

Definition ComputeHold (views : list (Q * Q)) : Z :=
  if decide (length views < 2)%nat then 0 else
  let '(minE, maxE, maxJ) := hold_scan views in
  let spreadUS := fadd (fsub maxE minE) (fmul 2 maxJ) in
  i64 (trunc spreadUS * Microsecond).

(** ** select.go *)

Definition realtimeScore (s : Snapshot) : Z :=
  i64 (i64 (sSRTT s + i64 (2 * sRTTVar s))
       + trunc (fmul (sLossEWMA s) (ofint (50 * Millisecond)))).

Fixpoint bestLatency_loop (i : Z) (snaps : list Snapshot) (best bestScore : Z) : Z :=
  match snaps with
  | [] => best
  | s :: snaps =>
      if negb (sUp s) then bestLatency_loop (i + 1) snaps best bestScore
      else
        let sc := realtimeScore s in
        if (best =? -1) || (sc <? bestScore) then bestLatency_loop (i + 1) snaps i sc
        else bestLatency_loop (i + 1) snaps best bestScore
  end.

Definition BestLatency (snaps : list Snapshot) : Z := bestLatency_loop 0 snaps (-1) 0.

Definition WeightedLoss (snaps : list Snapshot) : Q :=
  let '(num, den) :=
    foldl (fun '(num, den) s =>
             if negb (sUp s) then (num, den)
             else
               let w := if Qltb 0 (sWeightBps s) then sWeightBps s else 1%Q in
               (fadd num (fmul (sLossEWMA s) w), fadd den w)) (0%Q, 0%Q) snaps in
  if Qeq_bool den 0 then 0%Q else fdiv num den.

Fixpoint bestPair_loop (i : Z) (snaps : list Snapshot) (first s1 second s2 : Z) : Z * Z :=
  match snaps with
  | [] => (first, second)
  | s :: snaps =>
      if negb (sUp s) then bestPair_loop (i + 1) snaps first s1 second s2
      else
        let sc := realtimeScore s in
        if (first =? -1) || (sc <? s1) then bestPair_loop (i + 1) snaps i sc first s1
        else if (second =? -1) || (sc <? s2) then bestPair_loop (i + 1) snaps first s1 i sc
        else bestPair_loop (i + 1) snaps first s1 second s2
  end.

Definition BestPair (snaps : list Snapshot) : Z * Z := bestPair_loop 0 snaps (-1) 0 (-1) 0.

(** ** Selection *)

(** [scored snaps j sc]: path [j] is up and scores [sc]. *)
Definition scored (snaps : list Snapshot) (j : nat) (sc : Z) : Prop :=
  exists s, snaps !! j = Some s /\ sUp s = true /\ realtimeScore s = sc.

(** The best of a prefix: the first index of minimal score. *)
Definition is_best (snaps : list Snapshot) (b sc : Z) : Prop :=
  (b = -1 /\ forall j x, ~ scored snaps j x) \/
  exists j, b = Z.of_nat j /\ scored snaps j sc /\
    forall k x, scored snaps k x -> sc <= x /\ ((k < j)%nat -> sc < x).

(** The second best: minimal among the others. *)
Definition is_second (snaps : list Snapshot) (b s sc : Z) : Prop :=
  (s = -1 /\ forall j x, scored snaps j x -> Z.of_nat j = b) \/
  exists j, s = Z.of_nat j /\ s <> b /\ scored snaps j sc /\
    forall k x, scored snaps k x -> Z.of_nat k <> b -> sc <= x.

Lemma scored_snoc pre s j sc :
  scored (pre ++ [s]) j sc <->
  scored pre j sc \/ (j = length pre /\ sUp s = true /\ realtimeScore s = sc).
Proof.
  unfold scored. split.
  - intros (t & Ht & Hu & Hs). apply lookup_app_Some in Ht as [Ht|[Hl Ht]]; [left; eauto|right].
    apply list_lookup_singleton_Some in Ht as [Hz <-]. split_and!; [lia|done|done].
  - intros [(t & Ht & Hu & Hs)|(-> & Hu & Hs)].
    + exists t. split_and!; [by apply lookup_app_l_Some|done|done].
    + exists s. by rewrite list_lookup_middle.
Qed.

Lemma scored_lt pre j sc : scored pre j sc -> (j < length pre)%nat.
Proof. intros (t & Ht & _). by apply lookup_lt_Some in Ht. Qed.

Lemma scored_fun pre j x y : scored pre j x -> scored pre j y -> x = y.
Proof. intros (t & Ht & _ & <-) (t' & Ht' & _ & <-). congruence. Qed.

(** A path that is down changes neither. *)
Lemma best_down pre s first s1 : sUp s = false -> is_best pre first s1 -> is_best (pre ++ [s]) first s1.
Proof.
  intros Hu [[-> Hn]|(j & -> & Hj & Hm)]; [left|right].
  - split; [done|]. intros j x [Hx|(_ & Hc & _)]%scored_snoc; [by eapply Hn|congruence].
  - exists j. split_and!; [done|by apply scored_snoc; left|].
    intros k x [Hx|(_ & Hc & _)]%scored_snoc; [by apply Hm|congruence].
Qed.

Lemma second_down pre s first second s2 :
  sUp s = false -> is_second pre first second s2 -> is_second (pre ++ [s]) first second s2.
Proof.
  intros Hu [[-> Hn]|(j & -> & Hne & Hj & Hm)]; [left|right].
  - split; [done|]. intros j x [Hx|(_ & Hc & _)]%scored_snoc; [by eapply Hn|congruence].
  - exists j. split_and!; [done|done|by apply scored_snoc; left|].
    intros k x [Hx|(_ & Hc & _)]%scored_snoc; [by eapply Hm|congruence].
Qed.

Lemma bestPair_inv snaps : forall pre first s1 second s2,
  is_best pre first s1 -> is_second pre first second s2 ->
  exists s1' s2', let '(f, s) := bestPair_loop (Z.of_nat (length pre)) snaps first s1 second s2 in
    is_best (pre ++ snaps) f s1' /\ is_second (pre ++ snaps) f s s2'.
Proof.
  induction snaps as [|s snaps IH]; intros pre first s1 second s2 Hb Hs; cbn [bestPair_loop].
  { rewrite app_nil_r. eauto. }
  replace (pre ++ s :: snaps) with ((pre ++ [s]) ++ snaps) by by rewrite <- app_assoc.
  replace (Z.of_nat (length pre) + 1) with (Z.of_nat (length (pre ++ [s])))
    by (rewrite length_app; cbn; lia).
  destruct (sUp s) eqn:Hu; cbn [negb].
  2:{ apply IH; [by apply best_down|by apply second_down]. }
  set (sc := realtimeScore s).
  assert (Hnew : scored (pre ++ [s]) (length pre) sc) by (apply scored_snoc; by right).
  assert (Hold : forall j x, scored pre j x -> scored (pre ++ [s]) j x)
    by (intros; apply scored_snoc; by left).
  destruct (Z.eqb_spec first (-1)) as [->|Hf]; cbn [orb].
  { destruct Hb as [[_ Hn]|(j & ? & _)]; [|lia]. apply IH; [right|left].
    - exists (length pre). split_and!; [done|done|].
      intros k x [Hx|(-> & _ & <-)]%scored_snoc; [by destruct (Hn k x)|lia].
    - split; [done|]. intros k x [Hx|(-> & _ & _)]%scored_snoc; [by destruct (Hn k x)|done]. }
  destruct Hb as [[-> _]|(jf & -> & Hjf & Hmf)]; [done|].
  pose proof (scored_lt _ _ _ Hjf) as Hlf.
  destruct (Z.ltb_spec sc s1) as [Hlt|Hge].
  { apply IH; right.
    - exists (length pre). split_and!; [done|done|].
      intros k x [Hx|(-> & _ & <-)]%scored_snoc; [destruct (Hmf _ _ Hx)|]; fold sc; lia.
    - exists jf. split_and!; [done|lia|by apply Hold|].
      intros k x [Hx|(-> & _ & <-)]%scored_snoc Hk; [by apply (Hmf k)|lia]. }
  assert (Hb' : is_best (pre ++ [s]) (Z.of_nat jf) s1).
  { right. exists jf. split_and!; [done|by apply Hold|].
    intros k x [Hx|(-> & _ & <-)]%scored_snoc; [by apply Hmf|fold sc; lia]. }
  destruct (Z.eqb_spec second (-1)) as [->|Hs2]; cbn [orb].
  { destruct Hs as [[_ Hn]|(j & ? & _)]; [|lia]. apply IH; [done|right].
    exists (length pre). split_and!; [done|lia|done|].
    intros k x [Hx|(-> & _ & <-)]%scored_snoc Hk; [by destruct Hk; eapply Hn|fold sc; lia]. }
  destruct Hs as [[-> _]|(js & -> & Hne & Hjs & Hms)]; [done|].
  destruct (Z.ltb_spec sc s2) as [Hlt2|Hge2]; (apply IH; [done|right]).
  - exists (length pre). split_and!; [done|lia|done|].
    intros k x [Hx|(-> & _ & <-)]%scored_snoc Hk; [specialize (Hms _ _ Hx Hk)|fold sc]; lia.
  - exists js. split_and!; [done|done|by apply Hold|].
    intros k x [Hx|(-> & _ & <-)]%scored_snoc Hk; [by eapply Hms|fold sc; lia].
Qed.

Lemma bestLatency_first snaps : forall i first s1 second s2,
  bestLatency_loop i snaps first s1 = (bestPair_loop i snaps first s1 second s2).1.
Proof.
  induction snaps as [|s snaps IH]; intros i f s1 g s2; cbn; [done|].
  destruct (sUp s); cbn; [|apply IH].
  destruct (_ || (realtimeScore s <? s1)); [apply IH|]. destruct (_ || _); apply IH.
Qed.

Lemma BestPair_spec snaps :
  exists s1 s2, is_best snaps (BestPair snaps).1 s1 /\
    is_second snaps (BestPair snaps).1 (BestPair snaps).2 s2 /\
    BestLatency snaps = (BestPair snaps).1.
Proof.
  destruct (bestPair_inv snaps [] (-1) 0 (-1) 0) as (s1 & s2 & Hp).
  - left. split; [done|]. by intros j x (t & ? & _).
  - left. split; [done|]. by intros j x (t & ? & _).
  - cbn [app length] in Hp. change (bestPair_loop (Z.of_nat 0) snaps (-1) 0 (-1) 0) with (BestPair snaps) in Hp.
    exists s1, s2. destruct (BestPair snaps) as [f s] eqn:E. destruct Hp as [H1 H2].
    split_and!; [done|done|]. unfold BestLatency. rewrite (bestLatency_first _ _ _ _ (-1) 0).
    fold (BestPair snaps). by rewrite E.
Qed.

(** The indices [BestPair] returns are in range. *)
Lemma BestPair_index snaps first second :
  BestPair snaps = (first, second) ->
  (first < 0 \/ exists j, first = Z.of_nat j /\ (j < length snaps)%nat) /\
  (second < 0 \/ exists j, second = Z.of_nat j /\ (j < length snaps)%nat).
Proof.
  intros E. destruct (BestPair_spec snaps) as (s1 & s2 & Hb & Hs & _). rewrite E in Hb, Hs. cbn in *.
  split.
  - destruct Hb as [[-> _]|(j & -> & (x & Hx & _) & _)]; [left; lia|right].
    exists j. split; [done|by eapply lookup_lt_Some].
  - destruct Hs as [[-> _]|(j & -> & _ & (x & Hx & _) & _)]; [left; lia|right].
    exists j. split; [done|by eapply lookup_lt_Some].
Qed.

(** With two scored candidates [BestPair] returns two. *)
Lemma BestPair_two snaps a0 b0 x0 y0 :
  scored snaps a0 x0 -> scored snaps b0 y0 -> a0 <> b0 ->
  exists a b x y, BestPair snaps = (Z.of_nat a, Z.of_nat b) /\ a <> b /\
    scored snaps a x /\ scored snaps b y /\
    (forall k z, scored snaps k z -> x <= z) /\ (forall k z, scored snaps k z -> k <> a -> y <= z).
Proof.
  intros Ha0 Hb0 Hne. destruct (BestPair_spec snaps) as (s1 & s2 & Hb & Hs & _).
  destruct (BestPair snaps) as [first second]. cbn in *.
  destruct Hb as [[-> Hn]|(a & -> & Ha & Hmin)]; [by destruct (Hn _ _ Ha0)|].
  destruct Hs as [[-> Hn]|(b & -> & Hab & Hb & Hmin2)].
  { pose proof (Hn _ _ Ha0). pose proof (Hn _ _ Hb0). lia. }
  exists a, b, s1, s2. split_and!; [done|lia|done|done| |].
  - intros k z Hk. by apply (Hmin k z).
  - intros k z Hk Hka. apply (Hmin2 k z Hk). lia.
Qed.

(** Path choice for latency-sensitive packets: [BestPair] returns the first
    path of least realtime score among those up (-1 when none is), and the
    least of the others (-1 when there is no other), never the same path
    twice; [BestLatency] is its first component. *)
Theorem BestPair_best snaps :
  exists s1 s2, is_best snaps (BestPair snaps).1 s1 /\
    is_second snaps (BestPair snaps).1 (BestPair snaps).2 s2 /\
    BestLatency snaps = (BestPair snaps).1.
Proof. apply BestPair_spec. Qed.

End Rx.

(** ** Counters *)

Section Counters.
Context {R : Rounding}.

(** One received packet: path sequence, size, one-way delay, arrival time. *)
Definition arrival : Type := Z * Z * Z * Z.

Definition receive (r : RxStats) (a : arrival) : RxStats :=
  let '(seq, size, owd, now) := a in OnData seq size owd now r.

Definition owd_of (a : arrival) : Z := a.1.2.
Definition size_of (a : arrival) : Z := a.1.1.2.
Definition list_min (x : Z) (l : list Z) : Z := foldl Z.min x l.
Definition list_sum (l : list Z) : Z := foldr Z.add 0 l.

Lemma receive_counts as_ : forall r,
  rx_pkts (foldl receive r as_) = (if decide (as_ = []) then rx_pkts r else u32 (rx_pkts r + Z.of_nat (length as_))) /\
  rx_bytes (foldl receive r as_) =
    (if decide (as_ = []) then rx_bytes r else u64 (rx_bytes r + list_sum (size_of <$> as_))).
Proof.
  induction as_ as [|[[[seq size] owd] now] as_ IH]; intros r; cbn [foldl]; [done|].
  destruct (IH (receive r (seq, size, owd, now))) as [-> ->].
  assert (Hp : rx_pkts (receive r (seq, size, owd, now)) = u32 (rx_pkts r + 1) /\
    rx_bytes (receive r (seq, size, owd, now)) = u64 (rx_bytes r + u64 size)).
  { unfold receive, OnData. by destruct (negb (haveOwd r)). }
  destruct Hp as [-> ->]. rewrite (decide_False (P := _ :: _ = [])) by done.
  rewrite (decide_False (P := _ :: _ = [])) by done.
  change (list_sum (size_of <$> (seq, size, owd, now) :: as_)) with (size + list_sum (size_of <$> as_)).
  cbn [length]. destruct (decide (as_ = [])) as [->|].
  - change (list_sum (size_of <$> [])) with 0. cbn [length]. split; mlia.
  - generalize (list_sum (size_of <$> as_)). intros z. split; mlia.
Qed.

Lemma receive_min as_ : forall r,
  (haveWin r = true -> haveWin (foldl receive r as_) = true /\
     owdMin (foldl receive r as_) = list_min (owdMin r) (owd_of <$> as_)) /\
  (haveWin r = false -> forall a rest, as_ = a :: rest ->
     haveWin (foldl receive r as_) = true /\
     owdMin (foldl receive r as_) = list_min (owd_of a) (owd_of <$> rest)).
Proof.
  induction as_ as [|[[[seq size] owd] now] as_ IH]; intros r; cbn [foldl]; [done|].
  destruct (IH (receive r (seq, size, owd, now))) as [Hw _].
  assert (Hr : haveWin (receive r (seq, size, owd, now)) = true /\
    owdMin (receive r (seq, size, owd, now)) = if haveWin r then Z.min (owdMin r) owd else owd).
  { unfold receive, OnData. destruct (negb (haveOwd r)), (haveWin r); cbn;
      try destruct (Z.ltb_spec owd (owdMin r)); cbn; (split; [done|lia]). }
  destruct Hr as [Hr1 Hr2]. destruct (Hw Hr1) as [-> ->]. split.
  - intros Hh. rewrite Hr2, Hh. done.
  - intros Hh a rest [= <- <-]. rewrite Hr2, Hh. done.
Qed.

(** A path that has counted a packet reports. *)
Lemma receive_started as_ : forall r, rx_started r = true \/ as_ <> [] -> rx_started (foldl receive r as_) = true.
Proof.
  induction as_ as [|[[[seq size] owd] now] as_ IH]; intros r Hr; cbn [foldl]; [by destruct Hr|].
  apply IH. left. unfold receive, OnData. destruct (negb (haveOwd r)); cbn;
    destruct (rx_started r); cbn; by rewrite ?orb_true_r.
Qed.

(** Report accuracy: after receiving the packets [a :: rest] on a path, in
    any order, the CTRL record carries the packet count modulo 2^32, the byte
    count modulo 2^64 and the least one-way delay of the window; the next
    window starts empty while the counters keep counting. *)
Theorem Report_counts a rest :
  let r := foldl receive NewRxStats (a :: rest) in
  exists highest avg r',
    Report r = (r', Some (highest, u32 (Z.of_nat (length (a :: rest))),
      u64 (list_sum (size_of <$> a :: rest)), u32 (list_min (owd_of a) (owd_of <$> rest)), avg)) /\
    Peek r' = Peek r /\ haveWin r' = false.
Proof.
  intros r. destruct (receive_counts (a :: rest) NewRxStats) as [Hp Hb].
  destruct (receive_min (a :: rest) NewRxStats) as [_ Hm].
  destruct (Hm eq_refl a rest eq_refl) as [_ Ho].
  rewrite !decide_False in Hp by done. rewrite !decide_False in Hb by done.
  pose proof (receive_started (a :: rest) NewRxStats ltac:(by right)) as Hs.
  fold r in Hp, Hb, Ho, Hs. clearbody r. unfold Report. rewrite Hs. cbn [negb].
  rewrite Hp, Hb, Ho. do 3 eexists.
  split_and!; [reflexivity|unfold Peek; cbn; by rewrite Hp, Hb|done].
Qed.

End Counters.

(** ** Delay averages and the hold time *)

Section Owd64.
#[local] Existing Instance binary64.

(** Eighths of integers below 2^50 are binary64 values. *)
Lemma eighth_representable n : Z.abs n < 2 ^ 50 -> (rnd (n # 8) == n # 8)%Q.
Proof.
  assert (Hpos : forall n, 0 < n < 2 ^ 50 -> (rnd (n # 8) == n # 8)%Q).
  { clear. intros n Hn. unfold rnd.
    assert (H8 : (n # 8 == inject_Z n * pow2 (-3))%Q) by (change (pow2 (-3)) with (1 # 8)%Q; unfold Qeq; cbn; lia).
    assert (H0 : (0 < n # 8)%Q) by (unfold Qlt; cbn; lia).
    pose proof (Qred_correct (n # 8)) as Hred.
    destruct (binary64_cases (n # 8)) as [[_ ->]|[[? _]|[? _]]]; [|lra|lra].
    rewrite <- Hred at 2. apply (rnd_pos_fix _ n (-3)); [lra|lra|].
    apply ulp_exp_bound; [lra| |lia]. rewrite Hred, pow2_Z by lia. unfold Qlt. cbn. lia. }
  intros Hn. destruct (Z.lt_trichotomy n 0) as [Hneg|[->|Hp]]; [|done|apply Hpos; lia].
  pose proof (Hpos (- n) ltac:(lia)) as Hr.
  unfold rnd in *. destruct (binary64_cases (n # 8)) as [[Hc _]|[[_ E]|[Hc _]]];
    [unfold Qlt in Hc; cbn in Hc; lia| |unfold Qeq in Hc; cbn in Hc; lia].
  destruct (binary64_cases (- n # 8)) as [[_ E']|[[Hc _]|[Hc _]]];
    [|unfold Qlt in Hc; cbn in Hc; lia|unfold Qeq in Hc; cbn in Hc; lia].
  change (- n # 8) with (- (n # 8))%Q in E', Hr. rewrite Qred_opp in E'.
  change ((- Qred (n # 8))%Q) with (Qopp (Qred (n # 8))) in E'. lra.
Qed.

Lemma int_representable n : Z.abs n < 2 ^ 47 -> (rnd (inject_Z n) == inject_Z n)%Q.
Proof.
  intros Hn. assert (E : (inject_Z n == 8 * n # 8)%Q) by (unfold Qeq; cbn; lia).
  rewrite E. apply eighth_representable. lia.
Qed.

(** One step of the exponential average between two integer bounds. *)
Lemma ewma_hull lo hi x o :
  Z.abs lo < 2 ^ 40 -> Z.abs hi < 2 ^ 40 ->
  (inject_Z lo <= x <= inject_Z hi -> inject_Z lo <= o <= inject_Z hi ->
   inject_Z lo <= fadd (fmul (lit (7 # 8)) x) (fmul (lit (1 # 8)) o) <= inject_Z hi)%Q.
Proof.
  intros Hlo Hhi Hx Ho.
  assert (Hk : forall k y n, 0 <= k <= 8 -> Z.abs n < 2 ^ 40 ->
    ((y <= inject_Z n -> fmul (lit (k # 8)) y <= k * n # 8) /\
     (inject_Z n <= y -> k * n # 8 <= fmul (lit (k # 8)) y))%Q).
  { clear. intros k y n Hk Hn. unfold fmul, lit. rewrite eighth_representable by lia.
    assert (Hkn : (rnd (k * n # 8) == k * n # 8)%Q) by (apply eighth_representable; nia).
    assert (0 <= k # 8)%Q by (unfold Qle; cbn; lia).
    assert (Em : ((k # 8) * inject_Z n == k * n # 8)%Q) by (unfold Qeq; cbn; lia).
    split; intros Hy; rewrite <- Hkn; apply rnd_mono; nra. }
  destruct (Hk 7 x hi ltac:(lia) Hhi) as [Ha _]. destruct (Hk 1 o hi ltac:(lia) Hhi) as [Hb _].
  destruct (Hk 7 x lo ltac:(lia) Hlo) as [_ Hc]. destruct (Hk 1 o lo ltac:(lia) Hlo) as [_ Hd].
  specialize (Ha ltac:(apply Hx)). specialize (Hb ltac:(apply Ho)).
  specialize (Hc ltac:(apply Hx)). specialize (Hd ltac:(apply Ho)).
  assert (Hs : forall n, ((7 * n # 8) + (1 * n # 8) == inject_Z n)%Q) by (intros; unfold Qeq; cbn; lia).
  pose proof (Hs lo). pose proof (Hs hi). unfold fadd.
  rewrite <- (int_representable lo), <- (int_representable hi) by lia. split; apply rnd_mono; lra.
Qed.

Lemma receive_hull lo hi as_ : Z.abs lo < 2 ^ 40 -> Z.abs hi < 2 ^ 40 ->
  Forall (fun a => lo <= owd_of a <= hi) as_ -> forall r,
  (haveOwd r = true -> (inject_Z lo <= owdEwma r <= inject_Z hi)%Q) ->
  let r' := foldl receive r as_ in
  haveOwd r' = true -> (inject_Z lo <= owdEwma r' <= inject_Z hi)%Q.
Proof.
  intros Hlo Hhi Hf. induction Hf as [|[[[seq size] owd] now] as_ Ha _ IH]; intros r Hr; cbn [foldl]; [done|].
  apply IH. intros _. unfold owd_of in Ha. cbn in Ha.
  assert (Ho : (inject_Z lo <= ofint owd <= inject_Z hi)%Q).
  { unfold ofint. rewrite int_representable by lia. split; apply Z_Qle; lia. }
  unfold receive, OnData. destruct (haveOwd r); cbn; [|done]. by apply ewma_hull; [..|apply Hr|].
Qed.

Lemma trunc_bounds lo hi x : (inject_Z lo <= x <= inject_Z hi)%Q -> lo <= trunc x <= hi.
Proof. destruct x as [n d]. unfold trunc, Qle. cbn. intros [H1 H2]. nia. Qed.

(** The reported delay average never leaves the range of the samples: if all
    one-way delays of a path lie between two 32-bit numbers, so does the
    average, and its conversion to a 32-bit integer for the CTRL record is
    exact truncation, without overflow. *)
Theorem OnData_range lo hi as_ :
  - two31 <= lo -> hi < two31 -> as_ <> [] -> Forall (fun a => lo <= owd_of a <= hi) as_ ->
  let r := foldl receive NewRxStats as_ in
  (inject_Z lo <= owdEwma r <= inject_Z hi)%Q /\
  lo <= trunc (owdEwma r) <= hi /\ i32 (trunc (owdEwma r)) = trunc (owdEwma r).
Proof.
  intros Hlo Hhi Hne Hf r.
  assert (lo <= hi) by (destruct Hf; [done|lia]).
  assert (Hh : haveOwd r = true).
  { unfold r. clear - Hne. destruct as_ as [|a as_]; [done|]. cbn [foldl]. clear Hne.
    assert (Hgen : forall r0, haveOwd (receive r0 a) = true) by
      (intros r0; destruct a as [[[? ?] ?] ?]; unfold receive, OnData; by destruct (negb (haveOwd r0))).
    assert (Hrest : forall l r0, haveOwd r0 = true -> haveOwd (foldl receive r0 l) = true); [|apply Hrest, Hgen].
    clear. induction l as [|[[[? ?] ?] ?] l IH]; intros r0 Hr0; cbn [foldl]; [done|]. apply IH.
    unfold receive, OnData. by destruct (negb (haveOwd r0)). }
  pose proof (receive_hull lo hi as_ ltac:(lia) ltac:(lia) Hf NewRxStats ltac:(done) Hh) as He.
  fold r in He. pose proof (trunc_bounds _ _ _ He). split_and!; try apply He; try lia. apply i32_id. mlia.
Qed.

Lemma OnData_range_witness :
  let r := foldl receive NewRxStats [(1, 100, -500, 0); (2, 100, 700, 5)] in
  (inject_Z (-500) <= owdEwma r <= inject_Z 700)%Q /\
  -500 <= trunc (owdEwma r) <= 700 /\ i32 (trunc (owdEwma r)) = trunc (owdEwma r).
Proof.
  assert (Hf : Forall (fun a : arrival => -500 <= owd_of a <= 700) [(1, 100, -500, 0); (2, 100, 700, 5)])
    by (repeat apply List.Forall_cons; try apply List.Forall_nil; vm_compute; split; congruence).
  apply (OnData_range (-500) 700); [lia|lia|congruence|exact Hf].
Defined.

End Owd64.

Section Hold.
#[local] Existing Instance exact.

Definition view_ok (v : Q * Q) : Prop :=
  (- inject_Z (2 ^ 40) <= v.1 <= inject_Z (2 ^ 40) /\ 0 <= v.2 <= inject_Z (2 ^ 40))%Q.

Lemma extreme_in (c : bool) (x e m : Q) l :
  x = (if c then e else m) \/ x ∈ l -> x = m \/ x ∈ e :: l.
Proof. rewrite elem_of_cons. destruct c; intros [?|?]; auto. Qed.

(** The scan from any accumulator returns extreme elements. *)
Lemma scan_spec views : forall m M J,
  let '(m', M', J') := foldl (fun '(minE, maxE, maxJ) '(e, j) =>
           (if Qltb e minE then e else minE, if Qltb maxE e then e else maxE,
            if Qltb maxJ j then j else maxJ)) (m, M, J) views in
  (m' <= m)%Q /\ (M <= M')%Q /\ (J <= J')%Q /\
  Forall (fun v => (m' <= v.1 <= M' /\ v.2 <= J')%Q) views /\
  (m' = m \/ m' ∈ views.*1) /\ (M' = M \/ M' ∈ views.*1) /\ (J' = J \/ J' ∈ views.*2).
Proof.
  induction views as [|[e j] views IH]; intros m M J; cbn [foldl].
  { split_and!; try apply Qle_refl; [constructor|by left..]. }
  specialize (IH (if Qltb e m then e else m) (if Qltb M e then e else M) (if Qltb J j then j else J)).
  destruct (foldl _ _ _) as [[m' M'] J']. destruct IH as (H1 & H2 & H3 & H4 & H5 & H6 & H7).
  assert (m' <= m /\ m' <= e /\ M <= M' /\ e <= M' /\ J <= J' /\ j <= J')%Q
    as (? & ? & ? & ? & ? & ?) by (split_and!; revert H1 H2 H3; qcase; lra).
  split_and!; [done|done|done| |..].
  - constructor; [cbn; done|done].
  - by apply (extreme_in _ _ _ _ _ H5).
  - by apply (extreme_in _ _ _ _ _ H6).
  - by apply (extreme_in _ _ _ _ _ H7).
Qed.

Lemma hold_scan_spec views :
  views <> [] -> Forall view_ok views ->
  let '(m, M, J) := hold_scan views in
  Forall (fun v => (m <= v.1 <= M /\ v.2 <= J)%Q) views /\
  m ∈ views.*1 /\ M ∈ views.*1 /\ (0 <= J)%Q /\ exists j, j ∈ views.*2 /\ (J == j)%Q.
Proof.
  intros Hne Hok. pose proof (scan_spec views MaxFloat64 (- MaxFloat64)%Q 0%Q) as Hs.
  fold (hold_scan views) in Hs. destruct (hold_scan views) as [[m M] J].
  destruct Hs as (_ & _ & HJ & Hall & Hm & HM & HJ').
  destruct views as [|v views]; [done|]. clear Hne.
  pose proof (Forall_inv Hok) as [Hv1 Hv2]. pose proof (Forall_inv Hall) as [Hv3 Hv4].
  assert (Hbig : (inject_Z (2 ^ 40) < MaxFloat64)%Q) by (apply Z_Qlt; vm_compute; done).
  split_and!; [done| | |done|].
  - destruct Hm as [->|]; [lra|done].
  - destruct HM as [->|]; [lra|done].
  - destruct HJ' as [->|Hin]; [|by exists J]. exists v.2. split; [left|lra].
Qed.

Lemma trunc_floor x : (0 <= x)%Q -> 0 <= trunc x /\ (inject_Z (trunc x) <= x < inject_Z (trunc x) + 1)%Q.
Proof.
  destruct x as [n d]. unfold trunc, Qle, Qlt. cbn. intros Hn. rewrite Z.mul_1_r in *.
  rewrite Z.quot_div_nonneg by lia. nia.
Qed.

(** Sizing of the reorder hold: with fewer than two fresh paths the answer
    is 0 (keep the current hold); otherwise, in exact arithmetic, it is the
    spread of the paths' delays plus twice the largest jitter, truncated to
    whole microseconds: large enough for a packet on the slowest path to
    catch up with the fastest, and no larger than some such pair demands. *)
Theorem ComputeHold_spread views :
  Forall view_ok views ->
  ((length views < 2)%nat -> ComputeHold views = 0) /\
  ((2 <= length views)%nat ->
   exists us, ComputeHold views = us * Microsecond /\ 0 <= us /\
     (forall e1 e2 j, e1 ∈ views.*1 -> e2 ∈ views.*1 -> j ∈ views.*2 ->
        (e1 - e2 + 2 * j < inject_Z us + 1)%Q) /\
     (exists e1 e2 j, e1 ∈ views.*1 /\ e2 ∈ views.*1 /\ j ∈ views.*2 /\
        (inject_Z us <= e1 - e2 + 2 * j)%Q)).
Proof.
  intros Hok. unfold ComputeHold. split; intros Hl; [by rewrite decide_True|].
  rewrite decide_False by lia.
  assert (Hne : views <> []) by (intros ->; cbn in Hl; lia).
  pose proof (hold_scan_spec views Hne Hok) as Hs. destruct (hold_scan views) as [[m M] J].
  destruct Hs as (Hall & Hm & HM & HJ0 & j & Hj & HJ).
  assert (Hall1 : forall e, e ∈ views.*1 -> (m <= e <= M)%Q /\ (- inject_Z (2 ^ 40) <= e <= inject_Z (2 ^ 40))%Q).
  { intros e ([e' j'] & -> & Hv)%list_elem_of_fmap. rewrite List.Forall_forall in Hall, Hok.
    apply list_elem_of_In in Hv. split; [apply (Hall _ Hv)|apply (Hok _ Hv)]. }
  assert (Hall2 : forall j, j ∈ views.*2 -> (j <= J)%Q /\ (0 <= j <= inject_Z (2 ^ 40))%Q).
  { intros j0 ([e' j'] & -> & Hv)%list_elem_of_fmap. rewrite List.Forall_forall in Hall, Hok.
    apply list_elem_of_In in Hv. split; [apply (Hall _ Hv)|apply (Hok _ Hv)]. }
  destruct (Hall1 m Hm) as [Hm1 Hm2]. destruct (Hall1 M HM) as [HM1 HM2]. destruct (Hall2 j Hj) as [_ Hj2].
  unfold fadd, fsub, fmul, rnd, exact. set (S := (M - m + 2 * J)%Q).
  assert (HS : (0 <= S <= inject_Z (2 ^ 42))%Q).
  { unfold S. change (inject_Z (2 ^ 42)) with (inject_Z (2 ^ 40) * 4)%Q. lra. }
  destruct (trunc_floor S) as (Ht0 & Ht1 & Ht2); [apply HS|].
  exists (trunc S). split_and!.
  - assert (trunc S <= 2 ^ 42) by (apply Qle_Z; lra). apply i64_id. unfold Microsecond. mlia.
  - done.
  - intros e1 e2 j' H1 H2 H3. destruct (Hall1 _ H1), (Hall1 _ H2), (Hall2 _ H3). unfold S in *. lra.
  - exists M, m, j. split_and!; [done..|]. unfold S in *. lra.
Qed.

End Hold.
