(* ===== verification/Fec.v ===== *)
(** * Forward error correction: internal/fec/fec.go

    Encoder and decoder of parity groups over the bulk stream. The
    Reed-Solomon codec is an interface; the order in which a Go map is
    traversed is another (any permutation of the keys). *)

From S2P Require Import Prelude Float64.
#[local] Open Scope go_scope.

(** ** Geometry *)

Record Params := mkParams { pK : Z; pM : Z }.

#[global] Instance Params_eq_dec : EqDecision Params.
Proof. solve_decision. Defined.

Definition PickParams `{Rounding} (loss : Q) : Params :=
  if Qltb loss (lit (1 # 1000)) then mkParams 0 0
  else if Qltb loss (lit (5 # 1000)) then mkParams 10 1
  else if Qltb loss (lit (2 # 100)) then mkParams 10 2
  else if Qltb loss (lit (5 # 100)) then mkParams 8 3
  else mkParams 5 2.

Definition FlushTimeout : Z := 8 * Millisecond.
Definition shardHeader : nat := 6.

(** ** Shards *)

Definition buildShard (seq : Z) (ct : list Z) : list Z :=
  be 4 seq ++ be 2 (u16 (Z.of_nat (length ct))) ++ ct.

Definition parseShard (s : list Z) : option (Z * list Z) :=
  if decide (length s < shardHeader)%nat then None else
  let l := Z.to_nat (be_val (take 2 (drop 4 s))) in
  if decide (length s < shardHeader + l)%nat then None else
  Some (be_val (take 4 s), take l (drop shardHeader s)).

(** Zero-padding to length [n] ([make], [copy]) of a shorter shard. *)
Definition pad (n : nat) (s : list Z) : list Z :=
  if decide (length s < n)%nat then s ++ replicate (n - length s) 0 else s.

(** ** github.com/klauspost/reedsolomon

    [rs_new k m]: [New(k, m)] succeeds. [rs_encode k m data]: the parity
    shards [Encode] stores behind the data shards, or [None] for its error.
    [rs_reconstruct k m all]: the data shards after [ReconstructData(all)],
    where an empty shard is a missing one. The laws are the documented
    behaviour, for up to 256 shards: equal non-empty data shards encode to [m] parity shards of
    the same length, and any [k] of the [k + m] shards give the data back. *)
Class ReedSolomon := {
  rs_new : Z -> Z -> bool;
  rs_encode : Z -> Z -> list (list Z) -> option (list (list Z));
  rs_reconstruct : Z -> Z -> list (list Z) -> option (list (list Z));
}.

(** [present L code all]: [all] is [code] with some shards erased. *)
Definition erased (code all : list (list Z)) : Prop :=
  length all = length code /\
  forall i s, all !! i = Some s -> s <> [] -> code !! i = Some s.

Definition survivors (all : list (list Z)) : nat := length (filter (fun s => s <> []) all).

Class ReedSolomonLaws (C : ReedSolomon) : Prop := {
  rs_encode_ok : forall k m data (L : nat),
    rs_new k m = true -> k + m <= 256 -> Z.of_nat (length data) = k -> (0 < L)%nat ->
    Forall (fun s => length s = L) data ->
    exists parity, rs_encode k m data = Some parity /\ Z.of_nat (length parity) = m /\
      Forall (fun s => length s = L) parity;
  rs_mds : forall k m data parity all (L : nat),
    rs_new k m = true -> k + m <= 256 -> Z.of_nat (length data) = k -> (0 < L)%nat ->
    Forall (fun s => length s = L) data -> rs_encode k m data = Some parity ->
    erased (data ++ parity) all -> k <= Z.of_nat (survivors all) ->
    rs_reconstruct k m all = Some data;
}.

(** ** Encoder *)

Inductive fec_event :=
  | EmitParity (group index k m : Z) (shard : list Z)
  | Recovered (seq : Z) (ct : list Z).

Record Encoder := mkEncoder {
  e_params : Params;
  nextGroup : Z;
  e_shards : list (list Z);
  maxLen : nat;
  firstAt : Z;
  groupID : Z;
  e_m : Z;
  GroupsClosed : Z;
  ParityEmitted : Z;
}.

Definition NewEncoder : Encoder := mkEncoder (mkParams 0 0) 0 [] 0 0 0 0 0 0.

Definition SetParams (p : Params) (e : Encoder) : Encoder :=
  mkEncoder p (nextGroup e) (e_shards e) (maxLen e) (firstAt e) (groupID e) (e_m e)
    (GroupsClosed e) (ParityEmitted e).

Definition Enabled (e : Encoder) : bool := 0 <? pK (e_params e).

Section Codec.
Context `{ReedSolomon}.

Definition clear_shards (e : Encoder) : Encoder :=
  mkEncoder (e_params e) (nextGroup e) [] (maxLen e) (firstAt e) (groupID e) (e_m e)
    (GroupsClosed e) (ParityEmitted e).

(** The parity datagrams of a closed group, in emission order. *)
Definition emissions (group k m : Z) (parity : list (list Z)) : list fec_event :=
  imap (fun i s => EmitParity group (u8 (k + Z.of_nat i)) (u8 k) (u8 m) s) parity.

(** [e.codecs.get(k, m)] memoises [New(k, m)], whose result depends on
    [(k, m)] only; [codec.Encode] runs when it succeeded. *)
Definition closeLocked : act Encoder fec_event := fun e =>
  let k := Z.of_nat (length (e_shards e)) in
  let m := e_m e in
  if (m =? 0) || (k =? 0) then (clear_shards e, [])
  else
    let data := pad (maxLen e) <$> e_shards e in
    match (if rs_new k m then rs_encode k m data else None) with
    | Some parity =>
        (clear_shards
           (mkEncoder (e_params e) (nextGroup e) (e_shards e) (maxLen e) (firstAt e) (groupID e)
              (e_m e) (u64 (GroupsClosed e + 1)) (u64 (ParityEmitted e + m))),
         emissions (groupID e) k m parity)
    | None => (clear_shards e, [])
    end.

(** A new group adopts the current geometry. *)
Definition openGroup (now : Z) (e : Encoder) : Encoder :=
  mkEncoder (e_params e) (u32 (nextGroup e + 1)) (e_shards e) 0 now
    (Z.land (nextGroup e) 0xffffff) (pM (e_params e)) (GroupsClosed e) (ParityEmitted e).

Definition pushShard (seq : Z) (ct : list Z) (e : Encoder) : Encoder :=
  mkEncoder (e_params e) (nextGroup e) (e_shards e ++ [buildShard seq ct])
    (Nat.max (maxLen e) (shardHeader + length ct)) (firstAt e) (groupID e) (e_m e)
    (GroupsClosed e) (ParityEmitted e).

(** Returns the stamp [(group, index)] when FEC is on. *)
Definition Add (seq : Z) (ct : list Z) (now : Z) (e : Encoder)
    : Encoder * list fec_event * option (Z * Z) :=
  let fresh := decide (e_shards e = []) in
  if (bool_decide (e_shards e = [])) && (pK (e_params e) =? 0) then (e, [], None)
  else
    let e := if fresh then openGroup now e else e in
    let e := pushShard seq ct e in
    let stamp := Some (groupID e, u8 (Z.of_nat (length (e_shards e)) - 1)) in
    if pK (e_params e) <=? Z.of_nat (length (e_shards e)) then
      let '(e, evs) := closeLocked e in (e, evs, stamp)
    else (e, [], stamp).

Definition Flush (now : Z) : act Encoder fec_event := fun e =>
  if bool_decide (e_shards e <> []) && (FlushTimeout <=? Sub now (firstAt e))
  then closeLocked e else (e, []).

Definition EncoderStats (e : Encoder) : Z * Z * Params :=
  (GroupsClosed e, ParityEmitted e, e_params e).

(** ** Decoder *)

Record dgroup := mkDgroup {
  g_shards : gmap Z (list Z);
  g_k : Z;
  g_m : Z;
  shardLen : nat;
  touched : Z;
  g_done : bool;
}.

Record Decoder := mkDecoder {
  groups : gmap Z dgroup;
  adds : Z;
  dRecovered : Z;
}.

Definition maxGroups : nat := 512.
Definition groupExpiry : Z := Second.

Definition NewDecoder : Decoder := mkDecoder ∅ 0 0.

Definition with_groups (gs : gmap Z dgroup) (d : Decoder) : Decoder :=
  mkDecoder gs (adds d) (dRecovered d).

(** [for id, g := range d.groups]: the traversal order of a Go map is any
    permutation of its keys. *)
Class MapOrder := {
  order : gmap Z dgroup -> list Z;
  order_perm : forall gs, order gs ≡ₚ (map_to_list gs).*1;
}.

Context `{MapOrder}.

(** The loop of [sweepLocked]; keys are deleted only once visited, so each
    [id] of [ids] is still present when it is reached. *)
Fixpoint sweep_loop (cutoff : Z) (ids : list Z) (force : bool) (gs : gmap Z dgroup)
    : gmap Z dgroup :=
  match ids with
  | [] => gs
  | id :: ids =>
      match gs !! id with
      | Some g =>
          if (touched g <? cutoff) || (force && bool_decide (maxGroups <= size gs)%nat)
          then sweep_loop cutoff ids false (delete id gs)
          else sweep_loop cutoff ids force gs
      | None => sweep_loop cutoff ids force gs
      end
  end.

Definition sweepLocked (now : Z) (force : bool) (d : Decoder) : Decoder :=
  with_groups (sweep_loop (now - groupExpiry) (order (groups d)) force (groups d)) d.

Definition maybeSweepLocked (now : Z) (d : Decoder) : Decoder :=
  let d := mkDecoder (groups d) (adds d + 1) (dRecovered d) in
  if Z.rem (adds d) 128 =? 0 then sweepLocked now false d else d.

Definition touch (now : Z) (g : dgroup) : dgroup :=
  mkDgroup (g_shards g) (g_k g) (g_m g) (shardLen g) now (g_done g).

(** [d.group(id, now)]: find or create, evicting when full. *)
Definition group (id now : Z) (d : Decoder) : Decoder * dgroup :=
  match groups d !! id with
  | Some g => let g := touch now g in (with_groups (<[id := g]> (groups d)) d, g)
  | None =>
      let d := if decide (maxGroups <= size (groups d))%nat then sweepLocked now true d else d in
      let g := mkDgroup ∅ 0 0 0 now false in
      (with_groups (<[id := g]> (groups d)) d, g)
  end.

(** The number of data shards among the received ones. *)
Definition dataHave (g : dgroup) : nat :=
  length (filter (fun i => i < g_k g) (map_to_list (g_shards g)).*1).

(** Shard [i] for the codec: padded or cut to the shard length, empty when
    missing. *)
Definition shard_for (g : dgroup) (i : nat) : list Z :=
  match g_shards g !! Z.of_nat i with
  | Some s => take (shardLen g) (pad (shardLen g) s)
  | None => []
  end.

Definition all_shards (g : dgroup) : list (list Z) :=
  shard_for g <$> seq 0 (Z.to_nat (g_k g + g_m g)).

(** The packets of the missing data shards, from their repaired shards. *)
Definition repaired (g : dgroup) (data : list (list Z)) : list (Z * list Z) :=
  omap (fun i =>
          match g_shards g !! Z.of_nat i with
          | Some _ => None
          | None => s ← data !! i; parseShard s
          end) (seq 0 (Z.to_nat (g_k g))).

Definition tryReconstructLocked (id : Z) (g : dgroup) : act Decoder fec_event := fun d =>
  if g_k g =? 0 then (d, [])
  else if g_k g <=? Z.of_nat (dataHave g) then (with_groups (delete id (groups d)) d, [])
  else if Z.of_nat (size (g_shards g)) <? g_k g then (d, [])
  else
    match (if rs_new (g_k g) (g_m g) then rs_reconstruct (g_k g) (g_m g) (all_shards g) else None) with
    | None => (d, [])
    | Some data =>
        let out := repaired g data in
        (mkDecoder (delete id (groups d)) (adds d) (u64 (dRecovered d + Z.of_nat (length out))),
         (fun p => Recovered p.1 p.2) <$> out)
    end.

(** Store a shard in group [id] and try to repair it. *)
Definition storeShard (id index : Z) (g : dgroup) (s : list Z) : act Decoder fec_event := fun d =>
  let g := mkDgroup (<[index := s]> (g_shards g)) (g_k g) (g_m g) (shardLen g) (touched g) (g_done g) in
  tryReconstructLocked id g (with_groups (<[id := g]> (groups d)) d).

Definition AddData (id index seq : Z) (ct : list Z) (now : Z) : act Decoder fec_event := fun d =>
  let d := maybeSweepLocked now d in
  let '(d, g) := group id now d in
  if g_done g then (d, [])
  else if bool_decide (is_Some (g_shards g !! index)) then (d, [])
  else storeShard id index g (buildShard seq ct) d.

Definition AddParity (id index k m : Z) (shard : list Z) (now : Z) : act Decoder fec_event := fun d =>
  let d := maybeSweepLocked now d in
  let '(d, g) := group id now d in
  if g_done g || (k =? 0) then (d, [])
  else
    let g := mkDgroup (g_shards g) k m (length shard) (touched g) (g_done g) in
    let d := with_groups (<[id := g]> (groups d)) d in
    if bool_decide (is_Some (g_shards g !! index)) then (d, [])
    else storeShard id index g shard d.

Definition RecoveredCount (d : Decoder) : Z := dRecovered d.

End Codec.
