(* ===== verification/CodecCache.v ===== *)
(** * The codec cache: [codecCache] of internal/fec/fec.go

    Encoder and decoder fetch their Reed-Solomon codec for a geometry from a
    cache that is created empty and fills on demand. [Fec] calls the codec
    directly; here is why it may. *)

From S2P Require Import Prelude Fec.
#[local] Open Scope Z_scope.

(** A codec object: all it carries is the geometry it was made for. *)
Record codec := mkCodec { cK : Z; cM : Z }.

#[global] Instance codec_eq_dec : EqDecision codec.
Proof. solve_decision. Defined.

(** The map of the cache, [None] while it is nil. *)
Record codecCache := mkCache { codecs : option (gmap (Z * Z) codec) }.

Section Cache.
Context `{ReedSolomon}.

(** [reedsolomon.New]: [None] is its error. *)
Definition newCodec (k m : Z) : option codec := if rs_new k m then Some (mkCodec k m) else None.

Definition get (k m : Z) (c : codecCache) : codecCache * option codec :=
  let cs := default ∅ (codecs c) in
  match cs !! (k, m) with
  | Some enc => (mkCache (Some cs), Some enc)
  | None =>
      match newCodec k m with
      | None => (mkCache (Some cs), None)
      | Some enc => (mkCache (Some (<[(k, m) := enc]> cs)), Some enc)
      end
  end.

(** Requests one after the other. *)
Fixpoint getAll (reqs : list (Z * Z)) (c : codecCache) : codecCache * list (option codec) :=
  match reqs with
  | [] => (c, [])
  | (k, m) :: reqs =>
      let '(c, r) := get k m c in
      let '(c, rs) := getAll reqs c in (c, r :: rs)
  end.

(** What is in the cache is what [New] makes for its key. *)
Definition wf_cache (c : codecCache) : Prop :=
  map_Forall (fun km enc => newCodec km.1 km.2 = Some enc) (default ∅ (codecs c)).

Lemma get_spec k m c : wf_cache c ->
  wf_cache (get k m c).1 /\ (get k m c).2 = newCodec k m /\
  dom (default ∅ (codecs (get k m c).1)) =
    (if rs_new k m then {[(k, m)]} else ∅) ∪ dom (default ∅ (codecs c)).
Proof.
  unfold get, wf_cache. intros Hc. set (cs := default ∅ (codecs c)) in *.
  destruct (cs !! (k, m)) as [enc|] eqn:Hk; cbn.
  - specialize (Hc _ _ Hk) as Hn. cbn in Hn. split_and!; [done|done|]. apply elem_of_dom_2 in Hk.
    destruct (rs_new k m); set_solver.
  - unfold newCodec. destruct (rs_new k m) eqn:Hr; cbn.
    + split_and!; [|done|by rewrite dom_insert_L]. apply map_Forall_insert_2; [cbn; unfold newCodec; by rewrite Hr|done].
    + split_and!; [done|done|set_solver].
Qed.

(** C26: The codec cache cannot be seen. Whatever geometries are asked for, in
    whatever order, every answer, errors included, is the one a fresh
    [reedsolomon.New] would give; and the cache holds exactly the valid
    geometries asked for, each once. *)
Theorem codecs_transparent reqs :
  let '(c, rs) := getAll reqs (mkCache None) in
  rs = (fun km => newCodec km.1 km.2) <$> reqs /\
  dom (default ∅ (codecs c)) = list_to_set (filter (fun km => rs_new km.1 km.2 = true) reqs).
Proof.
  assert (Hall : forall reqs c, wf_cache c ->
    (getAll reqs c).2 = (fun km => newCodec km.1 km.2) <$> reqs /\
    dom (default ∅ (codecs (getAll reqs c).1)) =
      list_to_set (filter (fun km => rs_new km.1 km.2 = true) reqs) ∪ dom (default ∅ (codecs c))).
  { clear reqs. induction reqs as [|[k m] reqs IH]; intros c Hc; cbn [getAll]; [split; [done|set_solver]|].
    destruct (get_spec k m c Hc) as (Hc' & Hr & Hd). destruct (get k m c) as [c1 r]. cbn [fst snd] in Hc', Hr, Hd.
    destruct (IH c1 Hc') as [Hrs Hds]. destruct (getAll reqs c1) as [c2 rs]. cbn [fst snd] in *.
    split; [by rewrite fmap_cons, Hr, Hrs|]. rewrite Hds, Hd, filter_cons. cbn [fst snd].
    destruct (rs_new k m); cbn; set_solver. }
  assert (H0 : wf_cache (mkCache None)) by apply map_Forall_empty.
  destruct (Hall reqs _ H0) as [Hr Hd]. destruct (getAll reqs _) as [c rs]. split; [done|].
  cbn in Hd. rewrite Hd. cbn. rewrite dom_empty_L. set_solver.
Qed.

End Cache.
