(* ===== verification/FecSpec.v ===== *)
(** * Forward error correction: theorems

    Shards are self-describing, the decoder's memory is bounded, and any
    [k] shards of a group that include a parity shard give back every packet
    of the group that did not arrive. *)

From S2P Require Import Prelude Float64 Fec.
#[local] Open Scope go_scope.

(** ** Shards *)

Definition wf_packet (p : Z * list Z) : Prop := is_u32 p.1 /\ Z.of_nat (length p.2) < two16.

Definition shard_of (p : Z * list Z) : list Z := buildShard p.1 p.2.

Lemma length_shard p : length (shard_of p) = (shardHeader + length p.2)%nat.
Proof. destruct p. unfold shard_of, buildShard. by rewrite !length_app, !length_be. Qed.

Lemma parseShard_pad p z : wf_packet p -> parseShard (shard_of p ++ z) = Some p.
Proof.
  destruct p as [seq ct]. intros [Hs Hl]. cbn in Hs, Hl.
  assert (Hlen : be_val (be 2 (u16 (Z.of_nat (length ct)))) = Z.of_nat (length ct)).
  { rewrite be_val_field; [apply u16_id; mlia|]. apply u16_range. }
  unfold parseShard. rewrite length_app, length_shard. cbn [snd].
  rewrite decide_False by (unfold shardHeader; lia).
  unfold shard_of, buildShard. cbn [fst snd]. rewrite <- !app_assoc.
  replace (take 2 (drop 4 (be 4 seq ++ be 2 (u16 (Z.of_nat (length ct))) ++ ct ++ z)))
    with (be 2 (u16 (Z.of_nat (length ct)))) by done.
  rewrite Hlen, Nat2Z.id. rewrite decide_False by lia.
  replace (take 4 (be 4 seq ++ be 2 (u16 (Z.of_nat (length ct))) ++ ct ++ z)) with (be 4 seq) by done.
  rewrite be_val_field by done.
  replace (drop shardHeader (be 4 seq ++ be 2 (u16 (Z.of_nat (length ct))) ++ ct ++ z)) with (ct ++ z) by done.
  by rewrite take_app_length.
Qed.

Lemma pad_split n s : (length s <= n)%nat ->
  pad n s = s ++ replicate (n - length s) 0 /\ length (pad n s) = n.
Proof.
  intros Hl. unfold pad. case_decide.
  - split; [done|]. rewrite length_app, length_replicate. lia.
  - replace (n - length s)%nat with 0%nat by lia. rewrite app_nil_r. split; [done|lia].
Qed.

(** ** The sweep *)

Section Sweep.
Context {O : MapOrder}.

Lemma sweep_loop_sub cutoff ids : forall force gs, sweep_loop cutoff ids force gs ⊆ gs.
Proof.
  induction ids as [|id ids IH]; intros force gs; cbn [sweep_loop]; [done|].
  destruct (gs !! id); [|apply IH]. destruct (_ || _); [|apply IH].
  etrans; [apply IH|apply delete_subseteq].
Qed.

(** A group touched within the expiry survives an unforced sweep. *)
Lemma sweep_loop_keeps cutoff ids id g : forall gs,
  gs !! id = Some g -> cutoff <= touched g ->
  sweep_loop cutoff ids false gs !! id = Some g.
Proof.
  induction ids as [|i ids IH]; intros gs Hg Ht; cbn [sweep_loop]; [done|].
  destruct (gs !! i) as [g'|] eqn:Hi; [|by apply IH]. cbn [andb].
  destruct (Z.ltb_spec (touched g') cutoff); cbn [orb]; [|by apply IH].
  apply IH; [|done]. rewrite lookup_delete_ne; [done|]. intros ->. rewrite Hg in Hi.
  injection Hi as ->. lia.
Qed.

(** A forced sweep of a full table frees a slot. *)
Lemma sweep_force_size now d :
  (maxGroups <= size (groups d))%nat -> (size (groups (sweepLocked now true d)) < size (groups d))%nat.
Proof.
  intros Hfull. unfold sweepLocked. cbn [groups with_groups].
  pose proof (order_perm (groups d)) as Hp.
  destruct (order (groups d)) as [|id ids].
  { apply Permutation_length in Hp. rewrite length_fmap, length_map_to_list in Hp.
    unfold maxGroups in Hfull. cbn in Hp. lia. }
  assert (Hin : id ∈ (map_to_list (groups d)).*1) by (rewrite <- Hp; set_solver).
  apply list_elem_of_fmap in Hin as ([id' g] & E & Hg). cbn in E. subst id'.
  apply elem_of_map_to_list in Hg. cbn [sweep_loop]. rewrite Hg.
  rewrite bool_decide_true, orb_true_r by done.
  eapply Nat.le_lt_trans; [apply map_subseteq_size, sweep_loop_sub|].
  rewrite map_size_delete_Some by eauto.
  assert (size (groups d) <> 0%nat) by (unfold maxGroups in Hfull; lia). lia.
Qed.

End Sweep.

(** ** Bounded memory *)

Section Bound.
Context {C : ReedSolomon} {O : MapOrder}.

Inductive dec_op :=
  | DData (id index seq : Z) (ct : list Z) (now : Z)
  | DParity (id index k m : Z) (shard : list Z) (now : Z).

Definition dec_step (o : dec_op) : act Decoder fec_event :=
  match o with
  | DData id index seq ct now => AddData id index seq ct now
  | DParity id index k m shard now => AddParity id index k m shard now
  end.

Inductive dec_reach : Decoder -> Prop :=
  | dec_new : dec_reach NewDecoder
  | dec_more o d : dec_reach d -> dec_reach (dec_step o d).1.

Lemma maybeSweep_groups now d : groups (maybeSweepLocked now d) ⊆ groups d.
Proof.
  unfold maybeSweepLocked. cbn [adds]. destruct (_ =? 0); [|done]. apply sweep_loop_sub.
Qed.

Lemma group_size id now d :
  (size (groups d) <= maxGroups)%nat ->
  (size (groups (group id now d).1) <= maxGroups)%nat /\
  groups (group id now d).1 !! id = Some (group id now d).2.
Proof.
  intros Hs. unfold group. destruct (groups d !! id) as [g|] eqn:Hg; cbn [fst snd groups with_groups].
  - rewrite lookup_insert_eq, map_size_insert_Some by eauto. done.
  - rewrite lookup_insert_eq. split; [|done].
    set (d1 := if decide _ then _ else d).
    assert (size (groups d1) < maxGroups)%nat.
    { unfold d1. case_decide as Hfull; [pose proof (sweep_force_size now d Hfull)|]; lia. }
    rewrite map_size_insert. destruct (groups d1 !! id); cbn; lia.
Qed.

Lemma tryReconstruct_size id g d :
  (size (groups (tryReconstructLocked id g d).1) <= size (groups d))%nat.
Proof.
  unfold tryReconstructLocked. destruct (_ =? 0); [done|].
  assert (Hdel : (size (delete id (groups d)) <= size (groups d))%nat)
    by (apply map_subseteq_size, delete_subseteq).
  destruct (_ <=? _); [done|]. destruct (_ <? _); [done|].
  destruct (if rs_new _ _ then _ else _); done.
Qed.

Lemma storeShard_size id index g s d g0 :
  groups d !! id = Some g0 ->
  (size (groups (storeShard id index g s d).1) <= size (groups d))%nat.
Proof.
  intros Hg. unfold storeShard. etrans; [apply tryReconstruct_size|]. cbn [groups with_groups].
  by rewrite map_size_insert_Some by eauto.
Qed.

Lemma dec_step_size o d :
  (size (groups d) <= maxGroups)%nat -> (size (groups (dec_step o d).1) <= maxGroups)%nat.
Proof.
  intros Hs. destruct o as [id index seq ct now|id index k m shard now]; cbn [dec_step];
    unfold AddData, AddParity;
    (assert (Hs' : (size (groups (maybeSweepLocked now d)) <= maxGroups)%nat)
       by (etrans; [apply map_subseteq_size, maybeSweep_groups|done]));
    pose proof (group_size id now _ Hs') as [Hgs Hgl];
    destruct (group id now (maybeSweepLocked now d)) as [d1 g]; cbn [fst snd] in *.
  - destruct (g_done g); [done|]. case_bool_decide; [done|].
    etrans; [by eapply storeShard_size|done].
  - destruct (_ || _); [done|]. cbn [g_shards].
    assert (Hg : (size (groups (with_groups (<[id := mkDgroup (g_shards g) k m (length shard) (touched g) (g_done g)]>
      (groups d1)) d1)) <= maxGroups)%nat)
      by (cbn [groups with_groups]; by rewrite map_size_insert_Some by eauto).
    case_bool_decide; [done|]. etrans; [eapply storeShard_size|exact Hg].
    cbn [groups with_groups]. apply lookup_insert_eq.
Qed.

(** The decoder's memory is bounded: whatever datagrams arrive, and in
    whatever order the map is swept, it never tracks more than 512 groups. *)
Theorem fec_bounded d : dec_reach d -> (size (groups d) <= maxGroups)%nat.
Proof.
  induction 1 as [|o d _ IH]; [|by apply dec_step_size].
  change (size (∅ : gmap Z dgroup) <= maxGroups)%nat. rewrite map_size_empty. lia.
Qed.

End Bound.

(** ** Recovery of one group *)

(** The common shard length of a group, as the encoder accumulates it. *)
Definition grow (n : nat) (p : Z * list Z) : nat := Nat.max n (shardHeader + length p.2).
Definition group_len (pkts : list (Z * list Z)) : nat := foldl grow 0%nat pkts.

(** The data shards handed to the codec. *)
Definition data_shards (pkts : list (Z * list Z)) : list (list Z) :=
  pad (group_len pkts) <$> (shard_of <$> pkts).

Lemma group_len_ge pkts : forall n, (n <= foldl grow n pkts)%nat /\
  Forall (fun p => (shardHeader + length p.2 <= foldl grow n pkts)%nat) pkts.
Proof.
  induction pkts as [|p pkts IH]; intros n; cbn [foldl]; [split; [done|constructor]|].
  destruct (IH (grow n p)) as [H1 H2]. unfold grow in H1 at 1.
  split; [lia|]. constructor; [lia|done].
Qed.

Lemma group_len_max pkts : Forall (fun p => (length (shard_of p) <= group_len pkts)%nat) pkts.
Proof.
  eapply Forall_impl; [|apply (group_len_ge pkts 0)]. intros p Hp. rewrite length_shard. exact Hp.
Qed.

Lemma take_id {A} (l : list A) n : length l = n -> take n l = l.
Proof. intros. apply take_ge. lia. Qed.

(** Counting the indices of [0, n) that satisfy a predicate. *)
Lemma filter_fmap_length {A B} (f : A -> B) (P : B -> Prop) `{forall x, Decision (P x)} (l : list A) :
  length (filter P (f <$> l)) = length (filter (fun x => P (f x)) l).
Proof. induction l as [|x l IH]; [done|]. rewrite fmap_cons, !filter_cons. case_decide; cbn; lia. Qed.

Lemma count_dom {A} (ms : gmap Z A) (n : nat) :
  (forall i, is_Some (ms !! i) -> 0 <= i < Z.of_nat n) ->
  length (filter (fun i : nat => is_Some (ms !! Z.of_nat i)) (seq 0 n)) = size ms.
Proof.
  intros Hdom. rewrite <- size_dom.
  assert (E : dom ms = list_to_set (C := gset Z) (Z.of_nat <$> filter (fun i : nat => is_Some (ms !! Z.of_nat i)) (seq 0 n))).
  { apply set_eq. intros i. rewrite elem_of_dom, elem_of_list_to_set, list_elem_of_fmap. split.
    - intros Hi. pose proof (Hdom i Hi). exists (Z.to_nat i).
      split; [lia|]. apply list_elem_of_filter. rewrite Z2Nat.id by lia. split; [done|].
      apply elem_of_seq. lia.
    - intros (j & -> & [Hj _]%list_elem_of_filter). done. }
  rewrite E, size_list_to_set, length_fmap; [done|].
  apply NoDup_fmap_2; [intros ? ? ?; lia|]. apply list.NoDup_filter, NoDup_seq.
Qed.

Section Recover.
Context {C : ReedSolomon} {CL : ReedSolomonLaws C} {O : MapOrder}.
Context (pkts : list (Z * list Z)) (m : Z) (parity : list (list Z)).

Let k : nat := length pkts.
Let L : nat := group_len pkts.

(** A group closed by the encoder: [k] packets, [m] parity shards. *)
Record closed_group : Prop := {
  cg_wf : Forall wf_packet pkts;
  cg_some : pkts <> [];
  cg_new : rs_new (Z.of_nat k) m = true;
  cg_few : Z.of_nat k + m <= 256;
  cg_code : rs_encode (Z.of_nat k) m (data_shards pkts) = Some parity;
}.

Context (CG : closed_group).

(** The shards as they travel: unpadded data, then parity. *)
Definition raw : list (list Z) := (shard_of <$> pkts) ++ parity.

Lemma L_pos : (0 < L)%nat.
Proof.
  pose proof (group_len_max pkts) as Hf. rewrite Forall_lookup in Hf.
  destruct (pkts !! 0%nat) as [p|] eqn:E.
  - specialize (Hf _ _ E). cbv beta in Hf. rewrite length_shard in Hf. unfold shardHeader in Hf. unfold L. lia.
  - apply lookup_ge_None in E. destruct (cg_some CG). apply length_zero_iff_nil. lia.
Qed.

Lemma data_len : length (data_shards pkts) = k /\ Forall (fun s => length s = L) (data_shards pkts).
Proof.
  unfold data_shards. rewrite !length_fmap. split; [done|]. do 2 apply Forall_fmap.
  eapply Forall_impl; [|apply group_len_max]. intros p Hp. cbn. by apply pad_split.
Qed.

Lemma parity_len : Z.of_nat (length parity) = m /\ Forall (fun s => length s = L) parity.
Proof.
  destruct data_len as [Hl Hf].
  destruct (rs_encode_ok (Z.of_nat k) m (data_shards pkts) L) as (par & He & Hm & Hp);
    [apply CG|apply CG|by rewrite Hl|apply L_pos|done|].
  rewrite (cg_code CG) in He. by injection He as <-.
Qed.

Lemma length_raw : length raw = (k + Z.to_nat m)%nat.
Proof. destruct parity_len. unfold raw, k. rewrite length_app, length_fmap. lia. Qed.

(** What a travelling shard becomes when cut to the common length. *)
Lemma raw_code n s : raw !! n = Some s ->
  (data_shards pkts ++ parity) !! n = Some (take L (pad L s)) /\ take L (pad L s) <> [].
Proof.
  intros Hn. assert (Hcut : length (pad L s) = L /\ (data_shards pkts ++ parity) !! n = Some (pad L s)).
  { unfold raw in Hn. apply lookup_app_Some in Hn as [Hn|[Hge Hn]].
    - pose proof (group_len_max pkts) as Hf. rewrite list_lookup_fmap in Hn.
      destruct (pkts !! n) as [p|] eqn:Hp; [|done]. injection Hn as <-.
      rewrite Forall_lookup in Hf. specialize (Hf _ _ Hp). cbn in Hf.
      split; [by apply pad_split|]. apply lookup_app_l_Some. unfold data_shards.
      by rewrite !list_lookup_fmap, Hp.
    - rewrite length_fmap in Hge, Hn. destruct parity_len as [_ Hf]. rewrite Forall_lookup in Hf.
      specialize (Hf _ _ Hn). cbn in Hf. destruct data_len as [Hl _].
      assert (pad L s = s) as -> by (unfold pad; by rewrite decide_False by lia).
      split; [done|]. rewrite lookup_app_r by (rewrite Hl; done). by rewrite Hl. }
  destruct Hcut as [Hlen Hc]. rewrite take_id by done. split; [done|].
  pose proof L_pos. intros E. rewrite E in Hlen. cbn in Hlen. lia.
Qed.

(** [holds g ns]: group [g] holds exactly the shards numbered [ns]. *)
Record holds (g : dgroup) (ns : list nat) : Prop := {
  h_in : forall n, n ∈ ns -> exists s, raw !! n = Some s /\ g_shards g !! Z.of_nat n = Some s;
  h_only : forall i s, g_shards g !! i = Some s -> exists n, i = Z.of_nat n /\ n ∈ ns;
  h_nodup : NoDup ns;
  h_done : g_done g = false;
  h_geom : (g_k g = 0 /\ Forall (fun n => n < k)%nat ns) \/
           (g_k g = Z.of_nat k /\ g_m g = m /\ shardLen g = L /\ Exists (fun n => k <= n)%nat ns);
}.

Lemma holds_raw g ns i s : holds g ns -> g_shards g !! i = Some s ->
  exists n, i = Z.of_nat n /\ n ∈ ns /\ raw !! n = Some s /\ (n < k + Z.to_nat m)%nat.
Proof.
  intros Hh Hi. destruct (h_only _ _ Hh _ _ Hi) as (n & -> & Hn).
  destruct (h_in _ _ Hh _ Hn) as (s' & Hr & Hs'). rewrite Hi in Hs'. injection Hs' as <-.
  exists n. split_and!; [done..|]. rewrite <- length_raw. by eapply lookup_lt_Some.
Qed.

Lemma holds_size g ns : holds g ns -> size (g_shards g) = length ns.
Proof.
  intros Hh. rewrite <- size_dom, <- (length_fmap Z.of_nat ns).
  rewrite <- (size_list_to_set (C := gset Z) (Z.of_nat <$> ns))
    by (apply NoDup_fmap_2; [intros ? ? ?; lia|apply Hh]).
  f_equal. apply set_eq. intros i. rewrite elem_of_dom, elem_of_list_to_set, list_elem_of_fmap. split.
  - intros [s Hs]. destruct (h_only _ _ Hh _ _ Hs) as (n & -> & Hn). eauto.
  - intros (n & -> & Hn). destruct (h_in _ _ Hh _ Hn) as (s & _ & Hs). eauto.
Qed.

(** The packets of the group whose data shard did not arrive. *)
Definition missing (ns : list nat) : list (Z * list Z) :=
  omap (fun n => if decide (n ∈ ns) then None else pkts !! n) (seq 0 k).

Lemma reconstruct_all g ns :
  holds g ns -> g_k g <> 0 -> (k <= length ns)%nat ->
  rs_reconstruct (g_k g) (g_m g) (all_shards g) = Some (data_shards pkts).
Proof.
  intros Hh Hk Hn. destruct (h_geom _ _ Hh) as [[? _]|(Ek & Em & EL & _)]; [done|].
  destruct data_len as [Hdl Hdf]. destruct parity_len as [Hpl Hpf]. rewrite Ek, Em.
  assert (Hlen : Z.to_nat (g_k g + g_m g) = (k + Z.to_nat m)%nat) by lia.
  apply (rs_mds _ _ _ parity _ L); [apply CG|apply CG|by rewrite Hdl|apply L_pos|done|apply CG| |].
  - unfold all_shards. rewrite Hlen. split.
    + rewrite length_fmap, length_seq, length_app, Hdl. lia.
    + intros i s. rewrite list_lookup_fmap. destruct (seq 0 _ !! i) as [j|] eqn:Hj; [|done].
      apply lookup_seq in Hj as [-> Hlt]. cbn. intros [= <-]. unfold shard_for. rewrite EL.
      destruct (g_shards g !! Z.of_nat i) as [s|] eqn:Hs; [|done]. intros _.
      destruct (holds_raw _ _ _ _ Hh Hs) as (n & Hin & _ & Hr & _).
      apply Nat2Z.inj in Hin as ->. by apply raw_code.
  - unfold survivors, all_shards. rewrite Hlen, filter_fmap_length.
    rewrite (list_filter_iff _ (fun i : nat => is_Some (g_shards g !! Z.of_nat i))).
    + rewrite count_dom, (holds_size _ _ Hh); [lia|]. intros i [s Hs].
      destruct (holds_raw _ _ _ _ Hh Hs) as (n & -> & _ & _ & Hlt). lia.
    + intros i. unfold shard_for. rewrite EL. split.
      * destruct (g_shards g !! _); [eauto|done].
      * intros [s Hs]. rewrite Hs. destruct (holds_raw _ _ _ _ Hh Hs) as (n & Hin & _ & Hr & _).
        by apply (raw_code n).
Qed.

Lemma repaired_missing g ns :
  holds g ns -> g_k g <> 0 -> repaired g (data_shards pkts) = missing ns.
Proof.
  intros Hh Hk. destruct (h_geom _ _ Hh) as [[? _]|(Ek & _)]; [done|].
  unfold repaired, missing. rewrite Ek, Nat2Z.id.
  assert (Hext : forall l, Forall (fun n => n < k)%nat l ->
    omap (fun i => match g_shards g !! Z.of_nat i with
                   | Some _ => None
                   | None => s ← data_shards pkts !! i; parseShard s end) l
    = omap (fun n => if decide (n ∈ ns) then None else pkts !! n) l).
  { induction 1 as [|n l Hn _ IH]; [done|]. cbn [omap list_omap]. rewrite IH.
    destruct (g_shards g !! Z.of_nat n) as [s|] eqn:Hs.
    - destruct (h_only _ _ Hh _ _ Hs) as (n' & E%Nat2Z.inj & Hin). subst n'. by rewrite decide_True.
    - rewrite decide_False.
      2:{ intros Hin. destruct (h_in _ _ Hh _ Hin) as (s & _ & Hs'). congruence. }
      destruct (lookup_lt_is_Some_2 pkts n) as [p Hp]; [done|].
      unfold data_shards. rewrite !list_lookup_fmap, Hp.
      cbn [fmap option_fmap option_map mbind option_bind].
      pose proof (group_len_max pkts) as Hf. rewrite Forall_lookup in Hf. specialize (Hf _ _ Hp).
      destruct (pad_split _ _ Hf) as [-> _]. rewrite parseShard_pad; [done|].
      pose proof (cg_wf CG) as Hwf. rewrite Forall_lookup in Hwf. by apply (Hwf _ _ Hp). }
  apply Hext. apply List.Forall_forall. intros n Hn. apply in_seq in Hn. lia.
Qed.

(** ** Arrivals *)

Context (id : Z).

(** Shard number [n] of the group arrives at time [t]. *)
Definition deliver (n : nat) (t : Z) : act Decoder fec_event :=
  match pkts !! n, parity !! (n - k)%nat with
  | Some p, _ => AddData id (Z.of_nat n) p.1 p.2 t
  | None, Some s => AddParity id (Z.of_nat n) (Z.of_nat k) m s t
  | None, None => pureStep (fun d => d)
  end.

Fixpoint deliver_all (xs : list (nat * Z)) : act Decoder fec_event :=
  match xs with
  | [] => pureStep (fun d => d)
  | (n, t) :: xs => deliver n t ;; deliver_all xs
  end.

Lemma holds_insert g ns n s k' m' len' t' :
  holds g ns -> n ∉ ns -> raw !! n = Some s ->
  ((k' = 0 /\ Forall (fun n => n < k)%nat (ns ++ [n])) \/
   (k' = Z.of_nat k /\ m' = m /\ len' = L /\ Exists (fun n => k <= n)%nat (ns ++ [n]))) ->
  holds (mkDgroup (<[Z.of_nat n := s]> (g_shards g)) k' m' len' t' (g_done g)) (ns ++ [n]).
Proof.
  intros Hh Hn Hs Hgeom. constructor; cbn [g_shards g_k g_m shardLen g_done]; [..|done].
  - intros j Hj. apply elem_of_app in Hj as [Hj|Hj%list_elem_of_singleton].
    + destruct (h_in _ _ Hh _ Hj) as (s' & Hr & Hs'). exists s'.
      rewrite lookup_insert_ne; [done|]. intros E%Nat2Z.inj. by subst j.
    + subst j. exists s. by rewrite lookup_insert_eq.
  - intros i s' [[<- <-]|[Hne Hi]]%lookup_insert_Some.
    { exists n. split; [done|]. apply elem_of_app. right. by apply list_elem_of_singleton. }
    destruct (h_only _ _ Hh _ _ Hi) as (j & -> & Hj). exists j. split; [done|].
    apply elem_of_app. by left.
  - apply list.NoDup_app. split_and!; [apply Hh| |apply NoDup_singleton].
    intros x Hx ->%list_elem_of_singleton. done.
  - apply Hh.
Qed.

Lemma filter_length_lt {A} (P : A -> Prop) `{forall x, Decision (P x)} (l : list A) x :
  x ∈ l -> ~ P x -> (length (filter P l) < length l)%nat.
Proof.
  intros Hx HP. induction l as [|y l IH]; [set_solver|]. rewrite filter_cons.
  pose proof (length_filter P l). apply elem_of_cons in Hx as [->|Hx].
  - rewrite decide_False by done. cbn. lia.
  - specialize (IH Hx). case_decide; cbn; lia.
Qed.

Lemma k_pos : (0 < k)%nat.
Proof.
  destruct (Nat.eq_dec k 0) as [E|]; [|lia]. destruct (cg_some CG). by apply length_zero_iff_nil.
Qed.

Lemma try_waits g ns d :
  holds g ns -> (length ns < k)%nat -> tryReconstructLocked id g d = (d, []).
Proof.
  intros Hh Hlt. unfold tryReconstructLocked. destruct (Z.eqb_spec (g_k g) 0) as [|Hk]; [done|].
  destruct (h_geom _ _ Hh) as [[? _]|(Ek & _)]; [done|]. pose proof (holds_size _ _ Hh) as Hsz.
  assert (Hd : (dataHave g <= length ns)%nat).
  { unfold dataHave. etrans; [apply length_filter|]. by rewrite length_fmap, length_map_to_list, Hsz. }
  destruct (Z.leb_spec (g_k g) (Z.of_nat (dataHave g))); [lia|].
  destruct (Z.ltb_spec (Z.of_nat (size (g_shards g))) (g_k g)); [done|lia].
Qed.

Lemma try_repairs g ns d :
  holds g ns -> length ns = k -> Exists (fun n => k <= n)%nat ns ->
  tryReconstructLocked id g d =
  (mkDecoder (delete id (groups d)) (adds d) (u64 (dRecovered d + Z.of_nat (length (missing ns)))),
   (fun p => Recovered p.1 p.2) <$> missing ns).
Proof.
  intros Hh Hlen Hex. pose proof (holds_size _ _ Hh) as Hsz.
  assert (Hgk : g_k g = Z.of_nat k).
  { destruct (h_geom _ _ Hh) as [[_ Hall]|(Ek & _)]; [|done].
    apply Exists_exists in Hex as (n & Hn & Hge). rewrite List.Forall_forall in Hall.
    specialize (Hall n Hn). lia. }
  pose proof k_pos as Hk0.
  assert (Hd : (dataHave g < k)%nat).
  { rewrite <- Hlen, <- Hsz, <- length_map_to_list, <- (length_fmap fst). unfold dataHave.
    apply Exists_exists in Hex as (n & Hn & Hge). apply list_elem_of_In in Hn.
    apply (filter_length_lt _ _ (Z.of_nat n)); [|lia].
    destruct (h_in _ _ Hh _ Hn) as (s & _ & Hs).
    apply list_elem_of_fmap. exists (Z.of_nat n, s). by rewrite elem_of_map_to_list. }
  unfold tryReconstructLocked.
  destruct (Z.eqb_spec (g_k g) 0); [lia|].
  destruct (Z.leb_spec (g_k g) (Z.of_nat (dataHave g))); [lia|].
  destruct (Z.ltb_spec (Z.of_nat (size (g_shards g))) (g_k g)); [lia|].
  rewrite (reconstruct_all g ns) by (done || lia).
  destruct (h_geom _ _ Hh) as [[? _]|(_ & Em & _)]; [lia|].
  assert (rs_new (g_k g) (g_m g) = true) as -> by (rewrite Hgk, Em; apply CG). cbv beta iota zeta.
  by rewrite (repaired_missing g ns) by (done || lia).
Qed.

(** ** Tracking the group through its arrivals *)

Context (t0 : Z).

Definition in_window (t : Z) : Prop := t0 <= t <= t0 + groupExpiry.

Definition tracks (d : Decoder) (ns : list nat) : Prop :=
  match ns with
  | [] => groups d !! id = None
  | _ => exists g, groups d !! id = Some g /\ holds g ns /\ in_window (touched g)
  end.

Lemma holds_touch g ns t : holds g ns -> holds (touch t g) ns.
Proof. intros []. by constructor. Qed.

Lemma holds_fresh t : holds (mkDgroup ∅ 0 0 0 t false) [].
Proof.
  clear CG. constructor; cbn; [set_solver|set_solver|constructor|done|]. left. split; [done|constructor].
Qed.

Lemma group_tracks d ns t :
  tracks d ns -> in_window t ->
  let r := group id t (maybeSweepLocked t d) in
  holds r.2 ns /\ touched r.2 = t /\ groups r.1 !! id = Some r.2.
Proof.
  intros Ht Hw r.
  assert (Hs : match ns with [] => groups (maybeSweepLocked t d) !! id = None
    | _ => exists g, groups (maybeSweepLocked t d) !! id = Some g /\ holds g ns end).
  { unfold tracks in Ht. destruct ns as [|n ns].
    - destruct (groups (maybeSweepLocked t d) !! id) as [g|] eqn:Hg; [|done].
      eapply lookup_weaken in Hg; [|apply maybeSweep_groups]. congruence.
    - destruct Ht as (g & Hg & Hh & Hw'). exists g. split; [|done].
      unfold maybeSweepLocked. cbn [adds]. destruct (_ =? 0); [|done].
      apply sweep_loop_keeps; [done|]. unfold in_window in *. lia. }
  unfold r, group. destruct ns as [|n ns].
  - rewrite Hs. cbn [fst snd groups with_groups]. rewrite lookup_insert_eq.
    split_and!; [apply holds_fresh|done|done].
  - destruct Hs as (g & -> & Hh). cbn [fst snd groups with_groups]. rewrite lookup_insert_eq.
    split_and!; [by apply holds_touch|done|done].
Qed.

(** What one arrival does to a group that holds the shards [ns]. *)
Definition shown (d : Decoder) (t : Z) : Decoder * dgroup := group id t (maybeSweepLocked t d).

(** A new shard was stored in group [g] of [d1], and nothing else changed. *)
Definition stored (d : Decoder) (t : Z) (ns : list nat) (r : Decoder * list fec_event) : Prop :=
  exists g d1, holds g ns /\ touched g = touched (shown d t).2 /\ groups d1 !! id = Some g /\
    (forall j, j <> id -> groups d1 !! j = groups (shown d t).1 !! j) /\
    r = tryReconstructLocked id g d1.

Lemma holds_not_in g ns n : holds g ns -> bool_decide (is_Some (g_shards g !! Z.of_nat n)) = bool_decide (n ∈ ns).
Proof.
  intros Hh. apply bool_decide_ext. split.
  - intros [s Hs]. by destruct (h_only _ _ Hh _ _ Hs) as (j & ->%Nat2Z.inj & Hj).
  - intros Hn. destruct (h_in _ _ Hh _ Hn) as (s & _ & Hs). by exists s.
Qed.

Lemma raw_data n p : pkts !! n = Some p -> raw !! n = Some (shard_of p) /\ (n < k)%nat.
Proof.
  intros Hp. assert (n < k)%nat by by eapply lookup_lt_Some. split; [|done]. unfold raw.
  rewrite lookup_app_l by (by rewrite length_fmap). by rewrite list_lookup_fmap, Hp.
Qed.

Lemma raw_parity n s : (k <= n)%nat -> parity !! (n - k)%nat = Some s -> raw !! n = Some s.
Proof. intros Hn Hs. unfold raw. rewrite lookup_app_r; rewrite length_fmap; done. Qed.

Lemma AddData_holds d ns n t p :
  holds (shown d t).2 ns -> n ∉ ns -> pkts !! n = Some p ->
  stored d t (ns ++ [n]) (AddData id (Z.of_nat n) p.1 p.2 t d).
Proof.
  intros Hh Hn Hp. destruct (raw_data n p Hp) as [Hr Hlt]. pose proof (holds_not_in _ _ n Hh) as Hnot.
  rewrite (bool_decide_false (n ∈ ns)) in Hnot by done. unfold stored, AddData. fold (shown d t).
  destruct (shown d t) as [d1 g]. cbn [fst snd] in *. rewrite (h_done _ _ Hh), Hnot. unfold storeShard.
  exists (mkDgroup (<[Z.of_nat n := shard_of p]> (g_shards g)) (g_k g) (g_m g) (shardLen g) (touched g) (g_done g)).
  eexists. split_and!; [|done| | |reflexivity]; cbn [groups with_groups];
    [|apply lookup_insert_eq|intros j Hj; by rewrite lookup_insert_ne].
  apply holds_insert; [done|done|done|].
  destruct (h_geom _ _ Hh) as [[Ek Hf]|(Ek & Em & EL & Hex)]; [left|right].
  - split; [done|]. apply Forall_app_2; [done|]. apply List.Forall_cons; [done|apply List.Forall_nil].
  - split_and!; [done..|]. apply Exists_app. by left.
Qed.

Lemma AddParity_holds d ns n t s :
  holds (shown d t).2 ns -> n ∉ ns -> (k <= n)%nat -> parity !! (n - k)%nat = Some s ->
  stored d t (ns ++ [n]) (AddParity id (Z.of_nat n) (Z.of_nat k) m s t d).
Proof.
  intros Hh Hn Hge Hs. pose proof (raw_parity n s Hge Hs) as Hr. pose proof (holds_not_in _ _ n Hh) as Hnot.
  rewrite (bool_decide_false (n ∈ ns)) in Hnot by done. pose proof k_pos as Hk0.
  unfold stored, AddParity. fold (shown d t). destruct (shown d t) as [d1 g]. cbn [fst snd] in *.
  rewrite (h_done _ _ Hh). cbn [orb]. destruct (Z.eqb_spec (Z.of_nat k) 0); [lia|].
  cbn [g_shards]. rewrite Hnot. unfold storeShard. cbn [g_shards g_k g_m shardLen touched g_done].
  exists (mkDgroup (<[Z.of_nat n := s]> (g_shards g)) (Z.of_nat k) m (length s) (touched g) (g_done g)).
  eexists. rewrite (h_done _ _ Hh).
  split_and!; [|done| | |reflexivity]; cbn [groups with_groups];
    [|apply lookup_insert_eq|intros j Hj; by rewrite !lookup_insert_ne].
  rewrite <- (h_done _ _ Hh). apply holds_insert; [done|done|done|]. right. split_and!; [done|done| |].
  - destruct parity_len as [_ Hf]. rewrite Forall_lookup in Hf. by apply (Hf (n - k)%nat).
  - apply Exists_app. right. by constructor.
Qed.

Lemma deliver_step d ns n t :
  tracks d ns -> in_window t -> n ∉ ns -> (n < length raw)%nat ->
  exists g d1, holds g (ns ++ [n]) /\ touched g = t /\ groups d1 !! id = Some g /\
    deliver n t d = tryReconstructLocked id g d1.
Proof.
  intros Ht Hw Hn Hlt. destruct (group_tracks d ns t Ht Hw) as (Hh & Hto & _). fold (shown d t) in Hh, Hto.
  assert (Hst : stored d t (ns ++ [n]) (deliver n t d)).
  { unfold deliver. destruct (pkts !! n) as [p|] eqn:Hp; [by apply AddData_holds|].
    apply lookup_ge_None in Hp. destruct (lookup_lt_is_Some_2 parity (n - k)%nat) as [s Hs].
    { unfold raw in Hlt. rewrite length_app, length_fmap in Hlt. unfold k in *. lia. }
    rewrite Hs. by apply AddParity_holds. }
  destruct Hst as (g & d1 & Hg & Htg & Hgl & _ & E). exists g, d1. split_and!; [done|congruence|done|done].
Qed.

Lemma deliver_all_repairs xs : forall d ns,
  tracks d ns -> NoDup (ns ++ xs.*1) -> Forall (fun x => in_window x.2 /\ (x.1 < length raw)%nat) xs ->
  length (ns ++ xs.*1) = k -> xs <> [] -> Exists (fun n => k <= n)%nat (ns ++ xs.*1) ->
  (deliver_all xs d).2 = (fun p => Recovered p.1 p.2) <$> missing (ns ++ xs.*1) /\
  groups (deliver_all xs d).1 !! id = None.
Proof.
  induction xs as [|[n t] xs IH]; intros d ns Ht Hnd Hf Hlen Hne Hex; [done|].
  apply Forall_cons_iff in Hf as [[Hw Hn] Hf]. cbn in Hw, Hn.
  assert (Hnin : n ∉ ns).
  { apply list.NoDup_app in Hnd as (_ & Hdisj & _). intros Hin. apply (Hdisj n Hin). apply elem_of_cons. by left. }
  destruct (deliver_step d ns n t Ht Hw Hnin Hn) as (g & d1 & Hh & Hto & Hg1 & E).
  replace (ns ++ ((n, t) :: xs).*1) with ((ns ++ [n]) ++ xs.*1) in * by (cbn; by rewrite <- app_assoc).
  cbn [deliver_all]. rewrite andThen_eq, E. cbn [fst snd].
  destruct xs as [|x xs].
  - cbn [fmap list_fmap] in *. rewrite app_nil_r in *. rewrite (try_repairs g (ns ++ [n]) d1 Hh) by done.
    cbn [deliver_all pureStep fst snd groups]. rewrite app_nil_r. split; [done|apply lookup_delete_eq].
  - rewrite (try_waits g (ns ++ [n]) d1 Hh) by (rewrite length_app in Hlen; cbn in Hlen; lia).
    cbn [fst snd app]. apply IH; try done.
    unfold tracks. destruct (ns ++ [n]) eqn:En; [by destruct ns|].
    exists g. split_and!; [done|done|by rewrite Hto].
Qed.

End Recover.

(** ** The encoder, and both ends together *)

(** A datagram of the protected stream: a stamped packet or a parity shard. *)
Inductive datagram :=
  | DataPkt (group index : Z) (p : Z * list Z)
  | ParityPkt (group index k m : Z) (shard : list Z).

Section EndToEnd.
Context {C : ReedSolomon} {CL : ReedSolomonLaws C} {O : MapOrder}.

(** What the sender puts on the wire for one packet: the packet itself, with
    its stamp, then whatever parity closing the group emitted. *)
Definition sent_data (stamp : option (Z * Z)) (p : Z * list Z) : list datagram :=
  match stamp with Some (g, i) => [DataPkt g i p] | None => [] end.

Definition sent_parity (evs : list fec_event) : list datagram :=
  omap (fun ev => match ev with EmitParity g i k m s => Some (ParityPkt g i k m s) | _ => None end) evs.

Fixpoint send_all (xs : list ((Z * list Z) * Z)) (e : Encoder) : Encoder * list datagram :=
  match xs with
  | [] => (e, [])
  | (p, now) :: xs =>
      let '(e, evs, stamp) := Add p.1 p.2 now e in
      let '(e, rest) := send_all xs e in
      (e, sent_data stamp p ++ sent_parity evs ++ rest)
  end.

Definition receive_one (g : datagram) (t : Z) : act Decoder fec_event :=
  match g with
  | DataPkt id i p => AddData id i p.1 p.2 t
  | ParityPkt id i k m s => AddParity id i k m s t
  end.

(** The datagrams numbered [ns] arrive, in that order, at the given times. *)
Fixpoint receive_all (sent : list datagram) (xs : list (nat * Z)) : act Decoder fec_event :=
  match xs with
  | [] => pureStep (fun d => d)
  | (n, t) :: xs =>
      match sent !! n with Some g => receive_one g t | None => pureStep (fun d => d) end
      ;; receive_all sent xs
  end.

Lemma group_len_snoc pkts p : group_len (pkts ++ [p]) = grow (group_len pkts) p.
Proof. unfold group_len. by rewrite foldl_app. Qed.

(** The state of an open group after the packets [pre]. *)
Record open_group (K M gid : Z) (pre : list (Z * list Z)) (e : Encoder) : Prop := {
  og_params : e_params e = mkParams K M;
  og_shards : e_shards e = shard_of <$> pre;
  og_len : maxLen e = group_len pre;
  og_gid : groupID e = gid;
  og_m : e_m e = M;
}.

Lemma Add_open K M gid pre e p now :
  pre <> [] -> open_group K M gid pre e ->
  let e1 := pushShard p.1 p.2 e in
  open_group K M gid (pre ++ [p]) e1 /\
  Add p.1 p.2 now e =
    (if K <=? Z.of_nat (length pre + 1) then
       let '(e', evs) := closeLocked e1 in (e', evs, Some (gid, u8 (Z.of_nat (length pre))))
     else (e1, [], Some (gid, u8 (Z.of_nat (length pre))))).
Proof.
  intros Hne [Hp Hs Hl Hg Hm] e1. split.
  - constructor; cbn; [done| |by rewrite Hl, group_len_snoc|done|done]. by rewrite Hs, fmap_app.
  - assert (Hne' : e_shards e <> []) by (rewrite Hs; by destruct pre).
    unfold Add. rewrite bool_decide_false by done. cbn [andb]. rewrite decide_False by done.
    fold e1. assert (Hlen : length (e_shards e1) = (length pre + 1)%nat).
    { unfold e1. cbn. rewrite Hs, length_app, length_fmap. done. }
    change (e_params e1) with (e_params e). rewrite Hlen, Hp. cbn [pK].
    change (groupID e1) with (groupID e). rewrite Hg.
    replace (Z.of_nat (length pre + 1) - 1) with (Z.of_nat (length pre)) by lia. done.
Qed.

Lemma Add_first K M e p now :
  e_shards e = [] -> e_params e = mkParams K M -> K <> 0 ->
  let gid := Z.land (nextGroup e) 0xffffff in
  let e1 := pushShard p.1 p.2 (openGroup now e) in
  open_group K M gid [p] e1 /\
  Add p.1 p.2 now e =
    (if K <=? 1 then let '(e', evs) := closeLocked e1 in (e', evs, Some (gid, 0))
     else (e1, [], Some (gid, 0))).
Proof.
  intros Hs Hp HK gid e1. split.
  - constructor; cbn; [done|by rewrite Hs|done|done|by rewrite Hp].
  - unfold Add. rewrite Hs, Hp. cbn [pK]. rewrite (proj2 (Z.eqb_neq _ _) HK), andb_false_r.
    rewrite decide_True by done. fold e1.
    change (e_params e1) with (e_params e). rewrite Hp. cbn [pK].
    unfold e1 at 1 2 3. cbn -[closeLocked]. by rewrite Hs.
Qed.

(** Closing a full group emits the codec's parity. *)
Lemma close_open K M gid pkts e :
  open_group K M gid pkts e -> pkts <> [] -> M <> 0 -> Z.of_nat (length pkts) = K ->
  rs_new K M = true -> K + M <= 256 -> Forall wf_packet pkts ->
  exists parity e', closed_group pkts M parity /\
    closeLocked e = (e', emissions gid K M parity) /\ e_shards e' = [] /\ e_params e' = mkParams K M.
Proof.
  intros [Hp Hs Hl Hg Hm] Hne HM HK Hnew Hfew Hwf.
  assert (Hdata : pad (maxLen e) <$> e_shards e = data_shards pkts) by (by rewrite Hs, Hl).
  destruct (rs_encode_ok K M (data_shards pkts) (group_len pkts)) as (parity & He & _).
  - done.
  - done.
  - unfold data_shards. by rewrite !length_fmap.
  - pose proof (group_len_max pkts) as Hf. destruct pkts as [|p ps]; [done|].
    apply Forall_inv in Hf. rewrite length_shard in Hf. unfold shardHeader in Hf. lia.
  - unfold data_shards. do 2 apply Forall_fmap. eapply Forall_impl; [|apply group_len_max].
    intros p Hpl. cbn. by apply pad_split.
  - exists parity. assert (Hlen : Z.of_nat (length (e_shards e)) = K) by (by rewrite Hs, length_fmap).
    unfold closeLocked. rewrite Hlen, Hm, Hdata, Hnew, He, Hg.
    rewrite (proj2 (Z.eqb_neq M 0) HM).
    assert (K <> 0) as HK0 by (destruct pkts; [done|cbn in HK; lia]).
    rewrite (proj2 (Z.eqb_neq K 0) HK0). cbn [orb]. eexists. split_and!; [|reflexivity|done|done].
    constructor; [done|done|by rewrite HK|by rewrite HK|by rewrite HK].
Qed.

(** The datagrams of a whole group. *)
Definition group_datagrams (gid K M : Z) (pkts : list (Z * list Z)) (parity : list (list Z))
    : list datagram :=
  imap (fun i p => DataPkt gid (u8 (Z.of_nat i)) p) pkts
  ++ sent_parity (emissions gid K M parity).

Lemma send_open K M gid xs : forall pre e,
  pre <> [] -> open_group K M gid pre e -> M <> 0 ->
  Z.of_nat (length (pre ++ xs.*1)) = K -> xs <> [] ->
  rs_new K M = true -> K + M <= 256 -> Forall wf_packet (pre ++ xs.*1) ->
  exists parity e', closed_group (pre ++ xs.*1) M parity /\
    send_all xs e = (e', imap (fun i p => DataPkt gid (u8 (Z.of_nat (length pre + i))) p) xs.*1
                         ++ sent_parity (emissions gid K M parity)).
Proof.
  induction xs as [|[p now] xs IH]; intros pre e Hne Hog HM HK Hxs Hnew Hfew Hwf; [done|]. clear Hxs.
  destruct (Add_open K M gid pre e p now Hne Hog) as [Hog1 HAdd].
  cbn [send_all]. rewrite HAdd.
  replace (pre ++ ((p, now) :: xs).*1) with ((pre ++ [p]) ++ xs.*1) in * by (cbn; by rewrite <- app_assoc).
  rewrite !length_app in HK. cbn [length] in HK.
  destruct xs as [|x xs].
  - cbn in HK. destruct (Z.leb_spec K (Z.of_nat (length pre + 1))); [|lia].
    cbn [fmap list_fmap] in *. rewrite app_nil_r in *.
    destruct (close_open K M gid (pre ++ [p]) _ Hog1) as (parity & e' & Hcg & -> & _);
      [by destruct pre|done|rewrite length_app; cbn; lia|done|done|done|].
    exists parity, e'. split; [done|]. cbn. rewrite Nat.add_0_r, app_nil_r. done.
  - cbn [fmap list_fmap length] in HK. destruct (Z.leb_spec K (Z.of_nat (length pre + 1))); [lia|].
    destruct (IH (pre ++ [p]) _ ltac:(by destruct pre) Hog1 HM) as (parity & e' & Hcg & E);
      [rewrite !length_app; cbn [length fmap list_fmap]; lia|done|done|done|done|].
    exists parity, e'. split; [done|]. rewrite E. change (((p, now) :: x :: xs).*1) with (p :: (x :: xs).*1).
    rewrite imap_cons, Nat.add_0_r.
    assert (Hi : imap (fun i q => DataPkt gid (u8 (Z.of_nat (length (pre ++ [p]) + i))) q) (x :: xs).*1
      = imap ((fun i q => DataPkt gid (u8 (Z.of_nat (length pre + i))) q) ∘ S) (x :: xs).*1); [|by rewrite Hi].
    apply imap_ext. intros i q _. cbn. rewrite length_app. cbn. do 3 f_equal. lia.
Qed.

Lemma send_group K M xs e :
  e_shards e = [] -> e_params e = mkParams K M -> M <> 0 -> xs <> [] ->
  Z.of_nat (length xs) = K -> rs_new K M = true -> K + M <= 256 -> Forall wf_packet xs.*1 ->
  exists parity e', closed_group xs.*1 M parity /\
    send_all xs e = (e', group_datagrams (Z.land (nextGroup e) 0xffffff) K M xs.*1 parity).
Proof.
  intros Hs Hp HM Hne HK Hnew Hfew Hwf. destruct xs as [|[p now] xs]; [done|]. clear Hne.
  destruct (Add_first K M e p now Hs Hp) as [Hog HAdd]; [cbn in HK; lia|].
  cbn [send_all]. rewrite HAdd. set (gid := Z.land _ _) in *. cbn [length] in HK.
  destruct xs as [|x xs].
  - cbn [length] in HK. destruct (Z.leb_spec K 1); [|lia].
    destruct (close_open K M gid [p] _ Hog) as (parity & e' & Hcg & -> & _); [done|done|cbn; lia|done|done|done|].
    exists parity, e'. split; [done|]. cbn. by rewrite app_nil_r.
  - cbn [length] in HK. destruct (Z.leb_spec K 1); [lia|].
    destruct (send_open K M gid (x :: xs) [p] _ ltac:(done) Hog HM) as (parity & e' & Hcg & E);
      [cbn; rewrite length_fmap; lia|done|done|done|done|].
    exists parity, e'. split; [done|]. rewrite E. done.
Qed.

Lemma omap_imap {A B D} (h : B -> option D) (l : list A) :
  forall (f : nat -> A -> B) (g : nat -> A -> D), (forall i x, h (f i x) = Some (g i x)) ->
  omap h (imap f l) = imap g l.
Proof.
  induction l as [|x l IH]; intros f g Hfg; [done|]. rewrite !imap_cons. cbn [omap list_omap].
  rewrite Hfg. f_equal. apply IH. intros i y. apply Hfg.
Qed.

(** The numbered datagrams are the arrivals of [deliver]. *)
Lemma receive_deliver gid K M pkts parity n t :
  Z.of_nat (length pkts) = K -> Z.of_nat (length parity) = M -> K + M <= 255 ->
  match group_datagrams gid K M pkts parity !! n with
  | Some g => receive_one g t
  | None => pureStep (fun d => d)
  end = deliver pkts M parity gid n t.
Proof.
  intros HK HM H255. unfold deliver, group_datagrams.
  destruct (pkts !! n) as [p|] eqn:Hp.
  - pose proof (lookup_lt_Some _ _ _ Hp) as Hlt.
    rewrite lookup_app_l by (by rewrite length_imap). rewrite list_lookup_imap, Hp. cbn.
    by rewrite u8_id by mlia.
  - apply lookup_ge_None in Hp. rewrite lookup_app_r by (by rewrite length_imap). rewrite length_imap.
    assert (Hpar : sent_parity (emissions gid K M parity)
      = imap (fun i s => ParityPkt gid (u8 (K + Z.of_nat i)) (u8 K) (u8 M) s) parity).
    { by apply omap_imap. }
    rewrite Hpar, list_lookup_imap. destruct (parity !! (n - length pkts)%nat) as [s|] eqn:Hs; [|done].
    pose proof (lookup_lt_Some _ _ _ Hs) as Hlt. cbn. rewrite !u8_id by mlia.
    rewrite <- HK. f_equal; lia.
Qed.

Lemma receive_deliver_all gid K M pkts parity xs : forall d,
  Z.of_nat (length pkts) = K -> Z.of_nat (length parity) = M -> K + M <= 255 ->
  receive_all (group_datagrams gid K M pkts parity) xs d = deliver_all pkts M parity gid xs d.
Proof.
  induction xs as [|[n t] xs IH]; intros d HK HM H255; [done|]. cbn [receive_all deliver_all].
  rewrite (receive_deliver gid K M pkts parity n t) by done. unfold andThen.
  destruct (deliver _ _ _ _ _ _ d) as [d1 e1]. by rewrite IH.
Qed.

(** C7: Loss repair, end to end: [K] packets go through an encoder set to
    [K : M], which stamps them and emits [M] parity shards; the receiver gets
    any [K] of the [K + M] datagrams, in any order, within a second, at
    least one of them parity. When the last of them arrives it hands over
    exactly the packets whose datagrams are missing, with their sequence
    numbers and contents, and drops the group. *)
Theorem fec_repairs K M xs e d arrivals t0 :
  e_shards e = [] -> e_params e = mkParams K M -> rs_new K M = true -> 0 < M -> K + M <= 255 ->
  xs <> [] -> Z.of_nat (length xs) = K -> Forall wf_packet xs.*1 ->
  let gid := Z.land (nextGroup e) 0xffffff in
  groups d !! gid = None ->
  NoDup arrivals.*1 -> Z.of_nat (length arrivals) = K ->
  Forall (fun x => in_window t0 x.2 /\ Z.of_nat x.1 < K + M) arrivals ->
  Exists (fun n => K <= Z.of_nat n) arrivals.*1 ->
  let r := receive_all (send_all xs e).2 arrivals d in
  r.2 = (fun p => Recovered p.1 p.2) <$> missing xs.*1 arrivals.*1 /\ groups r.1 !! gid = None.
Proof.
  intros Hs Hp Hnew HM H255 Hne HK Hwf gid Hg Hnd HA Hwin Hex.
  destruct (send_group K M xs e Hs Hp) as (parity & e' & Hcg & ->); [lia|done|done|done|lia|done|].
  assert (HK' : Z.of_nat (length xs.*1) = K) by (by rewrite length_fmap).
  destruct (parity_len xs.*1 M parity Hcg) as [Hpl _]. cbn [snd].
  rewrite receive_deliver_all by done. fold gid.
  pose proof (length_raw xs.*1 M parity Hcg) as Hraw.
  apply (deliver_all_repairs xs.*1 M parity Hcg gid t0 arrivals d []).
  - exact Hg.
  - exact Hnd.
  - eapply Forall_impl; [|exact Hwin]. intros [n t] [Hw Hn]. cbn in *. split; [done|]. rewrite Hraw. lia.
  - cbn. rewrite !length_fmap. lia.
  - intros ->. destruct xs; [done|]. cbn in HA, HK. lia.
  - cbn. eapply Exists_impl; [|exact Hex]. cbn. intros n Hn. lia.
Qed.

End EndToEnd.

(** ** A codec: single parity *)

Definition lxors (a b : list Z) : list Z := zip_with Z.lxor a b.
Definition xor_all (L : nat) (l : list (list Z)) : list Z := foldr lxors (replicate L 0) l.

#[global] Instance xor_codec : ReedSolomon := {
  rs_new k m := (1 <=? k) && (m =? 1);
  rs_encode k m data :=
    match data with [] => None | s :: _ => Some [xor_all (length s) data] end;
  rs_reconstruct k m all :=
    let have := filter (fun s => s <> []) all in
    let L := match have with [] => 0%nat | s :: _ => length s end in
    Some ((fun s => if decide (s = []) then xor_all L have else s) <$> take (Z.to_nat k) all);
}.

Lemma lxors_comm3 a b c : lxors a (lxors b c) = lxors b (lxors a c).
Proof.
  unfold lxors. revert b c. induction a as [|x a IH]; intros [|y b] [|z c]; cbn; try done.
  f_equal; [|apply IH]. by rewrite <- !Z.lxor_assoc, (Z.lxor_comm x y).
Qed.

Lemma xor_all_perm L l l' : l ≡ₚ l' -> xor_all L l = xor_all L l'.
Proof.
  induction 1 as [|x l l' _ IH|x y l|l1 l2 l3 _ IH1 _ IH2];
    [done| |apply lxors_comm3|congruence].
  change (lxors x (xor_all L l) = lxors x (xor_all L l')). by rewrite IH.
Qed.

Lemma length_xor_all L l : Forall (fun s => length s = L) l -> length (xor_all L l) = L.
Proof.
  induction 1 as [|s l Hs _ IH]; [apply length_replicate|].
  change (xor_all L (s :: l)) with (lxors s (xor_all L l)). unfold lxors. rewrite length_zip_with, Hs, IH. lia.
Qed.

Lemma lxors_cancel x r : length x = length r -> lxors (lxors x r) r = x.
Proof.
  unfold lxors. revert r. induction x as [|a x IH]; intros [|b r] Hl; try done. cbn. f_equal.
  - by rewrite Z.lxor_assoc, Z.lxor_nilpotent, Z.lxor_0_r.
  - apply IH. by injection Hl.
Qed.

(** With at most one shard lost, the received list is the code, or the code
    with one entry emptied. *)
Lemma erased_one code : forall all, Forall (fun s => s <> []) code -> erased code all ->
  (length code <= S (survivors all))%nat ->
  (length code <= survivors all /\ all = code)%nat \/
  exists pre x post, code = pre ++ x :: post /\ all = pre ++ [] :: post.
Proof.
  unfold survivors. induction code as [|x code IH]; intros [|y all] Hne [Hl He] Hs; try done;
    [left; split; [cbn; lia|done]|].
  apply Forall_cons_iff in Hne as [Hx Hne].
  assert (He' : erased code all) by (split; [by injection Hl|intros i; apply (He (S i))]).
  rewrite filter_cons in Hs |- *. destruct (decide (y <> [])) as [Hy|Hy].
  - assert (Exy : Some x = Some y) by (apply (He 0%nat y); done). injection Exy as <-.
    cbn [length] in Hs. destruct (IH all Hne He' ltac:(lia)) as [[Hle ->]|(pre & z & post & -> & ->)].
    + left. cbn [length]. split; [lia|done].
    + right. by exists (x :: pre), z, post.
  - right. assert (y = []) as -> by (destruct (decide (y = [])); [done|by destruct Hy]).
    exists [], x, code. split; [done|]. cbn [app]. f_equal.
    cbn [length] in Hs. pose proof (length_filter (fun s : list Z => s <> []) all) as Hf.
    injection Hl as Hl. destruct (IH all Hne He' ltac:(lia)) as [[_ ->]|(pre & z & post & Ec & Ea)]; [done|].
    exfalso. rewrite Ea in Hs. rewrite list.filter_app, filter_cons in Hs.
    rewrite (decide_False (P := [] <> [])) in Hs by auto.
    rewrite Ec, !length_app in Hs. cbn [length] in Hs.
    pose proof (length_filter (fun s : list Z => s <> []) pre).
    pose proof (length_filter (fun s : list Z => s <> []) post). lia.
Qed.

Lemma fmap_full (f : list Z) l : Forall (fun s => s <> []) l ->
  (fun s => if decide (s = []) then f else s) <$> l = l.
Proof. induction 1 as [|s l Hs _ IH]; [done|]. rewrite fmap_cons, decide_False by done. by rewrite IH. Qed.

Lemma xor_mds data p all L : (0 < L)%nat -> Forall (fun s => length s = L) data -> data <> [] ->
  p = xor_all L data -> erased (data ++ [p]) all -> (length data <= survivors all)%nat ->
  rs_reconstruct (Z.of_nat (length data)) 1 all = Some data.
Proof.
  intros HL Hf Hne Hp He Hs.
  assert (Hfull : Forall (fun s => length s = L) (data ++ [p])).
  { apply Forall_app_2; [done|]. apply List.Forall_cons; [|apply List.Forall_nil].
    subst p. by apply length_xor_all. }
  assert (Hnon : forall l, Forall (fun s : list Z => length s = L) l -> Forall (fun s => s <> []) l).
  { intros l Hl. eapply Forall_impl; [|exact Hl]. intros s Hs' ->. cbn in Hs'. lia. }
  cbn [rs_reconstruct xor_codec]. rewrite Nat2Z.id. f_equal.
  destruct (erased_one (data ++ [p]) all (Hnon _ Hfull) He) as [[_ ->]|(pre & x & post & Ec & ->)].
  { rewrite length_app. cbn. lia. }
  { rewrite take_app_length. by apply fmap_full, Hnon. }
  rewrite Ec in Hfull. apply Forall_app in Hfull as [Hpre Hxp].
  apply Forall_cons_iff in Hxp as [Hx Hpost].
  destruct post as [|q post' _] using rev_ind.
  - apply app_inj_tail in Ec as [<- _]. rewrite take_app_length. by apply fmap_full, Hnon.
  - rewrite app_comm_cons, app_assoc in Ec. apply app_inj_tail in Ec as [Ed <-].
    rewrite Ed in Hp |- *. rewrite length_app. cbn [length].
    rewrite app_comm_cons, app_assoc, take_app_le by (rewrite length_app; cbn; lia).
    rewrite take_ge by (rewrite length_app; cbn; lia).
    apply Forall_app in Hpost as [Hpost _].
    rewrite !list.filter_app, filter_cons, (decide_False (P := [] <> [])) by auto.
    assert (Hq : Forall (fun s : list Z => length s = L) [p]).
    { apply List.Forall_cons; [|apply List.Forall_nil]. subst p. apply length_xor_all. by rewrite <- Ed. }
    rewrite (filter_all _ pre), (filter_all _ post'), (filter_all _ [p]) by (by apply Hnon).
    rewrite fmap_app, fmap_cons, decide_True by done. rewrite !fmap_full by auto. do 2 f_equal.
    set (have := (pre ++ post') ++ [p]).
    assert (Hlen : match have with [] => 0%nat | s :: _ => length s end = L).
    { assert (Forall (fun s : list Z => length s = L) have) as Hh.
      { by repeat apply Forall_app_2. }
      unfold have in *. destruct ((pre ++ post') ++ [p]) eqn:E; [by destruct (pre ++ post')|].
      by apply Forall_inv in Hh. }
    rewrite Hlen. unfold have.
    rewrite (xor_all_perm L _ (p :: pre ++ post')) by (by rewrite Permutation_app_comm).
    rewrite (xor_all_perm L _ (x :: pre ++ post')) in Hp by (by rewrite Permutation_middle).
    cbn [xor_all foldr]. change (foldr lxors (replicate L 0) (pre ++ post')) with (xor_all L (pre ++ post')).
    rewrite Hp. apply lxors_cancel. rewrite Hx. symmetry. apply length_xor_all. by apply Forall_app_2.
Qed.

#[global] Instance xor_laws : ReedSolomonLaws xor_codec.
Proof.
  constructor.
  - intros k m data L [Hk Hm]%andb_prop _ Hl HL Hf. apply Z.eqb_eq in Hm as ->.
    destruct data as [|s data]; [cbn in Hl; lia|]. eexists. split_and!; [reflexivity|done|].
    pose proof (Forall_inv Hf) as Hs. cbn beta in Hs. rewrite Hs. apply List.Forall_cons; [|apply List.Forall_nil].
    by apply length_xor_all.
  - intros k m data parity all L [Hk Hm]%andb_prop _ Hl HL Hf He Her Hs.
    apply Z.eqb_eq in Hm as ->. destruct data as [|s data']; [cbn in Hl; lia|].
    cbn [rs_encode xor_codec] in He. injection He as <-.
    assert (length s = L) as Hsl by (by apply Forall_inv in Hf).
    rewrite <- Hl. apply (xor_mds (s :: data') (xor_all (length s) (s :: data')) all L);
      [done|done|done|by rewrite Hsl|done|lia].
Qed.

(** The traversal order of [map_to_list]. *)
#[global] Instance list_order : MapOrder := {| order gs := (map_to_list gs).*1; order_perm gs := Permutation_refl _ |}.

(** ** Witness: the first of two packets is lost *)

Definition demo_pkts : list ((Z * list Z) * Z) := [((7, [1; 2; 3]), 0); ((8, [4]), 1)].
Definition demo_enc : Encoder := SetParams (mkParams 2 1) NewEncoder.

Lemma fec_repairs_witness :
  (receive_all (send_all demo_pkts demo_enc).2 [(1%nat, 10); (2%nat, 20)] NewDecoder).2
  = [Recovered 7 [1; 2; 3]].
Proof.
  assert (Hw : Forall wf_packet demo_pkts.*1)
    by (repeat apply List.Forall_cons; try apply List.Forall_nil; vm_compute; repeat split; congruence).
  destruct (fec_repairs 2 1 demo_pkts demo_enc NewDecoder [(1%nat, 10); (2%nat, 20)] 0) as [E _];
    [done|done|done|lia|lia|done|done|exact Hw|done| |done| | |].
  - apply (bool_decide_unpack _). by vm_compute.
  - repeat apply List.Forall_cons; try apply List.Forall_nil; vm_compute; repeat split; congruence.
  - apply Exists_cons_tl, Exists_cons_hd. cbn. lia.
  - rewrite E. reflexivity.
Defined.

Definition demo_dec : Decoder := (dec_step (DParity 5 1 1 1 [0; 0; 0; 9; 0; 0] 3) NewDecoder).1.

Lemma fec_bounded_witness : (size (groups demo_dec) <= maxGroups)%nat.
Proof. apply (fec_bounded demo_dec), dec_more, dec_new. Defined.

(** The adaptive geometry: whatever the measured loss, FEC is off or the
    group has 1..64 data and 1..16 parity shards; more loss never means a
    smaller parity ratio [M / K]; and it is off only below 0.1% loss. *)
Theorem PickParams_monotone `{Rounding} loss loss' :
  let p := PickParams loss in let p' := PickParams loss' in
  (p = mkParams 0 0 /\ (loss < lit (1 # 1000))%Q \/ 1 <= pK p <= 64 /\ 1 <= pM p <= 16) /\
  ((loss <= loss')%Q -> (pK p' = 0 -> pK p = 0) /\ pM p * pK p' <= pM p' * pK p).
Proof.
  unfold PickParams. split.
  - destruct (Qltb_spec loss (lit (1 # 1000))); [left; auto|]. right. qcase; cbn; lia.
  - intros Hle. qcase; cbn; first [split; [done|lia]|exfalso; lra].
Qed.

(** Shards are self-describing: a packet shorter than 64 KiB is read back
    from its shard, however many padding bytes the codec put behind it. *)
Theorem shard_roundtrip p n :
  wf_packet p -> (length (shard_of p) <= n)%nat -> parseShard (pad n (shard_of p)) = Some p.
Proof. intros Hp Hn. destruct (pad_split n (shard_of p) Hn) as [-> _]. by apply parseShard_pad. Qed.

(** ** Repeated recovery *)

Section Twice.
Context {C : ReedSolomon} {CL : ReedSolomonLaws C} {O : MapOrder}.

(** A finished group is forgotten rather than marked done: after a lost
    single-packet group has been repaired from one parity shard, each further
    parity shard of the group repairs, and hands over, the same packet again
    (the resequencer behind the decoder treats the copy as a late arrival). *)
Theorem fec_repeats p M parity gid d (n1 n2 : nat) t1 t2 :
  closed_group [p] M parity -> groups d !! gid = None ->
  (1 <= n1 <= Z.to_nat M)%nat -> (1 <= n2 <= Z.to_nat M)%nat ->
  ((deliver [p] M parity gid n1 t1 ;; deliver [p] M parity gid n2 t2) d).2
  = [Recovered p.1 p.2; Recovered p.1 p.2].
Proof.
  intros Hcg Hg H1 H2. pose proof (length_raw [p] M parity Hcg) as Hraw. cbn [length] in Hraw.
  assert (Hone : forall n t d, groups d !! gid = None -> (1 <= n <= Z.to_nat M)%nat ->
    (deliver [p] M parity gid n t d).2 = [Recovered p.1 p.2] /\
    groups (deliver [p] M parity gid n t d).1 !! gid = None).
  { intros n t d' Hd Hn.
    destruct (deliver_all_repairs [p] M parity Hcg gid t [(n, t)] d' []) as [E1 E2];
      [exact Hd|apply NoDup_singleton| |done|done|by constructor; cbn; lia|].
    - apply List.Forall_cons; [|apply List.Forall_nil]. cbn [fst snd].
      split; [unfold in_window, groupExpiry, Second; lia|rewrite Hraw; lia].
    - cbn [deliver_all] in E1, E2. rewrite andThen_eq in E1, E2. cbn [fst snd pureStep] in E1, E2.
      rewrite app_nil_r in E1. split; [|done]. rewrite E1. unfold missing.
      cbn [length seq omap list_omap]. rewrite (decide_False (P := 0%nat ∈ [] ++ [(n, t)].*1)); [done|].
      cbn. rewrite list_elem_of_singleton. lia. }
  destruct (Hone n1 t1 d Hg H1) as [E1 Hg1]. destruct (Hone n2 t2 _ Hg1 H2) as [E2 _].
  by rewrite andThen_snd, E1, E2.
Qed.

End Twice.

(** A codec with two parity shards for one data shard: copies. *)
Definition copy_codec : ReedSolomon := {|
  rs_new k m := (k =? 1) && (0 <=? m);
  rs_encode k m data := match data with [s] => Some (replicate (Z.to_nat m) s) | _ => None end;
  rs_reconstruct k m all := match filter (fun s => s <> []) all with s :: _ => Some [s] | [] => None end;
|}.

Lemma copy_laws : ReedSolomonLaws copy_codec.
Proof.
  constructor.
  - intros k m data L [Hk%Z.eqb_eq Hm%Z.leb_le]%andb_prop _ Hl HL Hf. subst k.
    destruct data as [|s [|? ?]]; cbn in Hl; try lia. eexists. split_and!; [reflexivity| |].
    + rewrite length_replicate. lia.
    + apply Forall_replicate. by apply Forall_inv in Hf.
  - intros k m data parity all L [Hk%Z.eqb_eq Hm%Z.leb_le]%andb_prop _ Hl HL Hf He [Hlen Her] Hs. subst k.
    destruct data as [|s [|? ?]]; cbn in Hl; try lia. cbn in He. injection He as <-.
    cbn [rs_reconstruct copy_codec]. unfold survivors in Hs.
    destruct (filter _ all) as [|x rest] eqn:E; [cbn in Hs; lia|].
    assert (Hx : x ∈ filter (fun s : list Z => s <> []) all) by (rewrite E; by left).
    apply list_elem_of_filter in Hx as [Hxn Hx]. apply list_elem_of_lookup in Hx as [i Hi].
    specialize (Her _ _ Hi Hxn). destruct i as [|i]; cbn in Her; [by injection Her as <-|].
    apply lookup_replicate_1 in Her as [<- _]. done.
Qed.

Lemma fec_repeats_witness :
  ((deliver (C := copy_codec) [(7, [1])] 2 (replicate 2 (data_shards [(7, [1])] !!! 0%nat)) 4 1 10
    ;; deliver (C := copy_codec) [(7, [1])] 2 (replicate 2 (data_shards [(7, [1])] !!! 0%nat)) 4 2 20) NewDecoder).2
  = [Recovered 7 [1]; Recovered 7 [1]].
Proof.
  apply (fec_repeats (CL := copy_laws) (7, [1]) 2); [|done|cbn; lia|cbn; lia].
  constructor; [|done|done|by vm_compute|done].
  apply List.Forall_cons; [|apply List.Forall_nil]. vm_compute. repeat split; congruence.
Defined.
