(* ===== verification/FecSound.v ===== *)
(** * Forward error correction: soundness

    Nothing but what was sent is ever repaired: however the datagrams of an
    encoder's run are lost, reordered, repeated and interleaved across
    groups, every packet the decoder hands over is one that the encoder
    stamped. *)

From S2P Require Import Prelude Float64 Fec FecSpec.
#[local] Open Scope go_scope.

#[global] Instance fec_event_eq_dec : EqDecision fec_event.
Proof. solve_decision. Defined.

(** ** The book of groups *)

(** A group as the sender knows it: its packets, its number of parity shards
    and, once it is closed, the shards. *)
Record entry := mkEntry { en_pkts : list (Z * list Z); en_m : Z; en_parity : list (list Z) }.

Abbreviation book := (gmap Z entry).

Section Sound.
Context {C : ReedSolomon} {CL : ReedSolomonLaws C} {O : MapOrder}.

Definition en_closed (en : entry) : Prop := closed_group (en_pkts en) (en_m en) (en_parity en).
Definition en_holds (en : entry) : dgroup -> list nat -> Prop := holds (en_pkts en) (en_m en) (en_parity en).

(** A datagram that belongs to a group of the book. *)
Definition logged (b : book) (g : datagram) : Prop :=
  match g with
  | DataPkt id i p => exists en n, b !! id = Some en /\ i = Z.of_nat n /\ en_pkts en !! n = Some p
  | ParityPkt id i k m s => exists en j, b !! id = Some en /\ en_closed en /\
      k = Z.of_nat (length (en_pkts en)) /\ m = en_m en /\
      i = Z.of_nat (length (en_pkts en) + j) /\ en_parity en !! j = Some s
  end.

(** ** The decoder, fed from the book *)

Definition tracked (b : book) (id : Z) (g : dgroup) : Prop :=
  exists en ns, b !! id = Some en /\ en_holds en g ns /\ (g_k g <> 0 -> en_closed en).

Definition dec_ok (b : book) (d : Decoder) : Prop := map_Forall (tracked b) (groups d).

(** Every recovered packet is one of the book. *)
Definition from_book (b : book) (ev : fec_event) : Prop :=
  match ev with
  | Recovered seq ct => exists id en, b !! id = Some en /\ (seq, ct) ∈ en_pkts en
  | _ => True
  end.

Definition sound (b : book) (r : Decoder * list fec_event) : Prop := dec_ok b r.1 /\ Forall (from_book b) r.2.

Lemma dec_ok_sub b gs d : dec_ok b d -> gs ⊆ groups d -> dec_ok b (with_groups gs d).
Proof. intros Hd Hs id g Hg. apply Hd. by eapply lookup_weaken. Qed.

Lemma missing_in pkts ns p : p ∈ missing pkts ns -> p ∈ pkts.
Proof.
  unfold missing. intros (n & _ & Hn)%list_elem_of_omap. case_decide; [done|]. by eapply list_elem_of_lookup_2.
Qed.

(** Looking a group up keeps every other one, and gives a tracked one. *)
Lemma shown_ok b id t d en :
  dec_ok b d -> b !! id = Some en ->
  dec_ok b (shown id d t).1 /\ groups (shown id d t).1 !! id = Some (shown id d t).2 /\
  exists ns, en_holds en (shown id d t).2 ns /\ (g_k (shown id d t).2 <> 0 -> en_closed en).
Proof.
  intros Hd Hb. assert (Hd1 : dec_ok b (maybeSweepLocked t d)).
  { intros j g Hg. apply Hd. eapply lookup_weaken; [exact Hg|apply maybeSweep_groups]. }
  assert (Hins : forall g d1, dec_ok b d1 -> (exists ns, en_holds en g ns /\ (g_k g <> 0 -> en_closed en)) ->
    dec_ok b (with_groups (<[id := g]> (groups d1)) d1)).
  { intros g d1 Hd' (ns & Hh & Hc). unfold dec_ok. cbn [groups with_groups].
    apply map_Forall_insert_2; [|done]. by exists en, ns. }
  unfold shown, group. destruct (groups (maybeSweepLocked t d) !! id) as [g|] eqn:Hg; cbn [fst snd].
  - destruct (Hd1 _ _ Hg) as (en' & ns & Hb' & Hh & Hc). rewrite Hb in Hb'. injection Hb' as <-.
    assert (Hx : exists ns, en_holds en (touch t g) ns /\ (g_k (touch t g) <> 0 -> en_closed en)).
    { exists ns. split; [by apply holds_touch|done]. }
    split_and!; [by apply Hins|cbn; apply lookup_insert_eq|done].
  - assert (Hx : exists ns, en_holds en (mkDgroup ∅ 0 0 0 t false) ns /\
      (g_k (mkDgroup ∅ 0 0 0 t false) <> 0 -> en_closed en)).
    { exists []. split; [apply holds_fresh|]. cbn. intros Hk0. by destruct Hk0. }
    split_and!; [|cbn; apply lookup_insert_eq|done]. apply Hins; [|done].
    case_decide; [|done]. apply dec_ok_sub; [done|apply sweep_loop_sub].
Qed.

Lemma try_sound b id en g ns d :
  dec_ok b d -> b !! id = Some en -> en_holds en g ns -> (g_k g <> 0 -> en_closed en) ->
  sound b (tryReconstructLocked id g d).
Proof.
  intros Hd Hb Hh Hc. unfold tryReconstructLocked.
  assert (Hdel : forall d', groups d' = delete id (groups d) -> dec_ok b d').
  { intros d' E j x Hx. apply Hd. rewrite E in Hx. by apply lookup_delete_Some in Hx as [_ ?]. }
  destruct (Z.eqb_spec (g_k g) 0) as [|Hk]; [by split|]. specialize (Hc Hk).
  destruct (Z.leb_spec (g_k g) (Z.of_nat (dataHave g))); [split; [by apply Hdel|done]|].
  destruct (Z.ltb_spec (Z.of_nat (size (g_shards g))) (g_k g)); [by split|].
  destruct (rs_new _ _); [|by split].
  rewrite (reconstruct_all _ _ _ Hc g ns Hh Hk).
  2:{ destruct (h_geom _ _ _ _ _ Hh) as [[? _]|(Ek & _)]; [done|].
      rewrite (holds_size _ _ _ _ _ Hh) in *. lia. }
  rewrite (repaired_missing _ _ _ Hc g ns Hh Hk). split; [by apply Hdel|]. cbn [snd].
  apply Forall_fmap, list.Forall_forall. intros p Hp%missing_in. cbn. exists id, en. by destruct p.
Qed.

Lemma stored_sound b id t d en ns r :
  dec_ok b (shown id d t).1 -> b !! id = Some en -> stored (en_pkts en) (en_m en) (en_parity en) id d t ns r ->
  (forall g, en_holds en g ns -> g_k g <> 0 -> en_closed en) -> sound b r.
Proof.
  intros Hd Hb (g & d1 & Hh & _ & Hg & Hoth & ->) Hc. eapply try_sound; [|exact Hb|exact Hh|by apply Hc].
  intros j x Hj. destruct (decide (j = id)) as [->|Hne].
  - rewrite Hg in Hj. injection Hj as <-. exists en, ns. split_and!; [done|done|by apply Hc].
  - apply Hd. by rewrite <- Hoth.
Qed.

Lemma AddData_sound b id n p t d en :
  dec_ok b d -> b !! id = Some en -> en_pkts en !! n = Some p ->
  sound b (AddData id (Z.of_nat n) p.1 p.2 t d).
Proof.
  intros Hd Hb Hp. destruct (shown_ok b id t d en Hd Hb) as (Hd1 & _ & ns & Hh & Hc).
  destruct (decide (n ∈ ns)) as [Hin|Hin].
  - unfold AddData. fold (shown id d t). pose proof (holds_not_in _ _ _ _ _ n Hh) as Hx.
    destruct (shown id d t) as [d1 g]. cbn [fst snd] in *.
    rewrite (h_done _ _ _ _ _ Hh), Hx, bool_decide_true by done. by split.
  - pose proof (AddData_holds _ _ _ id d ns n t p Hh Hin Hp) as Hst.
    eapply stored_sound; [exact Hd1|exact Hb|exact Hst|]. intros g Hg Hk.
    (* the geometry of the group is the one it had *)
    destruct (h_geom _ _ _ _ _ Hg) as [[? _]|(_ & _ & _ & Hex)]; [done|].
    apply Hc. apply Exists_app in Hex as [Hex|Hex].
    + destruct (h_geom _ _ _ _ _ Hh) as [[_ Hall]|(-> & _)].
      * apply List.Exists_exists in Hex as (x & Hx & Hge). rewrite List.Forall_forall in Hall.
        specialize (Hall x Hx). cbn in Hge. lia.
      * destruct (raw_data (en_pkts en) (en_parity en) n p Hp). lia.
    + apply Exists_cons in Hex as [Hge|[]%Exists_nil].
      destruct (raw_data (en_pkts en) (en_parity en) n p Hp). cbn in Hge. lia.
Qed.

Lemma AddParity_sound b id j s t d en :
  dec_ok b d -> b !! id = Some en -> en_closed en -> en_parity en !! j = Some s ->
  sound b (AddParity id (Z.of_nat (length (en_pkts en) + j)) (Z.of_nat (length (en_pkts en))) (en_m en) s t d).
Proof.
  intros Hd Hb Hcl Hs. destruct (shown_ok b id t d en Hd Hb) as (Hd1 & _ & ns & Hh & _).
  set (n := (length (en_pkts en) + j)%nat). assert (Hge : (length (en_pkts en) <= n)%nat) by (unfold n; lia).
  assert (Hs' : en_parity en !! (n - length (en_pkts en))%nat = Some s)
    by (unfold n; by replace (length (en_pkts en) + j - length (en_pkts en))%nat with j by lia).
  destruct (decide (n ∈ ns)) as [Hin|Hin].
  - unfold AddParity. fold (shown id d t). pose proof (holds_not_in _ _ _ _ _ n Hh) as Hx.
    destruct (shown id d t) as [d1 g]. cbn [fst snd] in *.
    rewrite (h_done _ _ _ _ _ Hh). cbn [orb]. pose proof (k_pos _ _ _ Hcl) as Hk0.
    destruct (Z.eqb_spec (Z.of_nat (length (en_pkts en))) 0); [lia|]. cbn [g_shards].
    rewrite Hx, bool_decide_true by done. split; [|done]. unfold dec_ok. cbn [fst groups with_groups].
    apply map_Forall_insert_2; [|done]. exists en, ns. split_and!; [done| |done].
    destruct Hh as [H1 H2 H3 H4 H5]. constructor; cbn [g_shards g_done g_k g_m shardLen]; [done|done|done|done|].
    right. split_and!; [done|done| |].
    + destruct (parity_len _ _ _ Hcl) as [_ Hf]. rewrite Forall_lookup in Hf. by eapply Hf.
    + apply List.Exists_exists. exists n. split; [by apply list_elem_of_In|done].
  - pose proof (AddParity_holds _ _ _ Hcl id d ns n t s Hh Hin Hge Hs') as Hst.
    by eapply stored_sound.
Qed.

(** One arrival from the book. *)
Lemma receive_sound b g t d : dec_ok b d -> logged b g -> sound b (receive_one g t d).
Proof.
  intros Hd Hg. destruct g as [id i p|id i k m s]; cbn [logged receive_one] in *.
  - destruct Hg as (en & n & Hb & -> & Hp). by eapply AddData_sound.
  - destruct Hg as (en & j & Hb & Hcl & -> & -> & -> & Hs). by eapply AddParity_sound.
Qed.

Lemma receive_all_sound b sent xs : forall d, dec_ok b d -> Forall (logged b) sent ->
  sound b (receive_all sent xs d).
Proof.
  induction xs as [|[n t] xs IH]; intros d Hd Hs; cbn [receive_all]; [by split|].
  assert (Hone : sound b (match sent !! n with Some g => receive_one g t | None => pureStep (fun d => d) end d)).
  { destruct (sent !! n) as [g|] eqn:Hg; [|by split]. apply receive_sound; [done|].
    rewrite Forall_lookup in Hs. by eapply Hs. }
  destruct Hone as [Hd1 He1]. destruct (IH _ Hd1 Hs) as [Hd2 He2]. rewrite andThen_eq. split; [done|].
  cbn [snd]. by apply Forall_app_2.
Qed.

(** ** The encoder, writing the book *)

(** What the engine does with an encoder: packets, the flush tick, and a new
    geometry. *)
Inductive enc_op :=
  | EAdd (p : Z * list Z) (now : Z)
  | EFlush (now : Z)
  | ESet (p : Params).

Definition enc_step (o : enc_op) (e : Encoder) : Encoder * list datagram :=
  match o with
  | EAdd p now => let '(e, evs, stamp) := Add p.1 p.2 now e in (e, sent_data stamp p ++ sent_parity evs)
  | EFlush now => let '(e, evs) := Flush now e in (e, sent_parity evs)
  | ESet p => (SetParams p e, [])
  end.

Fixpoint enc_run (os : list enc_op) (e : Encoder) : Encoder * list datagram :=
  match os with
  | [] => (e, [])
  | o :: os => let '(e, out) := enc_step o e in let '(e, rest) := enc_run os e in (e, out ++ rest)
  end.

(** The geometries in use have at most 64 data and 16 parity shards, and a
    packet fits a datagram. *)
Definition op_ok (o : enc_op) : Prop :=
  match o with
  | EAdd p _ => wf_packet p
  | EFlush _ => True
  | ESet p => 0 <= pK p <= 64 /\ 0 <= pM p <= 16
  end.

(** The numbers of a datagram fit its header. *)
Definition in_range (g : datagram) : Prop :=
  match g with
  | DataPkt id i _ => is_u24 id /\ is_u8 i
  | ParityPkt id i k m _ => is_u24 id /\ is_u8 i /\ is_u8 k /\ is_u8 m
  end.

(** What the book, the encoder and the datagrams sent so far have in common.
    [pre] are the packets of the open group; it is registered without parity. *)
Record enc_ok (b : book) (e : Encoder) (sent : list datagram) : Prop := {
  ek_params : 0 <= pK (e_params e) <= 64 /\ 0 <= pM (e_params e) <= 16;
  ek_next : 0 <= nextGroup e;
  ek_keys : forall id, is_Some (b !! id) -> 0 <= id < nextGroup e /\ is_u24 id;
  ek_open : e_shards e <> [] -> exists pre, b !! groupID e = Some (mkEntry pre (e_m e) []) /\
      e_shards e = shard_of <$> pre /\ maxLen e = group_len pre /\ Forall wf_packet pre /\
      (length pre <= 64)%nat /\ 0 <= e_m e <= 16;
  ek_logged : Forall (logged b) sent;
  ek_sent : forall id en n p, b !! id = Some en -> en_pkts en !! n = Some p ->
      DataPkt id (Z.of_nat n) p ∈ sent;
  ek_range : Forall in_range sent;
}.

(** Entries only grow, and a closed one is final. *)
Definition grows (en en' : entry) : Prop :=
  en_parity en = [] /\ prefix (en_pkts en) (en_pkts en').

Lemma logged_insert b id en en' g :
  b !! id = Some en -> grows en en' -> logged b g -> logged (<[id := en']> b) g.
Proof.
  intros Hb [Hp [more Hpre]] Hg. destruct g as [j i p|j i k m s]; cbn [logged] in *.
  - destruct Hg as (en0 & n & Hj & -> & Hn). destruct (decide (j = id)) as [->|Hne].
    + rewrite Hb in Hj. injection Hj as <-. exists en', n. rewrite lookup_insert_eq. split_and!; [done|done|].
      rewrite Hpre. by apply lookup_app_l_Some.
    + exists en0, n. by rewrite lookup_insert_ne.
  - destruct Hg as (en0 & x & Hj & Hc & E1 & E2 & E3 & Hx). destruct (decide (j = id)) as [->|Hne].
    + rewrite Hb in Hj. injection Hj as <-. by rewrite Hp in Hx.
    + exists en0, x. by rewrite lookup_insert_ne.
Qed.

Lemma logged_fresh b id en g : b !! id = None -> logged b g -> logged (<[id := en]> b) g.
Proof.
  intros Hb Hg. destruct g as [j i p|j i k m s]; cbn [logged] in *.
  - destruct Hg as (en0 & n & Hj & ?). exists en0, n. rewrite lookup_insert_ne; [done|]. congruence.
  - destruct Hg as (en0 & x & Hj & ?). exists en0, x. rewrite lookup_insert_ne; [done|]. congruence.
Qed.

Lemma sent_emissions id k m parity :
  sent_parity (emissions id k m parity)
  = imap (fun i s => ParityPkt id (u8 (k + Z.of_nat i)) (u8 k) (u8 m) s) parity.
Proof.
  unfold sent_parity, emissions.
  induction parity as [|s parity IH] using rev_ind; [done|].
  rewrite !imap_app, omap_app, IH. done.
Qed.

(** Closing the open group. *)
Lemma close_ok b e sent :
  enc_ok b e sent ->
  exists b', enc_ok b' (closeLocked e).1 (sent ++ sent_parity (closeLocked e).2).
Proof.
  intros Hi. assert (Hclear : enc_ok b (clear_shards e) sent) by (destruct Hi; by constructor).
  unfold closeLocked.
  destruct (Z.eqb_spec (e_m e) 0) as [|Hm]; cbn [orb fst snd].
  { exists b. cbn. by rewrite app_nil_r. }
  destruct (Z.eqb_spec (Z.of_nat (length (e_shards e))) 0) as [|Hk]; cbn [fst snd].
  { exists b. cbn. by rewrite app_nil_r. }
  destruct (rs_new _ _) eqn:Hnew; [|exists b; cbn; by rewrite app_nil_r].
  destruct (rs_encode _ _ _) as [parity|] eqn:Henc; [|exists b; cbn; by rewrite app_nil_r]. cbn [fst snd].
  destruct (ek_open _ _ _ Hi) as (pre & Hb & Hs & Hl & Hwf & Hlen & Hm16); [by intros E; rewrite E in Hk|].
  rewrite Hs, length_fmap in *. rewrite Hl in Henc. fold (data_shards pre) in Henc.
  pose (en := mkEntry pre (e_m e) parity).
  assert (Hcl : en_closed en) by (constructor; cbn; [done|by intros ->|done|lia|done]).
  destruct (parity_len _ _ _ Hcl) as [Hpl _]. cbn [en_m en_parity en_pkts en] in Hpl.
  exists (<[groupID e := en]> b). constructor; cbn [clear_shards e_params nextGroup e_shards groupID e_m maxLen].
  - apply Hi.
  - apply Hi.
  - intros id [Hid|Hid]%lookup_insert_is_Some'; [subst id; apply (ek_keys _ _ _ Hi); by rewrite Hb|].
    by apply (ek_keys _ _ _ Hi).
  - done.
  - apply Forall_app_2.
    + eapply Forall_impl; [|apply (ek_logged _ _ _ Hi)]. intros g. apply (logged_insert b _ (mkEntry pre (e_m e) [])); [done|].
      by split.
    + rewrite sent_emissions. apply Forall_lookup. intros i g. rewrite list_lookup_imap.
      destruct (parity !! i) as [s|] eqn:Hi'; [|done]. cbn. intros [= <-]. exists en, i.
      rewrite lookup_insert_eq. apply lookup_lt_Some in Hi' as Hlt. cbn [en_pkts en_m en_parity en].
      split_and!; [done|done|rewrite u8_id; mlia|rewrite u8_id; mlia| |done].
      rewrite u8_id; mlia.
  - intros id en0 n p [[<- <-]|[Hne Hid]]%lookup_insert_Some Hp; apply elem_of_app; left.
    + by apply (ek_sent _ _ _ Hi _ (mkEntry pre (e_m e) [])).
    + by eapply (ek_sent _ _ _ Hi).
  - apply Forall_app_2; [apply Hi|]. rewrite sent_emissions. apply Forall_lookup. intros i g.
    rewrite list_lookup_imap. destruct (parity !! i); [|done]. cbn. intros [= <-].
    split; [apply (ek_keys _ _ _ Hi); by rewrite Hb|]. split_and!; apply u8_range.
Qed.

(** A packet opens the next group. *)
Lemma push_opens b e sent p now :
  enc_ok b e sent -> wf_packet p -> nextGroup e < 2 ^ 24 -> e_shards e = [] ->
  let e1 := pushShard p.1 p.2 (openGroup now e) in
  exists b', enc_ok b' e1 (sent ++ [DataPkt (groupID e1) (u8 (Z.of_nat (length (e_shards e1)) - 1)) p]).
Proof.
  intros Hi Hp Hn Hs e1. subst e1. pose proof (ek_next _ _ _ Hi) as Hn0.
  assert (Hid : Z.land (nextGroup e) 0xffffff = nextGroup e).
  { change 0xffffff with (Z.ones 24). rewrite Z.land_ones by lia. apply Z.mod_small. lia. }
  assert (Hfresh : b !! nextGroup e = None).
  { destruct (b !! nextGroup e) as [x|] eqn:E; [|done].
    destruct (ek_keys _ _ _ Hi (nextGroup e)) as [? _]; [by rewrite E|lia]. }
  exists (<[nextGroup e := mkEntry [p] (pM (e_params e)) []]> b). cbn [pushShard openGroup groupID e_shards].
  rewrite Hs, Hid. cbn [length app].
  constructor; cbn [pushShard openGroup e_params nextGroup e_shards groupID e_m maxLen].
  - apply Hi.
  - rewrite u32_id; mlia.
  - intros id [Hx|Hx]%lookup_insert_is_Some'; rewrite u32_id by mlia; [subst id; split; [lia|mlia]|].
    pose proof (ek_keys _ _ _ Hi id Hx) as []. split; [lia|done].
  - intros _. exists [p]. rewrite Hid, lookup_insert_eq, Hs. cbn [app fmap list_fmap].
    split_and!; [done|done|done| |cbn; lia|apply Hi|apply Hi].
    apply List.Forall_cons; [done|apply List.Forall_nil].
  - apply Forall_app_2.
    + eapply Forall_impl; [|apply (ek_logged _ _ _ Hi)]. intros g. by apply logged_fresh.
    + apply List.Forall_cons; [|apply List.Forall_nil]. exists (mkEntry [p] (pM (e_params e)) []), 0%nat.
      by rewrite lookup_insert_eq.
  - intros id en n q [[<- <-]|[Hne Hx]]%lookup_insert_Some Hq; apply elem_of_app.
    + right. destruct n as [|n]; [|done]. cbn in Hq. injection Hq as <-. by apply list_elem_of_singleton.
    + left. by eapply (ek_sent _ _ _ Hi).
  - apply Forall_app_2; [apply Hi|]. apply List.Forall_cons; [|apply List.Forall_nil]. split; [mlia|by vm_compute].
Qed.

(** A packet joins the open group. *)
Lemma push_joins b e sent p :
  enc_ok b e sent -> wf_packet p -> (length (e_shards e) < 64)%nat -> e_shards e <> [] ->
  let e1 := pushShard p.1 p.2 e in
  exists b', enc_ok b' e1 (sent ++ [DataPkt (groupID e1) (u8 (Z.of_nat (length (e_shards e1)) - 1)) p]).
Proof.
  intros Hi Hp Hlt Hs e1. subst e1.
  destruct (ek_open _ _ _ Hi Hs) as (pre & Hb & Hsh & Hl & Hwf & Hlen & Hm).
  rewrite Hsh, length_fmap in Hlt.
  exists (<[groupID e := mkEntry (pre ++ [p]) (e_m e) []]> b). cbn [pushShard groupID e_shards].
  rewrite Hsh, length_app, length_fmap. cbn [length].
  replace (u8 (Z.of_nat (length pre + 1) - 1)) with (Z.of_nat (length pre)) by (rewrite u8_id; mlia).
  constructor; cbn [pushShard e_params nextGroup e_shards groupID e_m maxLen].
  - apply Hi.
  - apply Hi.
  - intros id [Hx|Hx]%lookup_insert_is_Some'; [subst id; apply (ek_keys _ _ _ Hi); by rewrite Hb|].
    by apply (ek_keys _ _ _ Hi).
  - intros _. exists (pre ++ [p]). rewrite lookup_insert_eq, Hsh, Hl, fmap_app, group_len_snoc.
    split_and!; [done|done|done| |rewrite length_app; cbn; lia|lia|lia].
    apply Forall_app_2; [done|]. apply List.Forall_cons; [done|apply List.Forall_nil].
  - apply Forall_app_2.
    + eapply Forall_impl; [|apply (ek_logged _ _ _ Hi)]. intros g.
      apply (logged_insert b _ (mkEntry pre (e_m e) [])); [done|]. split; [done|]. by exists [p].
    + apply List.Forall_cons; [|apply List.Forall_nil]. exists (mkEntry (pre ++ [p]) (e_m e) []), (length pre).
      rewrite lookup_insert_eq. split_and!; [done|done|]. cbn. by rewrite list_lookup_middle.
  - intros id en n q [[<- <-]|[Hne Hx]]%lookup_insert_Some Hq; apply elem_of_app.
    + cbn [en_pkts] in Hq. apply lookup_app_Some in Hq as [Hq|[Hge Hq]].
      * left. by apply (ek_sent _ _ _ Hi _ (mkEntry pre (e_m e) [])).
      * right. destruct (n - length pre)%nat as [|x] eqn:Ex; [|done]. cbn in Hq. injection Hq as <-.
         apply list_elem_of_singleton. f_equal. lia.
    + left. by eapply (ek_sent _ _ _ Hi).
  - apply Forall_app_2; [apply Hi|]. apply List.Forall_cons; [|apply List.Forall_nil].
    split; [apply (ek_keys _ _ _ Hi); by rewrite Hb|mlia].
Qed.

Lemma push_ok b e sent p now :
  enc_ok b e sent -> wf_packet p -> nextGroup e < 2 ^ 24 -> (length (e_shards e) < 64)%nat ->
  let e1 := pushShard p.1 p.2 (if decide (e_shards e = []) then openGroup now e else e) in
  exists b', enc_ok b' e1 (sent ++ [DataPkt (groupID e1) (u8 (Z.of_nat (length (e_shards e1)) - 1)) p]).
Proof. intros Hi Hp Hn Hlt. case_decide; [by apply (push_opens b)|by apply (push_joins b)]. Qed.

(** The open group never fills up. *)
Definition few (e : Encoder) : Prop := (length (e_shards e) < 64)%nat.

Lemma close_shape e : e_shards (closeLocked e).1 = [] /\ nextGroup (closeLocked e).1 = nextGroup e /\
  e_params (closeLocked e).1 = e_params e.
Proof.
  unfold closeLocked. destruct (_ || _); [done|]. by destruct (if rs_new _ _ then _ else _).
Qed.

(** Only a packet can open a group. *)
Definition op_cost (o : enc_op) : Z := match o with EAdd _ _ => 1 | _ => 0 end.

Lemma step_ok b e sent o :
  enc_ok b e sent -> few e -> op_ok o -> nextGroup e + op_cost o <= 2 ^ 24 ->
  exists b', enc_ok b' (enc_step o e).1 (sent ++ (enc_step o e).2) /\ few (enc_step o e).1 /\
    nextGroup (enc_step o e).1 <= nextGroup e + op_cost o.
Proof.
  intros Hi Hf Ho Hn. pose proof (ek_next _ _ _ Hi) as Hn0. unfold few in *.
  destruct o as [p now|now|p]; cbn [enc_step op_ok op_cost] in *.
  - unfold Add. destruct (bool_decide (e_shards e = []) && (pK (e_params e) =? 0)) eqn:Eoff.
    { exists b. cbn [fst snd sent_data sent_parity omap list_omap]. rewrite !app_nil_r. split_and!; [done|done|lia]. }
    destruct (push_ok b e sent p now Hi Ho ltac:(lia) Hf) as (b1 & H1).
    set (e0 := if decide (e_shards e = []) then openGroup now e else e) in *.
    assert (Hp0 : e_params e0 = e_params e /\ nextGroup e <= nextGroup e0 <= nextGroup e + 1 /\
      length (e_shards e0) = length (e_shards e)).
    { unfold e0. case_decide; cbn; [rewrite u32_id by mlia|]; split_and!; (done || lia). }
    destruct Hp0 as (Hp0 & Hng & Hlen). cbn [pushShard e_params].
    destruct (ek_params _ _ _ Hi) as [HK _].
    destruct (Z.leb_spec (pK (e_params e0)) (Z.of_nat (length (e_shards (pushShard p.1 p.2 e0))))).
    + destruct (close_ok b1 _ _ H1) as (b2 & H2). destruct (close_shape (pushShard p.1 p.2 e0)) as (Hs & Hx & _).
      cbn [pushShard] in Hs, Hx, H2.
      destruct (closeLocked _) as [e2 evs]. cbn [fst snd sent_data] in *. exists b2.
      rewrite app_assoc. split_and!; [done|rewrite Hs; cbn; lia|rewrite Hx; cbn; lia].
    + exists b1. cbn [fst snd sent_data sent_parity omap list_omap].
      rewrite app_nil_r. split_and!; [done| |cbn; lia]. rewrite Hp0 in *. cbn [pushShard e_shards] in *. lia.
  - unfold Flush. destruct (_ && _); [|exists b; cbn; rewrite app_nil_r; split_and!; [done|done|lia]].
    destruct (close_ok b e sent Hi) as (b2 & H2). destruct (close_shape e) as (Hs & Hx & _).
    destruct (closeLocked e) as [e2 evs]. cbn [fst snd] in *. exists b2.
    split_and!; [done|rewrite Hs; cbn; lia|lia].
  - exists b. rewrite app_nil_r. split_and!; [|done|cbn; lia]. destruct Hi. constructor; cbn; done.
Qed.

(** The datagrams of a step: the packet it was given, and parity. *)
Lemma out_data o e id i q : DataPkt id i q ∈ (enc_step o e).2 -> exists now, o = EAdd q now.
Proof.
  assert (Hp : forall evs, DataPkt id i q ∈ sent_parity evs -> False).
  { intros evs (ev & _ & Hev)%list_elem_of_omap. by destruct ev. }
  destruct o as [p now|now|p]; cbn [enc_step].
  - destruct (Add p.1 p.2 now e) as [[e' evs] stamp]. cbn [snd]. intros [Hd|[]%Hp]%elem_of_app.
    destruct stamp as [[g j]|]; cbn in Hd; [|by apply elem_of_nil in Hd].
    apply list_elem_of_singleton in Hd as [= _ _ ->]. by exists now.
  - destruct (Flush now e) as [e' evs]. cbn [snd]. by intros []%Hp.
  - by intros ?%elem_of_nil.
Qed.

Lemma emit_sent g i k m x evs : EmitParity g i k m x ∈ evs -> ParityPkt g i k m x ∈ sent_parity evs.
Proof. intros He. apply list_elem_of_omap. by exists (EmitParity g i k m x). Qed.

Lemma run_ok os : forall b e sent,
  enc_ok b e sent -> few e -> Forall op_ok os -> nextGroup e + Z.of_nat (length os) <= 2 ^ 24 ->
  exists b', enc_ok b' (enc_run os e).1 (sent ++ (enc_run os e).2).
Proof.
  induction os as [|o os IH]; intros b e sent Hi Hf Hos Hn; cbn [enc_run].
  { exists b. by rewrite app_nil_r. }
  apply Forall_cons_iff in Hos as [Ho Hos]. cbn [length] in Hn.
  destruct (step_ok b e sent o Hi Hf Ho) as (b1 & H1 & Hf1 & Hn1); [destruct o; cbn; lia|].
  destruct (enc_step o e) as [e1 out]. cbn [fst snd] in *.
  destruct (IH b1 e1 _ H1 Hf1 Hos) as (b2 & H2); [destruct o; cbn in Hn1; lia|].
  destruct (enc_run os e1) as [e2 rest]. cbn [fst snd] in *. exists b2. by rewrite app_assoc.
Qed.

Lemma enc_new : enc_ok ∅ NewEncoder [] /\ few NewEncoder.
Proof.
  split; [|unfold few; cbn; lia]. constructor; cbn; [lia|lia|by intros id [? ?]|done|apply List.Forall_nil|done|apply List.Forall_nil].
Qed.

(** C8: Repair never invents a packet. Take any run of an encoder of up to
    2^24 operations: packets, flush ticks and changes of geometry in any
    order. Let the network lose, repeat, reorder and delay what it sends in
    any way, across groups, so that the decoder sees an arbitrary sequence of
    those datagrams at arbitrary times. Whatever the decoder then recovers,
    sequence number and contents, is a packet that the encoder sent. *)
Theorem fec_sound os arrivals seq ct :
  Forall op_ok os -> Z.of_nat (length os) <= 2 ^ 24 ->
  let sent := (enc_run os NewEncoder).2 in
  Recovered seq ct ∈ (receive_all sent arrivals NewDecoder).2 ->
  exists id n, DataPkt id (Z.of_nat n) (seq, ct) ∈ sent.
Proof.
  intros Hos Hlen sent Hr. destruct enc_new as [Hi Hf].
  destruct (run_ok os ∅ NewEncoder [] Hi Hf Hos) as (b & Hb); [cbn; lia|]. cbn [app] in Hb. fold sent in Hb.
  destruct (receive_all_sound b sent arrivals NewDecoder) as [_ He];
    [apply map_Forall_empty|apply Hb|].
  rewrite list.Forall_forall in He. destruct (He _ Hr) as (id & en & Hid & [n Hn]%list_elem_of_lookup).
  exists id, n. by apply (ek_sent _ _ _ Hb _ en).
Qed.

End Sound.

(** ** Witness: two groups, arrivals interleaved and repeated *)

Definition sound_ops : list enc_op :=
  [ESet (mkParams 2 1); EAdd (7, [1; 2; 3]) 0; EAdd (8, [4]) 1; EAdd (9, [5; 5]) 2; EFlush 20000000].

Lemma fec_sound_witness : exists id n,
  DataPkt id (Z.of_nat n) (7, [1; 2; 3]) ∈ (enc_run (C := xor_codec) sound_ops NewEncoder).2.
Proof.
  assert (Hok : Forall op_ok sound_ops).
  { repeat apply List.Forall_cons; try apply List.Forall_nil; cbn; try done; try lia;
      (split; [cbn; mlia|cbn; mlia]). }
  apply (fec_sound (C := xor_codec) sound_ops [(4%nat, 1); (1%nat, 2); (1%nat, 3); (2%nat, 4)] 7 [1; 2; 3]);
    [exact Hok|cbn; lia|].
  apply (bool_decide_unpack _). by vm_compute.
Defined.
