(* ===== verification/Classify.v ===== *)
(** * Traffic classification: internal/classify/classify.go

    The class of an outbound IP packet from its 5-tuple: user rules, built-in
    ports, then the average payload of its flow. *)

From stdpp Require Import strings.
From S2P Require Import Prelude Wire.
#[local] Open Scope Z_scope.

Definition realtimeMaxUDPSize : Z := 300.
Definition interactiveMaxTCP : Z := 64.
Definition flowTableCap : nat := 4096.

Record Rule := mkRule { rProto : string; rPort : Z; rClass : string }.

(** [(class, true)] is [Some class]. *)
Definition ParseClass (s : string) : option Z :=
  if String.eqb s "bulk" then Some ClassBulk
  else if String.eqb s "realtime" then Some ClassRealtime
  else if String.eqb s "interactive" then Some ClassInteractive
  else None.

Definition protoTCP : Z := 6.
Definition protoUDP : Z := 17.
Definition protoAny : Z := 0.

(** [flowKey]: source, destination ([netip.Addr], its 4 or 16 bytes),
    protocol and ports. *)
Definition flowKey : Type := list Z * list Z * Z * Z * Z.

Record flowState := mkFlow { fpkts : Z; fpayload : Z; fclass : Z }.

Record Classifier := mkClassifier {
  flows : gmap flowKey flowState;
  rules : gmap (Z * Z) Z;
}.

Definition addRule (rs : gmap (Z * Z) Z) (r : Rule) : gmap (Z * Z) Z :=
  match ParseClass (rClass r) with
  | None => rs
  | Some class =>
      if rPort r =? 0 then rs
      else
        let protoKey :=
          if String.eqb (rProto r) "tcp" then protoTCP
          else if String.eqb (rProto r) "udp" then protoUDP else protoAny in
        <[(protoKey, rPort r) := class]> rs
  end.

Definition New (rs : list Rule) : Classifier := mkClassifier ∅ (foldl addRule ∅ rs).

Record parsed := mkParsed {
  pSrc : list Z;
  pDst : list Z;
  pProto : Z;
  pSport : Z;
  pDport : Z;
  pPayload : Z;
}.

Abbreviation go A := (outcome Empty_set A).

(** The transport part of [parse]; [None] is [ok = false]. *)
Definition parseTransport (src dst : list Z) (proto : Z) (transport : list Z) : go (option parsed) :=
  if proto =? protoTCP then
    if decide (length transport < 20)%nat then Ret None else
    sport ← get_be 2 transport 0;
    dport ← get_be 2 transport 2;
    b12 ← idx transport 12;
    let dataOff := Z.shiftr b12 4 * 4 in
    if (dataOff <? 20) || (Z.of_nat (length transport) <? dataOff) then Ret None else
    Ret (Some (mkParsed src dst proto sport dport (Z.of_nat (length transport) - dataOff)))
  else if proto =? protoUDP then
    if decide (length transport < 8)%nat then Ret None else
    sport ← get_be 2 transport 0;
    dport ← get_be 2 transport 2;
    Ret (Some (mkParsed src dst proto sport dport (Z.of_nat (length transport) - 8)))
  else Ret (Some (mkParsed src dst proto 0 0 0)).

Definition parse (pkt : list Z) : go (option parsed) :=
  if decide (length pkt < 1)%nat then Ret None else
  b0 ← idx pkt 0;
  if Z.shiftr b0 4 =? 4 then
    if decide (length pkt < 20)%nat then Ret None else
    let ihl := Z.land b0 0x0f * 4 in
    if (ihl <? 20) || (Z.of_nat (length pkt) <? ihl) then Ret None else
    proto ← idx pkt 9;
    src ← slice pkt 12 16;
    dst ← slice pkt 16 20;
    transport ← slice_from pkt (Z.to_nat ihl);
    parseTransport src dst proto transport
  else if Z.shiftr b0 4 =? 6 then
    if decide (length pkt < 40)%nat then Ret None else
    proto ← idx pkt 6;
    src ← slice pkt 8 24;
    dst ← slice pkt 24 40;
    transport ← slice_from pkt 40;
    parseTransport src dst proto transport
  else Ret None.

(** The first of the four keys that has a rule. *)
Fixpoint firstRule (rs : gmap (Z * Z) Z) (keys : list (Z * Z)) : option Z :=
  match keys with
  | [] => None
  | k :: keys => match rs !! k with Some class => Some class | None => firstRule rs keys end
  end.

Definition ruleFor (proto sport dport : Z) (c : Classifier) : option Z :=
  if decide (size (rules c) = 0%nat) then None else
  firstRule (rules c) [(proto, sport); (proto, dport); (protoAny, sport); (protoAny, dport)].

(** Built-in port defaults. *)
Definition builtin (proto sport dport : Z) : bool :=
  ((proto =? protoUDP) && ((sport =? 53) || (dport =? 53) || (sport =? 123) || (dport =? 123)))
  || ((proto =? protoTCP) && ((sport =? 22) || (dport =? 22) || (sport =? 53) || (dport =? 53))).

(** Unsigned division; Go panics on a zero divisor. *)
Definition div_u64 (a b : Z) : go Z := if b =? 0 then Panic else Ret (a / b).

(** The flow heuristics. *)
Definition learn (key : flowKey) (proto payload : Z) (c : Classifier) : go (Classifier * Z) :=
  let '(fl, fs) :=
    match flows c !! key with
    | Some fs => (flows c, fs)
    | None =>
        (if decide (flowTableCap <= size (flows c))%nat then ∅ else flows c, mkFlow 0 0 0)
    end in
  let pkts := u64 (fpkts fs + 1) in
  let total := u64 (fpayload fs + u64 payload) in
  avg ← div_u64 total pkts;
  let class :=
    if proto =? protoUDP then
      if avg <=? realtimeMaxUDPSize then ClassRealtime else ClassBulk
    else if proto =? protoTCP then
      if avg <=? interactiveMaxTCP then ClassInteractive else ClassBulk
    else fclass fs in
  Ret (mkClassifier (<[key := mkFlow pkts total class]> fl) (rules c), class).

Definition Classify (pkt : list Z) (c : Classifier) : go (Classifier * Z) :=
  r ← parse pkt;
  match r with
  | None => Ret (c, ClassBulk)
  | Some p =>
      if negb (pProto p =? protoTCP) && negb (pProto p =? protoUDP) then Ret (c, ClassInteractive) else
      match ruleFor (pProto p) (pSport p) (pDport p) c with
      | Some class => Ret (c, class)
      | None =>
          if builtin (pProto p) (pSport p) (pDport p) then Ret (c, ClassInteractive)
          else
            learn (pSrc p, pDst p, pProto p, pSport p, pDport p) (pProto p) (pPayload p) c
      end
  end.

(** ** parse *)

Lemma parseTransport_total src dst proto t : exists r, parseTransport src dst proto t = Ret r.
Proof.
  unfold parseTransport. destruct (proto =? protoTCP).
  - case_decide as Hl; [eauto|]. rewrite !get_be_ok by lia.
    destruct (@idx_lt Empty_set _ t 12 ltac:(lia)) as (x & Hx & _). cbn [mbind outcome_bind]. rewrite Hx.
    cbn [mbind outcome_bind]. destruct (_ || _); eauto.
  - destruct (proto =? protoUDP); [|eauto]. case_decide; [eauto|].
    rewrite !get_be_ok by lia. cbn [mbind outcome_bind]. eauto.
Qed.

Lemma parse_total pkt : exists r, parse pkt = Ret r.
Proof.
  unfold parse. case_decide; [eauto|].
  destruct (@idx_lt Empty_set _ pkt 0 ltac:(lia)) as (b0 & Hb0 & _). rewrite Hb0. cbn [mbind outcome_bind].
  destruct (_ =? 4).
  - case_decide; [eauto|]. destruct ((_ <? 20) || _) eqn:Hi; [eauto|].
    apply orb_false_iff in Hi as [Hi1%Z.ltb_ge Hi2%Z.ltb_ge].
    destruct (@idx_lt Empty_set _ pkt 9 ltac:(lia)) as (pr & Hp & _). rewrite Hp. cbn [mbind outcome_bind].
    rewrite !slice_le, slice_from_le by lia. cbn [mbind outcome_bind]. apply parseTransport_total.
  - destruct (_ =? 6); [|eauto]. case_decide; [eauto|].
    destruct (@idx_lt Empty_set _ pkt 6 ltac:(lia)) as (pr & Hp & _). rewrite Hp. cbn [mbind outcome_bind].
    rewrite !slice_le, slice_from_le by lia. cbn [mbind outcome_bind]. apply parseTransport_total.
Qed.

(** ** The flow table *)

Definition wf_class (x : Z) : Prop := x = ClassBulk \/ x = ClassRealtime \/ x = ClassInteractive.

Record wf_classifier (c : Classifier) : Prop := {
  wc_rules : map_Forall (fun _ x => wf_class x) (rules c);
  wc_cap : (size (flows c) <= flowTableCap)%nat;
}.

(** No flow has counted more than [n] packets. *)
Definition counted (n : Z) (c : Classifier) : Prop :=
  map_Forall (fun _ fs => 0 <= fpkts fs <= n) (flows c).

(** Any flow can count [k] more packets without its 64-bit packet counter
    coming round to zero. *)
Definition spare (k : Z) (c : Classifier) : Prop := counted (two64 - 1 - k) c.

Lemma counted_le m n c : m <= n -> counted m c -> counted n c.
Proof. intros Hle Hc k fs Hk. specialize (Hc k fs Hk). cbn in Hc. lia. Qed.

Lemma ParseClass_wf s x : ParseClass s = Some x -> wf_class x.
Proof. unfold ParseClass, wf_class. repeat case_match; intros [= <-]; auto. Qed.

Lemma New_wf rs : wf_classifier (New rs).
Proof.
  constructor; cbn; [|rewrite map_size_empty; lia].
  assert (Hgen : forall m, map_Forall (fun _ x => wf_class x) m ->
    map_Forall (fun _ x => wf_class x) (foldl addRule m rs)); [|apply Hgen, map_Forall_empty].
  induction rs as [|r rs IH]; intros m Hm; cbn [foldl]; [done|]. apply IH. unfold addRule.
  destruct (ParseClass (rClass r)) as [x|] eqn:Hx; [|done]. destruct (_ =? 0); [done|].
  apply map_Forall_insert_2; [by eapply ParseClass_wf|done].
Qed.

Lemma firstRule_spec rs keys :
  match firstRule rs keys with
  | Some x => exists pre k post, keys = pre ++ k :: post /\ rs !! k = Some x /\
      Forall (fun k => rs !! k = None) pre
  | None => Forall (fun k => rs !! k = None) keys
  end.
Proof.
  induction keys as [|k keys IH]; cbn; [constructor|]. destruct (rs !! k) as [x|] eqn:Hk.
  - by exists [], k, keys.
  - destruct (firstRule rs keys) as [x|]; [|by constructor].
    destruct IH as (pre & k' & post & -> & Hx & Hf). exists (k :: pre), k', post.
    split_and!; [done|done|by constructor].
Qed.

Lemma ruleFor_wf proto sport dport c x :
  wf_classifier c -> ruleFor proto sport dport c = Some x -> wf_class x.
Proof.
  intros Hw. unfold ruleFor. case_decide; [done|].
  set (keys := [_; _; _; _]). intros Hx. pose proof (firstRule_spec (rules c) keys) as Hs.
  rewrite Hx in Hs. destruct Hs as (_ & k & _ & _ & Hk & _). by apply (wc_rules _ Hw k).
Qed.

(** The table with room made for [key], and the record of that flow. *)
Lemma evicted_cap key c :
  wf_classifier c ->
  (size (<[key := mkFlow 0 0 0]> (match flows c !! key with
    | Some _ => flows c
    | None => if decide (flowTableCap <= size (flows c))%nat then ∅ else flows c
    end)) <= flowTableCap)%nat.
Proof.
  intros Hw. pose proof (wc_cap _ Hw) as Hc. destruct (flows c !! key) as [fs|] eqn:Hk.
  - rewrite map_size_insert_Some by eauto. done.
  - rewrite map_size_insert. case_decide as Hd.
    + rewrite lookup_empty, map_size_empty. unfold flowTableCap. lia.
    + rewrite Hk. cbn. lia.
Qed.

Lemma learn_keeps key proto payload c c1 x :
  wf_classifier c -> proto = protoTCP \/ proto = protoUDP -> learn key proto payload c = Ret (c1, x) ->
  wf_classifier c1 /\ wf_class x.
Proof.
  intros Hw Hp. pose proof (evicted_cap key c Hw) as Hr. unfold learn.
  destruct (flows c !! key) as [fs|]; unfold div_u64; destruct (_ =? 0); cbn [mbind outcome_bind]; try done;
    intros [= <- <-]; (split;
    [constructor; cbn; [apply Hw|]; rewrite map_size_insert in Hr |- *; done
    |unfold wf_class; destruct Hp as [->| ->]; cbn; destruct (_ <=? _); auto]).
Qed.

Lemma learn_step key proto payload c n :
  counted n c -> 0 <= n -> n + 1 < two64 ->
  exists c1 x, learn key proto payload c = Ret (c1, x) /\ rules c1 = rules c /\ counted (n + 1) c1.
Proof.
  intros Hn Hn0 Hn1. unfold learn. set (r := match flows c !! key with Some _ => _ | None => _ end).
  assert (Hr : 0 <= fpkts r.2 <= n /\ map_Forall (fun _ fs => 0 <= fpkts fs <= n) r.1).
  { unfold r. destruct (flows c !! key) as [fs|] eqn:Hk; cbn; [by split; [apply (Hn key)|]|].
    split; [lia|]. case_decide; [apply map_Forall_empty|done]. }
  destruct r as [fl fs]. cbn [fst snd] in *. destruct Hr as [Hb Hf].
  rewrite (u64_id (fpkts fs + 1)) by mlia. unfold div_u64.
  destruct (Z.eqb_spec (fpkts fs + 1) 0) as [|_]; [lia|]. cbn [mbind outcome_bind].
  eexists _, _. split_and!; [done|done|]. unfold counted. cbn [flows]. apply map_Forall_insert_2; [cbn; lia|].
  eapply map_Forall_impl; [exact Hf|]. cbn. lia.
Qed.

Lemma Classify_step pkt c n :
  counted n c -> 0 <= n -> n + 1 < two64 ->
  exists c1 x, Classify pkt c = Ret (c1, x) /\ rules c1 = rules c /\ counted (n + 1) c1.
Proof.
  intros Hn Hn0 Hn1. assert (Hc' : counted (n + 1) c) by (apply (counted_le n); [lia|done]).
  unfold Classify. destruct (parse_total pkt) as [[p|] ->]; cbn [mbind outcome_bind]; [|by eexists _, _].
  destruct (negb _ && negb _); [by eexists _, _|].
  destruct (ruleFor _ _ _ c); [by eexists _, _|]. destruct (builtin _ _ _); [by eexists _, _|].
  by apply learn_step.
Qed.

(** What a classification leaves, when it returns. *)
Lemma Classify_keeps pkt c c1 x :
  wf_classifier c -> Classify pkt c = Ret (c1, x) -> wf_classifier c1 /\ wf_class x.
Proof.
  intros Hw. unfold Classify. destruct (parse_total pkt) as [[p|] ->]; cbn [mbind outcome_bind].
  2:{ intros [= <- <-]. split; [done|by left]. }
  destruct (negb (pProto p =? protoTCP) && negb (pProto p =? protoUDP)) eqn:Hpr.
  { intros [= <- <-]. split; [done|by right; right]. }
  destruct (ruleFor _ _ _ c) as [y|] eqn:Hr.
  { intros [= <- <-]. split; [done|by eapply ruleFor_wf]. }
  destruct (builtin _ _ _); [intros [= <- <-]; split; [done|by right; right]|].
  apply learn_keeps; [done|].
  apply andb_false_iff in Hpr as [Hz|Hz]; apply negb_false_iff, Z.eqb_eq in Hz; [by left|by right].
Qed.

(** The classifier over a sequence of packets: the classes it gives. *)
Definition classifyAll (pkts : list (list Z)) (c : Classifier) : go (Classifier * list Z) :=
  foldl (fun r pkt => c ← r; x ← Classify pkt c.1; Ret (x.1, c.2 ++ [x.2])) (Ret (c, [])) pkts.

(** C40: Classification never fails: over any sequence of fewer than 2^64
    byte strings, starting from the configured rules, every one gets one of
    the three classes without a panic (no out-of-range read, and no division
    by a packet counter that is zero), the user rules are left alone, and the
    flow table never exceeds 4096 entries. *)
Theorem Classify_total rs pkts :
  Z.of_nat (length pkts) < two64 ->
  exists c cls, classifyAll pkts (New rs) = Ret (c, cls) /\
    length cls = length pkts /\ Forall wf_class cls /\ wf_classifier c /\ rules c = rules (New rs).
Proof.
  intros Hlen. unfold classifyAll. set (step := fun r pkt => _).
  assert (Hgen : forall n c cls, 0 <= n -> n + Z.of_nat (length pkts) < two64 -> counted n c ->
    wf_classifier c -> Forall wf_class cls ->
    exists c' cls', foldl step (Ret (c, cls)) pkts = Ret (c', cls ++ cls') /\
      length cls' = length pkts /\ Forall wf_class (cls ++ cls') /\ wf_classifier c' /\ rules c' = rules c).
  { clear Hlen. induction pkts as [|pkt pkts IH]; intros n c cls Hn Hlen Hc Hw Hf; cbn [foldl length] in *.
    { exists c, []. rewrite app_nil_r. done. }
    destruct (Classify_step pkt c n Hc Hn ltac:(lia)) as (c1 & x & E & Hr1 & Hc1).
    destruct (Classify_keeps pkt c c1 x Hw E) as [Hw1 Hx].
    assert (step (Ret (c, cls)) pkt = Ret (c1, cls ++ [x])) as -> by (unfold step; cbn; by rewrite E).
    destruct (IH (n + 1) c1 (cls ++ [x]) ltac:(lia) ltac:(lia) Hc1 Hw1) as (c' & cls' & E' & Hl & Hf' & Hw' & Hr').
    { apply Forall_app_2; [done|]. apply List.Forall_cons; [done|apply List.Forall_nil]. }
    exists c', (x :: cls'). rewrite <- app_assoc in E', Hf'. cbn [app] in E', Hf'.
    split_and!; [done|cbn; lia|done|done|congruence]. }
  destruct (Hgen 0 (New rs) [] ltac:(lia) ltac:(lia)) as (c & cls & E & Hl & Hf & Hw & Hr);
    [apply map_Forall_empty|apply New_wf|constructor|].
  exists c, cls. done.
Qed.

(** ** Packets as they are laid out *)

(** An IPv4 packet: [a] holds bytes 1..8, [ck] the header checksum, [opts] a
    whole number of option words. *)
Definition ip4 (a : list Z) (proto : Z) (ck src dst opts tr : list Z) : list Z :=
  (0x45 + Z.of_nat (length opts) / 4) :: a ++ [proto] ++ ck ++ src ++ dst ++ opts ++ tr.

Definition ip6 (a : list Z) (proto : Z) (hops : Z) (src dst tr : list Z) : list Z :=
  0x60 :: a ++ [proto; hops] ++ src ++ dst ++ tr.

Definition udp (sport dport : Z) (lenck payload : list Z) : list Z :=
  be 2 sport ++ be 2 dport ++ lenck ++ payload.

(** [a]: sequence and acknowledgement numbers; [b]: bytes 13..19. *)
Definition tcp (sport dport : Z) (a b opts payload : list Z) : list Z :=
  be 2 sport ++ be 2 dport ++ a ++ [(5 + Z.of_nat (length opts) / 4) * 16] ++ b ++ opts ++ payload.

(** Spell out a list of known length. *)
Ltac explode_exact l n H :=
  explode_list l n; cbn [length] in H;
  match type of H with context [length ?b] => destruct b; [|cbn [length] in H; lia] end; clear H.

Lemma parse_ip4 a proto ck src dst opts tr j :
  length a = 8%nat -> length ck = 2%nat -> length src = 4%nat -> length dst = 4%nat ->
  length opts = (4 * j)%nat -> (j <= 10)%nat ->
  parse (ip4 a proto ck src dst opts tr) = parseTransport src dst proto tr.
Proof.
  intros Ha Hck Hs Hd Ho Hj.
  explode_exact a 8%nat Ha. explode_exact ck 2%nat Hck.
  explode_exact src 4%nat Hs. explode_exact dst 4%nat Hd.
  assert (Hw : Z.of_nat (length opts) / 4 = Z.of_nat j) by (rewrite Ho; lia).
  unfold parse, ip4. rewrite Hw.
  assert (Hv : Z.shiftr (0x45 + Z.of_nat j) 4 = 4) by (rewrite Z.shiftr_div_pow2 by lia; lia).
  assert (Hl : Z.land (0x45 + Z.of_nat j) 0x0f = 5 + Z.of_nat j).
  { change 0x0f with (Z.ones 4). rewrite Z.land_ones by lia. lia. }
  cbn -[Z.add Z.of_nat parseTransport]. rewrite Hv, Hl. cbn -[Z.add Z.mul Z.of_nat parseTransport length].
  rewrite decide_False by (cbn; lia).
  destruct (Z.ltb_spec ((5 + Z.of_nat j) * 4) 20); [lia|]. cbn [orb].
  match goal with |- context [?x <? ?y] => destruct (Z.ltb_spec x y) as [Hlt|_] end.
  { cbn [length] in Hlt. rewrite length_app in Hlt. lia. }
  unfold idx. cbn [lookup list_lookup mbind outcome_bind].
  rewrite !slice_le, slice_from_le by (cbn [length]; rewrite length_app; lia).
  cbn [mbind outcome_bind]. cbn [drop take Nat.sub].
  replace (Z.to_nat ((5 + Z.of_nat j) * 4)) with (20 + length opts)%nat by lia.
  cbn [drop Nat.add]. by rewrite drop_app_length.
Qed.

Lemma parse_ip6 a proto hops src dst tr :
  length a = 5%nat -> length src = 16%nat -> length dst = 16%nat ->
  parse (ip6 a proto hops src dst tr) = parseTransport src dst proto tr.
Proof.
  intros Ha Hs Hd. explode_exact a 5%nat Ha. explode_exact src 16%nat Hs. explode_exact dst 16%nat Hd.
  unfold parse, ip6. cbn -[parseTransport length]. rewrite decide_False by (cbn; lia).
  change (Z.shiftr 96 4 =? 4) with false. change (Z.shiftr 96 4 =? 6) with true. cbv iota.
  rewrite decide_False by (cbn; lia).
  unfold idx. cbn [lookup list_lookup mbind outcome_bind].
  by rewrite !slice_le, slice_from_le by (cbn [length]; lia).
Qed.

Lemma parseTransport_udp src dst sport dport lenck payload :
  is_u16 sport -> is_u16 dport -> length lenck = 4%nat ->
  parseTransport src dst protoUDP (udp sport dport lenck payload)
  = Ret (Some (mkParsed src dst protoUDP sport dport (Z.of_nat (length payload)))).
Proof.
  intros Hs Hd Hl. explode_exact lenck 4%nat Hl. unfold parseTransport, udp.
  cbn -[length be]. rewrite decide_False by (cbn; lia). cbn. gets. fields. do 3 f_equal. lia.
Qed.

Lemma parseTransport_tcp src dst sport dport a b opts payload j :
  is_u16 sport -> is_u16 dport -> length a = 8%nat -> length b = 7%nat ->
  length opts = (4 * j)%nat -> (j <= 10)%nat ->
  parseTransport src dst protoTCP (tcp sport dport a b opts payload)
  = Ret (Some (mkParsed src dst protoTCP sport dport (Z.of_nat (length payload)))).
Proof.
  intros Hs Hd Ha Hb Ho Hj. explode_exact a 8%nat Ha. explode_exact b 7%nat Hb.
  assert (Hw : Z.of_nat (length opts) / 4 = Z.of_nat j) by (rewrite Ho; lia).
  assert (Hoff : Z.shiftr ((5 + Z.of_nat j) * 16) 4 = 5 + Z.of_nat j) by (rewrite Z.shiftr_div_pow2 by lia; lia).
  unfold parseTransport, tcp. rewrite Hw. cbn -[length be Z.add Z.mul Z.of_nat].
  rewrite decide_False by (cbn; lia). cbn -[Z.add Z.mul Z.of_nat length]. gets. fields.
  rewrite Hoff. cbn [length]. rewrite length_app.
  destruct (Z.ltb_spec ((5 + Z.of_nat j) * 4) 20); [lia|]. cbn [orb].
  match goal with |- context [?x <? ?y] => destruct (Z.ltb_spec x y) as [Hlt|_] end; [lia|].
  do 3 f_equal. lia.
Qed.

(** The packet dissector reads what is on the wire: for IPv4 (with any
    options) and IPv6 packets carrying UDP or TCP (with any options) it
    returns the addresses, the protocol, the ports and the number of
    transport payload bytes. *)
Theorem parse_fields a4 ck src dst o4 a6 hops src6 dst6 sport dport lenck ta tb to payload i j :
  length a4 = 8%nat -> length ck = 2%nat -> length src = 4%nat -> length dst = 4%nat ->
  length o4 = (4 * i)%nat -> (i <= 10)%nat ->
  length a6 = 5%nat -> length src6 = 16%nat -> length dst6 = 16%nat ->
  is_u16 sport -> is_u16 dport -> length lenck = 4%nat ->
  length ta = 8%nat -> length tb = 7%nat -> length to = (4 * j)%nat -> (j <= 10)%nat ->
  let u := udp sport dport lenck payload in
  let t := tcp sport dport ta tb to payload in
  let n := Z.of_nat (length payload) in
  parse (ip4 a4 protoUDP ck src dst o4 u) = Ret (Some (mkParsed src dst protoUDP sport dport n)) /\
  parse (ip4 a4 protoTCP ck src dst o4 t) = Ret (Some (mkParsed src dst protoTCP sport dport n)) /\
  parse (ip6 a6 protoUDP hops src6 dst6 u) = Ret (Some (mkParsed src6 dst6 protoUDP sport dport n)) /\
  parse (ip6 a6 protoTCP hops src6 dst6 t) = Ret (Some (mkParsed src6 dst6 protoTCP sport dport n)).
Proof.
  intros. split_and!.
  - erewrite parse_ip4 by done. by apply parseTransport_udp.
  - erewrite parse_ip4 by done. by eapply parseTransport_tcp.
  - rewrite parse_ip6 by done. by apply parseTransport_udp.
  - rewrite parse_ip6 by done. by eapply parseTransport_tcp.
Qed.

Lemma parse_fields_witness :
  parse (ip4 (replicate 8 0) protoUDP [0; 0] [10; 0; 0; 1] [10; 0; 0; 2] []
           (udp 5000 6000 [0; 12; 0; 0] [1; 2; 3; 4]))
  = Ret (Some (mkParsed [10; 0; 0; 1] [10; 0; 0; 2] protoUDP 5000 6000 4)).
Proof.
  refine (proj1 (parse_fields (replicate 8 0) [0; 0] [10; 0; 0; 1] [10; 0; 0; 2] []
    (replicate 5 0) 64 (replicate 16 0) (replicate 16 1) 5000 6000 [0; 12; 0; 0] (replicate 8 0)
    (replicate 7 0) [] [1; 2; 3; 4] 0 0 _ _ _ _ _ _ _ _ _ _ _ _ _ _ _ _));
    first [reflexivity | cbn; lia | vm_compute; split; congruence].
Defined.

(** The classifier on three packets: a small datagram, a large one on the
    same flow, and a byte string that is no packet. *)
Lemma Classify_total_witness :
  let small := ip4 (replicate 8 0) protoUDP [0; 0] [10; 0; 0; 1] [10; 0; 0; 2] []
    (udp 5000 6000 [0; 12; 0; 0] (replicate 4 0)) in
  let large := ip4 (replicate 8 0) protoUDP [0; 0] [10; 0; 0; 1] [10; 0; 0; 2] []
    (udp 5000 6000 [0; 12; 0; 0] (replicate 1200 0)) in
  exists c, classifyAll [small; large; [0x45]] (New [])
    = Ret (c, [ClassRealtime; ClassBulk; ClassBulk]) /\ wf_classifier c.
Proof.
  intros small large. destruct (Classify_total [] [small; large; [0x45]]) as (c & cls & E & _ & _ & Hw & _);
    [by vm_compute|]. exists c. split; [|done]. rewrite E. f_equal. f_equal.
  assert (H : (fun r => match r with Ret (_, x) => x | _ => [] end) (classifyAll [small; large; [0x45]] (New []))
    = [ClassRealtime; ClassBulk; ClassBulk]) by (vm_compute; reflexivity).
  rewrite E in H. exact H.
Defined.

(** ** Flow averages *)

(** The class a flow of protocol [proto] has after [n] packets of [total]
    payload bytes. *)
Definition average_class (proto n total : Z) : Z :=
  if proto =? protoUDP then (if total <=? realtimeMaxUDPSize * n + (n - 1) then ClassRealtime else ClassBulk)
  else (if total <=? interactiveMaxTCP * n + (n - 1) then ClassInteractive else ClassBulk).

Lemma avg_le total n k : 0 < n -> 0 <= total -> (total / n <=? k) = (total <=? k * n + (n - 1)).
Proof.
  intros Hn Ht. pose proof (Z.div_mod total n ltac:(lia)). pose proof (Z.mod_pos_bound total n Hn).
  destruct (Z.leb_spec (total / n) k), (Z.leb_spec total (k * n + (n - 1))); nia || done.
Qed.

(** The flow heuristic: after packets of payload sizes [ps] of one TCP or
    UDP flow, learned one by one, the flow's record holds their number and
    total, and its class says whether the average, rounded down, is at most
    300 bytes (UDP: realtime) or 64 bytes (TCP: interactive), bulk
    otherwise. *)
Theorem flow_average key proto ps c :
  proto = protoTCP \/ proto = protoUDP -> ps <> [] ->
  Forall (fun p => 0 <= p) ps -> foldr Z.add 0 ps < two64 -> Z.of_nat (length ps) < two64 ->
  flows c !! key = None ->
  let n := Z.of_nat (length ps) in
  let total := foldr Z.add 0 ps in
  exists c', foldl (fun r p => c ← r; x ← learn key proto p c; Ret x.1) (Ret c) ps = Ret c' /\
  flows c' !! key = Some (mkFlow n total (average_class proto n total)).
Proof.
  intros Hpr Hne Hpos Hsum Hlen Hnone n total. unfold n, total. clear n total.
  assert (Hstep : forall c p n t, 0 <= n -> 0 <= t -> 0 <= p -> n + 1 < two64 -> t + p < two64 ->
    (flows c !! key = None /\ n = 0 /\ t = 0) \/ (exists x, flows c !! key = Some (mkFlow n t x)) ->
    exists c1 x, learn key proto p c = Ret (c1, x) /\
      flows c1 !! key = Some (mkFlow (n + 1) (t + p) (average_class proto (n + 1) (t + p)))).
  { clear - Hpr. intros c p n t Hn Ht Hp Hn1 Ht1 Hfl. unfold learn.
    set (r := match flows c !! key with Some _ => _ | None => _ end).
    assert (fpkts r.2 = n /\ fpayload r.2 = t) as [En Et].
    { unfold r. destruct Hfl as [(-> & -> & ->)|[x ->]]; done. }
    destruct r as [fl fs]. cbn [fst snd] in *. rewrite En, Et.
    rewrite (u64_id p), !u64_id by mlia. unfold div_u64. destruct (Z.eqb_spec (n + 1) 0) as [|_]; [lia|].
    cbn [mbind outcome_bind]. eexists _, _. split; [done|]. cbn [flows]. rewrite lookup_insert_eq.
    do 2 f_equal. unfold average_class.
    destruct Hpr as [->| ->]; cbn -[Z.mul]; by rewrite avg_le by lia. }
  set (step := fun r p => _).
  assert (Hgen : forall ps c n t, 0 <= n -> 0 <= t -> Forall (fun p => 0 <= p) ps ->
    n + Z.of_nat (length ps) < two64 -> t + foldr Z.add 0 ps < two64 -> ps <> [] ->
    (flows c !! key = None /\ n = 0 /\ t = 0) \/ (exists x, flows c !! key = Some (mkFlow n t x)) ->
    exists c', foldl step (Ret c) ps = Ret c' /\ flows c' !! key
    = Some (mkFlow (n + Z.of_nat (length ps)) (t + foldr Z.add 0 ps)
        (average_class proto (n + Z.of_nat (length ps)) (t + foldr Z.add 0 ps)))).
  { clear - Hstep. induction ps as [|p ps IH]; intros c n t Hn Ht Hf Hl Hs Hne Hfl; [done|].
    apply Forall_cons_iff in Hf as [Hp Hf]. cbn [foldl foldr length] in *.
    assert (0 <= foldr Z.add 0 ps) by (clear - Hf; induction Hf; cbn; lia).
    destruct (Hstep c p n t Hn Ht Hp ltac:(lia) ltac:(lia) Hfl) as (c1 & x & E & H1).
    assert (step (Ret c) p = Ret c1) as -> by (unfold step; cbn; by rewrite E).
    destruct ps as [|q ps]; [exists c1; cbn [foldl foldr length]; rewrite Z.add_0_r; done|].
    destruct (IH c1 (n + 1) (t + p)) as (c' & E' & H'); [lia|lia|done|lia|lia|done|right; eauto|].
    exists c'. split; [done|]. rewrite H'.
    replace (n + Z.of_nat (S (length (q :: ps)))) with (n + 1 + Z.of_nat (length (q :: ps))) by lia.
    by rewrite Z.add_assoc. }
  apply (Hgen ps c 0 0); [lia|lia|done|lia|lia|done|left; done].
Qed.
