(* ===== verification/Wgbridge.v ===== *)
(** * The WireGuard bridge: internal/wgbridge/correlator.go, bind.go

    The FIFO that carries a packet's class across WireGuard's encryption, and
    the [conn.Bind] through which the engine and WireGuard exchange
    ciphertext (a channel per [Open], owned packet buffers). *)

From S2P Require Import Prelude Wire.

(** ** correlator.go *)

Record corrEntry := mkEntry { ceClass : Z; ceLen : Z }.

Record Correlator := mkCorrelator {
  fifo : list corrEntry;
  hits : Z;
  miss : Z;
  drops : Z;
}.

Definition NewCorrelator : Correlator := mkCorrelator [] 0 0 0.

Definition scanAhead : nat := 8.
Definition fifoCap : nat := 4096.

(** [(ptLen + 15) &^ 15]: and-not clears the low four bits. *)
Definition ExpectedCtLen (ptLen : Z) : Z :=
  let padded := Z.ldiff (ptLen + 15) 15 in
  16 + padded + 16.

Definition PushPlain (class ptLen : Z) (c : Correlator) : Correlator :=
  if decide (length (fifo c) < fifoCap)%nat
  then mkCorrelator (fifo c ++ [mkEntry class (ExpectedCtLen ptLen)]) (hits c) (miss c) (drops c)
  else c.

(** The scan: index and class of the first of the next [n] entries with this
    length. *)
Fixpoint scan (n : nat) (i : nat) (q : list corrEntry) (ctLen : Z) : option (nat * Z) :=
  match n, q with
  | S n, e :: q => if ceLen e =? ctLen then Some (i, ceClass e) else scan n (S i) q ctLen
  | _, _ => None
  end.

Definition MatchCiphertext (ctLen : Z) (c : Correlator) : Correlator * Z :=
  let limit := if decide (scanAhead < length (fifo c))%nat then scanAhead else length (fifo c) in
  match scan limit 0 (fifo c) ctLen with
  | Some (i, class) =>
      (mkCorrelator (drop (i + 1) (fifo c)) (u64 (hits c + 1)) (miss c)
         (u64 (drops c + u64 (Z.of_nat i))), class)
  | None => (mkCorrelator (fifo c) (hits c) (u64 (miss c + 1)) (drops c), ClassBulk)
  end.

Definition CorrFlush (c : Correlator) : Correlator := mkCorrelator [] (hits c) (miss c) (drops c).

Definition CorrStats (c : Correlator) : Z * Z * Z := (hits c, miss c, drops c).

Lemma scan_hit pre : forall n i e post ctLen,
  (length pre < n)%nat -> Forall (fun d => ceLen d <> ctLen) pre -> ceLen e = ctLen ->
  scan n i (pre ++ e :: post) ctLen = Some ((i + length pre)%nat, ceClass e).
Proof.
  induction pre as [|d pre IH]; intros [|n] i e post ctLen Hn Hf He; cbn [length] in Hn; try lia; cbn.
  - rewrite He, Z.eqb_refl. by rewrite Nat.add_0_r.
  - apply Forall_cons_iff in Hf as [Hd Hf]. rewrite (proj2 (Z.eqb_neq _ _) Hd).
    rewrite IH by (done || lia). do 2 f_equal. lia.
Qed.

Lemma scan_miss q : forall n i ctLen,
  Forall (fun d => ceLen d <> ctLen) (take n q) -> scan n i q ctLen = None.
Proof.
  induction q as [|d q IH]; intros [|n] i ctLen Hf; cbn; try done.
  cbn in Hf. apply Forall_cons_iff in Hf as [Hd Hf]. rewrite (proj2 (Z.eqb_neq _ _) Hd). by apply IH.
Qed.

(** One match with the queue [lost ++ e :: rest]. *)
Lemma Match_hit c lost e rest :
  fifo c = lost ++ e :: rest -> (length lost < scanAhead)%nat ->
  Forall (fun d => ceLen d <> ceLen e) lost ->
  MatchCiphertext (ceLen e) c =
  (mkCorrelator rest (u64 (hits c + 1)) (miss c) (u64 (drops c + Z.of_nat (length lost))), ceClass e).
Proof.
  intros Hq Hl Hf. unfold MatchCiphertext. rewrite Hq.
  rewrite (scan_hit lost) by (try done; case_decide; rewrite ?length_app in *; cbn in *; unfold scanAhead in *; lia).
  rewrite Nat.add_0_l.
  replace (length lost + 1)%nat with (length (lost ++ [e])) by (by rewrite length_app).
  change (lost ++ e :: rest) with (lost ++ [e] ++ rest). rewrite app_assoc, drop_app_length.
  rewrite (u64_id (Z.of_nat (length lost))); [done|]. unfold scanAhead in Hl. mlia.
Qed.

(** The length WireGuard's framing gives a plaintext: the transport header
    and tag plus the plaintext padded to the next multiple of 16. *)
Theorem ExpectedCtLen_spec n :
  0 <= n ->
  exists p, ExpectedCtLen n = 32 + p /\ n <= p < n + 16 /\ p mod 16 = 0.
Proof.
  intros Hn. exists (16 * ((n + 15) / 16)). unfold ExpectedCtLen.
  assert (Z.ldiff (n + 15) 15 = 16 * ((n + 15) / 16)) as ->; [|lia].
  change 15 with (Z.ones 4) at 2. rewrite Z.ldiff_ones_r, Z.shiftl_mul_pow2, Z.shiftr_div_pow2 by lia. lia.
Qed.

(** A block of the stream: packets WireGuard dropped, then one it sent. *)
Definition block : Type := list corrEntry * corrEntry.
Definition block_entries (b : block) : list corrEntry := b.1 ++ [b.2].
Definition block_ok (b : block) : Prop :=
  (length b.1 < scanAhead)%nat /\ Forall (fun d => ceLen d <> ceLen b.2) b.1.

(** Matching the ciphertexts that come out, in order. *)
Fixpoint match_all (lens : list Z) (c : Correlator) : Correlator * list Z :=
  match lens with
  | [] => (c, [])
  | n :: lens =>
      let '(c, x) := MatchCiphertext n c in
      let '(c, xs) := match_all lens c in (c, x :: xs)
  end.

(** C38: Correlation survives loss: when WireGuard keeps the packet order and
    drops fewer than 8 packets in a row, none with the ciphertext length of
    the next packet it sends, every ciphertext is given the class of its own
    plaintext, and the entries of the dropped packets are discarded. *)
Theorem correlator_resync bs c :
  fifo c = bs ≫= block_entries -> Forall block_ok bs ->
  let r := match_all (ceLen ∘ snd <$> bs) c in
  r.2 = (ceClass ∘ snd <$> bs) /\ fifo r.1 = [] /\ miss r.1 = miss c.
Proof.
  intros Hq Hf. revert c Hq. induction Hf as [|[lost e] bs [Hl Hne] _ IH]; intros c Hq; [done|].
  cbn [fmap list_fmap match_all]. cbn [fst snd] in Hl, Hne.
  rewrite bind_cons in Hq. unfold block_entries at 1 in Hq. cbn [fst snd] in Hq. rewrite <- app_assoc in Hq.
  change ((ceLen ∘ snd) (lost, e)) with (ceLen e). rewrite (Match_hit c lost e _ Hq Hl Hne).
  set (c1 := mkCorrelator _ _ _ _). specialize (IH c1 eq_refl).
  change (list_fmap block Z (ceLen ∘ snd) bs) with ((ceLen ∘ snd) <$> bs).
  destruct (match_all _ c1) as [c2 xs]. cbn [fst snd] in *. destruct IH as (-> & -> & ->). done.
Qed.

(** The FIFO never exceeds its cap, whatever the calls, and a match never
    grows it; a length that none of the next 8 entries has falls back to
    BULK, counted as a miss, and leaves the queue alone. *)
Theorem correlator_bounded class n ctLen c :
  (length (fifo c) <= fifoCap)%nat ->
  (length (fifo (PushPlain class n c)) <= fifoCap)%nat /\
  (length (fifo (MatchCiphertext ctLen c).1) <= length (fifo c))%nat /\
  (Forall (fun d => ceLen d <> ctLen) (take scanAhead (fifo c)) ->
   MatchCiphertext ctLen c = (mkCorrelator (fifo c) (hits c) (u64 (miss c + 1)) (drops c), ClassBulk)).
Proof.
  intros Hc. split_and!.
  - unfold PushPlain. case_decide; [|done]. cbn. rewrite length_app. cbn. lia.
  - unfold MatchCiphertext. destruct (scan _ _ _ _) as [[i x]|]; cbn; [rewrite length_drop|]; lia.
  - intros Hf. unfold MatchCiphertext. rewrite scan_miss; [done|].
    case_decide; [done|]. rewrite take_ge by lia. rewrite take_ge in Hf by lia. done.
Qed.

Definition demo_corr : Correlator := PushPlain 2 40 (PushPlain 1 1200 (PushPlain 0 1400 NewCorrelator)).

Lemma correlator_resync_witness :
  (match_all [ExpectedCtLen 1200; ExpectedCtLen 40] demo_corr).2 = [1; 2].
Proof.
  destruct (correlator_resync
    [([mkEntry 0 (ExpectedCtLen 1400)], mkEntry 1 (ExpectedCtLen 1200)); ([], mkEntry 2 (ExpectedCtLen 40))]
    demo_corr) as (H & _); [reflexivity| |exact H].
  apply List.Forall_cons; [|apply List.Forall_cons; [|apply List.Forall_nil]];
    (split; [cbn; unfold scanAhead; lia|]); [|apply List.Forall_nil].
  apply List.Forall_cons; [vm_compute; congruence|apply List.Forall_nil].
Defined.

(** ** bind.go *)

Definition rxQueueLen : nat := 1024.

Section Bind.
(** A pooled packet ([buffers.Packet]) with its endpoint. *)
Context {P : Type}.

(** A buffered Go channel. *)
Record chan := mkChan { items : list P; chan_closed : bool }.

(** [heap] holds every channel [Open] ever made: the receive function it
    returned keeps its own, also after a reopen. *)
Record EngineBind := mkBind {
  heap : list chan;
  b_rx : option nat;
  b_closed : bool;
}.

Inductive bind_error := ErrBindAlreadyOpen | ErrClosed.

(** [Release p] returns the packet's slab to the pool; [Recv i p] hands [p]
    to WireGuard from channel [i]. *)
Inductive bind_event :=
  | BRelease (p : P)
  | BRecv (i : nat) (p : P).

Definition NewEngineBind : EngineBind := mkBind [] None false.

Definition Open (b : EngineBind) : EngineBind * outcome bind_error nat :=
  match b_rx b, b_closed b with
  | Some _, false => (b, Err ErrBindAlreadyOpen)
  | _, _ =>
      (mkBind (heap b ++ [mkChan [] false]) (Some (length (heap b))) false, Ret (length (heap b)))
  end.

(** [close(b.rx)] of a closed or nil channel panics. *)
Definition BindClose (b : EngineBind) : outcome bind_error EngineBind :=
  match b_rx b, b_closed b with
  | Some i, false =>
      match heap b !! i with
      | Some c => if chan_closed c then Panic
                  else Ret (mkBind (<[i := mkChan (items c) true]> (heap b)) (b_rx b) true)
      | None => Panic
      end
  | _, _ => Ret b
  end.

(** The non-blocking send: on a closed channel it panics, on a full one it
    takes the default case. *)
Definition Deliver (p : P) (b : EngineBind) : outcome bind_error (EngineBind * list bind_event * bool) :=
  match b_rx b, b_closed b with
  | Some i, false =>
      match heap b !! i with
      | Some c =>
          if chan_closed c then Panic
          else if decide (length (items c) < rxQueueLen)%nat
          then Ret (mkBind (<[i := mkChan (items c ++ [p]) false]> (heap b)) (b_rx b) (b_closed b), [], true)
          else Ret (b, [BRelease p], false)
      | None => Panic
      end
  | _, _ => Ret (b, [BRelease p], false)
  end.

(** One call of the receive function of channel [i]: [None] blocks; a closed
    channel is drained before it reports [net.ErrClosed]. *)
Definition recv (i : nat) (b : EngineBind) : option (outcome bind_error (EngineBind * list bind_event)) :=
  match heap b !! i with
  | Some (mkChan (p :: rest) cl) =>
      Some (Ret (mkBind (<[i := mkChan rest cl]> (heap b)) (b_rx b) (b_closed b), [BRecv i p; BRelease p]))
  | Some (mkChan [] true) => Some (Err ErrClosed)
  | _ => None
  end.

(** ** Runs of the bind *)

Inductive bind_step : EngineBind -> list P -> list bind_event -> EngineBind -> Prop :=
  | bs_open b b' r : Open b = (b', r) -> bind_step b [] [] b'
  | bs_close b b' : BindClose b = Ret b' -> bind_step b [] [] b'
  | bs_deliver b p b' es ok : Deliver p b = Ret (b', es, ok) -> bind_step b [p] es b'
  | bs_recv b i b' es : recv i b = Some (Ret (b', es)) -> bind_step b [] es b'.

Inductive bind_run : list P -> list bind_event -> EngineBind -> Prop :=
  | br_new : bind_run [] [] NewEngineBind
  | br_step ins es b ins' es' b' :
      bind_run ins es b -> bind_step b ins' es' b' -> bind_run (ins ++ ins') (es ++ es') b'.

(** An open bind has an open channel, and no queue exceeds its capacity. *)
Record wf_bind (b : EngineBind) : Prop := {
  wb_rx : forall i, b_rx b = Some i -> b_closed b = false ->
    exists c, heap b !! i = Some c /\ chan_closed c = false;
  wb_cap : Forall (fun c => (length (items c) <= rxQueueLen)%nat) (heap b);
}.

Definition released (es : list bind_event) : list P :=
  omap (fun e => match e with BRelease p => Some p | _ => None end) es.
Definition queued (b : EngineBind) : list P := heap b ≫= items.

Lemma queued_update hp i c c' : hp !! i = Some c ->
  exists l r, hp ≫= items = l ++ items c ++ r /\ <[i := c']> hp ≫= items = l ++ items c' ++ r.
Proof.
  intros Hi. exists (take i hp ≫= items), (drop (S i) hp ≫= items).
  rewrite <- (take_drop_middle hp i c Hi) at 1. rewrite insert_take_drop by by eapply lookup_lt_Some.
  by rewrite !bind_app.
Qed.

Lemma wf_bind_insert b i c c' cl :
  wf_bind b -> heap b !! i = Some c -> (length (items c') <= rxQueueLen)%nat ->
  (cl = false -> b_closed b = false /\ chan_closed c' = chan_closed c) ->
  wf_bind (mkBind (<[i := c']> (heap b)) (b_rx b) cl).
Proof.
  intros Hw Hi Hc Hcl. pose proof (lookup_lt_Some _ _ _ Hi) as Hlt. constructor; cbn.
  - intros j Hj Hf. destruct (Hcl Hf) as [Hb Hcc]. destruct (wb_rx _ Hw j Hj Hb) as (c0 & Hc0 & Hopen).
    destruct (decide (i = j)) as [<-|Hne].
    + exists c'. rewrite list_lookup_insert_eq by done. split; [done|]. congruence.
    + exists c0. by rewrite list_lookup_insert_ne.
  - apply Forall_insert; [apply Hw|done].
Qed.

Lemma bind_step_wf b ins es b' : wf_bind b -> bind_step b ins es b' ->
  wf_bind b' /\ queued b ++ ins ≡ₚ released es ++ queued b'.
Proof.
  intros Hw Hs. destruct Hs as [b b' r E|b b' E|b p b' es ok E|b i b' es E].
  - unfold Open in E.
    assert (Hnew : wf_bind (mkBind (heap b ++ [mkChan [] false]) (Some (length (heap b))) false)).
    { constructor; cbn.
      - intros i [= <-] _. exists (mkChan [] false). by rewrite list_lookup_middle.
      - apply Forall_app_2; [apply Hw|]. apply List.Forall_cons; [cbn; lia|apply List.Forall_nil]. }
    assert (Hq : queued (mkBind (heap b ++ [mkChan [] false]) (Some (length (heap b))) false) = queued b)
      by (unfold queued; cbn; by rewrite bind_app, app_nil_r).
    destruct (b_rx b), (b_closed b); injection E as <- _; try (split; [done|by rewrite Hq, app_nil_r]).
    split; [done|by rewrite app_nil_r].
  - unfold BindClose in E. rewrite app_nil_r. cbn [released omap list_omap app].
    destruct (b_rx b) as [i|] eqn:Hrx; [|by injection E as <-].
    destruct (b_closed b) eqn:Hcl; [by injection E as <-|].
    destruct (heap b !! i) as [c|] eqn:Hi; [|done]. destruct (chan_closed c); [done|]. injection E as <-.
    pose proof (wb_cap _ Hw) as Hcap. rewrite Forall_lookup in Hcap. specialize (Hcap _ _ Hi). split.
    + rewrite <- Hrx. by eapply wf_bind_insert.
    + destruct (queued_update _ _ _ (mkChan (items c) true) Hi) as (l & r & E1 & E2).
      unfold queued. cbn. by rewrite E1, E2.
  - unfold Deliver in E. destruct (b_rx b) as [i|] eqn:Hrx.
    2:{ injection E as <- <- _. split; [done|]. cbn. by rewrite Permutation_app_comm. }
    destruct (b_closed b) eqn:Hcl.
    { injection E as <- <- _. split; [done|]. cbn. by rewrite Permutation_app_comm. }
    destruct (heap b !! i) as [c|] eqn:Hi; [|done]. destruct (chan_closed c) eqn:Hcc; [done|].
    case_decide as Hlen; injection E as <- <- _.
    + split.
      * rewrite <- Hrx. eapply wf_bind_insert; [done|done|cbn; rewrite length_app; cbn; lia|].
        intros _. split; [done|]. by rewrite Hcc.
      * destruct (queued_update _ _ _ (mkChan (items c ++ [p]) false) Hi) as (l & r & E1 & E2).
        unfold queued. cbn. rewrite E1, E2. cbn. rewrite <- !app_assoc.
        do 2 apply Permutation_app_head. by rewrite Permutation_app_comm.
    + split; [done|]. cbn. by rewrite Permutation_app_comm.
  - unfold recv in E. destruct (heap b !! i) as [[[|p rest] cl]|] eqn:Hi; [by destruct cl| |done].
    injection E as <- <-. pose proof (wb_cap _ Hw) as Hcap. rewrite Forall_lookup in Hcap.
    specialize (Hcap _ _ Hi). cbn in Hcap. split.
    + eapply wf_bind_insert; [done|done|cbn; lia|done].
    + destruct (queued_update _ _ _ (mkChan rest cl) Hi) as (l & r & E1 & E2).
      unfold queued. cbn. rewrite E1, E2, app_nil_r. cbn. symmetry. apply Permutation_middle.
Qed.

(** The bind between engine and WireGuard: in every run of opens, closes,
    deliveries and receives, no call panics (nothing is sent on or closes a
    closed channel), no queue exceeds 1024 packets, and every packet handed
    over is either still queued or has had its slab released exactly once,
    also across close and reopen. *)
Theorem bind_safe ins es b :
  bind_run ins es b ->
  wf_bind b /\ ins ≡ₚ released es ++ queued b /\
  BindClose b <> Panic /\ forall p, Deliver p b <> Panic.
Proof.
  intros Hr. assert (Hw : wf_bind b /\ ins ≡ₚ released es ++ queued b).
  { induction Hr as [|ins es b ins' es' b' _ [Hw Hp] Hs].
    - split; [|done]. constructor; cbn; [done|constructor].
    - destruct (bind_step_wf _ _ _ _ Hw Hs) as [Hw' Hp']. split; [done|].
      unfold released. rewrite omap_app. fold (released es) (released es').
      by rewrite Hp, <- !app_assoc, <- Hp'. }
  destruct Hw as [Hw Hp]. split_and!; [done|done|..].
  - unfold BindClose. destruct (b_rx b) as [i|] eqn:Hrx; [|done]. destruct (b_closed b) eqn:Hcl; [done|].
    destruct (wb_rx _ Hw i Hrx Hcl) as (c & -> & ->). done.
  - intros p. unfold Deliver. destruct (b_rx b) as [i|] eqn:Hrx; [|done].
    destruct (b_closed b) eqn:Hcl; [done|]. destruct (wb_rx _ Hw i Hrx Hcl) as (c & -> & ->).
    by case_decide.
Qed.

End Bind.

#[global] Arguments EngineBind : clear implicits.

Definition demo_bind : EngineBind Z := mkBind [mkChan [7] false] (Some 0%nat) false.

Lemma bind_safe_witness : wf_bind demo_bind /\ [7] ≡ₚ released [] ++ queued demo_bind.
Proof.
  destruct (bind_safe [7] [] demo_bind) as (H1 & H2 & _); [|exact (conj H1 H2)].
  apply (br_step [] [] (mkBind [mkChan [] false] (Some 0%nat) false) [7] [] demo_bind).
  - apply (br_step [] [] NewEngineBind [] []); [apply br_new|].
    apply (bs_open _ _ (Ret 0%nat)). reflexivity.
  - apply (bs_deliver _ 7 _ [] true). reflexivity.
Defined.
