(* ===== verification/Engine.v ===== *)
(** * The engine: internal/engine/engine.go, internal/buffers/pool.go

    The state of one end of the tunnel and the pieces its two roles share:
    the counters, the packet slabs, the delivery of resequenced ciphertext
    to WireGuard, the classification of outgoing ciphertext. [Client] and
    [Server] build the two datapaths on it. *)

From stdpp Require Import strings.
From S2P Require Import Prelude Wire Control Float64 Sched Link PathSelect Fec Classify.
From S2P Require Import Reorder Wgbridge.
#[local] Open Scope Z_scope.

(** ** The outside world

    What the code asks of its surroundings is answered by an oracle: the
    [k]-th question of a run gets the answer number [k]. [clock] is
    [time.Now()] in nanoseconds since the epoch, [random] is
    [rand.Float64()], [write_ok] and [dial_ok] say whether a socket
    operation succeeded, [garbage] is the content of a slab taken from the
    pool, and [shuffle] the order in which a Go map is traversed. *)
Class World := {
  clock : nat -> Z;
  random : nat -> Q;
  write_ok : nat -> bool;
  dial_ok : nat -> bool;
  garbage : nat -> list Z;
  shuffle : nat -> list Z -> list Z;
}.

(** ** internal/buffers/pool.go *)

Definition SlabSize : nat := 2048.

Class WorldLaws (W : World) : Prop := {
  clock_range : forall k, 0 <= clock k < 2 ^ 62;
  garbage_len : forall k, length (garbage k) = SlabSize;
  garbage_bytes : forall k, is_bytes (garbage k);
  shuffle_perm : forall k l, shuffle k l ≡ₚ l;
}.

(** A slab on loan from the pool. The number tells the loans apart: memory
    that is put back and handed out again is a new loan. *)
Record slab := mkSlab { sl_id : nat; sl_mem : list Z }.

(** [Slab] is a pointer: [None] is nil. *)
Record Packet := mkPacket { Slab : option slab; Off : nat; PktLen : nat }.

#[global] Instance Packet_zero : GoZero Packet := mkPacket None 0 0.

(** The slice of the slab from [Off], [Len] long: a nil slab and bounds that
    do not fit panic. *)
Definition Bytes (p : Packet) : outcome Empty_set (list Z) :=
  match Slab p with
  | Some s => slice (sl_mem s) (Off p) (Off p + PktLen p)
  | None => Panic
  end.

(** [wgbridge.Inbound]; an endpoint is its session id. *)
Record Inbound := mkInbound { inPkt : Packet; inEp : Z }.

(** ** engine.go *)

Record fecTag := mkTag { tag_on : bool; tag_group : Z; tag_index : Z }.
Definition noTag : fecTag := mkTag false 0 0.

Record Counters := mkCounters {
  TxPackets : Z;
  TxBytes : Z;
  RxPackets : Z;
  RxBytes : Z;
  TxDropNoPath : Z;
  RxDropUnknown : Z;
  RxDropQueue : Z;
  RxDropMalformed : Z;
  AQMDrops : Z;
}.

Definition set_TxPackets (x : Z) (c : Counters) : Counters := mkCounters x (TxBytes c) (RxPackets
  c) (RxBytes c) (TxDropNoPath c) (RxDropUnknown c) (RxDropQueue c) (RxDropMalformed c) (AQMDrops
  c).
Definition set_TxBytes (x : Z) (c : Counters) : Counters := mkCounters (TxPackets c) x (RxPackets
  c) (RxBytes c) (TxDropNoPath c) (RxDropUnknown c) (RxDropQueue c) (RxDropMalformed c) (AQMDrops
  c).
Definition set_RxPackets (x : Z) (c : Counters) : Counters := mkCounters (TxPackets c) (TxBytes c)
  x (RxBytes c) (TxDropNoPath c) (RxDropUnknown c) (RxDropQueue c) (RxDropMalformed c) (AQMDrops
  c).
Definition set_RxBytes (x : Z) (c : Counters) : Counters := mkCounters (TxPackets c) (TxBytes c)
  (RxPackets c) x (TxDropNoPath c) (RxDropUnknown c) (RxDropQueue c) (RxDropMalformed c) (AQMDrops
  c).
Definition set_TxDropNoPath (x : Z) (c : Counters) : Counters := mkCounters (TxPackets c) (TxBytes
  c) (RxPackets c) (RxBytes c) x (RxDropUnknown c) (RxDropQueue c) (RxDropMalformed c) (AQMDrops
  c).
Definition set_RxDropUnknown (x : Z) (c : Counters) : Counters := mkCounters (TxPackets c)
  (TxBytes c) (RxPackets c) (RxBytes c) (TxDropNoPath c) x (RxDropQueue c) (RxDropMalformed c)
  (AQMDrops c).
Definition set_RxDropQueue (x : Z) (c : Counters) : Counters := mkCounters (TxPackets c) (TxBytes
  c) (RxPackets c) (RxBytes c) (TxDropNoPath c) (RxDropUnknown c) x (RxDropMalformed c) (AQMDrops
  c).
Definition set_RxDropMalformed (x : Z) (c : Counters) : Counters := mkCounters (TxPackets c)
  (TxBytes c) (RxPackets c) (RxBytes c) (TxDropNoPath c) (RxDropUnknown c) (RxDropQueue c) x
  (AQMDrops c).
Definition set_AQMDrops (x : Z) (c : Counters) : Counters := mkCounters (TxPackets c) (TxBytes c)
  (RxPackets c) (RxBytes c) (TxDropNoPath c) (RxDropUnknown c) (RxDropQueue c) (RxDropMalformed c)
  x.

Definition zeroCounters : Counters := mkCounters 0 0 0 0 0 0 0 0 0.

(** The configuration of an engine; the logger is left out. [cfgMode] is the
    role, [cfgMAC] the control-plane key, [cfgForce] the forced FEC geometry. *)
Inductive Mode := ModeClient | ModeServer.

Record Config := mkConfig {
  cfgMode : Mode;
  cfgMAC : MAC;
  cfgSession : Z;
  cfgClientID : Z;
  cfgClassifier : option Classify.Classifier;
  cfgFECDisabled : bool;
  cfgFECForce : Params;
}.

(** The client's view of one WAN uplink (client.go). [conn] is the number of
    the current socket. *)
Record Path := mkPath {
  pID : Z;
  pName : string;
  conn : option nat;
  pclosed : bool;
  pathSeq : Z;
  registered : bool;
  lastRxNano : Z;
  lastHello : Z;
  lastRedial : Z;
  pLink : Link;
  pRx : RxStats;
}.

Definition set_conn (x : option nat) (p : Path) : Path := mkPath (pID p) (pName p) x (pclosed p)
  (pathSeq p) (registered p) (lastRxNano p) (lastHello p) (lastRedial p) (pLink p) (pRx p).
Definition set_pclosed (x : bool) (p : Path) : Path := mkPath (pID p) (pName p) (conn p) x
  (pathSeq p) (registered p) (lastRxNano p) (lastHello p) (lastRedial p) (pLink p) (pRx p).
Definition set_pathSeq (x : Z) (p : Path) : Path := mkPath (pID p) (pName p) (conn p) (pclosed p)
  x (registered p) (lastRxNano p) (lastHello p) (lastRedial p) (pLink p) (pRx p).
Definition set_registered (x : bool) (p : Path) : Path := mkPath (pID p) (pName p) (conn p)
  (pclosed p) (pathSeq p) x (lastRxNano p) (lastHello p) (lastRedial p) (pLink p) (pRx p).
Definition set_lastRxNano (x : Z) (p : Path) : Path := mkPath (pID p) (pName p) (conn p) (pclosed
  p) (pathSeq p) (registered p) x (lastHello p) (lastRedial p) (pLink p) (pRx p).
Definition set_lastHello (x : Z) (p : Path) : Path := mkPath (pID p) (pName p) (conn p) (pclosed
  p) (pathSeq p) (registered p) (lastRxNano p) x (lastRedial p) (pLink p) (pRx p).
Definition set_lastRedial (x : Z) (p : Path) : Path := mkPath (pID p) (pName p) (conn p) (pclosed
  p) (pathSeq p) (registered p) (lastRxNano p) (lastHello p) x (pLink p) (pRx p).
Definition set_pLink (x : Link) (p : Path) : Path := mkPath (pID p) (pName p) (conn p) (pclosed p)
  (pathSeq p) (registered p) (lastRxNano p) (lastHello p) (lastRedial p) x (pRx p).
Definition set_pRx (x : RxStats) (p : Path) : Path := mkPath (pID p) (pName p) (conn p) (pclosed
  p) (pathSeq p) (registered p) (lastRxNano p) (lastHello p) (lastRedial p) (pLink p) x.

(** An address and port of the network ([netip.AddrPort]). *)
Definition AddrPort : Type := list Z * Z.

(** The server's view of one client path, and of a client (server.go). *)
Record pathState := mkPathState {
  psId : Z;
  psAddr : AddrPort;
  psLastRx : Z;
  psLink : Link;
  psRx : RxStats;
}.

Definition set_psLink (x : Link) (p : pathState) : pathState := mkPathState (psId p) (psAddr p)
  (psLastRx p) x (psRx p).
Definition set_psRx (x : RxStats) (p : pathState) : pathState := mkPathState (psId p) (psAddr p)
  (psLastRx p) (psLink p) x.

Record Session := mkSession {
  sID : Z;
  sClientID : Z;
  sPaths : gmap Z pathState;
  lastSeen : Z;
  sGlobalSeq : Z;
  sRtSeq : Z;
  sPathSeq : gmap Z Z;
  sReorder : Buffer Packet;
  sSched : Weighted;
  sEnc : option Encoder;
  sDec : option Decoder;
}.

Definition set_sPaths (x : gmap Z pathState) (s : Session) : Session := mkSession (sID s)
  (sClientID s) x (lastSeen s) (sGlobalSeq s) (sRtSeq s) (sPathSeq s) (sReorder s) (sSched s)
  (sEnc s) (sDec s).
Definition set_lastSeen (x : Z) (s : Session) : Session := mkSession (sID s) (sClientID s) (sPaths
  s) x (sGlobalSeq s) (sRtSeq s) (sPathSeq s) (sReorder s) (sSched s) (sEnc s) (sDec s).
Definition set_sGlobalSeq (x : Z) (s : Session) : Session := mkSession (sID s) (sClientID s)
  (sPaths s) (lastSeen s) x (sRtSeq s) (sPathSeq s) (sReorder s) (sSched s) (sEnc s) (sDec s).
Definition set_sRtSeq (x : Z) (s : Session) : Session := mkSession (sID s) (sClientID s) (sPaths
  s) (lastSeen s) (sGlobalSeq s) x (sPathSeq s) (sReorder s) (sSched s) (sEnc s) (sDec s).
Definition set_sPathSeq (x : gmap Z Z) (s : Session) : Session := mkSession (sID s) (sClientID s)
  (sPaths s) (lastSeen s) (sGlobalSeq s) (sRtSeq s) x (sReorder s) (sSched s) (sEnc s) (sDec s).
Definition set_sReorder (x : Buffer Packet) (s : Session) : Session := mkSession (sID s)
  (sClientID s) (sPaths s) (lastSeen s) (sGlobalSeq s) (sRtSeq s) (sPathSeq s) x (sSched s) (sEnc
  s) (sDec s).
Definition set_sSched (x : Weighted) (s : Session) : Session := mkSession (sID s) (sClientID s)
  (sPaths s) (lastSeen s) (sGlobalSeq s) (sRtSeq s) (sPathSeq s) (sReorder s) x (sEnc s) (sDec s).
Definition set_sEnc (x : option Encoder) (s : Session) : Session := mkSession (sID s) (sClientID
  s) (sPaths s) (lastSeen s) (sGlobalSeq s) (sRtSeq s) (sPathSeq s) (sReorder s) (sSched s) x
  (sDec s).
Definition set_sDec (x : option Decoder) (s : Session) : Session := mkSession (sID s) (sClientID
  s) (sPaths s) (lastSeen s) (sGlobalSeq s) (sRtSeq s) (sPathSeq s) (sReorder s) (sSched s) (sEnc
  s) x.

(** The engine: the fields of both roles, the client's and the server's, as
    in the source. [ticks] counts the questions asked of the world. *)
Record Engine := mkEngine {
  ticks : nat;
  start : Z;
  Stats : Counters;
  classifier : option Classify.Classifier;
  correlator : Correlator;
  bind : EngineBind Inbound;
  rtSeq : Z;
  globalSeq : Z;
  fecEnc : option Encoder;
  fecDec : option Decoder;
  paths : list Path;
  wsched : Weighted;
  reorderBuf : Buffer Packet;
  pending : list (list Z);
  sessions : gmap Z Session;
}.

Definition set_ticks (x : nat) (e : Engine) : Engine := mkEngine x (start e) (Stats e) (classifier
  e) (correlator e) (bind e) (rtSeq e) (globalSeq e) (fecEnc e) (fecDec e) (paths e) (wsched e)
  (reorderBuf e) (pending e) (sessions e).
Definition set_Stats (x : Counters) (e : Engine) : Engine := mkEngine (ticks e) (start e) x
  (classifier e) (correlator e) (bind e) (rtSeq e) (globalSeq e) (fecEnc e) (fecDec e) (paths e)
  (wsched e) (reorderBuf e) (pending e) (sessions e).
Definition set_classifier (x : option Classify.Classifier) (e : Engine) : Engine := mkEngine
  (ticks e) (start e) (Stats e) x (correlator e) (bind e) (rtSeq e) (globalSeq e) (fecEnc e)
  (fecDec e) (paths e) (wsched e) (reorderBuf e) (pending e) (sessions e).
Definition set_correlator (x : Correlator) (e : Engine) : Engine := mkEngine (ticks e) (start e)
  (Stats e) (classifier e) x (bind e) (rtSeq e) (globalSeq e) (fecEnc e) (fecDec e) (paths e)
  (wsched e) (reorderBuf e) (pending e) (sessions e).
Definition set_bind (x : EngineBind Inbound) (e : Engine) : Engine := mkEngine (ticks e) (start e)
  (Stats e) (classifier e) (correlator e) x (rtSeq e) (globalSeq e) (fecEnc e) (fecDec e) (paths
  e) (wsched e) (reorderBuf e) (pending e) (sessions e).
Definition set_rtSeq (x : Z) (e : Engine) : Engine := mkEngine (ticks e) (start e) (Stats e)
  (classifier e) (correlator e) (bind e) x (globalSeq e) (fecEnc e) (fecDec e) (paths e) (wsched
  e) (reorderBuf e) (pending e) (sessions e).
Definition set_globalSeq (x : Z) (e : Engine) : Engine := mkEngine (ticks e) (start e) (Stats e)
  (classifier e) (correlator e) (bind e) (rtSeq e) x (fecEnc e) (fecDec e) (paths e) (wsched e)
  (reorderBuf e) (pending e) (sessions e).
Definition set_fecEnc (x : option Encoder) (e : Engine) : Engine := mkEngine (ticks e) (start e)
  (Stats e) (classifier e) (correlator e) (bind e) (rtSeq e) (globalSeq e) x (fecDec e) (paths e)
  (wsched e) (reorderBuf e) (pending e) (sessions e).
Definition set_fecDec (x : option Decoder) (e : Engine) : Engine := mkEngine (ticks e) (start e)
  (Stats e) (classifier e) (correlator e) (bind e) (rtSeq e) (globalSeq e) (fecEnc e) x (paths e)
  (wsched e) (reorderBuf e) (pending e) (sessions e).
Definition set_paths (x : list Path) (e : Engine) : Engine := mkEngine (ticks e) (start e) (Stats
  e) (classifier e) (correlator e) (bind e) (rtSeq e) (globalSeq e) (fecEnc e) (fecDec e) x
  (wsched e) (reorderBuf e) (pending e) (sessions e).
Definition set_wsched (x : Weighted) (e : Engine) : Engine := mkEngine (ticks e) (start e) (Stats
  e) (classifier e) (correlator e) (bind e) (rtSeq e) (globalSeq e) (fecEnc e) (fecDec e) (paths
  e) x (reorderBuf e) (pending e) (sessions e).
Definition set_reorderBuf (x : Buffer Packet) (e : Engine) : Engine := mkEngine (ticks e) (start
  e) (Stats e) (classifier e) (correlator e) (bind e) (rtSeq e) (globalSeq e) (fecEnc e) (fecDec
  e) (paths e) (wsched e) x (pending e) (sessions e).
Definition set_pending (x : list (list Z)) (e : Engine) : Engine := mkEngine (ticks e) (start e)
  (Stats e) (classifier e) (correlator e) (bind e) (rtSeq e) (globalSeq e) (fecEnc e) (fecDec e)
  (paths e) (wsched e) (reorderBuf e) x (sessions e).
Definition set_sessions (x : gmap Z Session) (e : Engine) : Engine := mkEngine (ticks e) (start e)
  (Stats e) (classifier e) (correlator e) (bind e) (rtSeq e) (globalSeq e) (fecEnc e) (fecDec e)
  (paths e) (wsched e) (reorderBuf e) (pending e) x.

(** ** The engine monad

    A handler threads the engine, records what it does to the world, and may
    panic. *)

Inductive dest := OnPath (i : nat) | ToAddr (a : AddrPort).

(** [Sent d b ok]: datagram [b] was written to a socket, successfully or
    not. [SlabGet], [SlabPut]: a slab was taken from and returned to the
    pool. [Up ep b]: WireGuard received ciphertext [b] from [ep].
    [SockOpen], [SockClose]: a socket was made and closed. [TimerArm ep d],
    [TimerStop ep]: the gap timer of a reorder buffer. *)
Inductive ev :=
  | Sent (d : dest) (b : list Z) (ok : bool)
  | SlabGet (id : nat)
  | SlabPut (id : nat)
  | ToWireGuard (ep : Z) (b : list Z)
  | SockOpen (k : nat)
  | SockClose (k : nat)
  | TimerArm (ep d : Z)
  | TimerStop (ep : Z).

Definition eng (A : Type) : Type := Engine -> outcome Empty_set (Engine * list ev * A).

#[global] Instance eng_ret : MRet eng := fun A a s => Ret (s, [], a).
#[global] Instance eng_bind : MBind eng := fun A B f m s =>
  match m s with
  | Ret (s1, e1, a) =>
      match f a s1 with
      | Ret (s2, e2, b) => Ret (s2, e1 ++ e2, b)
      | Err e => Err e
      | Panic => Panic
      end
  | Err e => Err e
  | Panic => Panic
  end.

Definition gets {A} (f : Engine -> A) : eng A := fun s => Ret (s, [], f s).
Definition modify (f : Engine -> Engine) : eng unit := fun s => Ret (f s, [], tt).
Definition tell (e : ev) : eng unit := fun s => Ret (s, [e], tt).
Definition panic {A} : eng A := fun _ => Panic.

(** The next answer of the world. *)
Definition ask {A} (f : nat -> A) : eng A := fun s => Ret (set_ticks (S (ticks s)) s, [], f (ticks s)).

(** A call that returns an [error] besides its result: [None] when it does. *)
Definition try {E A} (o : outcome E A) : eng (option A) :=
  match o with Ret a => mret (Some a) | Err _ => mret None | Panic => panic end.

(** A call that returns no [error]. *)
Definition must {E A} (o : outcome E A) : eng A :=
  match o with Ret a => mret a | _ => panic end.

(** [l[i]]: panics out of range. *)
Definition at_ {A} (l : list A) (i : Z) : eng A :=
  if i <? 0 then panic else match l !! Z.to_nat i with Some x => mret x | None => panic end.

Definition count (set : Z -> Counters -> Counters) (get : Counters -> Z) (n : Z) : eng unit :=
  modify (fun s => set_Stats (set (u64 (get (Stats s) + n)) (Stats s)) s).

Definition when (b : bool) (m : eng unit) : eng unit := if b then m else mret tt.

(** [for _, x := range l]: the bodies in order. *)
Fixpoint forEach {A} (f : A -> eng unit) (l : list A) : eng unit :=
  match l with
  | [] => mret tt
  | x :: l => _ ← f x; forEach f l
  end.

Fixpoint mapEach {A B} (f : A -> eng B) (l : list A) : eng (list B) :=
  match l with
  | [] => mret []
  | x :: l => y ← f x; ys ← mapEach f l; mret (y :: ys)
  end.

Section Engine.
Context `{Rounding} `{Blake2s} `{ReedSolomon} `{MapOrder} `{World}.
Context (cfg : Config).

(** [time.Now()] and, where the code converts it, [time.Now().Unix()]. *)
Definition now : eng Z := ask clock.
Definition unix (t : Z) : Z := t / Second.

(** The zero [time.Time], 1 January of year 1. *)
Definition zeroTime : Z := - 62135596800 * Second.

(** [time.Since(e.start).Microseconds()], at full and at 32-bit width. *)
Definition nowUS : eng Z :=
  t ← now; s ← gets start; mret (u64 (Z.quot (Sub t s) Microsecond)).
Definition txTS : eng Z :=
  t ← now; s ← gets start; mret (u32 (Z.quot (Sub t s) Microsecond)).

(** [buffers.Get] and [buffers.Put]. *)
Definition Get : eng slab :=
  s ← ask (fun k => mkSlab k (garbage k)); _ ← tell (SlabGet (sl_id s)); mret s.
Definition Put (s : slab) : eng unit := tell (SlabPut (sl_id s)).

Definition Release (p : Packet) : eng unit :=
  match Slab p with Some s => Put s | None => mret tt end.

(** A datagram read into a slab, cut at its end as a UDP read does. *)
Definition readInto (sl : slab) (dgram : list Z) : slab :=
  let d := take (length (sl_mem sl)) dgram in
  mkSlab (sl_id sl) (d ++ drop (length d) (sl_mem sl)).

(** ** Delivery to WireGuard *)

(** [e.bind.Deliver(pkt, ep)]. *)
Definition deliver (pkt : Packet) (ep : Z) : eng bool :=
  b ← gets bind;
  r ← must (Wgbridge.Deliver (mkInbound pkt ep) b);
  let '(b, es, ok) := r in
  _ ← modify (set_bind b);
  _ ← forEach (fun e => match e with BRelease i => Release (inPkt i) | BRecv _ _ => mret tt end) es;
  mret ok.

(** [if !e.bind.Deliver(pkt, ep) { e.Stats.RxDropQueue.Add(1) }] *)
Definition deliverOrCount (pkt : Packet) (ep : Z) : eng unit :=
  ok ← deliver pkt ep;
  when (negb ok) (count set_RxDropQueue RxDropQueue 1).

(** The callbacks [newReorder] gives a resequencing buffer, and its timer. *)
Definition onReorder (ep : Z) (e : Reorder.event Packet) : eng unit :=
  match e with
  | Reorder.Deliver pkt _ => deliverOrCount pkt ep
  | Drop pkt => Release pkt
  | AfterFunc d => tell (TimerArm ep d)
  | StopTimer => tell (TimerStop ep)
  end.

(** One receive call of WireGuard on channel [i] of the bind; [false] when
    nothing is received (it blocks, or the channel was closed). *)
Definition wgRecv (i : nat) : eng bool :=
  b ← gets bind;
  match recv i b with
  | Some (Ret (b, es)) =>
      _ ← modify (set_bind b);
      _ ← forEach (fun e => match e with
            | BRecv _ p => b ← must (Bytes (inPkt p)); tell (ToWireGuard (inEp p) b)
            | BRelease p => Release (inPkt p)
            end) es;
      mret true
  | Some (Err _) | None => mret false
  | Some Panic => panic
  end.

(** ** Classes *)

(** The hook on outbound plaintext: [Inspect] is nil without a classifier. *)
Definition inspect (pkt : list Z) : eng unit :=
  cl ← gets classifier;
  match cl with
  | None => mret tt
  | Some c =>
      r ← must (Classify.Classify pkt c);
      _ ← modify (set_classifier (Some r.1));
      modify (fun s => set_correlator (PushPlain r.2 (Z.of_nat (length pkt)) (correlator s)) s)
  end.

Definition classifyCt (ct : list Z) : eng Z :=
  if decide (length ct < 4)%nat then mret ClassInteractive else
  t ← must (@idx Empty_set _ ct 0);
  if negb (t =? 4) then mret ClassInteractive else
  if decide (length ct = 32)%nat then mret ClassInteractive else
  cl ← gets classifier;
  match cl with
  | None => mret ClassBulk
  | Some _ =>
      c ← gets correlator;
      let '(c, class) := MatchCiphertext (Z.of_nat (length ct)) c in
      _ ← modify (set_correlator c);
      mret class
  end.

(** ** FEC *)

(** [retuneFEC] on an encoder; nil stays nil. *)
Definition retuneFEC (enc : option Encoder) (snaps : list Link.Snapshot) : option Encoder :=
  match enc with
  | None => None
  | Some e =>
      let params := cfgFECForce cfg in
      let params := if pK params =? 0 then PickParams (WeightedLoss snaps) else params in
      Some (SetParams params e)
  end.

(** The recovery callback: a fresh slab for the repaired ciphertext ([copy]
    stops at the slab's end), pushed into the resequencing buffer by [push]. *)
Definition recover (push : Z -> Packet -> eng unit) (e : fec_event) : eng unit :=
  match e with
  | Recovered seq ct =>
      s ← Get;
      let n := Nat.min (length (sl_mem s)) (length ct) in
      let mem := take n ct ++ drop n (sl_mem s) in
      push seq (mkPacket (Some (mkSlab (sl_id s) mem)) 0 n)
  | EmitParity _ _ _ _ _ => mret tt
  end.

(** ** Framing *)

Definition dataFlags (class : Z) (dup : bool) (tag : fecTag) : Z :=
  let flags := ClassFlags class in
  let flags := if dup then Z.lor flags FlagDup else flags in
  if tag_on tag then Z.lor flags FlagFECInfo else flags.

(** Copying [b] into a slab behind a header of [n] bytes, after the check
    that it fits, and the datagram of [n + len(b)] bytes that is sent. *)
Definition fill (mem : list Z) (n : nat) (b : list Z) : list Z :=
  take (n + length b) (take n mem ++ b ++ drop (n + length b) mem).

(** The round-trip time of an acknowledgement: the 64-bit arithmetic of the
    probe handlers. *)
Definition ackRTT (us : Z) (ack : ProbeAck) : Z :=
  i64 (i64 (i64 (u64 (us - paTxTS ack)) * Microsecond) - i64 (HoldUS ack * Microsecond)).

(** The engine [New] returns; [t] is its reading of the clock. *)
Definition NewEngine (t : Z) : Engine :=
  let fec := match cfgMode cfg with ModeClient => negb (cfgFECDisabled cfg) | ModeServer => false end in
  mkEngine 0 t zeroCounters (cfgClassifier cfg) NewCorrelator NewEngineBind 0 0
    (if fec then Some (SetParams (cfgFECForce cfg) NewEncoder) else None)
    (if fec then Some NewDecoder else None)
    [] NewWeighted Reorder.New [] ∅.

End Engine.
