(* ===== verification/Client.v ===== *)
(** * The client datapath: internal/engine/client.go

    The sockets of the WAN uplinks, the scheduling of outgoing ciphertext,
    the handling of datagrams from the server and the bodies of the periodic
    loops. A [Path] pointer is the index of the path in [paths], to which
    paths are only ever appended. *)

From stdpp Require Import strings.
From S2P Require Import Prelude Wire Control Float64 Sched Link PathSelect Fec Reorder.
From S2P Require Import Wgbridge Engine.
#[local] Open Scope Z_scope.

Definition helloRetry : Z := 1 * Second.
Definition helloRefresh : Z := 15 * Second.
Definition ctrlBusy : Z := 50 * Millisecond.
Definition ctrlIdle : Z := 250 * Millisecond.
Definition holdRetune : Z := 250 * Millisecond.
Definition fecRetune : Z := 1 * Second.
Definition redialEvery : Z := 2 * Second.
Definition pendingCap : nat := 64.

Section Client.
Context `{Rounding} `{Blake2s} `{ReedSolomon} `{MapOrder} `{World}.
Context (cfg : Config).

Definition pathAt (i : nat) : eng Path :=
  ps ← gets paths; at_ ps (Z.of_nat i).
(** An update through [paths[i]]: an index out of range panics. *)
Definition updPath (i : nat) (f : Path -> Path) : eng unit :=
  _ ← pathAt i;
  modify (fun s => set_paths (alter f i (paths s)) s).
Definition onLink (f : Link -> Link) (p : Path) : Path := set_pLink (f (pLink p)) p.

(** ** Sockets *)

(** [p.write(b)]: [false] is an error. *)
Definition write (i : nat) (b : list Z) : eng bool :=
  p ← pathAt i;
  match conn p with
  | None => mret false
  | Some _ => ok ← ask write_ok; _ ← tell (Sent (OnPath i) b ok); mret ok
  end.

(** [p.dial()]: [dial_ok] covers address resolution and [net.DialUDP]. *)
Definition dial (i : nat) : eng bool :=
  k ← gets ticks;
  ok ← ask dial_ok;
  if negb ok then mret false else
  _ ← tell (SockOpen k);
  p ← pathAt i;
  if pclosed p then _ ← tell (SockClose k); mret false
  else
    _ ← updPath i (set_conn (Some k));
    _ ← match conn p with Some old => tell (SockClose old) | None => mret tt end;
    mret true.

Definition closePath (i : nat) : eng unit :=
  p ← pathAt i;
  _ ← updPath i (set_pclosed true);
  match conn p with
  | Some k => _ ← tell (SockClose k); updPath i (set_conn None)
  | None => mret tt
  end.

(** Returns whether the first dial succeeded; the path is kept either way. *)
Definition AddPath (name : string) : eng bool :=
  t ← now;
  i ← gets (fun s => length (paths s));
  _ ← modify (fun s => set_paths (paths s ++
        [mkPath (u8 (Z.of_nat i)) name None false 0 false 0 0 t NewLink NewRxStats]) s);
  dial i.

(** ** Choosing paths *)

Definition allPaths : eng (list nat) := gets (fun s => seq 0 (length (paths s))).

Definition activePath : eng (option nat) :=
  gets (fun s => fst <$> list_find (fun p => registered p = true) (paths s)).

(** One turn of [WaitReady]'s loop, up to its [select]: [None] while no path
    is registered and the deadline has not passed. *)
Inductive ready := Ready | Cancelled | TimedOut.

Definition pollReady (deadline : Z) : eng (option ready) :=
  t ← now;
  if t <? deadline then
    p ← activePath;
    mret (match p with Some _ => Some Ready | None => None end)
  else mret (Some TimedOut).

(** The indices of the paths that satisfy [f]. *)
Definition indices (f : Path -> bool) (ps : list Path) : list nat :=
  fst <$> filter (fun ip => f ip.2 = true) (imap pair ps).

Definition sendable (ps : list Path) : list nat :=
  let up := indices (fun p => registered p && Link.Up (pLink p)) ps in
  if decide (0 < length up)%nat then up else indices registered ps.

Definition sendablePaths : eng (list nat) := gets (fun s => sendable (paths s)).

(** The path the weighted scheduler picks among several. *)
Definition stripe (ix : list nat) : eng nat :=
  if decide (length ix = 1)%nat then at_ ix 0 else
  ps ← mapEach pathAt ix;
  w ← gets wsched;
  r ← must (Pick (pID <$> ps) ((fun p => Weight (pLink p)) <$> ps) w);
  _ ← modify (set_wsched r.1);
  at_ ix r.2.

(** ** Sending *)

Definition sendDataOn (i : nat) (class : Z) (dup : bool) (session sq : Z) (tag : fecTag)
    (ct : list Z) : eng unit :=
  sl ← Get;
  p ← pathAt i;
  let p := set_pathSeq (u32 (pathSeq p + 1)) p in
  _ ← updPath i (set_pathSeq (pathSeq p));
  ts ← txTS;
  let d := mkDataHeader (mkHeader TypeData (dataFlags class dup tag) (pID p) 0)
             session sq (pathSeq p) ts (tag_group tag) (tag_index tag) in
  r ← must (PutDataHeader (sl_mem sl) d);
  let '(mem, n) := r in
  _ ← (if decide (length mem < n + length ct)%nat then count set_RxDropMalformed RxDropMalformed 1
       else
         ok ← write i (fill mem n ct);
         if negb ok then updPath i (onLink MarkDown)
         else
           _ ← count set_TxPackets TxPackets 1;
           count set_TxBytes TxBytes (Z.of_nat (n + length ct)));
  Put sl.

Definition clientEmitParity (e : fec_event) : eng unit :=
  match e with
  | Recovered _ _ => mret tt
  | EmitParity grp index k m shard =>
      ix ← sendablePaths;
      if decide (length ix = 0)%nat then mret tt else
      i ← stripe ix;
      sl ← Get;
      p ← pathAt i;
      let f := mkFECHeader (mkHeader 0 0 (pID p) 0) (cfgSession cfg) grp index k m
                 (u16 (Z.of_nat (length shard))) in
      r ← must (PutFECHeader (sl_mem sl) f);
      let '(mem, n) := r in
      _ ← (if decide (length mem < n + length shard)%nat then mret tt
           else
             ok ← write i (fill mem n shard);
             when ok (_ ← count set_TxPackets TxPackets 1;
                      count set_TxBytes TxBytes (Z.of_nat (n + length shard))));
      Put sl
  end.

(** [e.rtSeq.Add(1)] and [e.globalSeq.Add(1)]. *)
Definition nextRt : eng Z :=
  _ ← modify (fun s => set_rtSeq (u32 (rtSeq s + 1)) s); gets rtSeq.
Definition nextGlobal : eng Z :=
  _ ← modify (fun s => set_globalSeq (u32 (globalSeq s + 1)) s); gets globalSeq.

(** [e.fecEnc.Add]: parity of a completed group is sent before it returns. *)
Definition fecAdd (sq : Z) (ct : list Z) : eng fecTag :=
  enc ← gets fecEnc;
  match enc with
  | None => mret noTag
  | Some enc =>
      t ← now;
      let '(enc, es, stamp) := Fec.Add sq ct t enc in
      _ ← modify (set_fecEnc (Some enc));
      _ ← forEach clientEmitParity es;
      mret (match stamp with Some (g, i) => mkTag true g i | None => noTag end)
  end.

(** Early drop with the path's probability. *)
Definition aqm (prob : Q) : eng bool :=
  if Qltb 0 prob then r ← ask random; mret (Qltb r prob) else mret false.

(** The bulk tail of [clientSend]: stripe, early drop, number, protect, send. *)
Definition sendBulk (ix : list nat) (ct : list Z) : eng unit :=
  i ← stripe ix;
  p ← pathAt i;
  drop ← aqm (DropProb (pLink p));
  if drop : bool then count set_AQMDrops AQMDrops 1
  else
    sq ← nextGlobal;
    tag ← fecAdd sq ct;
    sendDataOn i ClassBulk false (cfgSession cfg) sq tag ct.

Definition holdPending (ct : list Z) : eng unit :=
  ps ← gets pending;
  if decide (pendingCap <= length ps)%nat then count set_TxDropNoPath TxDropNoPath 1
  else modify (set_pending (ps ++ [ct])).

(** The body of [clientSend]'s loop. *)
Definition sendOne (ct : list Z) : eng unit :=
  ix ← sendablePaths;
  if decide (length ix = 0)%nat then holdPending ct else
  class ← classifyCt ct;
  if bool_decide (length ix = 1)%nat && negb (class =? ClassBulk) then
    i ← at_ ix 0;
    sq ← nextRt;
    sendDataOn i class false (cfgSession cfg) sq noTag ct
  else if (class =? ClassRealtime) || (class =? ClassInteractive) then
    ps ← mapEach pathAt ix;
    let '(first, second) := BestPair ((fun p => LinkSnapshot (pLink p)) <$> ps) in
    if first <? 0 then sendBulk ix ct
    else
      sq ← nextRt;
      i ← at_ ix first;
      _ ← sendDataOn i class false (cfgSession cfg) sq noTag ct;
      when ((class =? ClassRealtime) && (0 <=? second))
        (j ← at_ ix second; sendDataOn j class true (cfgSession cfg) sq noTag ct)
  else sendBulk ix ct.

Definition clientSend (bufs : list (list Z)) : eng unit := forEach sendOne bufs.

Definition flushPending : eng unit :=
  staged ← gets pending;
  _ ← modify (set_pending []);
  if decide (length staged = 0)%nat then mret tt else clientSend staged.

(** [e.fecEnc.Flush(now)] of the flush ticker, which does not check the
    encoder it dereferences. *)
Definition fecFlushTick : eng unit :=
  t ← now;
  enc ← gets fecEnc;
  match enc with
  | None => panic
  | Some enc =>
      let '(enc, es) := Fec.Flush t enc in
      _ ← modify (set_fecEnc (Some enc));
      forEach clientEmitParity es
  end.

(** ** Receiving *)

(** An operation of the resequencing buffer, with its callbacks. *)
Definition clientReorder (f : act (Buffer Packet) (Reorder.event Packet)) : eng unit :=
  b ← gets reorderBuf;
  let '(b, es) := f b in
  _ ← modify (set_reorderBuf b);
  forEach (onReorder (cfgSession cfg)) es.

Definition clientPush (sq : Z) (pkt : Packet) : eng unit :=
  t ← now; clientReorder (Reorder.Push t sq pkt).

(** The gap timer fires. *)
Definition clientTimer : eng unit := t ← now; clientReorder (Reorder.onTimer t).

(** [e.fecDec.AddData] or [AddParity], with the recovery callback; the
    callback's sequence number is a [uint32]. *)
Definition clientDecode (f : act Decoder fec_event) : eng unit :=
  dec ← gets fecDec;
  match dec with
  | None => mret tt
  | Some dec =>
      let '(dec, es) := f dec in
      _ ← modify (set_fecDec (Some dec));
      forEach (recover (fun sq pkt => clientPush (u32 sq) pkt)) es
  end.

Definition onClientCtrl (c : Ctrl) (t : Z) : eng unit :=
  n ← gets (fun s => length (paths s));
  forEach (fun ps =>
    when (psPathID ps <? Z.of_nat n)
      (updPath (Z.to_nat (psPathID ps))
         (onLink (OnCtrl (Highest ps) (RxPkts ps) (Control.RxBytes ps) (i32 (OwdMinUS ps))
            (i32 (OwdAvgUS ps)) t)))) (ctPaths c).

Definition onData (i : nat) (sl : slab) (n : nat) (d : DataHeader) (payload : list Z) (t : Z)
    : eng unit :=
  _ ← updPath i (set_lastRxNano t);
  ts ← txTS;
  _ ← updPath i (fun p =>
        set_pRx (OnData (dPathSeq d) (Z.of_nat n) (i32 (ts - dTxTS d)) t (pRx p)) p);
  _ ← count set_RxPackets RxPackets 1;
  _ ← count set_RxBytes RxBytes (Z.of_nat n);
  let pkt := mkPacket (Some sl) (Len d) (length payload) in
  if Class (dHeader d) =? ClassBulk then
    _ ← when (hasFEC (dHeader d))
          (clientDecode (AddData (dFECGroup d) (dFECIndex d) (dGlobalSeq d) payload t));
    clientPush (dGlobalSeq d) pkt
  else deliverOrCount pkt (cfgSession cfg).

Definition onFEC (i : nat) (n : nat) (dgram : list Z) (t : Z) : eng unit :=
  r ← try (ParseFEC dgram);
  dec ← gets fecDec;
  match r, dec with
  | Some (f, shard), Some _ =>
      when (fSession f =? cfgSession cfg)
        (_ ← updPath i (set_lastRxNano t);
         _ ← count set_RxPackets RxPackets 1;
         _ ← count set_RxBytes RxBytes (Z.of_nat n);
         clientDecode (AddParity (fGroup f) (fIndex f) (fK f) (fM f) shard t))
  | _, _ => mret tt
  end.

Definition onProbe (i : nat) (dgram : list Z) : eng unit :=
  r ← must (ParseProbe dgram (cfgMAC cfg));
  match r with
  | Some (hh, pr) =>
      when (prSession pr =? cfgSession cfg)
        (ack ← must (EncodeProbeAck (mkHeader 0 0 (hPathID hh) 0)
                (mkProbeAck (prSession pr) (prSeq pr) (prTxTS pr) 0) (cfgMAC cfg));
         _ ← write i ack;
         mret tt)
  | None => mret tt
  end.

Definition onProbeAck (i : nat) (dgram : list Z) (t : Z) : eng unit :=
  r ← must (ParseProbeAck dgram (cfgMAC cfg));
  match r with
  | Some (hh, ack) =>
      p ← pathAt i;
      when ((paSession ack =? cfgSession cfg) && (hPathID hh =? pID p))
        (us ← nowUS;
         _ ← updPath i (onLink (fun l => (OnProbeAck (paSeq ack) (ackRTT us ack) l).1));
         updPath i (set_lastRxNano t))
  | None => mret tt
  end.

Definition onHelloAck (i : nat) (dgram : list Z) (t : Z) : eng unit :=
  r ← must (ParseHello dgram (cfgMAC cfg));
  match r with
  | Some (hh, m) =>
      p ← pathAt i;
      when ((hPathID hh =? pID p) && (heSession m =? cfgSession cfg)
            && (ClientID m =? cfgClientID cfg) && FreshTS (heUnixTS m) (unix t))
        (_ ← updPath i (set_registered true);
         _ ← when (negb (registered p)) flushPending;
         updPath i (set_lastRxNano t))
  | None => mret tt
  end.

Definition handleClientDatagram (i : nat) (sl : slab) (n : nat) : eng unit :=
  dgram ← must (@slice Empty_set _ (sl_mem sl) 0 n);
  h ← try (ParseHeader dgram);
  match h with
  | None => _ ← count set_RxDropMalformed RxDropMalformed 1; Put sl
  | Some h =>
      t ← now;
      if hType h =? TypeData then
        r ← try (ParseDataHeader dgram);
        match r with
        | Some (d, payload) =>
            if negb (dSession d =? cfgSession cfg)
            then _ ← count set_RxDropMalformed RxDropMalformed 1; Put sl
            else onData i sl n d payload t
        | None => _ ← count set_RxDropMalformed RxDropMalformed 1; Put sl
        end
      else
        _ ← (if hType h =? TypeFEC then onFEC i n dgram t
             else if hType h =? TypeProbe then onProbe i dgram
             else if hType h =? TypeProbeAck then onProbeAck i dgram t
             else if hType h =? TypeCtrl then
               r ← must (ParseCtrl dgram (cfgMAC cfg));
               match r with
               | Some (_, c) => when (ctSession c =? cfgSession cfg) (onClientCtrl c t)
               | None => mret tt
               end
             else if hType h =? TypeHelloAck then onHelloAck i dgram t
             else mret tt);
        Put sl
  end.

(** One round of [clientRxLoop]; [None] is a failed read. *)
Definition clientRx (i : nat) (r : option (list Z)) : eng unit :=
  sl ← Get;
  match r with
  | None => Put sl
  | Some dgram =>
      handleClientDatagram i (readInto sl dgram) (Nat.min (length (sl_mem sl)) (length dgram))
  end.

(** ** Periodic loops: the body of one tick *)

Definition helloPath (t : Z) (i : nat) : eng unit :=
  p ← pathAt i;
  let refresh := if registered p then helloRefresh else helloRetry in
  if i64 (t - lastHello p) <? refresh then mret tt
  else
    _ ← updPath i (set_lastHello t);
    dgram ← must (EncodeHello (mkHeader 0 0 (pID p) 0)
             (mkHello (cfgSession cfg) (cfgClientID cfg) 0 (unix t)) (cfgMAC cfg) false);
    _ ← write i dgram;
    mret tt.

Definition helloTick : eng unit :=
  t ← now; ix ← allPaths; forEach (helloPath t) ix.

(** [tick] is the loop's counter, already incremented. *)
Definition probePath (tick t : Z) (i : nat) : eng unit :=
  p ← pathAt i;
  let stale := redialEvery <? i64 (t - lastRedial p) in
  if negb (registered p) then
    when stale (_ ← updPath i (set_lastRedial t); _ ← dial i; mret tt)
  else if negb (Link.Up (pLink p)) && negb (Z.rem tick 5 =? 0) then mret tt
  else
    let '(l, sq, _) := OnProbeSent t (pLink p) in
    _ ← updPath i (set_pLink l);
    us ← nowUS;
    probe ← must (EncodeProbe (mkHeader 0 0 (pID p) 0) (mkProbe (cfgSession cfg) sq us) (cfgMAC cfg));
    ok ← write i probe;
    when (negb ok)
      (_ ← updPath i (onLink MarkDown);
       when stale
         (_ ← updPath i (set_lastRedial t);
          redialed ← dial i;
          when redialed (updPath i (fun p => set_lastHello 0 (set_registered false p))))).

Definition probeTick (tick : Z) : eng unit :=
  t ← now; ix ← allPaths; forEach (probePath tick t) ix.

(** The local variables of [clientCtrlLoop]. *)
Record ctrlLoop := mkCtrlLoop {
  clSent : Z;
  clRxPkts : Z;
  clRetune : Z;
  clFEC : Z;
}.

Definition newCtrlLoop : ctrlLoop := mkCtrlLoop zeroTime 0 zeroTime zeroTime.

Fixpoint bestUp (ips : list (nat * Path)) (best : option nat) (bestSRTT : Z) : option nat :=
  match ips with
  | [] => best
  | (i, p) :: ips =>
      let s := LinkSnapshot (pLink p) in
      if negb (registered p) || negb (sUp s) then bestUp ips best bestSRTT
      else if bool_decide (best = None) || ((0 <? sSRTT s) && (sSRTT s <? bestSRTT))
      then bestUp ips (Some i) (sSRTT s)
      else bestUp ips best bestSRTT
  end.

Definition bestCtrlPath (ps : list Path) : option nat :=
  match bestUp (imap pair ps) None 0 with
  | Some i => Some i
  | None => fst <$> list_find (fun p => registered p = true) ps
  end.

(** [p.Rx.Report()] as a CTRL record. *)
Definition reportPath (i : nat) : eng (option PathStats) :=
  p ← pathAt i;
  let '(rx, r) := Report (pRx p) in
  _ ← updPath i (set_pRx rx);
  mret (match r with
        | Some (highest, pkts, bytes, owdMin, owdAvg) =>
            Some (mkPathStats (pID p) highest pkts bytes owdMin owdAvg)
        | None => None
        end).

Definition ctrlTick (l : ctrlLoop) : eng ctrlLoop :=
  t ← now;
  rx ← gets (fun s => RxPackets (Stats s));
  if bool_decide (rx = clRxPkts l) && (Sub t (clSent l) <? ctrlIdle) then mret l
  else
    let l := mkCtrlLoop (clSent l) rx (clRetune l) (clFEC l) in
    ix ← allPaths;
    rs ← mapEach reportPath ix;
    let recs := omap id rs in
    if decide (length recs = 0)%nat then mret l else
    best ← gets (fun s => bestCtrlPath (paths s));
    match best with
    | None => mret l
    | Some b =>
        bp ← pathAt b;
        dgram ← must (EncodeCtrl (mkHeader 0 0 (pID bp) 0) (mkCtrl (cfgSession cfg) recs) (cfgMAC cfg));
        _ ← write b dgram;
        let l := mkCtrlLoop t (clRxPkts l) (clRetune l) (clFEC l) in
        ps ← gets paths;
        let retune := holdRetune <=? Sub t (clRetune l) in
        _ ← when retune
              (let hold := ComputeHold (omap (fun p => OwdView t (3 * Second) (pRx p)) ps) in
               when (0 <? hold) (modify (fun s => set_reorderBuf (SetHold hold (reorderBuf s)) s)));
        let l := if retune then mkCtrlLoop (clSent l) (clRxPkts l) t (clFEC l) else l in
        let refec := fecRetune <=? Sub t (clFEC l) in
        _ ← when refec
              (modify (fun s => set_fecEnc
                 (retuneFEC cfg (fecEnc s) ((fun p => LinkSnapshot (pLink p)) <$> ps)) s));
        mret (if refec then mkCtrlLoop (clSent l) (clRxPkts l) (clRetune l) t else l)
    end.

Definition byePath (ts : Z) (i : nat) : eng unit :=
  p ← pathAt i;
  when (registered p)
    (dgram ← must (EncodeBye (mkHeader 0 0 (pID p) 0) (mkBye (cfgSession cfg) ts) (cfgMAC cfg));
     _ ← write i dgram;
     mret tt).

Definition sendByes : eng unit :=
  t ← now; ix ← allPaths; forEach (byePath (unix t)) ix.

(** [Close] on the client. *)
Definition closeClient : eng unit :=
  _ ← sendByes;
  ix ← allPaths;
  _ ← forEach closePath ix;
  clientReorder Reorder.Close.

End Client.
