(* ===== verification/Server.v ===== *)
(** * The server datapath: internal/engine/server.go

    The registry of client sessions, the handling of datagrams that arrive
    on the single socket, the return traffic and the bodies of the periodic
    loops. A [Session] pointer is its id in [sessions], and a [pathState]
    pointer its id in the session's [sPaths]. *)

From S2P Require Import Prelude Wire Control Float64 Sched Link PathSelect Fec Reorder.
From S2P Require Import Wgbridge Engine.
#[local] Open Scope Z_scope.

Definition Minute : Z := 60 * Second.
Definition sessionTimeout : Z := 5 * Minute.
Definition pathStaleAfter : Z := 45 * Second.

Section Server.
Context `{Rounding} `{Blake2s} `{ReedSolomon} `{MapOrder} `{World}.
Context (cfg : Config).

(** ** Sessions and their paths *)

Definition lookupSession (id : Z) : eng (option Session) := gets (fun s => sessions s !! id).

(** Dereferencing a session or a path: a nil pointer panics. *)
Definition sessAt (id : Z) : eng Session :=
  o ← lookupSession id; match o with Some s => mret s | None => panic end.
Definition updSess (id : Z) (f : Session -> Session) : eng unit :=
  _ ← sessAt id;
  modify (fun s => set_sessions (alter f id (sessions s)) s).

Definition allSessions : eng (list Z) :=
  ks ← gets (fun s => (map_to_list (sessions s)).*1); ask (fun k => shuffle k ks).

(** [sess.path(id)]: nil when the session has no such path. *)
Definition sessPath (id pid : Z) : eng (option pathState) :=
  s ← sessAt id; mret (sPaths s !! pid).

Definition psAt (id pid : Z) : eng pathState :=
  s ← sessAt id; match sPaths s !! pid with Some p => mret p | None => panic end.
Definition updPs (id pid : Z) (f : pathState -> pathState) : eng unit :=
  _ ← psAt id pid;
  updSess id (fun s => set_sPaths (alter f pid (sPaths s)) s).

(** A missing path is created, then the newest source address wins. *)
Definition touch_paths (pid : Z) (addr : AddrPort) (t : Z) (ps : gmap Z pathState) : gmap Z pathState :=
  let p := default (mkPathState pid ([], 0) 0 NewLink NewRxStats) (ps !! pid) in
  <[pid := mkPathState (psId p) addr t (psLink p) (psRx p)]> ps.

Definition touchPath (id pid : Z) (addr : AddrPort) (t : Z) : eng unit :=
  updSess id (fun s => set_sPaths (touch_paths pid addr t (sPaths s)) s).

(** [ps.lastRx >= cutoff] *)
Definition recent (cutoff : Z) (ps : gmap Z pathState) (pid : Z) : bool :=
  match ps !! pid with Some p => cutoff <=? psLastRx p | None => false end.

(** The ids of the recently active paths, in the order of the traversal. *)
Definition alivePaths (id : Z) (t : Z) : eng (list Z) :=
  s ← sessAt id;
  ks ← ask (fun k => shuffle k (map_to_list (sPaths s)).*1);
  mret (filter (fun pid => recent (i64 (t - pathStaleAfter)) (sPaths s) pid = true) ks).

(** [e.server.sock.WriteToUDPAddrPort(b, a)]: [false] is an error. *)
Definition writeTo (a : AddrPort) (b : list Z) : eng bool :=
  ok ← ask write_ok; _ ← tell (Sent (ToAddr a) b ok); mret ok.

(** ** Return traffic *)

Definition stripeTo (id : Z) (pids : list Z) : eng Z :=
  if decide (length pids = 1)%nat then at_ pids 0 else
  ps ← mapEach (psAt id) pids;
  s ← sessAt id;
  r ← must (Pick (psId <$> ps) ((fun p => Weight (psLink p)) <$> ps) (sSched s));
  _ ← updSess id (set_sSched r.1);
  at_ pids r.2.

Definition serverSendData (id pid class : Z) (dup : bool) (sq : Z) (tag : fecTag) (ct : list Z)
    : eng unit :=
  sl ← Get;
  p ← psAt id pid;
  s ← sessAt id;
  let pseq := u32 (default 0 (sPathSeq s !! psId p) + 1) in
  _ ← updSess id (fun s => set_sPathSeq (<[psId p := pseq]> (sPathSeq s)) s);
  ts ← txTS;
  let d := mkDataHeader (mkHeader TypeData (dataFlags class dup tag) (psId p) 0)
             (sID s) sq pseq ts (tag_group tag) (tag_index tag) in
  r ← must (PutDataHeader (sl_mem sl) d);
  let '(mem, n) := r in
  _ ← (if decide (length mem < n + length ct)%nat then mret tt
       else
         ok ← writeTo (psAddr p) (fill mem n ct);
         when ok (_ ← count set_TxPackets TxPackets 1;
                  count set_TxBytes TxBytes (Z.of_nat (n + length ct))));
  Put sl.

Definition serverEmitParity (id : Z) (e : fec_event) : eng unit :=
  match e with
  | Recovered _ _ => mret tt
  | EmitParity grp index k m shard =>
      t ← now;
      alive ← alivePaths id t;
      if decide (length alive = 0)%nat then mret tt else
      pid ← stripeTo id alive;
      sl ← Get;
      p ← psAt id pid;
      s ← sessAt id;
      let f := mkFECHeader (mkHeader 0 0 (psId p) 0) (sID s) grp index k m
                 (u16 (Z.of_nat (length shard))) in
      r ← must (PutFECHeader (sl_mem sl) f);
      let '(mem, n) := r in
      _ ← (if decide (length mem < n + length shard)%nat then mret tt
           else
             ok ← writeTo (psAddr p) (fill mem n shard);
             when ok (_ ← count set_TxPackets TxPackets 1;
                      count set_TxBytes TxBytes (Z.of_nat (n + length shard))));
      Put sl
  end.

Definition sNextRt (id : Z) : eng Z :=
  _ ← updSess id (fun s => set_sRtSeq (u32 (sRtSeq s + 1)) s); s ← sessAt id; mret (sRtSeq s).
Definition sNextGlobal (id : Z) : eng Z :=
  _ ← updSess id (fun s => set_sGlobalSeq (u32 (sGlobalSeq s + 1)) s);
  s ← sessAt id; mret (sGlobalSeq s).

Definition sFecAdd (id sq : Z) (ct : list Z) : eng fecTag :=
  s ← sessAt id;
  match sEnc s with
  | None => mret noTag
  | Some enc =>
      t ← now;
      let '(enc, es, stamp) := Fec.Add sq ct t enc in
      _ ← updSess id (set_sEnc (Some enc));
      _ ← forEach (serverEmitParity id) es;
      mret (match stamp with Some (g, i) => mkTag true g i | None => noTag end)
  end.

(** Early drop with the path's probability. *)
Definition sAqm (prob : Q) : eng bool :=
  if Qltb 0 prob then r ← ask random; mret (Qltb r prob) else mret false.

Definition serverBulk (id : Z) (usable : list Z) (ct : list Z) : eng unit :=
  pid ← stripeTo id usable;
  p ← psAt id pid;
  drop ← sAqm (DropProb (psLink p));
  if drop : bool then count set_AQMDrops AQMDrops 1
  else
    sq ← sNextGlobal id;
    tag ← sFecAdd id sq ct;
    serverSendData id pid ClassBulk false sq tag ct.

(** The alive paths that are up, or all of them when none is. *)
Definition usablePaths (alive : list Z) (ps : list pathState) : list Z :=
  let up := fst <$> filter (fun x => Link.Up (psLink x.2) = true) (zip alive ps) in
  if decide (length up = 0)%nat then alive else up.

(** The body of [serverSend]'s loop. *)
Definition serverSendOne (id : Z) (ct : list Z) : eng unit :=
  t ← now;
  alive ← alivePaths id t;
  ps ← mapEach (psAt id) alive;
  let usable := usablePaths alive ps in
  if decide (length usable = 0)%nat then count set_TxDropNoPath TxDropNoPath 1 else
  class ← classifyCt ct;
  if bool_decide (length usable = 1)%nat && negb (class =? ClassBulk) then
    pid ← at_ usable 0;
    sq ← sNextRt id;
    serverSendData id pid class false sq noTag ct
  else if (class =? ClassRealtime) || (class =? ClassInteractive) then
    us ← mapEach (psAt id) usable;
    let '(first, second) := BestPair ((fun p => LinkSnapshot (psLink p)) <$> us) in
    if first <? 0 then serverBulk id usable ct
    else
      sq ← sNextRt id;
      i ← at_ usable first;
      _ ← serverSendData id i class false sq noTag ct;
      when ((class =? ClassRealtime) && (0 <=? second))
        (j ← at_ usable second; serverSendData id j class true sq noTag ct)
  else serverBulk id usable ct.

Definition serverSend (bufs : list (list Z)) (ep : Z) : eng unit :=
  o ← lookupSession ep;
  match o with
  | None => count set_TxDropNoPath TxDropNoPath (Z.of_nat (length bufs))
  | Some _ => forEach (serverSendOne ep) bufs
  end.

(** ** Receiving *)

(** An operation of a session's resequencing buffer, with its callbacks. *)
Definition serverReorder (id : Z) (f : act (Buffer Packet) (Reorder.event Packet)) : eng unit :=
  s ← sessAt id;
  let '(b, es) := f (sReorder s) in
  _ ← updSess id (set_sReorder b);
  forEach (onReorder (sID s)) es.

Definition serverPush (id sq : Z) (pkt : Packet) : eng unit :=
  t ← now; serverReorder id (Reorder.Push t sq pkt).

(** The gap timer of session [id] fires. *)
Definition serverTimer (id : Z) : eng unit :=
  o ← lookupSession id;
  match o with
  | Some _ => t ← now; serverReorder id (Reorder.onTimer t)
  | None => mret tt
  end.

Definition serverDecode (id : Z) (f : act Decoder fec_event) : eng unit :=
  s ← sessAt id;
  match sDec s with
  | None => mret tt
  | Some dec =>
      let '(dec, es) := f dec in
      _ ← updSess id (set_sDec (Some dec));
      forEach (recover (fun sq pkt => serverPush id (u32 sq) pkt)) es
  end.

Definition onServerData (sl : slab) (n : nat) (src : AddrPort) (d : DataHeader) (payload : list Z)
    (t : Z) : eng unit :=
  let id := dSession d in
  let pid := hPathID (dHeader d) in
  _ ← touchPath id pid src t;
  ts ← txTS;
  _ ← updPs id pid (fun p =>
        set_psRx (OnData (dPathSeq d) (Z.of_nat n) (i32 (ts - dTxTS d)) t (psRx p)) p);
  _ ← updSess id (set_lastSeen t);
  _ ← count set_RxPackets RxPackets 1;
  _ ← count set_RxBytes RxBytes (Z.of_nat n);
  let pkt := mkPacket (Some sl) (Len d) (length payload) in
  if Class (dHeader d) =? ClassBulk then
    _ ← when (hasFEC (dHeader d))
          (serverDecode id (AddData (dFECGroup d) (dFECIndex d) (dGlobalSeq d) payload t));
    serverPush id (dGlobalSeq d) pkt
  else
    s ← sessAt id;
    deliverOrCount pkt (sID s).

Definition onServerFEC (n : nat) (dgram : list Z) (t : Z) : eng unit :=
  r ← try (ParseFEC dgram);
  match r with
  | None => mret tt
  | Some (f, shard) =>
      o ← lookupSession (fSession f);
      match o with
      | Some s =>
          match sDec s with
          | Some _ =>
              _ ← count set_RxPackets RxPackets 1;
              _ ← count set_RxBytes RxBytes (Z.of_nat n);
              serverDecode (fSession f) (AddParity (fGroup f) (fIndex f) (fK f) (fM f) shard t)
          | None => mret tt
          end
      | None => mret tt
      end
  end.

Definition onServerProbe (dgram : list Z) (src : AddrPort) (t : Z) : eng unit :=
  r ← must (ParseProbe dgram (cfgMAC cfg));
  match r with
  | Some (hh, pr) =>
      o ← lookupSession (prSession pr);
      match o with
      | Some _ =>
          _ ← touchPath (prSession pr) (hPathID hh) src t;
          ack ← must (EncodeProbeAck (mkHeader 0 0 (hPathID hh) 0)
                 (mkProbeAck (prSession pr) (prSeq pr) (prTxTS pr) 0) (cfgMAC cfg));
          _ ← writeTo src ack;
          mret tt
      | None => mret tt
      end
  | None => mret tt
  end.

Definition onServerProbeAck (dgram : list Z) : eng unit :=
  r ← must (ParseProbeAck dgram (cfgMAC cfg));
  match r with
  | Some (hh, ack) =>
      o ← lookupSession (paSession ack);
      match o with
      | Some _ =>
          ps ← sessPath (paSession ack) (hPathID hh);
          match ps with
          | Some _ =>
              us ← nowUS;
              updPs (paSession ack) (hPathID hh)
                (fun p => set_psLink (OnProbeAck (paSeq ack) (ackRTT us ack) (psLink p)).1 p)
          | None => mret tt
          end
      | None => mret tt
      end
  | None => mret tt
  end.

Definition onServerCtrl (dgram : list Z) (t : Z) : eng unit :=
  r ← must (ParseCtrl dgram (cfgMAC cfg));
  match r with
  | Some (_, c) =>
      o ← lookupSession (ctSession c);
      match o with
      | Some _ =>
          forEach (fun st =>
            ps ← sessPath (ctSession c) (psPathID st);
            match ps with
            | Some _ =>
                updPs (ctSession c) (psPathID st)
                  (fun p => set_psLink (OnCtrl (Highest st) (RxPkts st) (Control.RxBytes st)
                     (i32 (OwdMinUS st)) (i32 (OwdAvgUS st)) t (psLink p)) p)
            | None => mret tt
            end) (ctPaths c)
      | None => mret tt
      end
  | None => mret tt
  end.

(** The session [handleHello] makes for a new client. *)
Definition newSession (m : Hello) : Session :=
  mkSession (heSession m) (ClientID m) ∅ 0 0 0 ∅ Reorder.New NewWeighted
    (if cfgFECDisabled cfg then None else Some (SetParams (cfgFECForce cfg) NewEncoder))
    (if cfgFECDisabled cfg then None else Some NewDecoder).

Definition handleHello (dgram : list Z) (src : AddrPort) : eng unit :=
  r ← must (ParseHello dgram (cfgMAC cfg));
  t ← now;
  match r with
  | Some (hh, m) =>
      if negb (hType hh =? TypeHello) || negb (FreshTS (heUnixTS m) (unix t))
      then count set_RxDropMalformed RxDropMalformed 1
      else
        o ← lookupSession (heSession m);
        let s := default (newSession m) o in
        _ ← when (bool_decide (o = None))
              (modify (fun e => set_sessions (<[heSession m := newSession m]> (sessions e)) e));
        if negb (sClientID s =? ClientID m) then count set_RxDropUnknown RxDropUnknown 1
        else
          t ← now;
          _ ← touchPath (heSession m) (hPathID hh) src t;
          _ ← updSess (heSession m) (set_lastSeen t);
          t ← now;
          ack ← must (EncodeHello (mkHeader 0 0 (hPathID hh) 0)
                 (mkHello (heSession m) (ClientID m) 0 (unix t)) (cfgMAC cfg) true);
          _ ← writeTo src ack;
          mret tt
  | None => count set_RxDropMalformed RxDropMalformed 1
  end.

(** [delete(sessions, id)] and [reorder.Close()] of the removed session. *)
Definition dropSession (s : Session) (id : Z) : eng unit :=
  _ ← modify (fun e => set_sessions (delete id (sessions e)) e);
  forEach (onReorder (sID s)) (Reorder.Close (sReorder s)).2.

Definition removeSessionPath (id pid : Z) : eng unit :=
  o ← lookupSession id;
  match o with
  | None => mret tt
  | Some s =>
      let ps := delete pid (sPaths s) in
      _ ← updSess id (set_sPaths ps);
      when (bool_decide (size ps = 0)%nat) (dropSession s id)
  end.

Definition onBye (dgram : list Z) (t : Z) : eng unit :=
  r ← must (ParseBye dgram (cfgMAC cfg));
  match r with
  | Some (hb, m) => when (FreshTS (byUnixTS m) (unix t)) (removeSessionPath (bySession m) (hPathID hb))
  | None => mret tt
  end.

Definition handleServerDatagram (sl : slab) (n : nat) (src : AddrPort) : eng unit :=
  dgram ← must (@slice Empty_set _ (sl_mem sl) 0 n);
  h ← try (ParseHeader dgram);
  match h with
  | None => _ ← count set_RxDropMalformed RxDropMalformed 1; Put sl
  | Some h =>
      t ← now;
      if hType h =? TypeData then
        r ← try (ParseDataHeader dgram);
        match r with
        | None => _ ← count set_RxDropMalformed RxDropMalformed 1; Put sl
        | Some (d, payload) =>
            o ← lookupSession (dSession d);
            match o with
            | None => _ ← count set_RxDropUnknown RxDropUnknown 1; Put sl
            | Some _ => onServerData sl n src d payload t
            end
        end
      else
        _ ← (if hType h =? TypeFEC then onServerFEC n dgram t
             else if hType h =? TypeProbe then onServerProbe dgram src t
             else if hType h =? TypeProbeAck then onServerProbeAck dgram
             else if hType h =? TypeCtrl then onServerCtrl dgram t
             else if hType h =? TypeHello then handleHello dgram src
             else if hType h =? TypeBye then onBye dgram t
             else mret tt);
        Put sl
  end.

(** One round of [serverRxLoop], as on the client. *)
Definition serverRx (r : option (list Z * AddrPort)) : eng unit :=
  sl ← Get;
  match r with
  | None => Put sl
  | Some (dgram, src) =>
      handleServerDatagram (readInto sl dgram) (Nat.min (length (sl_mem sl)) (length dgram)) src
  end.

(** ** Periodic loops: the body of one tick *)

Definition reapOne (cutoff id : Z) : eng unit :=
  o ← lookupSession id;
  match o with
  | Some s => when (lastSeen s <? cutoff) (dropSession s id)
  | None => mret tt
  end.

Definition reaperTick : eng unit :=
  t ← now; ids ← allSessions; forEach (reapOne (t - sessionTimeout)) ids.

Definition fecFlushOne (t id : Z) : eng unit :=
  s ← sessAt id;
  match sEnc s with
  | Some enc =>
      let '(enc, es) := Fec.Flush t enc in
      _ ← updSess id (set_sEnc (Some enc));
      forEach (serverEmitParity id) es
  | None => mret tt
  end.

Definition serverFecFlushTick : eng unit :=
  t ← now; ids ← allSessions; forEach (fecFlushOne t) ids.

Fixpoint bestUpTo (ps : list (Z * pathState)) (best : option Z) (bestSRTT : Z) : option Z :=
  match ps with
  | [] => best
  | (pid, p) :: ps =>
      let s := LinkSnapshot (psLink p) in
      if negb (sUp s) then bestUpTo ps best bestSRTT
      else if bool_decide (best = None) || ((0 <? sSRTT s) && (sSRTT s <? bestSRTT))
      then bestUpTo ps (Some pid) (sSRTT s)
      else bestUpTo ps best bestSRTT
  end.

Fixpoint newestOf (ps : list (Z * pathState)) (newest : option (Z * Z)) : option Z :=
  match ps with
  | [] => fst <$> newest
  | (pid, p) :: ps =>
      match newest with
      | Some (_, t) => if t <? psLastRx p then newestOf ps (Some (pid, psLastRx p)) else newestOf ps newest
      | None => newestOf ps (Some (pid, psLastRx p))
      end
  end.

Definition bestServerCtrlPath (ps : list (Z * pathState)) : option Z :=
  match bestUpTo ps None 0 with
  | Some pid => Some pid
  | None => newestOf ps None
  end.

Definition probeTo (id tick t pid : Z) : eng unit :=
  p ← psAt id pid;
  if negb (Link.Up (psLink p)) && negb (Z.rem tick 10 =? 0) then mret tt
  else
    let '(l, sq, _) := OnProbeSent t (psLink p) in
    _ ← updPs id pid (set_psLink l);
    s ← sessAt id;
    us ← nowUS;
    probe ← must (EncodeProbe (mkHeader 0 0 (psId p) 0) (mkProbe (sID s) sq us) (cfgMAC cfg));
    _ ← writeTo (psAddr p) probe;
    mret tt.

Definition reportTo (id pid : Z) : eng (option PathStats) :=
  p ← psAt id pid;
  let '(rx, r) := Report (psRx p) in
  _ ← updPs id pid (set_psRx rx);
  mret (match r with
        | Some (highest, pkts, bytes, owdMin, owdAvg) =>
            Some (mkPathStats (psId p) highest pkts bytes owdMin owdAvg)
        | None => None
        end).

(** [lastRx] is the loop's map from sessions to the packet total last reported. *)
Definition controlOne (tick t : Z) (lastRx : gmap Z Z) (id : Z) : eng (gmap Z Z) :=
  alive ← alivePaths id t;
  if decide (length alive = 0)%nat then mret lastRx else
  _ ← when (Z.rem tick 2 =? 0) (forEach (probeTo id tick t) alive);
  rs ← mapEach (reportTo id) alive;
  let recs := omap (fun r => r) rs in
  if decide (length recs = 0)%nat then mret lastRx else
  s ← sessAt id;
  let total := foldl (fun acc r => u32 (acc + RxPkts r)) 0 recs in
  if (total =? default 0 (lastRx !! sID s)) && negb (Z.rem tick 5 =? 0) then mret lastRx
  else
    let lastRx := <[sID s := total]> lastRx in
    ps ← mapEach (psAt id) alive;
    match bestServerCtrlPath (zip alive ps) with
    | None => mret lastRx
    | Some best =>
        bp ← psAt id best;
        dgram ← must (EncodeCtrl (mkHeader 0 0 (psId bp) 0) (mkCtrl (sID s) recs) (cfgMAC cfg));
        _ ← writeTo (psAddr bp) dgram;
        _ ← when (Z.rem tick 5 =? 0)
              (let hold := ComputeHold (omap (fun p => OwdView t (3 * Second) (psRx p)) ps) in
               when (0 <? hold) (updSess id (fun s => set_sReorder (SetHold hold (sReorder s)) s)));
        _ ← when (Z.rem tick 20 =? 0)
              (updSess id (fun s => set_sEnc
                 (retuneFEC cfg (sEnc s) ((fun p => LinkSnapshot (psLink p)) <$> ps)) s));
        mret lastRx
    end.

Fixpoint controlEach (tick t : Z) (lastRx : gmap Z Z) (ids : list Z) : eng (gmap Z Z) :=
  match ids with
  | [] => mret lastRx
  | id :: ids => lastRx ← controlOne tick t lastRx id; controlEach tick t lastRx ids
  end.

(** [tick] is the loop's counter, already incremented. *)
Definition serverControlTick (tick : Z) (lastRx : gmap Z Z) : eng (gmap Z Z) :=
  t ← now; ids ← allSessions; controlEach tick t lastRx ids.

(** [Close] on the server. *)
Definition closeServer : eng unit :=
  ids ← allSessions; forEach (fun id => serverReorder id Reorder.Close) ids.

End Server.
