(* ===== verification/EngineLogic.v ===== *)
(** * Reasoning about the engine

    Weakest preconditions for the engine monad, the invariant of the engine
    and the accounting of packet slabs; the triples of the operations that
    client and server share. *)

From S2P Require Import Prelude Wire Control Float64 Sched Link PathSelect Fec Classify.
From S2P Require Import Reorder ReorderInv ReorderTrace ReorderSpec Wgbridge Engine.
#[local] Open Scope Z_scope.

(** [wp m s Q]: from [s], [m] returns (it does not panic) with a state,
    events and a value that satisfy [Q]. *)
Definition wp {A} (m : eng A) (s : Engine) (Q : Engine -> list ev -> A -> Prop) : Prop :=
  match m s with Ret (s', es, a) => Q s' es a | _ => False end.

Lemma wp_ret {A} (a : A) s (Q : Engine -> list ev -> A -> Prop) : Q s [] a -> wp (mret a) s Q.
Proof. done. Qed.

Lemma wp_bind {A B} (m : eng A) (f : A -> eng B) s Q :
  wp m s (fun s1 e1 a => wp (f a) s1 (fun s2 e2 b => Q s2 (e1 ++ e2) b)) -> wp (m ≫= f) s Q.
Proof.
  unfold wp, mbind, eng_bind. destruct (m s) as [[[s1 e1] a]| |]; [|done..].
  by destruct (f a s1) as [[[s2 e2] b]| |].
Qed.

Lemma wp_mono {A} (m : eng A) s (Q Q' : Engine -> list ev -> A -> Prop) :
  (forall s' es a, Q s' es a -> Q' s' es a) -> wp m s Q -> wp m s Q'.
Proof. unfold wp. destruct (m s) as [[[s' es] a]| |]; auto. Qed.

Lemma wp_inv {A} (m : eng A) s s' es a (Q : Engine -> list ev -> A -> Prop) :
  m s = Ret (s', es, a) -> wp m s Q -> Q s' es a.
Proof. unfold wp. by intros ->. Qed.

Lemma wp_must {E A} (o : outcome E A) a s (Q : Engine -> list ev -> A -> Prop) :
  o = Ret a -> Q s [] a -> wp (must o) s Q.
Proof. by intros ->. Qed.

(** ** Slabs *)

(** Multisets of slab numbers: compare how often each number occurs. *)
Ltac permlia :=
  apply (Permutation_count_occ Nat.eq_dec); let x := fresh "x" in intros x;
  repeat match goal with
  | H : Permutation _ _ |- _ =>
      let H' := fresh in pose proof (proj1 (Permutation_count_occ Nat.eq_dec _ _) H x) as H'; clear H
  end;
  rewrite ?count_occ_app in *; cbn [count_occ] in *; lia.

Definition pkt_slabs (p : Packet) : list nat :=
  match Slab p with Some s => [sl_id s] | None => [] end.

Definition sess_vals (m : gmap Z Session) : list Packet :=
  (map_to_list m).*2 ≫= (fun x => vals (sReorder x)).

(** The slabs in the engine's keeping: waiting in a resequencing buffer or
    queued for WireGuard. *)
Definition held (s : Engine) : list nat :=
  (vals (reorderBuf s) ≫= pkt_slabs) ++ (sess_vals (sessions s) ≫= pkt_slabs)
  ++ (queued (bind s) ≫= fun i => pkt_slabs (inPkt i)).

Definition gots (es : list ev) : list nat :=
  omap (fun e => match e with SlabGet k => Some k | _ => None end) es.
Definition puts (es : list ev) : list nat :=
  omap (fun e => match e with SlabPut k => Some k | _ => None end) es.

Lemma gots_app e1 e2 : gots (e1 ++ e2) = gots e1 ++ gots e2.
Proof. apply omap_app. Qed.
Lemma puts_app e1 e2 : puts (e1 ++ e2) = puts e1 ++ puts e2.
Proof. apply omap_app. Qed.

(** [flow s own es s' own']: the slabs held and owned at first, and those
    taken meanwhile, are those returned meanwhile and those held and owned
    at last. *)
Definition flow (s : Engine) (own : list nat) (es : list ev) (s' : Engine) (own' : list nat) : Prop :=
  held s ++ own ++ gots es ≡ₚ puts es ++ held s' ++ own'.

Lemma flow_trans s own e1 s1 own1 e2 s2 own2 :
  flow s own e1 s1 own1 -> flow s1 own1 e2 s2 own2 -> flow s own (e1 ++ e2) s2 own2.
Proof.
  unfold flow. rewrite gots_app, puts_app. intros H1 H2.
  rewrite !app_assoc in *. rewrite H1. rewrite <- !app_assoc in *. by rewrite H2.
Qed.

Lemma flow_frame fr s own es s' own' :
  flow s own es s' own' -> flow s (own ++ fr) es s' (own' ++ fr).
Proof.
  unfold flow. intros Hf. rewrite <- (app_assoc own fr), (Permutation_app_comm fr (gots es)).
  rewrite (app_assoc own), (app_assoc (held s)), Hf. by rewrite <- !app_assoc.
Qed.

Lemma flow_perm s own1 own2 es s' own1' own2' :
  own1 ≡ₚ own2 -> own1' ≡ₚ own2' -> flow s own1 es s' own1' -> flow s own2 es s' own2'.
Proof. unfold flow. by intros -> ->. Qed.

Lemma flow_pure s own es s' :
  held s' ≡ₚ held s -> gots es = [] -> puts es = [] -> flow s own es s' own.
Proof. unfold flow. intros -> -> ->. by rewrite app_nil_r. Qed.

(** ** The invariant *)

Definition enc_ok (enc : option Encoder) : Prop := forall e, enc = Some e -> is_u24 (groupID e).

(** A packet whose bytes can be taken. *)
Definition pkt_wf (p : Packet) : Prop := exists b, Bytes p = Ret b.

Lemma pkt_wf_slab sl off n : (off + n <= length (sl_mem sl))%nat -> pkt_wf (mkPacket (Some sl) off n).
Proof. intros Hl. unfold pkt_wf, Bytes. cbn [Slab Off PktLen]. rewrite slice_le by lia. by eexists. Qed.

(** The slab a repaired ciphertext was copied into gives it back. *)
Lemma Bytes_copied id (mem ct : list Z) :
  (length ct <= length mem)%nat ->
  Bytes (mkPacket (Some (mkSlab id (take (Nat.min (length mem) (length ct)) ct
    ++ drop (Nat.min (length mem) (length ct)) mem))) 0 (Nat.min (length mem) (length ct))) = Ret ct.
Proof.
  intros Hl. rewrite Nat.min_r by done. unfold Bytes. cbn [Slab sl_mem Off PktLen]. rewrite (take_ge ct) by done.
  rewrite slice_le by (rewrite length_app; lia). rewrite drop_0, Nat.sub_0_r. f_equal. by apply take_app_length.
Qed.

(** The payload of a DATA datagram lies inside the slab it was read into. *)
Lemma payload_fits (mem : list Z) n d payload :
  take n mem = data_bytes d ++ payload -> (Len d + length payload <= length mem)%nat.
Proof.
  intros E. rewrite <- length_data_bytes, <- length_app, <- E, length_take. lia.
Qed.

Definition in_wf (i : Inbound) : Prop := pkt_wf (inPkt i).

Record path_ok (i : nat) (p : Path) : Prop := {
  po_id : pID p = u8 (Z.of_nat i);
  po_seq : is_u32 (pathSeq p);
}.

Record sess_ok (id : Z) (x : Session) : Prop := {
  so_id : sID x = id;
  so_u32 : is_u32 id;
  so_reorder : good (sReorder x);
  so_vals : Forall pkt_wf (vals (sReorder x));
  so_seqs : is_u32 (sRtSeq x) /\ is_u32 (sGlobalSeq x);
  so_paths : map_Forall (fun pid p => psId p = pid /\ is_u8 pid) (sPaths x);
  so_enc : enc_ok (sEnc x);
}.

Record inv (s : Engine) : Prop := {
  inv_bind : wf_bind (bind s);
  inv_queue : Forall in_wf (queued (bind s));
  inv_reorder : good (reorderBuf s);
  inv_vals : Forall pkt_wf (vals (reorderBuf s));
  inv_sess : map_Forall sess_ok (sessions s);
  inv_paths : forall i p, paths s !! i = Some p -> path_ok i p;
  inv_seqs : is_u32 (rtSeq s) /\ is_u32 (globalSeq s);
  inv_enc : enc_ok (fecEnc s);
  inv_classifier : forall c, classifier s = Some c -> wf_classifier c;
  inv_correlator : Forall (fun e => wf_class (ceClass e)) (fifo (correlator s));
}.

(** What most operations leave alone: the identity and registration of the
    client's paths; the identity of the server's sessions and the addresses
    of their paths. *)
Definition sess_view (x : Session) : Z * gmap Z AddrPort := (sClientID x, psAddr <$> sPaths x).
Definition view (s : Engine) : list (Z * bool) * gmap Z (Z * gmap Z AddrPort) :=
  ((fun p => (pID p, registered p)) <$> paths s, sess_view <$> sessions s).

(** ** Triples *)

(** [trip s own m own' Φ]: from an engine [s] in its invariant, handed the
    slabs [own], [m] returns, keeps the invariant, hands back [own'] and
    accounts for every other slab; [Φ] holds of the state and the value. *)
Definition trip {A} (s : Engine) (own : list nat) (m : eng A) (own' : A -> list nat)
    (Φ : Engine -> A -> Prop) : Prop :=
  inv s -> wp m s (fun s' es a => inv s' /\ flow s own es s' (own' a) /\ Φ s' a).

(** An operation that neither takes nor gives slabs and keeps the view. *)
Definition same {A} (s : Engine) (m : eng A) (Φ : A -> Prop) : Prop :=
  trip s [] m (fun _ => []) (fun s' a => view s' = view s /\ Φ a).

Section Rules.
Context {A B : Type}.
Implicit Types (m : eng A) (f : A -> eng B).

Lemma trip_ret s own (a : A) (own' : A -> list nat) (Φ : Engine -> A -> Prop) :
  own ≡ₚ own' a -> Φ s a -> trip s own (mret a) own' Φ.
Proof.
  intros Ho HΦ Hi. apply wp_ret. split; [done|]. split; [|done].
  apply (flow_perm s own own [] s own (own' a)); [done|exact Ho|by apply flow_pure].
Qed.

Lemma trip_bind s own m own1 Φ1 f own2 (Φ2 : Engine -> B -> Prop) :
  trip s own m own1 Φ1 ->
  (forall s1 a, Φ1 s1 a -> trip s1 (own1 a) (f a) own2 Φ2) ->
  trip s own (m ≫= f) own2 Φ2.
Proof.
  intros Hm Hf Hi. apply wp_bind. eapply wp_mono; [|exact (Hm Hi)].
  intros s1 e1 a (Hi1 & Hfl & HΦ). eapply wp_mono; [|exact (Hf _ _ HΦ Hi1)].
  intros s2 e2 b (Hi2 & Hfl2 & HΦ2). split_and!; [done| |done]. by eapply flow_trans.
Qed.

Lemma trip_frame fr s own m own' Φ :
  trip s own m own' Φ -> trip s (own ++ fr) m (fun a => own' a ++ fr) Φ.
Proof.
  intros Hm Hi. eapply wp_mono; [|exact (Hm Hi)]. intros s1 e1 a (? & ? & ?).
  split_and!; [done|by apply flow_frame|done].
Qed.

Lemma trip_weaken s own1 own2 m own1' own2' Φ (Φ' : Engine -> A -> Prop) :
  trip s own1 m own1' Φ -> own1 ≡ₚ own2 -> (forall a, own1' a ≡ₚ own2' a) ->
  (forall s' a, Φ s' a -> Φ' s' a) -> trip s own2 m own2' Φ'.
Proof.
  intros Hm H1 H2 HΦ Hi. eapply wp_mono; [|exact (Hm Hi)]. intros s1 e1 a (? & ? & ?).
  split_and!; [done|by eapply flow_perm; [exact H1|apply H2|]|auto].
Qed.

Lemma same_bind s own m (Φ : A -> Prop) f own2 (Φ2 : Engine -> B -> Prop) :
  same s m Φ ->
  (forall s1 a, view s1 = view s -> Φ a -> trip s1 own (f a) own2 Φ2) ->
  trip s own (m ≫= f) own2 Φ2.
Proof.
  intros Hm Hf. eapply trip_bind; [exact (trip_frame own _ [] _ _ _ Hm)|].
  intros s1 a [Hv HΦ]. by apply Hf.
Qed.

(** Assume the invariant while proving a triple. *)
Lemma trip_assume s own m own' Φ : (inv s -> trip s own m own' Φ) -> trip s own m own' Φ.
Proof. intros H Hi. by apply H. Qed.

Lemma same_ret s (a : A) (Φ : A -> Prop) : Φ a -> same s (mret a) Φ.
Proof. intros. by apply trip_ret. Qed.

Lemma same_weaken s m (Φ Φ' : A -> Prop) :
  (forall a, Φ a -> Φ' a) -> same s m Φ -> same s m Φ'.
Proof. intros HΦ Hm. eapply trip_weaken; [exact Hm|done|done|].
  intros s' a [Hv Ha]. split; [done|by apply HΦ]. Qed.

Lemma same_gets s (g : Engine -> A) : same s (gets g) (fun a => a = g s).
Proof. intros Hi. split; [done|]. split; [by apply flow_pure|done]. Qed.

Lemma same_must {E} s (o : outcome E A) a : o = Ret a -> same s (must o) (fun x => x = a).
Proof. intros ->. by apply same_ret. Qed.

Lemma same_at s (l : list A) (i : nat) x : l !! i = Some x -> same s (at_ l (Z.of_nat i)) (fun a => a = x).
Proof.
  intros Hx. unfold at_. destruct (Z.ltb_spec (Z.of_nat i) 0); [lia|].
  rewrite Nat2Z.id, Hx. by apply same_ret.
Qed.
End Rules.

Lemma same_try {E A} s (o : outcome E A) : o <> Panic ->
  same s (try o) (fun x => match x with Some a => o = Ret a | None => exists e, o = Err e end).
Proof.
  intros Ho. destruct o as [a|e|]; [by apply (same_ret s (Some a))| |done].
  apply (same_ret s None). by exists e.
Qed.


Lemma same_then {A B} s (m : eng A) (Φ : A -> Prop) (f : A -> eng B) (Ψ : B -> Prop) :
  same s m Φ -> (forall s1 a, view s1 = view s -> Φ a -> same s1 (f a) Ψ) -> same s (m ≫= f) Ψ.
Proof.
  intros Hm Hf. eapply same_bind; [exact Hm|]. intros s1 a Hv Ha.
  eapply trip_weaken; [by apply Hf|done|done|]. intros s2 b [Hv2 Hb]. split; [congruence|done].
Qed.

(** A state update that keeps invariant, view and held slabs. *)
Lemma same_modify s (g : Engine -> Engine) :
  (inv s -> inv (g s)) -> held (g s) ≡ₚ held s -> view (g s) = view s ->
  same s (modify g) (fun _ => True).
Proof.
  intros Hg Hh Hv Hi. split; [by apply Hg|]. split; [by apply flow_pure|done].
Qed.

Lemma same_tell s e : gots [e] = [] -> puts [e] = [] -> same s (tell e) (fun _ => True).
Proof.
  intros Hg Hp Hi. split; [done|]. split; [|done]. by apply flow_pure.
Qed.

Lemma inv_ticks k s : inv s -> inv (set_ticks k s).
Proof. intros []. by constructor. Qed.

Lemma same_ask {A} s (g : nat -> A) : same s (ask g) (fun a => exists k, a = g k).
Proof.
  intros Hi. split; [by apply inv_ticks|]. split; [by apply flow_pure|]. split; [done|by eexists].
Qed.

(** Asking the world leaves everything but the count of questions. *)
Lemma trip_ask_bind {A B} s own (g : nat -> A) (f : A -> eng B) own' (Φ : Engine -> B -> Prop) :
  trip (set_ticks (S (ticks s)) s) own (f (g (ticks s))) own' Φ -> trip s own (ask g ≫= f) own' Φ.
Proof. intros Hf Hi. apply wp_bind. exact (Hf (inv_ticks _ _ Hi)). Qed.

Lemma same_when s (b : bool) m : (b = true -> same s m (fun _ => True)) -> same s (when b m) (fun _ => True).
Proof. destruct b; [auto|]. intros. by apply same_ret. Qed.

Lemma trip_when s own (b : bool) m (Φ : Engine -> unit -> Prop) :
  (b = true -> trip s own m (fun _ => own) Φ) -> (b = false -> Φ s tt) ->
  trip s own (when b m) (fun _ => own) Φ.
Proof. destruct b; intros H1 H2; [by apply H1|]. apply trip_ret; [done|by apply H2]. Qed.

Lemma same_count s set get n : same s (count set get n) (fun _ => True).
Proof. apply same_modify; [|done|done]. intros []. by constructor. Qed.

(** Loops: each element brings its slabs and its body consumes them. *)
Lemma trip_forEach {A} (own : A -> list nat) (P : Engine -> Prop) (f : A -> eng unit) l :
  (forall s x, x ∈ l -> P s -> trip s (own x) (f x) (fun _ => []) (fun s' _ => P s')) ->
  forall s, P s -> trip s (l ≫= own) (forEach f l) (fun _ => []) (fun s' _ => P s').
Proof.
  induction l as [|x l IH]; intros Hf s Hs; cbn [forEach].
  { by apply trip_ret. }
  eapply trip_bind.
  - rewrite bind_cons. refine (trip_frame (l ≫= own) _ _ _ _ _ (Hf s x _ Hs)). by left.
  - intros s1 [] HP. apply IH; [|done]. intros s2 y Hy. apply Hf. by right.
Qed.

Lemma bind_nil_const {A B} (l : list A) : l ≫= (fun _ => @nil B) = [].
Proof. induction l; auto. Qed.

Lemma same_forEach {A} (f : A -> eng unit) l s :
  (forall s1 x, x ∈ l -> view s1 = view s -> same s1 (f x) (fun _ => True)) ->
  same s (forEach f l) (fun _ => True).
Proof.
  intros Hf. pose proof (trip_forEach (fun _ => []) (fun s1 => view s1 = view s) f l) as Hl.
  eapply trip_weaken; [apply Hl|by rewrite bind_nil_const|done|by intros].
  - intros s1 x Hx Hv. eapply trip_weaken; [by apply Hf|done|done|].
    intros s2 [] [Hv2 _]. congruence.
  - done.
Qed.

Lemma same_mapEach {A B} (P : A -> B -> Prop) (f : A -> eng B) l : forall s,
  (forall s1 x, x ∈ l -> view s1 = view s -> same s1 (f x) (P x)) ->
  same s (mapEach f l) (Forall2 P l).
Proof.
  induction l as [|x l IH]; intros s Hf; cbn [mapEach]; [apply same_ret; constructor|].
  eapply same_then; [apply Hf; [by left|done]|]. intros s1 y Hv Hy.
  eapply same_then; [apply IH|]. { intros s2 z Hz Hv2. apply Hf; [by right|congruence]. }
  intros s2 ys _ Hys. apply same_ret. by constructor.
Qed.

(** Reading the state leaves it as it is. *)
Lemma trip_gets_bind {A B} s own (g : Engine -> A) (f : A -> eng B) own' (Φ : Engine -> B -> Prop) :
  trip s own (f (g s)) own' Φ -> trip s own (gets g ≫= f) own' Φ.
Proof. intros Hf Hi. apply wp_bind. exact (Hf Hi). Qed.

Lemma same_gets_bind {A B} s (g : Engine -> A) (f : A -> eng B) (Φ : B -> Prop) :
  same s (f (g s)) Φ -> same s (gets g ≫= f) Φ.
Proof. apply trip_gets_bind. Qed.

Lemma trip_must_bind {E A B} s own (o : outcome E A) a (f : A -> eng B) own' (Φ : Engine -> B -> Prop) :
  o = Ret a -> trip s own (f a) own' Φ -> trip s own (must o ≫= f) own' Φ.
Proof. intros -> Hf Hi. apply wp_bind. exact (Hf Hi). Qed.

Lemma trip_at_bind {A B} s own (l : list A) i a (f : A -> eng B) own' (Φ : Engine -> B -> Prop) :
  l !! i = Some a -> trip s own (f a) own' Φ -> trip s own (at_ l (Z.of_nat i) ≫= f) own' Φ.
Proof.
  intros Ha Hf Hi. apply wp_bind. unfold at_. destruct (Z.ltb_spec (Z.of_nat i) 0); [lia|].
  rewrite Nat2Z.id, Ha. exact (Hf Hi).
Qed.

(** A triple whose view is the one of an earlier state. *)
Lemma trip_same s own {A} (m : eng A) own' (Φ : A -> Prop) v :
  view s = v -> trip s own m own' (fun s' a => view s' = view s /\ Φ a) ->
  trip s own m own' (fun s' a => view s' = v /\ Φ a).
Proof. by intros <-. Qed.

(** ** Relations between the ends of a run

    [rel R m]: whenever [m] returns, the states and events are in [R]. Unlike
    a triple it does not ask for the invariant. *)
Definition rel {A} (R : Engine -> list ev -> Engine -> Prop) (m : eng A) : Prop :=
  forall s s' es a, m s = Ret (s', es, a) -> R s es s'.

(** Take a sequence apart. *)
Lemma bind_inv {A B} (m : eng A) (f : A -> eng B) s s' es b :
  (m ≫= f) s = Ret (s', es, b) ->
  exists s1 e1 a e2, m s = Ret (s1, e1, a) /\ f a s1 = Ret (s', e2, b) /\ es = e1 ++ e2.
Proof.
  unfold mbind, eng_bind. destruct (m s) as [[[s1 e1] a]| |]; [|done..].
  destruct (f a s1) as [[[s2 e2] b']| |] eqn:E; [|done..]. intros [= <- <- <-]. eauto 10.
Qed.

Lemma must_inv {E A} (o : outcome E A) s s' es a :
  must o s = Ret (s', es, a) -> o = Ret a /\ s' = s /\ es = [].
Proof. destruct o; [|done..]. by intros [= <- <- <-]. Qed.

Lemma at_inv {A} (l : list A) i s s' es a :
  at_ l i s = Ret (s', es, a) -> l !! Z.to_nat i = Some a /\ 0 <= i /\ s' = s /\ es = [].
Proof.
  unfold at_. destruct (Z.ltb_spec i 0); [done|]. destruct (l !! Z.to_nat i); [|done].
  by intros [= <- <- <-].
Qed.

Section Rel.
Context (R : Engine -> list ev -> Engine -> Prop).
Context (R_refl : forall s, R s [] s).
Context (R_trans : forall s e1 s1 e2 s2, R s e1 s1 -> R s1 e2 s2 -> R s (e1 ++ e2) s2).

Lemma rel_ret {A} (a : A) : rel R (mret a).
Proof. intros s s' es b [= <- <- <-]. apply R_refl. Qed.
Lemma rel_bind {A B} (m : eng A) (f : A -> eng B) : rel R m -> (forall a, rel R (f a)) -> rel R (m ≫= f).
Proof.
  intros Hm Hf s s' es b (s1 & e1 & a & e2 & H1 & H2 & ->)%bind_inv.
  eapply R_trans; [by eapply Hm|by eapply Hf].
Qed.
Lemma rel_gets {A} (f : Engine -> A) : rel R (gets f).
Proof. intros s s' es b [= <- <- <-]. apply R_refl. Qed.
Lemma rel_modify f : (forall s, R s [] (f s)) -> rel R (modify f).
Proof. intros Hf s s' es b [= <- <- <-]. apply Hf. Qed.
Lemma rel_tell e : (forall s, R s [e] s) -> rel R (tell e).
Proof. intros Hf s s' es b [= <- <- <-]. apply Hf. Qed.
Lemma rel_ask {A} (f : nat -> A) : (forall s k, R s [] (set_ticks k s)) -> rel R (ask f).
Proof. intros Hf s s' es b [= <- <- <-]. apply Hf. Qed.
Lemma rel_panic {A} : rel R (@panic A).
Proof. done. Qed.
Lemma rel_must {E A} (o : outcome E A) : rel R (must o).
Proof. intros s s' es a (_ & -> & ->)%must_inv. apply R_refl. Qed.
Lemma rel_try {E A} (o : outcome E A) : rel R (try o).
Proof. destruct o; [apply rel_ret|apply rel_ret|apply rel_panic]. Qed.
Lemma rel_must_bind {E A B} (o : outcome E A) (f : A -> eng B) :
  (forall a, o = Ret a -> rel R (f a)) -> rel R (must o ≫= f).
Proof.
  intros Hf s s' es b (s1 & e1 & a & e2 & (Ho & -> & ->)%must_inv & E2 & ->)%bind_inv. by apply (Hf a Ho _ _ _ _ E2).
Qed.
Lemma rel_try_bind {E A B} (o : outcome E A) (f : option A -> eng B) :
  (forall a, o = Ret a -> rel R (f (Some a))) -> rel R (f None) -> rel R (try o ≫= f).
Proof.
  intros Hs Hn s s' es b (s1 & e1 & a & e2 & E1 & E2 & ->)%bind_inv.
  destruct o as [x|e|]; [| |done]; injection E1 as <- <- <-; [by apply (Hs x eq_refl _ _ _ _ E2)|by apply (Hn _ _ _ _ E2)].
Qed.
Lemma rel_at {A} (l : list A) i : rel R (at_ l i).
Proof. intros s s' es a (_ & _ & -> & ->)%at_inv. apply R_refl. Qed.
Lemma rel_when b m : rel R m -> rel R (when b m).
Proof. destruct b; [done|]. intros _. apply rel_ret. Qed.
Lemma rel_forEach {A} (f : A -> eng unit) l : (forall x, rel R (f x)) -> rel R (forEach f l).
Proof. intros Hf. induction l; cbn; [apply rel_ret|]. by apply rel_bind. Qed.
Lemma rel_mapEach {A B} (f : A -> eng B) l : (forall x, rel R (f x)) -> rel R (mapEach f l).
Proof.
  intros Hf. induction l; cbn; [apply rel_ret|]. apply rel_bind; [done|]. intros y.
  apply rel_bind; [done|]. intros. apply rel_ret.
Qed.
End Rel.

(** Decompose a program under [rel]; [leaf] proves the relation for the
    primitive updates and events, [sub] the sub-programs with a lemma. *)
Ltac rel_with refl trans leaf sub :=
  repeat first
    [ sub
    | eapply (rel_bind _ trans); [|intros ?]
    | apply (rel_ret _ refl) | apply (rel_gets _ refl) | apply (rel_must _ refl)
    | apply (rel_try _ refl) | apply (rel_at _ refl) | apply rel_panic
    | apply (rel_when _ refl)
    | apply (rel_forEach _ refl trans); intros ?
    | apply (rel_mapEach _ refl trans); intros ?
    | apply rel_modify; intros ?; solve [leaf]
    | apply rel_tell; intros ?; solve [leaf]
    | apply rel_ask; intros ? ?; solve [leaf]
    | match goal with
      | |- rel _ (match ?x with _ => _ end) => destruct x
      | |- rel _ (if ?x then _ else _) => destruct x
      end ].

(** ** Framing *)

(** A body copied behind the header [hdr] of a slab. *)
Lemma fill_app (hdr rest b : list Z) : (length b <= length rest)%nat ->
  fill (hdr ++ rest) (length hdr) b = hdr ++ b.
Proof.
  intros Hl. unfold fill. rewrite take_app_length, app_assoc.
  by rewrite <- length_app, take_app_length.
Qed.

Lemma data_frame mem d (ct : list Z) :
  length mem = SlabSize ->
  exists mem', PutDataHeader mem d = Ret (mem', Len d) /\ length mem' = SlabSize /\
    ((Len d + length ct <= SlabSize)%nat -> fill mem' (Len d) ct = data_bytes d ++ ct).
Proof.
  intros Hl. assert (Hd : (Len d <= 24)%nat)
    by (unfold Len, DataHeaderFECSize, DataHeaderSize; destruct (hasFEC _); lia).
  rewrite PutDataHeader_ok by (rewrite Hl; unfold SlabSize; lia).
  eexists. split; [done|]. split.
  - rewrite length_app, length_data_bytes, length_drop, Hl. unfold SlabSize. lia.
  - intros Hf. rewrite <- (length_data_bytes d). apply fill_app.
    rewrite length_data_bytes, length_drop. lia.
Qed.

Lemma fec_frame mem f (shard : list Z) :
  length mem = SlabSize ->
  exists mem', PutFECHeader mem f = Ret (mem', FECHeaderSize) /\ length mem' = SlabSize /\
    ((FECHeaderSize + length shard <= SlabSize)%nat ->
       fill mem' FECHeaderSize shard = fec_bytes (as_fec f) ++ shard).
Proof.
  intros Hl. rewrite PutFECHeader_as by (rewrite Hl; unfold FECHeaderSize, SlabSize; lia).
  eexists. split; [done|]. split.
  - rewrite length_app, length_fec_bytes, length_drop, Hl. unfold FECHeaderSize, SlabSize. lia.
  - intros Hf. rewrite <- (length_fec_bytes (as_fec f)). apply fill_app.
    rewrite length_fec_bytes, length_drop. lia.
Qed.

(** The encoder's group number stays 24-bit, and its stamps fit the header. *)
Lemma closeLocked_group `{ReedSolomon} e : groupID (closeLocked e).1 = groupID e.
Proof.
  unfold closeLocked. destruct (_ || _); [done|].
  by destruct (if rs_new _ _ then _ else _).
Qed.

Lemma Add_group `{ReedSolomon} sq ct t e e' es stamp :
  Fec.Add sq ct t e = (e', es, stamp) -> is_u24 (groupID e) ->
  is_u24 (groupID e') /\ forall g i, stamp = Some (g, i) -> is_u24 g /\ is_u8 i.
Proof.
  unfold Fec.Add. destruct (_ && _); [by intros [= <- <- <-]|].
  set (e1 := pushShard sq ct _). intros E Hg.
  assert (Hg1 : is_u24 (groupID e1)).
  { unfold e1. cbn. case_decide; [|done]. cbn. change 0xffffff with (Z.ones 24).
    rewrite Z.land_ones by lia. change (2 ^ 24) with two24. mlia. }
  destruct (_ <=? _).
  - pose proof (closeLocked_group e1) as Hc. destruct (closeLocked e1) as [e2 es2].
    injection E as <- <- <-. cbn in Hc. split; [by rewrite Hc|]. intros g i [= <- <-].
    split; [done|apply u8_range].
  - injection E as <- <- <-. split; [done|]. intros g i [= <- <-]. split; [done|apply u8_range].
Qed.

Lemma Flush_group `{ReedSolomon} t e : groupID (Fec.Flush t e).1 = groupID e.
Proof. unfold Fec.Flush. destruct (_ && _); [apply closeLocked_group|done]. Qed.

(** Step through a triple: the next operation keeps the view ([sbind H]), or
    is a general triple ([tbind H]); [H] proves its triple. [ubind] leaves
    both to be proved. *)
Ltac sbind H := first [eapply same_then; [H|] | eapply same_bind; [H|]]; cbv beta.
Ltac ubind :=
  first [eapply (same_then _ _ (fun _ => True)) | eapply (same_bind _ _ _ (fun _ => True))]; cbv beta.
Ltac tbind H := eapply trip_bind; [H|]; cbv beta.

(** ** The shared operations *)

Section Ops.
Context `{Rounding} `{Blake2s} `{ReedSolomon} `{MapOrder} `{World} `{!WorldLaws _}.
Context (cfg : Config).

(** [t] is a reading of the clock. *)
Definition reading (t : Z) : Prop := exists k, t = clock k.

Lemma same_now s : same s now reading.
Proof. apply same_ask. Qed.

Lemma same_nowUS s : same s nowUS is_u64.
Proof.
  sbind ltac:(apply same_now). intros s1 t Hv _. sbind ltac:(apply same_gets). intros s2 a _ _.
  apply same_ret, u64_range.
Qed.

Lemma same_txTS s : same s txTS is_u32.
Proof.
  sbind ltac:(apply same_now). intros s1 t Hv _. sbind ltac:(apply same_gets). intros s2 a _ _.
  apply same_ret, u32_range.
Qed.

Lemma trip_Get s :
  trip s [] Get (fun sl => [sl_id sl])
    (fun s' sl => view s' = view s /\ length (sl_mem sl) = SlabSize /\ is_bytes (sl_mem sl)).
Proof.
  intros Hi. unfold Get. apply wp_bind. unfold wp, ask. cbn -[held view].
  split; [by apply inv_ticks|]. split; [unfold flow; reflexivity|].
  split; [done|]. split; [apply garbage_len|apply garbage_bytes].
Qed.

Lemma trip_Put s sl : trip s [sl_id sl] (Put sl) (fun _ => []) (fun s' _ => view s' = view s).
Proof.
  intros Hi. split; [done|]. split; [|done]. unfold flow. cbn.
  by rewrite app_nil_r, <- Permutation_cons_append.
Qed.

Lemma trip_Release s p : trip s (pkt_slabs p) (Release p) (fun _ => []) (fun s' _ => view s' = view s).
Proof.
  unfold Release, pkt_slabs. destruct (Slab p); [apply trip_Put|]. by apply trip_ret.
Qed.

Definition bind_slabs (es : list (bind_event (P := Inbound))) : list nat :=
  released es ≫= fun i => pkt_slabs (inPkt i).

(** The release events of the bind, with any other event left to [g]. *)
Lemma trip_bind_events s g es :
  (forall s1 i p, BRecv i p ∈ es -> view s1 = view s -> same s1 (g i p) (fun _ => True)) ->
  trip s (bind_slabs es)
    (forEach (fun e => match e with BRelease i => Release (inPkt i) | BRecv i p => g i p end) es)
    (fun _ => []) (fun s' _ => view s' = view s).
Proof.
  intros Hg.
  pose (own := fun e : bind_event (P := Inbound) =>
                 match e with BRelease i => pkt_slabs (inPkt i) | BRecv _ _ => [] end).
  replace (bind_slabs es) with (es ≫= own).
  2:{ unfold bind_slabs, released. clear. induction es as [|[i|i p] es IH]; cbn; [done| |done].
      by rewrite IH. }
  apply (trip_forEach own (fun s1 => view s1 = view s)); [|done].
  intros s1 [i|i p] Hin Hv; cbn [own].
  - eapply trip_weaken; [apply trip_Release|done|done|]. intros ? ? ->. done.
  - eapply trip_weaken; [by apply (Hg s1 i p)|done|done|]. intros ? ? [-> _]. done.
Qed.

(** Replacing the bind after one of its steps. *)
Lemma trip_bind_step s ins es b' :
  bind_step (bind s) ins es b' -> Forall in_wf ins ->
  trip s (ins ≫= fun i => pkt_slabs (inPkt i)) (modify (set_bind b'))
    (fun _ => bind_slabs es) (fun s' _ => view s' = view s).
Proof.
  intros Hs Hins Hi. destruct (bind_step_wf _ _ _ _ (inv_bind _ Hi) Hs) as [Hw Hp].
  assert (Hq : Forall in_wf (released es ++ queued b')).
  { rewrite <- Hp. apply Forall_app_2; [apply (inv_queue _ Hi)|done]. }
  apply Forall_app in Hq as [_ Hq]. split; [|split; [|done]].
  - destruct Hi. by constructor.
  - unfold flow, held, bind_slabs. cbn. rewrite app_nil_r, <- !app_assoc.
    do 2 apply Permutation_app_head. rewrite <- !bind_app, Hp.
    by rewrite (Permutation_app_comm (released es)).
Qed.

Lemma trip_deliver s pkt ep :
  pkt_wf pkt ->
  trip s (pkt_slabs pkt) (deliver pkt ep) (fun _ => []) (fun s' _ => view s' = view s).
Proof.
  intros Hwf. apply trip_assume. intros Hi. unfold deliver.
  apply trip_gets_bind.
  assert (Hd : exists b' es ok, Wgbridge.Deliver (mkInbound pkt ep) (bind s) = Ret (b', es, ok)).
  { unfold Wgbridge.Deliver. destruct (b_rx (bind s)) as [i|] eqn:Hrx; [|eauto].
    destruct (b_closed (bind s)) eqn:Hcl; [eauto|].
    destruct (wb_rx _ (inv_bind _ Hi) i Hrx Hcl) as (c & -> & ->). case_decide; eauto. }
  destruct Hd as (b' & es & ok & Hd). eapply trip_must_bind; [exact Hd|]. cbv iota.
  tbind ltac:(eapply trip_weaken;
    [apply (trip_bind_step s [mkInbound pkt ep]);
      [by eapply bs_deliver|by apply List.Forall_cons; [|apply List.Forall_nil]]|by rewrite bind_cons, app_nil_r
    |done|intros ? ? E; exact E]).
  intros s1 [] Hv1. tbind ltac:(apply (trip_bind_events s1 (fun _ _ => mret tt));
    intros; by apply same_ret).
  intros s2 [] Hv2. apply trip_ret; [done|congruence].
Qed.

Lemma trip_deliverOrCount s pkt ep :
  pkt_wf pkt ->
  trip s (pkt_slabs pkt) (deliverOrCount pkt ep) (fun _ => []) (fun s' _ => view s' = view s).
Proof.
  intros Hwf. unfold deliverOrCount. tbind ltac:(by apply trip_deliver). intros s1 ok Hv.
  eapply trip_weaken; [apply same_when; intros; apply same_count|done|done|].
  intros ? ? [-> _]. done.
Qed.

(** The slabs that leave a resequencing buffer. *)
Definition event_slabs (es : list (Reorder.event Packet)) : list nat := outs es ≫= pkt_slabs.

Lemma trip_onReorder ep es s :
  Forall pkt_wf (outs es) ->
  trip s (event_slabs es) (forEach (onReorder ep) es) (fun _ => []) (fun s' _ => view s' = view s).
Proof.
  intros Hwf. pose (own := fun e : Reorder.event Packet => outs [e] ≫= pkt_slabs).
  replace (event_slabs es) with (es ≫= own).
  2:{ unfold event_slabs, own. clear. induction es as [|e es IH]; [done|].
      rewrite bind_cons, IH. change (e :: es) with ([e] ++ es). by rewrite outs_app, bind_app. }
  apply (trip_forEach own (fun s1 => view s1 = view s)); [|done].
  intros s1 e Hin Hv. unfold own. destruct e as [p l|p|d|]; cbn; rewrite ?app_nil_r.
  - assert (Hp : pkt_wf p).
    { rewrite list.Forall_forall in Hwf. apply Hwf. apply list_elem_of_omap. by exists (Reorder.Deliver p l). }
    eapply trip_weaken; [by apply trip_deliverOrCount|done|done|]. intros ? ? ->. done.
  - eapply trip_weaken; [apply trip_Release|done|done|]. intros ? ? ->. done.
  - eapply trip_weaken; [by apply same_tell|done|done|]. intros ? ? [-> _]. done.
  - eapply trip_weaken; [by apply same_tell|done|done|]. intros ? ? [-> _]. done.
Qed.

(** The recovery callback takes a slab and hands it to [push]. *)
Lemma same_recover s push e :
  (forall s1 sq pkt, view s1 = view s -> pkt_wf pkt ->
     trip s1 (pkt_slabs pkt) (push sq pkt) (fun _ => []) (fun s' _ => view s' = view s1)) ->
  same s (recover push e) (fun _ => True).
Proof.
  intros Hp. unfold recover. destruct e as [|sq ct]; [by apply same_ret|].
  tbind ltac:(apply trip_Get). intros s1 sl (Hv1 & _).
  assert (Hwf : forall id, pkt_wf (mkPacket (Some (mkSlab id (take (Nat.min (length (sl_mem sl)) (length ct)) ct ++
    drop (Nat.min (length (sl_mem sl)) (length ct)) (sl_mem sl)))) 0 (Nat.min (length (sl_mem sl)) (length ct)))).
  { intros id. apply pkt_wf_slab. cbn [sl_mem]. rewrite length_app, length_take. lia. }
  eapply trip_weaken; [by apply Hp|done|done|]. intros s2 [] Hv2. split; [congruence|done].
Qed.

(** What is received was queued. *)
Lemma recv_wf (P : Inbound -> Prop) i b b' es j p :
  Forall P (queued b) -> recv i b = Some (Ret (b', es)) -> BRecv j p ∈ es -> P p.
Proof.
  intros Hq Hr Hin. unfold recv in Hr. destruct (heap b !! i) as [[[|q rest] cl]|] eqn:Hh; [by destruct cl| |done].
  injection Hr as _ <-. assert (p = q) as -> by (apply elem_of_cons in Hin as [[= _ ->]|[?|?%elem_of_nil]%elem_of_cons]; done).
  rewrite list.Forall_forall in Hq. apply Hq. unfold queued. apply list_elem_of_bind.
  exists (mkChan (q :: rest) cl). split; [by left|by eapply list_elem_of_lookup_2].
Qed.

Lemma trip_wgRecv s i : same s (wgRecv i) (fun _ => True).
Proof.
  apply trip_assume. intros Hi. unfold wgRecv. apply same_gets_bind.
  destruct (recv i (bind s)) as [[[b' es]| |]|] eqn:Hr; [|by apply same_ret| |by apply same_ret].
  2:{ unfold recv in Hr. destruct (heap (bind s) !! i) as [[[|p r] [|]]|]; done. }
  assert (Hwf : forall j p, BRecv j p ∈ es -> in_wf p) by (intros j p; exact (recv_wf in_wf _ _ _ _ j p (inv_queue _ Hi) Hr)).
  tbind ltac:(eapply trip_weaken; [apply (trip_bind_step s []); [by eapply bs_recv|apply List.Forall_nil]|done|done
    |intros ? ? E; exact E]).
  intros s1 [] Hv1.
  tbind ltac:(apply (trip_bind_events s1 (fun _ p => b ← must (Bytes (inPkt p)); tell (ToWireGuard (inEp p) b)));
    intros s2 j p Hin _; destruct (Hwf _ _ Hin) as [b Hb]; eapply trip_must_bind; [exact Hb|by apply same_tell]).
  intros s2 [] Hv2. apply trip_ret; [done|]. split; [congruence|done].
Qed.

(** The classifier, if there is one, can count [k] more packets. *)
Definition room (k : Z) (s : Engine) : Prop := forall c, classifier s = Some c -> spare k c.

(** The hook, when it returns; and it returns while there is room. *)
Lemma inspect_keeps s pkt s' es a :
  inv s -> inspect pkt s = Ret (s', es, a) -> inv s' /\ flow s [] es s' [] /\ view s' = view s.
Proof.
  intros Hi. unfold inspect. intros (s1 & e1 & cl & e2 & [= <- <- <-] & E & ->)%bind_inv.
  destruct (classifier s) as [c|] eqn:Hc; [|injection E as <- <- _; split_and!; [done|by apply flow_pure|done]].
  apply bind_inv in E as (s2 & e3 & [c1 x] & e4 & (Er & -> & ->)%must_inv & E & ->).
  apply bind_inv in E as (s3 & e5 & [] & e6 & [= <- <-] & [= <- <-] & ->). cbn [app fst snd].
  destruct (Classify_keeps _ _ _ _ (inv_classifier _ Hi c Hc) Er) as [Hw Hx].
  split_and!; [|by apply flow_pure|done].
  pose proof (inv_correlator _ Hi) as Hf. destruct Hi. constructor; cbn; try done; [by intros ? [= <-]|].
  unfold PushPlain. case_decide; [|done]. apply Forall_app_2; [done|].
  apply List.Forall_cons; [done|apply List.Forall_nil].
Qed.

Lemma inspect_returns s pkt k :
  0 <= k < two64 - 1 -> room (k + 1) s -> exists s' es, inspect pkt s = Ret (s', es, tt) /\ room k s'.
Proof.
  intros Hk Hroom. unfold inspect, mbind, eng_bind. cbn. destruct (classifier s) as [c|] eqn:Hc.
  2:{ eexists _, _. split; [done|]. intros c Hc'. congruence. }
  destruct (Classify_step pkt c (two64 - 1 - (k + 1)) (Hroom c Hc)) as (c1 & x & E & _ & Hc1); [lia|lia|].
  unfold must. rewrite E. eexists _, _. split; [done|]. intros ? [= <-]. unfold spare.
  by replace (two64 - 1 - k) with (two64 - 1 - (k + 1) + 1) by lia.
Qed.

Lemma trip_inspect s pkt k :
  0 <= k < two64 - 1 -> room (k + 1) s ->
  trip s [] (inspect pkt) (fun _ => []) (fun s' _ => view s' = view s /\ room k s').
Proof.
  intros Hk Hroom Hi. destruct (inspect_returns s pkt k Hk Hroom) as (s' & es & E & Hr).
  unfold wp. rewrite E. by destruct (inspect_keeps _ _ _ _ _ Hi E) as (? & ? & ?).
Qed.

Lemma same_inspect s pkt : room 1 s -> same s (inspect pkt) (fun _ => True).
Proof.
  intros Hr. eapply trip_weaken; [apply (trip_inspect s pkt 0); [lia|exact Hr]|done|done|]. by intros ? ? [? _].
Qed.

Lemma scan_class n : forall i q l j x, Forall (fun e => wf_class (ceClass e)) q ->
  scan n i q l = Some (j, x) -> wf_class x.
Proof.
  induction n as [|n IH]; intros i q l j x Hq; [done|]. destruct q as [|e q]; [done|]. cbn.
  apply Forall_cons_iff in Hq as [He Hq]. destruct (_ =? _); [by intros [= _ <-]|by apply IH].
Qed.

Lemma Match_class n c : Forall (fun e => wf_class (ceClass e)) (fifo c) ->
  Forall (fun e => wf_class (ceClass e)) (fifo (MatchCiphertext n c).1) /\ wf_class (MatchCiphertext n c).2.
Proof.
  intros Hc. unfold MatchCiphertext. destruct (scan _ _ _ _) as [[j x]|] eqn:Hs; cbn.
  - split; [by apply Forall_drop|]. by eapply scan_class.
  - split; [done|by left].
Qed.

Lemma same_classifyCt s ct : same s (classifyCt ct) wf_class.
Proof.
  apply trip_assume. intros Hi. unfold classifyCt.
  case_decide as Hl; [apply same_ret; by right; right|].
  destruct (@idx_lt Empty_set _ ct 0) as (t & E & _); [lia|].
  eapply trip_must_bind; [exact E|]. destruct (negb _); [apply same_ret; by right; right|].
  case_decide; [apply same_ret; by right; right|]. apply same_gets_bind.
  destruct (classifier s); [|apply same_ret; by left]. apply same_gets_bind.
  destruct (Match_class (Z.of_nat (length ct)) _ (inv_correlator _ Hi)) as [Hf Hx].
  destruct (MatchCiphertext _ _) as [c1 x]. cbn [fst snd] in Hf, Hx.
  sbind ltac:(apply same_modify; [|done|done]).
  { intros []. by constructor. }
  intros s1 [] _ _. by apply same_ret.
Qed.

(** ** Handlers *)

(** Give the slab back after operations that kept the view [v]. *)
Lemma trip_Put_view s sl v :
  view s = v -> trip s [sl_id sl] (Put sl) (fun _ => []) (fun s' _ => view s' = v /\ True).
Proof. intros <-. eapply trip_weaken; [apply trip_Put|done|done|by intros]. Qed.

Lemma same_countTx s n :
  same s (_ ← count set_TxPackets TxPackets 1; count set_TxBytes TxBytes n) (fun _ => True).
Proof. sbind ltac:(apply same_count). intros. apply same_count. Qed.

(** A handler that ends by giving its slab back. *)
Lemma trip_then_Put s sl (m : eng unit) (R : Engine -> Prop) :
  (forall s1 s2, view s2 = view s1 -> R s1 -> R s2) ->
  trip s [] m (fun _ => []) (fun s' _ => R s') ->
  trip s [sl_id sl] (_ ← m; Put sl) (fun _ => []) (fun s' _ => R s').
Proof.
  intros HR Hm. tbind ltac:(exact (trip_frame [sl_id sl] _ [] _ _ _ Hm)). intros s3 [] Hs3.
  eapply trip_weaken; [apply trip_Put|done|done|]. intros s4 [] Hv4. by eapply HR.
Qed.

Lemma trip_badDatagram s sl :
  trip s [sl_id sl] (_ ← count set_RxDropMalformed RxDropMalformed 1; Put sl) (fun _ => [])
    (fun s' _ => view s' = view s).
Proof.
  sbind ltac:(apply same_count). intros s1 [] Hv1 _.
  eapply trip_weaken; [apply trip_Put|done|done|]. intros ? ? ->. done.
Qed.

Lemma readInto_ok sl dgram :
  length (sl_mem sl) = SlabSize -> is_bytes (sl_mem sl) -> is_bytes dgram ->
  let n := Nat.min (length (sl_mem sl)) (length dgram) in
  (n <= length (sl_mem (readInto sl dgram)))%nat /\ is_bytes (sl_mem (readInto sl dgram)) /\
  take n (sl_mem (readInto sl dgram)) = take SlabSize dgram.
Proof.
  intros Hl Hm Hd n. unfold readInto. cbn [sl_mem sl_id]. rewrite length_app, length_take, length_drop.
  split_and!; [lia|apply Forall_app_2; [by apply Forall_take|by apply Forall_drop]|].
  rewrite take_app_le by (rewrite length_take; unfold n; lia).
  rewrite take_take. unfold n. rewrite Hl.
  destruct (decide (length dgram <= SlabSize)%nat); [|f_equal; lia].
  rewrite (take_ge dgram (Nat.min _ _)) by lia. by rewrite take_ge.
Qed.

(** WireGuard opens and closes the bind. *)
Definition bindOpen : eng unit := modify (fun s => set_bind (Open (bind s)).1 s).
Definition bindClose : eng unit := b ← gets bind; b' ← must (BindClose b); modify (set_bind b').

Lemma trip_bindOpen s : trip s [] bindOpen (fun _ => []) (fun s' _ => view s' = view s).
Proof.
  destruct (Open (bind s)) as [b r] eqn:E.
  pose proof (trip_bind_step s [] [] b (bs_open _ _ r E) (List.Forall_nil _)) as Ht.
  unfold bindOpen. unfold trip, wp, modify in *. by rewrite E.
Qed.

Lemma trip_bindClose s : trip s [] bindClose (fun _ => []) (fun s' _ => view s' = view s).
Proof.
  apply trip_assume. intros Hi. unfold bindClose. apply trip_gets_bind.
  assert (exists b', BindClose (bind s) = Ret b') as [b' E].
  { unfold BindClose. destruct (b_rx (bind s)) as [i|] eqn:Hrx; [|eauto].
    destruct (b_closed (bind s)) eqn:Hcl; [eauto|].
    destruct (wb_rx _ (inv_bind _ Hi) i Hrx Hcl) as (c & -> & ->). eauto. }
  eapply trip_must_bind; [exact E|]. exact (trip_bind_step s [] [] b' (bs_close _ _ E) (List.Forall_nil _)).
Qed.

(** Discard the value of an operation. *)
Lemma trip_drop {A} s (m : eng A) (P : Engine -> Prop) :
  trip s [] m (fun _ => []) (fun s' _ => P s') ->
  trip s [] (_ ← m; mret tt) (fun _ => []) (fun s' _ => P s').
Proof. intros Hm. tbind ltac:(exact Hm). intros. by apply trip_ret. Qed.

Lemma same_trip {A} s (m : eng A) (Φ : A -> Prop) :
  same s m Φ -> trip s [] m (fun _ => []) (fun s' _ => view s' = view s).
Proof. intros Hm. eapply trip_weaken; [exact Hm|done|done|]. by intros ? ? [? _]. Qed.

(** ** A new engine *)

Definition cfg_ok : Prop :=
  forall c, cfgClassifier cfg = Some c -> wf_classifier c.

Lemma inv_New t : cfg_ok -> inv (NewEngine cfg t).
Proof.
  intros Hc. constructor; cbn.
  - constructor; cbn; [done|constructor].
  - constructor.
  - apply good_New.
  - apply List.Forall_nil.
  - apply map_Forall_empty.
  - intros i p Hp. by rewrite lookup_nil in Hp.
  - by vm_compute.
  - intros e He. destruct (match cfgMode cfg with ModeClient => _ | ModeServer => _ end); [|done].
    injection He as <-. by vm_compute.
  - exact Hc.
  - constructor.
Qed.

Lemma held_New t : held (NewEngine cfg t) = [].
Proof. unfold held, sess_vals. cbn. rewrite map_to_list_empty. done. Qed.

Lemma enc_ok_retune enc snaps : enc_ok enc -> enc_ok (retuneFEC cfg enc snaps).
Proof. intros He. destruct enc as [e|]; [|done]. intros ? [= <-]. by apply (He e). Qed.

End Ops.
