(* ===== verification/ClientSafe.v ===== *)
(** * The client datapath is safe

    No client operation panics, each keeps the engine's invariant and
    accounts for every packet slab: the triples of [Client]'s operations. *)

From stdpp Require Import strings.
From S2P Require Import Prelude Wire Control Float64 Sched Link PathSelect Fec Reorder.
From S2P Require Import ReorderInv ReorderTrace ReorderSpec Wgbridge Engine EngineLogic Client.
#[local] Open Scope Z_scope.

(** The number of paths. *)
Definition np (s : Engine) : nat := length (paths s).

Lemma np_view s1 s : view s1 = view s -> np s1 = np s.
Proof. intros [= Hp _]. unfold np. by rewrite <- (length_fmap (fun p => (pID p, registered p))), Hp, length_fmap. Qed.

Section Safe.
Context `{Rounding} `{Blake2s} `{ReedSolomon} `{MapOrder} `{World} `{!WorldLaws _}.
Context (cfg : Config).

(** ** Paths *)

(** An update of a path that returns has changed that path and nothing else. *)
Lemma updPath_inv i f s s' es a :
  updPath i f s = Ret (s', es, a) -> s' = set_paths (alter f i (paths s)) s /\ es = [] /\ (i < length (paths s))%nat.
Proof.
  unfold updPath, pathAt. intros (s1 & e1 & p & e2 & E & [= <- <-] & ->)%bind_inv.
  apply bind_inv in E as (s2 & e3 & ps & e4 & [= <- <- <-] & (Hp & _ & -> & ->)%at_inv & ->).
  rewrite Nat2Z.id in Hp. split_and!; [done|done|by eapply lookup_lt_Some].
Qed.

Lemma rel_updPath (R : Engine -> list ev -> Engine -> Prop) i f :
  (forall s, R s [] (set_paths (alter f i (paths s)) s)) -> rel R (updPath i f).
Proof. intros HR s s' es a (-> & -> & _)%updPath_inv. apply HR. Qed.

Lemma same_pollReady s d : same s (pollReady d) (fun _ => True).
Proof.
  unfold pollReady. sbind ltac:(apply same_now). intros s1 t _ _.
  destruct (t <? d); [|by apply same_ret]. unfold activePath. apply same_gets_bind. by apply same_ret.
Qed.

Lemma same_pathAt s i : (i < np s)%nat ->
  same s (pathAt i) (fun p => path_ok i p /\ (view s).1 !! i = Some (pID p, registered p)).
Proof.
  intros Hi. apply trip_assume. intros Hinv. unfold pathAt. apply same_gets_bind.
  destruct (lookup_lt_is_Some_2 _ _ Hi) as [p Hp].
  eapply same_weaken; [|by apply same_at]. intros ? ->. split; [by eapply inv_paths|].
  unfold view. cbn. by rewrite list_lookup_fmap, Hp.
Qed.

(** An index in range of an earlier state with the same view. *)
Ltac in_paths :=
  match goal with
  | |- (?i < np ?s)%nat =>
      first [ assumption
            | match goal with H : (i < np ?s0)%nat |- _ => rewrite (np_view s s0) by congruence; exact H end ]
  end.

Lemma same_updPath s i f :
  (i < np s)%nat ->
  (forall p, path_ok i p -> path_ok i (f p)) ->
  (forall p, pID (f p) = pID p /\ registered (f p) = registered p) ->
  same s (updPath i f) (fun _ => True).
Proof.
  intros Hlt Hok Hid. unfold updPath. sbind ltac:(by apply same_pathAt). intros s1 _ _ _. clear Hlt s. rename s1 into s.
  apply same_modify; [|done|].
  - intros []. constructor; cbn; try done. intros j p Hj.
    destruct (decide (j = i)) as [->|Hne].
    + rewrite list_lookup_alter_eq in Hj. destruct (paths s !! i) as [q|] eqn:E; [|done].
      injection Hj as <-. by apply Hok, inv_paths.
    + rewrite list_lookup_alter_ne in Hj by done. by apply inv_paths.
  - unfold view. cbn. f_equal. apply list_eq. intros j. rewrite !list_lookup_fmap.
    destruct (decide (j = i)) as [->|Hne].
    + rewrite list_lookup_alter_eq. destruct (paths s !! i) as [q|]; [|done]. cbn.
      destruct (Hid q) as [-> ->]. done.
    + by rewrite list_lookup_alter_ne.
Qed.

(** An update that touches neither identity nor the packet counter. *)
Lemma same_updPath_frame s i f :
  (i < np s)%nat ->
  (forall p, pID (f p) = pID p /\ registered (f p) = registered p /\ pathSeq (f p) = pathSeq p) ->
  same s (updPath i f) (fun _ => True).
Proof.
  intros Hlt Hf. apply same_updPath; [done|..].
  - intros p [Ha Hb]. destruct (Hf p) as (E1 & _ & E3). constructor; congruence.
  - intros p. destruct (Hf p) as (? & ? & _). done.
Qed.

Lemma same_write s i b : (i < np s)%nat -> same s (write i b) (fun _ => True).
Proof.
  intros Hi. unfold write. sbind ltac:(by apply same_pathAt). intros s1 p Hv _.
  destruct (conn p); [|by apply same_ret]. sbind ltac:(apply same_ask). intros s2 ok _ _.
  sbind ltac:(by apply same_tell). intros. by apply same_ret.
Qed.

Lemma same_dial s i : (i < np s)%nat -> same s (dial i) (fun _ => True).
Proof.
  intros Hi. unfold dial. apply same_gets_bind. sbind ltac:(apply same_ask). intros s1 ok Hv1 _.
  destruct ok; [cbn [negb]|by apply same_ret]. sbind ltac:(by apply same_tell). intros s2 [] Hv2 _.
  sbind ltac:(apply same_pathAt; by rewrite (np_view s2 s) by congruence). intros s3 p Hv3 _.
  destruct (pclosed p); [sbind ltac:(by apply same_tell); intros; by apply same_ret|].
  sbind ltac:(by apply same_updPath_frame; [in_paths|]). intros s4 [] Hv4 _.
  ubind. { destruct (conn p); [by apply same_tell|by apply same_ret]. }
  intros. by apply same_ret.
Qed.

Lemma same_closePath s i : (i < np s)%nat -> same s (closePath i) (fun _ => True).
Proof.
  intros Hi. unfold closePath. sbind ltac:(by apply same_pathAt). intros s1 p Hv1 _.
  sbind ltac:(by apply same_updPath_frame; [in_paths|]). intros s2 [] Hv2 _.
  destruct (conn p); [|by apply same_ret]. sbind ltac:(by apply same_tell). intros s3 [] Hv3 _.
  by apply same_updPath_frame; [in_paths|].
Qed.

Lemma indices_lt f ps i : i ∈ indices f ps -> (i < length ps)%nat.
Proof.
  unfold indices. intros ([j p] & -> & Hf)%list_elem_of_fmap.
  apply list_elem_of_filter in Hf as [_ Hf]. apply elem_of_lookup_imap in Hf as (k & q & [= -> ->] & Hq).
  by eapply lookup_lt_Some.
Qed.

Lemma sendable_lt ps i : i ∈ sendable ps -> (i < length ps)%nat.
Proof. unfold sendable. case_decide; apply indices_lt. Qed.

(** The pick is one of the candidates. *)
Lemma same_stripe s ix :
  ix <> [] -> (forall i, i ∈ ix -> (i < np s)%nat) -> same s (stripe ix) (fun i => i ∈ ix).
Proof.
  intros Hne Hlt. unfold stripe. case_decide as Hone.
  { destruct ix as [|i ix]; [done|]. eapply same_weaken; [|by apply (same_at s _ 0)].
    intros ? ->. by left. }
  assert (Htwo : (2 <= length ix)%nat) by (destruct ix as [|? [|? ?]]; cbn in *; (done || lia)).
  sbind ltac:(eapply (same_mapEach (fun _ _ => True))).
  { intros s1 x Hx Hv. eapply same_weaken; [|apply same_pathAt; rewrite (np_view s1 s) by done; by apply Hlt].
    done. }
  intros s1 ps Hv1 Hps%Forall2_length. apply same_gets_bind.
  destruct (Pick_ret (pID <$> ps) ((fun p => Weight (pLink p)) <$> ps) (wsched s1))
    as (id & w' & b & E & Hb & _); [by rewrite length_fmap, <- Hps|by rewrite !length_fmap|].
  eapply trip_must_bind; [exact E|]. cbn [fst snd].
  sbind ltac:(apply same_modify; [|done|done]). { intros []. by constructor. }
  intros s2 [] _ _. apply lookup_lt_Some in Hb. rewrite length_fmap, <- Hps in Hb.
  destruct (lookup_lt_is_Some_2 ix b Hb) as [i Hi]. eapply same_weaken; [|by apply same_at].
  intros ? ->. by eapply list_elem_of_lookup_2.
Qed.

(** ** Sending *)

Lemma same_sendDataOn s i class dup session sq tag ct :
  (i < np s)%nat -> same s (sendDataOn i class dup session sq tag ct) (fun _ => True).
Proof.
  intros Hi. unfold sendDataOn. tbind ltac:(apply trip_Get). intros s1 sl (Hv1 & Hl & _).
  assert (Hi1 : (i < np s1)%nat) by by rewrite (np_view s1 s).
  sbind ltac:(by apply same_pathAt). intros s2 p Hv2 [Hp _].
  sbind ltac:(apply same_updPath; [in_paths|..]).
  { intros q []. constructor; [done|apply u32_range]. }
  { done. }
  intros s3 [] Hv3 _. sbind ltac:(apply same_txTS). intros s4 ts Hv4 _.
  set (d := mkDataHeader _ _ _ _ _ _ _).
  destruct (data_frame (sl_mem sl) d ct Hl) as (mem & E & Hm & _).
  eapply trip_must_bind; [exact E|]. cbv iota.
  assert (Hi4 : (i < np s4)%nat) by (rewrite (np_view s4 s) by congruence; done).
  ubind.
  { case_decide; [apply same_count|]. sbind ltac:(by apply same_write). intros s5 ok Hv5 _.
    destruct ok; [apply same_countTx|by apply same_updPath_frame; [in_paths|]]. }
  intros s5 [] Hv5 _. apply trip_Put_view. congruence.
Qed.

Lemma same_clientEmitParity s e : same s (clientEmitParity cfg e) (fun _ => True).
Proof.
  unfold clientEmitParity. destruct e as [grp index k m shard|]; [|by apply same_ret].
  apply same_gets_bind. case_decide as Hne; [by apply same_ret|].
  sbind ltac:(apply same_stripe).
  { intros E. by rewrite E in Hne. }
  { intros i Hi%sendable_lt. done. }
  intros s0 i Hv0 Hi%sendable_lt. tbind ltac:(apply trip_Get). intros s1 sl (Hv1 & Hl & _).
  assert (Hi1 : (i < np s1)%nat) by (rewrite (np_view s1 s) by congruence; done).
  sbind ltac:(by apply same_pathAt). intros s2 p Hv2 _.
  set (f := mkFECHeader _ _ _ _ _ _ _).
  destruct (fec_frame (sl_mem sl) f shard Hl) as (mem & E & Hm & _).
  eapply trip_must_bind; [exact E|]. cbv iota.
  assert (Hi2 : (i < np s2)%nat) by (rewrite (np_view s2 s) by congruence; done).
  ubind.
  { case_decide; [by apply same_ret|]. sbind ltac:(by apply same_write). intros s5 ok Hv5 _.
    apply same_when. intros _. apply same_countTx. }
  intros s5 [] Hv5 _. apply trip_Put_view. congruence.
Qed.

Lemma same_nextRt s : same s nextRt is_u32.
Proof.
  unfold nextRt. apply trip_assume. intros Hi.
  assert (Hm : same s (modify (fun s => set_rtSeq (u32 (rtSeq s + 1)) s)) (fun _ => True)).
  { apply same_modify; [|done|done]. intros []. constructor; cbn; try done.
    split; [apply u32_range|apply inv_seqs]. }
  eapply same_bind; [exact Hm|]. intros s1 [] Hv _. apply trip_assume. intros Hi1.
  eapply trip_weaken; [apply same_gets|done|done|]. intros s2 a [-> ->]. split; [done|apply Hi1].
Qed.

Lemma same_nextGlobal s : same s nextGlobal is_u32.
Proof.
  unfold nextGlobal. apply trip_assume. intros Hi.
  assert (Hm : same s (modify (fun s => set_globalSeq (u32 (globalSeq s + 1)) s)) (fun _ => True)).
  { apply same_modify; [|done|done]. intros []. constructor; cbn; try done.
    split; [apply inv_seqs|apply u32_range]. }
  eapply same_bind; [exact Hm|]. intros s1 [] Hv _. apply trip_assume. intros Hi1.
  eapply trip_weaken; [apply same_gets|done|done|]. intros s2 a [-> ->]. split; [done|apply Hi1].
Qed.

Definition tag_ok (t : fecTag) : Prop :=
  is_u24 (tag_group t) /\ is_u8 (tag_index t) /\
  (tag_on t = false -> tag_group t = 0 /\ tag_index t = 0).

Lemma same_setEnc s e : is_u24 (groupID e) -> same s (modify (set_fecEnc (Some e))) (fun _ => True).
Proof. intros He. apply same_modify; [|done|done]. intros []. constructor; cbn; try done. by intros ? [= <-]. Qed.

Lemma noTag_ok : tag_ok noTag.
Proof. by vm_compute. Qed.

Lemma same_fecAdd s sq ct : same s (fecAdd cfg sq ct) tag_ok.
Proof.
  unfold fecAdd. apply trip_assume. intros Hi. apply same_gets_bind.
  destruct (fecEnc s) as [enc|] eqn:He; [|apply same_ret, noTag_ok].
  pose proof (inv_enc _ Hi enc He) as Hu.
  sbind ltac:(apply same_now). intros s1 t Hv1 _.
  destruct (Fec.Add sq ct t enc) as [[enc' es] stamp] eqn:E.
  destruct (Add_group _ _ _ _ _ _ _ E Hu) as [Hu' Hst].
  sbind ltac:(by apply same_setEnc). intros s2 [] Hv2 _.
  sbind ltac:(apply same_forEach; intros; apply same_clientEmitParity). intros s3 [] Hv3 _.
  apply same_ret. destruct stamp as [[g i]|]; [|apply noTag_ok].
  destruct (Hst g i eq_refl). by split_and!.
Qed.

Lemma same_aqm s p : same s (aqm p) (fun _ => True).
Proof.
  unfold aqm. destruct (Qltb 0 p); [|by apply same_ret]. sbind ltac:(apply same_ask). intros.
  by apply same_ret.
Qed.

Lemma same_sendBulk s ix ct :
  ix <> [] -> (forall i, i ∈ ix -> (i < np s)%nat) -> same s (sendBulk cfg ix ct) (fun _ => True).
Proof.
  intros Hne Hlt. unfold sendBulk. sbind ltac:(by apply same_stripe). intros s1 i Hv1 Hi%Hlt.
  sbind ltac:(apply same_pathAt; by rewrite (np_view s1 s)). intros s2 p Hv2 _.
  sbind ltac:(apply same_aqm). intros s3 drop Hv3 _. destruct drop; [apply same_count|].
  sbind ltac:(apply same_nextGlobal). intros s4 sq Hv4 _.
  sbind ltac:(apply same_fecAdd). intros s5 tag Hv5 _. apply same_sendDataOn.
  by rewrite (np_view s5 s) by congruence.
Qed.

Lemma same_holdPending s ct : same s (holdPending ct) (fun _ => True).
Proof.
  unfold holdPending. apply same_gets_bind. case_decide; [apply same_count|].
  apply same_modify; [|done|done]. intros []. by constructor.
Qed.

Lemma same_sendOne s ct : same s (sendOne cfg ct) (fun _ => True).
Proof.
  unfold sendOne. apply same_gets_bind. set (ix := sendable (paths s)).
  assert (Hlt : forall i, i ∈ ix -> (i < np s)%nat) by (intros i Hi%sendable_lt; done).
  case_decide as Hne; [apply same_holdPending|].
  assert (Hnil : ix <> []) by (intros E; by rewrite E in Hne).
  sbind ltac:(apply same_classifyCt). intros s1 class Hv1 _.
  assert (Hlt1 : forall i, i ∈ ix -> (i < np s1)%nat) by by rewrite (np_view s1 s).
  destruct (_ && _).
  { destruct ix as [|i ix']; [done|]. sbind ltac:(by apply (same_at s1 _ 0)). intros s2 ? Hv2 ->.
    sbind ltac:(apply same_nextRt). intros s3 sq Hv3 _. apply same_sendDataOn.
    rewrite (np_view s3 s1) by congruence. apply Hlt1. by left. }
  destruct (_ || _); [|by apply same_sendBulk].
  sbind ltac:(eapply (same_mapEach (fun _ _ => True))).
  { intros s2 x Hx Hv. eapply same_weaken; [|apply same_pathAt; rewrite (np_view s2 s1) by done; by apply Hlt1].
    done. }
  intros s2 ps Hv2 Hps%Forall2_length.
  destruct (BestPair _) as [first second] eqn:Hbp. apply BestPair_index in Hbp as [Hf Hs].
  rewrite length_fmap, <- Hps in Hf, Hs.
  assert (Hlt2 : forall i, i ∈ ix -> (i < np s2)%nat) by by rewrite (np_view s2 s1).
  destruct (Z.ltb_spec first 0); [by apply same_sendBulk|].
  destruct Hf as [?|(j & -> & Hj)]; [lia|]. destruct (lookup_lt_is_Some_2 ix j Hj) as [i Hi].
  sbind ltac:(apply same_nextRt). intros s3 sq Hv3 _.
  sbind ltac:(by apply same_at). intros s4 ? Hv4 ->.
  assert (Hi4 : (i < np s4)%nat).
  { rewrite (np_view s4 s2) by congruence. eapply Hlt2, list_elem_of_lookup_2, Hi. }
  sbind ltac:(by apply same_sendDataOn). intros s5 [] Hv5 _. apply same_when.
  intros [_ Hs0]%andb_prop. apply Z.leb_le in Hs0.
  destruct Hs as [?|(k & -> & Hk)]; [lia|]. destruct (lookup_lt_is_Some_2 ix k Hk) as [i' Hi'].
  sbind ltac:(by apply same_at). intros s6 ? Hv6 ->. apply same_sendDataOn.
  rewrite (np_view s6 s2) by congruence. eapply Hlt2, list_elem_of_lookup_2, Hi'.
Qed.

Lemma same_clientSend s bufs : same s (clientSend cfg bufs) (fun _ => True).
Proof. apply same_forEach. intros. apply same_sendOne. Qed.

Lemma same_flushPending s : same s (flushPending cfg) (fun _ => True).
Proof.
  unfold flushPending. apply same_gets_bind. sbind ltac:(apply same_modify; [|done|done]).
  { intros []. by constructor. }
  intros s1 [] Hv1 _. case_decide; [by apply same_ret|apply same_clientSend].
Qed.

Lemma same_fecFlushTick s : is_Some (fecEnc s) -> same s (fecFlushTick cfg) (fun _ => True).
Proof.
  intros [enc He]. unfold fecFlushTick, now. apply trip_ask_bind. generalize (clock (ticks s)). intros t.
  set (s1 := set_ticks _ s). refine (_ : same s1 _ (fun _ => True)). apply trip_assume. intros Hi. apply same_gets_bind. change (fecEnc s1) with (fecEnc s). rewrite He.
  pose proof (Flush_group t enc) as Hg. destruct (Fec.Flush t enc) as [enc' es]. cbn in Hg.
  sbind ltac:(apply same_setEnc). { rewrite Hg. by apply (inv_enc _ Hi). }
  intros s2 [] Hv2 _. apply same_forEach. intros. apply same_clientEmitParity.
Qed.

(** ** Receiving *)

Lemma trip_clientReorder s o :
  op_ok o -> Forall pkt_wf (op_ins o) ->
  trip s (op_ins o ≫= pkt_slabs) (clientReorder cfg (exec o)) (fun _ => []) (fun s' _ => view s' = view s).
Proof.
  intros Ho Hins. apply trip_assume. intros Hi. unfold clientReorder. apply trip_gets_bind.
  destruct (exec o (reorderBuf s)) as [b es] eqn:E.
  destruct (exec_run (fun _ => 0) _ _ _ _ E (inv_reorder _ Hi) Ho) as (Hg & Hp & _).
  assert (Hall : Forall pkt_wf (outs es ++ vals b)) by (rewrite <- Hp; apply Forall_app_2; [apply (inv_vals _ Hi)|done]).
  apply Forall_app in Hall as [Hout Hvals].
  eapply (trip_bind _ _ _ (fun _ => event_slabs es) (fun s' _ => view s' = view s)).
  - intros _. split; [destruct Hi; by constructor|]. split; [|done].
    unfold flow, held, event_slabs. cbn. rewrite app_nil_r.
    rewrite (Permutation_app_comm _ (op_ins o ≫= pkt_slabs)), app_assoc, <- bind_app.
    rewrite (Permutation_app_comm (op_ins o)), Hp, bind_app, <- !app_assoc.
    rewrite Permutation_app_comm. by rewrite <- !app_assoc.
  - intros s1 [] Hv. eapply trip_weaken; [by apply trip_onReorder|done|done|]. intros ? ? ->. done.
Qed.

Lemma trip_clientPush s sq pkt :
  is_u32 sq -> pkt_wf pkt -> trip s (pkt_slabs pkt) (clientPush cfg sq pkt) (fun _ => []) (fun s' _ => view s' = view s).
Proof.
  intros Hu Hwf. unfold clientPush. sbind ltac:(apply same_now). intros s1 t Hv1 _.
  eapply trip_weaken; [apply (trip_clientReorder s1 (OpPush t sq pkt)); [exact Hu|by apply List.Forall_cons; [|apply List.Forall_nil]]| |done|].
  - cbn. by rewrite app_nil_r.
  - intros ? ? ->. done.
Qed.

Lemma same_clientTimer s : same s (clientTimer cfg) (fun _ => True).
Proof.
  unfold clientTimer. sbind ltac:(apply same_now). intros s1 t Hv1 _.
  eapply trip_weaken; [by apply (trip_clientReorder s1 (OpTimer t)); [|apply List.Forall_nil]|done|done|by intros].
Qed.

Lemma same_clientDecode s f : same s (clientDecode cfg f) (fun _ => True).
Proof.
  unfold clientDecode. apply same_gets_bind. destruct (fecDec s) as [dec|]; [|by apply same_ret].
  destruct (f dec) as [dec' es]. sbind ltac:(apply same_modify; [|done|done]).
  { intros []. by constructor. }
  intros s1 [] Hv1 _. apply same_forEach. intros s2 e _ Hv2. apply same_recover.
  intros s3 sq pkt Hv3 Hwf. by apply trip_clientPush; [apply u32_range|].
Qed.

Lemma same_onClientCtrl s c t : Forall wf_stats (ctPaths c) -> same s (onClientCtrl c t) (fun _ => True).
Proof.
  intros Hc. unfold onClientCtrl. apply same_gets_bind. apply same_forEach. intros s1 ps Hps Hv1.
  rewrite list.Forall_forall in Hc. destruct (Hc _ Hps) as [Hid _].
  apply same_when. intros Hlt%Z.ltb_lt. apply same_updPath_frame; [|done].
  rewrite (np_view s1 s) by done. unfold np. mlia.
Qed.

Lemma trip_onData s i sl n d payload t :
  (i < np s)%nat -> is_u32 (dGlobalSeq d) -> (Len d + length payload <= length (sl_mem sl))%nat ->
  trip s [sl_id sl] (onData cfg i sl n d payload t) (fun _ => []) (fun s' _ => view s' = view s).
Proof.
  intros Hi Hu Hfit. unfold onData. sbind ltac:(by apply same_updPath_frame; [in_paths|]). intros s1 [] Hv1 _.
  sbind ltac:(apply same_txTS). intros s2 ts Hv2 _.
  sbind ltac:(by apply same_updPath_frame; [in_paths|]). intros s3 [] Hv3 _.
  sbind ltac:(apply same_count). intros s4 [] Hv4 _.
  sbind ltac:(apply same_count). intros s5 [] Hv5 _.
  set (pkt := mkPacket (Some sl) _ _). change [sl_id sl] with (pkt_slabs pkt).
  assert (Hwf : pkt_wf pkt) by by apply pkt_wf_slab.
  destruct (_ =? _).
  - sbind ltac:(apply same_when; intros; apply same_clientDecode). intros s6 [] Hv6 _.
    eapply trip_weaken; [by apply trip_clientPush|done|done|]. intros ? ? ->. congruence.
  - eapply trip_weaken; [by apply trip_deliverOrCount|done|done|]. intros ? ? ->. congruence.
Qed.

Lemma same_onFEC s i n dgram t : (i < np s)%nat -> same s (onFEC cfg i n dgram t) (fun _ => True).
Proof.
  intros Hi. unfold onFEC. sbind ltac:(apply same_try, ParseFEC_no_panic). intros s1 r Hv1 _.
  apply same_gets_bind. destruct r as [[f shard]|]; [|by apply same_ret].
  destruct (fecDec s1); [|by apply same_ret]. apply same_when. intros _.
  sbind ltac:(by apply same_updPath_frame; [in_paths|]). intros s2 [] Hv2 _.
  sbind ltac:(apply same_count). intros s3 [] Hv3 _.
  sbind ltac:(apply same_count). intros s4 [] Hv4 _. apply same_clientDecode.
Qed.

Lemma same_onProbe s i dgram : (i < np s)%nat -> same s (onProbe cfg i dgram) (fun _ => True).
Proof.
  intros Hi. unfold onProbe. destruct (codec_total _ _ _ _ _ (probe_codec (cfgMAC cfg)) dgram) as [r E].
  eapply trip_must_bind; [exact E|]. destruct r as [[hh pr]|]; [|by apply same_ret].
  apply same_when. intros _. eapply trip_must_bind; [apply EncodeProbeAck_eq|].
  sbind ltac:(by apply same_write). intros. by apply same_ret.
Qed.

Lemma same_onProbeAck s i dgram t : (i < np s)%nat -> same s (onProbeAck cfg i dgram t) (fun _ => True).
Proof.
  intros Hi. unfold onProbeAck. destruct (codec_total _ _ _ _ _ (ack_codec (cfgMAC cfg)) dgram) as [r E].
  eapply trip_must_bind; [exact E|]. destruct r as [[hh ack]|]; [|by apply same_ret].
  sbind ltac:(by apply same_pathAt). intros s1 p Hv1 _. apply same_when. intros _.
  sbind ltac:(apply same_nowUS). intros s2 us Hv2 _.
  sbind ltac:(by apply same_updPath_frame; [in_paths|]). intros s3 [] Hv3 _. by apply same_updPath_frame; [in_paths|].
Qed.

(** A HELLO_ACK for path [pid] of this client, authenticated and fresh at
    [t]. *)
Definition helloAck_ok (dgram : list Z) (pid t : Z) : Prop :=
  (exists h, ParseHeader dgram = Ret h /\ hType h = TypeHelloAck) /\
  exists hh m, ParseHello dgram (cfgMAC cfg) = Ret (Some (hh, m)) /\ hPathID hh = pid /\
    heSession m = cfgSession cfg /\ ClientID m = cfgClientID cfg /\
    FreshTS (heUnixTS m) (unix t) = true.

(** The registration of path [i] as it is, or set with cause [P]. *)
Definition registers (P : Prop) (i : nat) (s s' : Engine) : Prop :=
  view s' = view s \/
  (P /\ view s' = (alter (fun x => (x.1, true)) i (view s).1, (view s).2)).

Lemma registers_np P i s s' : registers P i s s' -> np s' = np s.
Proof.
  intros [Hv|[_ Hv]]; [by apply np_view|]. unfold np.
  rewrite <- (length_fmap (fun p => (pID p, registered p))).
  change (length (view s').1 = length (paths s)). rewrite Hv. cbn. by rewrite length_alter, length_fmap.
Qed.

(** Setting the registration of a path. *)
Lemma trip_register s i b f :
  (i < np s)%nat ->
  (forall p, pID (f p) = pID p /\ registered (f p) = b /\ pathSeq (f p) = pathSeq p) ->
  trip s [] (updPath i f) (fun _ => [])
    (fun s' _ => view s' = (alter (fun x => (x.1, b)) i (view s).1, (view s).2)).
Proof.
  intros Hlt Hf. unfold updPath. eapply same_bind; [by apply same_pathAt|]. intros s1 _ <- _. clear s Hlt. rename s1 into s.
  intros Hi. split; [|split; [by apply flow_pure|]].
  - destruct Hi. constructor; cbn; try done. intros j p Hj. destruct (decide (j = i)) as [->|Hne].
    + rewrite list_lookup_alter_eq in Hj. destruct (paths s !! i) as [q|] eqn:E; [|done].
      injection Hj as <-. destruct (inv_paths i q E). destruct (Hf q) as (? & _ & ?).
      constructor; congruence.
    + rewrite list_lookup_alter_ne in Hj by done. by apply inv_paths.
  - unfold view. cbn. f_equal. apply list_eq. intros j. rewrite list_lookup_fmap.
    destruct (decide (j = i)) as [->|Hne].
    + rewrite !list_lookup_alter_eq, list_lookup_fmap. destruct (paths s !! i) as [q|]; [|done]. cbn.
      destruct (Hf q) as (-> & -> & _). done.
    + by rewrite !list_lookup_alter_ne, list_lookup_fmap.
Qed.

Lemma trip_onHelloAck s i dgram t h :
  (i < np s)%nat -> ParseHeader dgram = Ret h -> hType h = TypeHelloAck ->
  trip s [] (onHelloAck cfg i dgram t) (fun _ => [])
    (fun s' _ => registers (exists pid b, (view s).1 !! i = Some (pid, b) /\ helloAck_ok dgram pid t)
                   i s s').
Proof.
  intros Hi Hh Hht. unfold onHelloAck. destruct (codec_total _ _ _ _ _ (hello_codec (cfgMAC cfg)) dgram) as [r E].
  eapply trip_must_bind; [exact E|]. destruct r as [[hh m]|]; [|by apply trip_ret; [|left]].
  eapply same_bind; [by apply same_pathAt|]. intros s1 p Hv1 [_ Hp]. apply trip_when; [|by left].
  intros ([[Ha Hb]%andb_prop Hc]%andb_prop & Hd)%andb_prop.
  apply Z.eqb_eq in Ha, Hb, Hc. tbind ltac:(by apply (trip_register s1 i true); [in_paths|]).
  intros s2 [] Hv2. eapply same_bind; [apply same_when; intros; apply same_flushPending|].
  intros s3 [] Hv3 _. assert (Hi3 : (i < np s3)%nat).
  { rewrite (np_view s3 s2), (registers_np True i s1 s2), (np_view s1 s) by (done || by right). done. }
  eapply trip_weaken; [by apply same_updPath_frame|done|done|].
  intros s4 [] [Hv4 _]. right. rewrite Hv4, Hv3, Hv2, Hv1. split; [|done].
  exists (pID p), (registered p). split; [done|]. split; [by exists h|]. exists hh, m. by split_and!.
Qed.

Lemma trip_handleClientDatagram s i sl n :
  (i < np s)%nat -> (n <= length (sl_mem sl))%nat -> is_bytes (sl_mem sl) ->
  trip s [sl_id sl] (handleClientDatagram cfg i sl n) (fun _ => [])
    (fun s' _ => registers (exists pid b t, (view s).1 !! i = Some (pid, b) /\ reading t /\
                              helloAck_ok (take n (sl_mem sl)) pid t) i s s').
Proof.
  intros Hi Hn Hb. unfold handleClientDatagram. set (R := registers _ i s).
  eapply trip_must_bind; [by apply slice_le; lia|]. rewrite drop_0, Nat.sub_0_r.
  set (dgram := take n (sl_mem sl)). assert (Hd : is_bytes dgram) by by apply Forall_take.
  eapply same_bind; [apply same_try, ParseHeader_no_panic|]. intros s1 h Hv1 Hh.
  assert (Hi1 : (i < np s1)%nat) by by rewrite (np_view s1 s).
  destruct h as [h|].
  2:{ eapply trip_weaken; [apply trip_badDatagram|done|done|]. intros s' [] Hv. left. congruence. }
  eapply same_bind; [apply same_now|]. intros s2 t Hv2 Ht.
  assert (Hi2 : (i < np s2)%nat) by by rewrite (np_view s2 s1).
  destruct (_ =? _).
  { eapply same_bind; [apply same_try, ParseDataHeader_no_panic|]. intros s3 r Hv3 Hr.
    destruct r as [[d payload]|].
    2:{ eapply trip_weaken; [apply trip_badDatagram|done|done|]. intros s' [] Hv. left. congruence. }
    apply ParseDataHeader_inv in Hr as [(_ & _ & _ & Hu & _) Ed]; [|done]. apply payload_fits in Ed. destruct (negb _).
    - eapply trip_weaken; [apply trip_badDatagram|done|done|]. intros s' [] Hv. left. congruence.
    - eapply trip_weaken; [by apply trip_onData; [in_paths|..]|done|done|].  intros s' [] Hv. left. congruence. }
  assert (Hsame : forall m : eng unit, same s2 m (fun _ => True) -> trip s2 [] m (fun _ => []) (fun s' _ => R s')).
  { intros m Hm. eapply trip_weaken; [exact Hm|done|done|]. intros s3 [] [Hv3 _]. left. congruence. }
  apply (trip_then_Put _ _ _ R); [intros sa sb Hab; unfold R, registers; by rewrite Hab|].
  destruct (_ =? _); [by apply Hsame, same_onFEC|].
  destruct (_ =? _); [by apply Hsame, same_onProbe|].
  destruct (_ =? _); [by apply Hsame, same_onProbeAck|].
  destruct (_ =? _).
  { apply Hsame. destruct (ParseCtrl_total (cfgMAC cfg) dgram) as [r E].
    eapply trip_must_bind; [exact E|]. destruct r as [[hc c]|]; [|by apply same_ret].
    apply same_when. intros _. by eapply same_onClientCtrl, ParseCtrl_stats. }
  destruct (Z.eqb_spec (hType h) TypeHelloAck); [|by apply Hsame, same_ret].
  eapply trip_weaken; [by apply (trip_onHelloAck s2 i dgram t h)|done|done|]. intros s' [] [Hv|[(pid & b & Hp & Hok) Hv]].
  - left. congruence.
  - right. rewrite Hv, Hv2, Hv1. split; [|done]. exists pid, b, t. split_and!; [congruence|done|done].
Qed.

(** ** Periodic loops *)

Lemma same_allPaths s : same s allPaths (fun ix => forall i, i ∈ ix -> (i < np s)%nat).
Proof.
  eapply same_weaken; [|apply same_gets]. intros ? ->. intros i Hi.
  apply elem_of_seq in Hi. unfold np. lia.
Qed.

Lemma same_helloTick s : same s (helloTick cfg) (fun _ => True).
Proof.
  unfold helloTick. sbind ltac:(apply same_now). intros s1 t Hv1 _.
  sbind ltac:(apply same_allPaths). intros s2 ix Hv2 Hlt. apply same_forEach. intros s3 i Hi Hv3.
  apply Hlt in Hi. rewrite <- (np_view s3) in Hi by congruence. unfold helloPath.
  sbind ltac:(by apply same_pathAt). intros s4 p Hv4 _. destruct (_ <? _); [by apply same_ret|].
  sbind ltac:(by apply same_updPath_frame; [in_paths|]). intros s5 [] Hv5 _.
  eapply trip_must_bind; [apply EncodeHello_eq|].
  sbind ltac:(apply same_write; by rewrite (np_view s5 s3) by congruence). intros. by apply same_ret.
Qed.

(** Registrations are only ever given up. *)
Definition unregisters (s s' : Engine) : Prop :=
  (view s').2 = (view s).2 /\
  Forall2 (fun x y => y.1 = x.1 /\ (y.2 = true -> x.2 = true)) (view s).1 (view s').1.

Lemma unregisters_refl s s' : view s' = view s -> unregisters s s'.
Proof.
  intros Hv. unfold unregisters. rewrite Hv. split; [done|]. apply Forall_Forall2_diag.
  apply Forall_forall. by intros [x b] _.
Qed.

Lemma unregisters_trans s1 s2 s3 : unregisters s1 s2 -> unregisters s2 s3 -> unregisters s1 s3.
Proof.
  intros [Ha Hb] [Hc Hd]. split; [congruence|].
  eapply Forall2_trans; [|exact Hb|exact Hd]. intros [x bx] [y by_] [z bz]; cbn.
  intros [-> H1'] [-> H2']. auto.
Qed.

Lemma unregisters_np s s' : unregisters s s' -> np s' = np s.
Proof.
  intros [_ Hf%Forall2_length]. unfold view in Hf. cbn in Hf. rewrite !length_fmap in Hf. done.
Qed.

Lemma trip_probePath tick t i s :
  (i < np s)%nat -> trip s [] (probePath cfg tick t i) (fun _ => []) (fun s' _ => unregisters s s').
Proof.
  intros Hi. unfold probePath. eapply same_bind; [by apply same_pathAt|]. intros s1 p Hv1 _.
  assert (Hi1 : (i < np s1)%nat) by by rewrite (np_view s1 s).
  assert (Hsame : forall s2 (m : eng unit), view s2 = view s -> same s2 m (fun _ => True) ->
    trip s2 [] m (fun _ => []) (fun s' _ => unregisters s s')).
  { intros s2 m Hv Hm. eapply trip_weaken; [exact Hm|done|done|]. intros s3 [] [Hv3 _].
    apply unregisters_refl. congruence. }
  destruct (negb (registered p)).
  { apply Hsame; [done|]. apply same_when. intros _. sbind ltac:(by apply same_updPath_frame; [in_paths|]).
    intros s2 [] Hv2 _. sbind ltac:(apply same_dial; by rewrite (np_view s2 s1)). intros.
    by apply same_ret. }
  destruct (_ && _); [by apply Hsame; [|apply same_ret]|].
  destruct (OnProbeSent t (pLink p)) as [[l sq] wd]. cbv iota.
  eapply same_bind; [by apply same_updPath_frame; [in_paths|]|]. intros s2 [] Hv2 _.
  eapply same_bind; [apply same_nowUS|]. intros s3 us Hv3 _.
  eapply trip_must_bind; [apply EncodeProbe_eq|].
  eapply same_bind; [apply same_write; by rewrite (np_view s3 s1) by congruence|]. intros s4 ok Hv4 _.
  apply trip_when; [intros _|intros _; apply unregisters_refl; congruence].
  eapply same_bind; [by apply same_updPath_frame; [in_paths|]|]. intros s5 [] Hv5 _.
  apply trip_when; [intros _|intros _; apply unregisters_refl; congruence].
  eapply same_bind; [by apply same_updPath_frame; [in_paths|]|]. intros s6 [] Hv6 _.
  eapply same_bind; [apply same_dial; by rewrite (np_view s6 s1) by congruence|]. intros s7 ok' Hv7 _.
  apply trip_when; [intros _|intros _; apply unregisters_refl; congruence].
  eapply trip_weaken; [by apply (trip_register s7 i false); [in_paths|]|done|done|]. intros s8 [] Hv8.
  assert (Hv : view s7 = view s) by congruence. unfold unregisters. rewrite Hv8, Hv. cbn. split; [done|].
  apply Forall2_same_length_lookup. split; [by rewrite length_alter|].
  intros j [x b] [y b'] Hx Hy. destruct (decide (j = i)) as [->|Hne].
  - rewrite list_lookup_alter_eq, Hx in Hy. by injection Hy as <- <-.
  - rewrite list_lookup_alter_ne, Hx in Hy by done. by injection Hy as <- <-.
Qed.

Lemma trip_probeTick tick s :
  trip s [] (probeTick cfg tick) (fun _ => []) (fun s' _ => unregisters s s').
Proof.
  unfold probeTick. eapply same_bind; [apply same_now|]. intros s1 t Hv1 _.
  eapply same_bind; [apply same_allPaths|]. intros s2 ix Hv2 Hlt.
  eapply trip_weaken; [apply (trip_forEach (fun _ => []) (fun s' => unregisters s s'))
    |by rewrite bind_nil_const|done|by intros].
  - intros s3 i Hi Hu. eapply trip_weaken; [apply trip_probePath|done|done|].
    + rewrite (unregisters_np _ _ Hu), <- (np_view s1 s) by done. by apply Hlt.
    + intros s4 [] Hu'. by eapply unregisters_trans.
  - apply unregisters_refl. congruence.
Qed.

Lemma same_reportPath s i : (i < np s)%nat -> same s (reportPath i) (fun _ => True).
Proof.
  intros Hi. unfold reportPath. sbind ltac:(by apply same_pathAt). intros s1 p Hv1 _.
  destruct (Report (pRx p)) as [rx r]. sbind ltac:(by apply same_updPath_frame; [in_paths|]). intros. by apply same_ret.
Qed.

Lemma bestUp_lt ips : forall best srtt n,
  (forall i p, (i, p) ∈ ips -> (i < n)%nat) -> (forall i, best = Some i -> (i < n)%nat) ->
  forall i, bestUp ips best srtt = Some i -> (i < n)%nat.
Proof.
  induction ips as [|[j p] ips IH]; intros best srtt n Hl Hb i; cbn [bestUp]; [apply Hb|].
  assert (Hl' : forall i p, (i, p) ∈ ips -> (i < n)%nat) by (intros ???; eapply Hl; by right).
  destruct (_ || _); [by apply IH|]. destruct (_ || _); [|by apply IH].
  apply IH; [done|]. intros ? [= <-]. eapply Hl. by left.
Qed.

Lemma bestCtrlPath_lt ps i : bestCtrlPath ps = Some i -> (i < length ps)%nat.
Proof.
  unfold bestCtrlPath. destruct (bestUp _ _ _) as [j|] eqn:E.
  - intros [= <-]. eapply (bestUp_lt (imap pair ps) None 0); [|by intros|exact E]. intros k p Hk.
    apply elem_of_lookup_imap in Hk as (k' & q & [= -> ->] & Hq). by eapply lookup_lt_Some.
  - destruct (list_find _ ps) as [[j p]|] eqn:Ef; [|done]. intros [= <-].
    apply list_find_Some in Ef as (Hj & _). by eapply lookup_lt_Some.
Qed.

Lemma same_ctrlTick s l : same s (ctrlTick cfg l) (fun _ => True).
Proof.
  unfold ctrlTick. sbind ltac:(apply same_now). intros s1 t Hv1 _. apply same_gets_bind.
  destruct (_ && _); [by apply same_ret|].
  sbind ltac:(apply same_allPaths). intros s2 ix Hv2 Hlt.
  sbind ltac:(apply (same_mapEach (fun _ _ => True))).
  { intros s3 i Hi Hv3. apply same_reportPath. rewrite (np_view s3 s1) by congruence. by apply Hlt. }
  intros s3 rs Hv3 _. case_decide; [by apply same_ret|]. apply same_gets_bind.
  destruct (bestCtrlPath (paths s3)) as [b|] eqn:Hb; [|by apply same_ret].
  apply bestCtrlPath_lt in Hb. change (b < np s3)%nat in Hb.
  sbind ltac:(by apply same_pathAt). intros s4 bp Hv4 _.
  eapply trip_must_bind; [apply EncodeCtrl_eq|].
  sbind ltac:(apply same_write; by rewrite (np_view s4 s3)). intros s5 ok Hv5 _. apply same_gets_bind.
  ubind.
  { apply same_when. intros _. apply same_when. intros _. apply same_modify; [|done|done].
    intros []. constructor; cbn; try done. by apply (hold_run (fun _ => 0)). }
  intros s6 [] Hv6 _. ubind.
  { apply same_when. intros _. apply same_modify; [|done|done]. intros []. constructor; cbn; try done.
    by apply enc_ok_retune. }
  intros s7 [] Hv7 _. by apply same_ret.
Qed.

Lemma same_closeClient s : same s (closeClient cfg) (fun _ => True).
Proof.
  unfold closeClient, sendByes. ubind.
  { sbind ltac:(apply same_now). intros s1 t Hv1 _. sbind ltac:(apply same_allPaths).
    intros s2 ix Hv2 Hlt. apply same_forEach. intros s3 i Hi Hv3. apply Hlt in Hi.
    rewrite <- (np_view s3) in Hi by congruence. unfold byePath.
    sbind ltac:(by apply same_pathAt). intros s4 p Hv4 _. apply same_when. intros _.
    eapply trip_must_bind; [apply EncodeBye_eq|].
    sbind ltac:(apply same_write; by rewrite (np_view s4 s3)). intros. by apply same_ret. }
  intros s1 [] Hv1 _. sbind ltac:(apply same_allPaths). intros s2 ix Hv2 Hlt.
  sbind ltac:(apply same_forEach).
  { intros s3 i Hi Hv3. apply same_closePath. rewrite (np_view s3 s1) by congruence. by apply Hlt. }
  intros s3 [] Hv3 _. eapply trip_weaken; [by apply (trip_clientReorder s3 OpClose); [|apply List.Forall_nil]|done|done|by intros].
Qed.

Lemma trip_AddPath s name :
  trip s [] (AddPath name) (fun _ => [])
    (fun s' _ => view s' = ((view s).1 ++ [(u8 (Z.of_nat (np s)), false)], (view s).2)).
Proof.
  unfold AddPath. eapply same_bind; [apply same_now|]. intros s1 t Hv1 _.
  apply trip_gets_bind. fold (np s1). set (p := mkPath _ _ _ _ _ _ _ _ _ _ _).
  eapply (trip_bind _ _ _ (fun _ => []) (fun s' _ =>
    view s' = ((view s).1 ++ [(u8 (Z.of_nat (np s)), false)], (view s).2) /\ np s' = S (np s1))).
  - intros Hi. split; [|split; [by apply flow_pure|]].
    + destruct Hi. constructor; cbn; try done. intros i q [Hq|[Hl Hq]]%lookup_app_Some; [by apply inv_paths|].
      apply list_lookup_singleton_Some in Hq as [Hz <-]. unfold np in p.
      assert (i = length (paths s1)) as -> by lia. done.
    + split; [|unfold np; cbn; rewrite length_app; cbn; lia].
      rewrite <- Hv1, <- (np_view s1 s) by done. unfold view. cbn. by rewrite fmap_app.
  - intros s2 [] [Hv2 Hn]. eapply trip_weaken; [apply same_dial; lia|done|done|].
    intros s3 b [Hv3 _]. congruence.
Qed.

Lemma trip_clientRx s i r :
  (i < np s)%nat -> (forall dgram, r = Some dgram -> is_bytes dgram) ->
  trip s [] (clientRx cfg i r) (fun _ => [])
    (fun s' _ => registers (exists pid b t dgram, (view s).1 !! i = Some (pid, b) /\ reading t /\
                    r = Some dgram /\ helloAck_ok (take SlabSize dgram) pid t) i s s').
Proof.
  intros Hi Hr. unfold clientRx. tbind ltac:(apply trip_Get). intros s1 sl (Hv1 & Hl & Hb).
  destruct r as [dgram|].
  2:{ eapply trip_weaken; [apply trip_Put|done|done|]. intros s2 [] Hv2. left. congruence. }
  destruct (readInto_ok sl dgram Hl Hb (Hr _ eq_refl)) as (Hn & Hbb & Ht).
  eapply trip_weaken;
    [apply (trip_handleClientDatagram s1 i (readInto sl dgram)); [by rewrite (np_view s1 s)|done|done]
    |done|done|].
  intros s2 [] [Hv|[(pid & b & t & Hp & Hk & Hok) Hv]]; [left; congruence|right].
  rewrite Hv, Hv1. split; [|done]. exists pid, b, t, dgram. rewrite <- Ht. split_and!; [congruence|done..].
Qed.

(** ** Runs of the client *)

(** What can happen to a running client: WireGuard opens, closes and reads
    the bind, sends ciphertext or shows plaintext; a path is added or
    receives; a timer or a loop fires. [k] and [l] are loop variables. *)
Inductive client_op :=
  | COpen | CBindClose
  | CRecv (ch : nat)
  | CInspect (pkt : list Z)
  | CSend (bufs : list (list Z))
  | CAddPath (name : string)
  | CRx (i : nat) (r : option (list Z))
  | CTimer
  | CFecFlush
  | CHello
  | CProbe (k : Z)
  | CCtrl (l : ctrlLoop)
  | CClose
  | CPoll (deadline : Z).

Definition client_exec (o : client_op) : eng unit :=
  match o with
  | COpen => bindOpen
  | CBindClose => bindClose
  | CRecv ch => _ ← wgRecv ch; mret tt
  | CInspect pkt => inspect pkt
  | CSend bufs => clientSend cfg bufs
  | CAddPath name => _ ← AddPath name; mret tt
  | CRx i r => clientRx cfg i r
  | CTimer => clientTimer cfg
  | CFecFlush => fecFlushTick cfg
  | CHello => helloTick cfg
  | CProbe k => probeTick cfg k
  | CCtrl l => _ ← ctrlTick cfg l; mret tt
  | CClose => closeClient cfg
  | CPoll deadline => _ ← pollReady deadline; mret tt
  end.

(** A receive loop runs for a path that exists, and what it reads is bytes. *)
Definition client_op_ok (o : client_op) (s : Engine) : Prop :=
  match o with
  | CRx i r => (i < np s)%nat /\ forall dgram, r = Some dgram -> is_bytes dgram
  | _ => True
  end.

(** What an operation relies on to return: the flush loop has an encoder, and
    a packet is inspected while the classifier's 64-bit packet counters have
    room for it. *)
Definition client_fit (o : client_op) (s : Engine) : Prop :=
  match o with
  | CFecFlush => is_Some (fecEnc s)
  | CInspect _ => room 1 s
  | _ => True
  end.

(** What an operation does to the registrations. *)
Definition client_post (o : client_op) (s s' : Engine) : Prop :=
  match o with
  | CAddPath _ => view s' = ((view s).1 ++ [(u8 (Z.of_nat (np s)), false)], (view s).2)
  | CRx i r => registers (exists pid b t dgram, (view s).1 !! i = Some (pid, b) /\ reading t /\
                 r = Some dgram /\ helloAck_ok (take SlabSize dgram) pid t) i s s'
  | CProbe _ => unregisters s s'
  | _ => view s' = view s
  end.

Lemma trip_client_exec o s :
  client_op_ok o s -> client_fit o s -> trip s [] (client_exec o) (fun _ => []) (fun s' _ => client_post o s s').
Proof.
  intros Ho Hfit. destruct o as [| |ch|pkt|bufs|name|i r| | | |k|l| |d]; cbn [client_exec client_post].
  - apply trip_bindOpen.
  - apply trip_bindClose.
  - eapply trip_drop, same_trip, trip_wgRecv.
  - by eapply same_trip, same_inspect.
  - eapply same_trip, same_clientSend.
  - apply (trip_drop _ _ (fun s' => view s' = _)), trip_AddPath.
  - destruct Ho. by apply trip_clientRx.
  - eapply same_trip, same_clientTimer.
  - by eapply same_trip, same_fecFlushTick.
  - eapply same_trip, same_helloTick.
  - apply trip_probeTick.
  - eapply trip_drop, same_trip, same_ctrlTick.
  - eapply same_trip, same_closeClient.
  - eapply trip_drop, same_trip, same_pollReady.
Qed.

(** What an operation leaves, when it returns. *)
Lemma client_exec_inv o s s' es :
  inv s -> client_op_ok o s -> client_exec o s = Ret (s', es, tt) ->
  inv s' /\ flow s [] es s' [] /\ client_post o s s'.
Proof.
  intros Hi Ho E. assert (Hfit : client_fit o s \/ exists pkt, o = CInspect pkt).
  { destruct o; cbn [client_fit]; eauto. left. cbn in E. unfold fecFlushTick in E.
    apply bind_inv in E as (s1 & e1 & t & e2 & [= <- <- <-] & E & ->).
    apply bind_inv in E as (s2 & e3 & enc & e4 & [= <- <- <-] & E & ->). cbn in E. destruct (fecEnc s); [by eexists|done]. }
  destruct Hfit as [Hfit|[pkt ->]]; [exact (wp_inv _ _ _ _ _ _ E (trip_client_exec o s Ho Hfit Hi))|].
  by eapply inspect_keeps.
Qed.

(** [client_run es s]: from a new engine, some operations with the effects
    [es] led to [s]. *)
Inductive client_run : list ev -> Engine -> Prop :=
  | client_new t : client_run [] (NewEngine cfg t)
  | client_step es s o s' es' :
      client_run es s -> client_op_ok o s -> client_exec o s = Ret (s', es', tt) ->
      client_run (es ++ es') s'.

Lemma client_run_inv es s : cfg_ok cfg -> client_run es s -> inv s /\ gots es ≡ₚ puts es ++ held s.
Proof.
  intros Hc. induction 1 as [t|es s o s' es' _ [Hi Hp] Ho E].
  - split; [by apply inv_New|]. by rewrite held_New.
  - destruct (client_exec_inv _ _ _ _ Hi Ho E) as (Hi' & Hf & _). split; [done|].
    unfold flow in Hf. cbn [app] in Hf. rewrite app_nil_r in Hf.
    by rewrite gots_app, puts_app, Hp, <- !app_assoc, Hf.
Qed.


Lemma view_lookup s i p : paths s !! i = Some p -> (view s).1 !! i = Some (pID p, registered p).
Proof. intros Hp. unfold view. cbn. by rewrite list_lookup_fmap, Hp. Qed.

(** Only a HELLO_ACK sets a registration. *)
Lemma client_post_registers o s s' i p p' :
  client_post o s s' -> paths s !! i = Some p -> paths s' !! i = Some p' ->
  registered p = false -> registered p' = true ->
  exists t dgram, o = CRx i (Some dgram) /\ reading t /\ helloAck_ok (take SlabSize dgram) (pID p) t.
Proof.
  intros Hpost Hp%view_lookup Hp'%view_lookup Hf Ht. rewrite Hf in Hp. rewrite Ht in Hp'.
  assert (Hno : (view s').1 !! i = Some (pID p, false) -> False) by (intros E; rewrite E in Hp'; done).
  destruct o as [| |ch|pkt|bufs|name|j r| | | |k|l| |d]; cbn [client_post] in Hpost;
    try (exfalso; apply Hno; by rewrite Hpost).
  - exfalso. apply Hno. rewrite Hpost. cbn. by apply lookup_app_l_Some.
  - destruct Hpost as [Hv|[(pid & b & t & dgram & Hpv & Hr & -> & Hok) Hv]]; [exfalso; apply Hno; by rewrite Hv|].
    rewrite Hv in Hp'. cbn [fst] in Hp'. destruct (decide (i = j)) as [->|Hne].
    + rewrite Hp in Hpv. injection Hpv as <- <-. by exists t, dgram.
    + rewrite list_lookup_alter_ne, Hp in Hp' by done. done.
  - exfalso. destruct Hpost as [_ Hu]. rewrite Forall2_lookup in Hu. specialize (Hu i).
    rewrite Hp, Hp' in Hu. inversion Hu as [? ? [_ Hx]|]; subst. by specialize (Hx eq_refl).
Qed.

(** C18: A path of the client becomes registered only through a HELLO_ACK that
    arrives on it: a datagram that is, tag included, the encoding of a
    HELLO_ACK for that path's id, this session and this client, with a
    timestamp inside the replay window. *)
Theorem registered_authentic es s o s' es' i p p' :
  cfg_ok cfg -> client_run es s -> client_op_ok o s -> client_exec o s = Ret (s', es', tt) ->
  paths s !! i = Some p -> paths s' !! i = Some p' ->
  registered p = false -> registered p' = true ->
  exists dgram t hh m, o = CRx i (Some dgram) /\ reading t /\
    take SlabSize dgram = AppendTag (cfgMAC cfg) (header_bytes hh ++ hello_body m) /\
    hType hh = TypeHelloAck /\ hPathID hh = pID p /\
    heSession m = cfgSession cfg /\ ClientID m = cfgClientID cfg /\
    FreshTS (heUnixTS m) (unix t) = true.
Proof.
  intros Hc Hr Ho E Hp Hp' Hf Ht. destruct (client_run_inv _ _ Hc Hr) as [Hi _].
  destruct (client_exec_inv _ _ _ _ Hi Ho E) as (_ & _ & Hpost).
  destruct (client_post_registers _ _ _ _ _ _ Hpost Hp Hp' Hf Ht) as
    (t & dgram & -> & Hrd & (h & Hh & Hht) & hh & m & Hparse & Hpid & Hs & Hcl & Hfr).
  destruct Ho as [_ Hb]. apply (codec_accept _ _ _ _ _ (hello_codec (cfgMAC cfg))) in Hparse as (Hwf & _ & _ & Ed);
    [|by apply Forall_take, Hb].
  exists dgram, t, hh, m. split_and!; try done.
  rewrite Ed in Hh. unfold AppendTag in Hh. rewrite <- app_assoc, ParseHeader_bytes in Hh by done. congruence.
Qed.

End Safe.
