(* ===== verification/ClientSend.v ===== *)
(** * What the client sends

    The datagrams [clientSend] writes for each ciphertext, and what happens
    to ciphertext while no path is registered. *)

From S2P Require Import Prelude Wire Control Float64 Sched Link PathSelect Fec Classify.
From S2P Require Import Reorder Wgbridge Engine EngineLogic Client ClientSafe.
#[local] Open Scope Z_scope.

(** The datagrams written to the paths, in order. *)
Definition frames (es : list ev) : list (nat * list Z) :=
  omap (fun e => match e with Sent (OnPath i) b _ => Some (i, b) | _ => None end) es.

(** Those that are DATA, as the receiver parses them: path, header, payload. *)
Definition data_frames (es : list ev) : list (nat * DataHeader * list Z) :=
  omap (fun ib => match ParseDataHeader ib.2 with Ret (d, ct) => Some (ib.1, d, ct) | _ => None end)
    (frames es).

Lemma frames_app e1 e2 : frames (e1 ++ e2) = frames e1 ++ frames e2.
Proof. apply omap_app. Qed.
Lemma data_frames_app e1 e2 : data_frames (e1 ++ e2) = data_frames e1 ++ data_frames e2.
Proof. unfold data_frames. by rewrite frames_app, omap_app. Qed.

(** What sending leaves alone unless it says so: the bulk sequence, the
    staged ciphertext, the sockets, the early-drop count. *)
Definition sview (s : Engine) : Z * list (list Z) * list (option nat) * Z :=
  (globalSeq s, pending s, conn <$> paths s, AQMDrops (Stats s)).

Definition quiet (s : Engine) (es : list ev) (s' : Engine) : Prop :=
  frames es = [] /\ sview s' = sview s.

Lemma quiet_refl s : quiet s [] s.
Proof. done. Qed.
Lemma quiet_trans s e1 s1 e2 s2 : quiet s e1 s1 -> quiet s1 e2 s2 -> quiet s (e1 ++ e2) s2.
Proof. intros [H1 H2] [H3 H4]. split; [by rewrite frames_app, H1, H3|congruence]. Qed.

Section Send.
Context `{Rounding} `{Blake2s} `{ReedSolomon} `{MapOrder} `{World} `{!WorldLaws _}.
Context (cfg : Config).

(** FEC datagrams of this session, besides which nothing happens. *)
Definition is_parity (ib : nat * list Z) : Prop :=
  exists f shard, ib.2 = fec_bytes f ++ shard /\ hType (fHeader f) = TypeFEC /\ fSession f = cfgSession cfg.
Definition parity (s : Engine) (es : list ev) (s' : Engine) : Prop :=
  Forall is_parity (frames es) /\ sview s' = sview s.

Lemma parity_refl s : parity s [] s.
Proof. split; [constructor|done]. Qed.
Lemma parity_trans s e1 s1 e2 s2 : parity s e1 s1 -> parity s1 e2 s2 -> parity s (e1 ++ e2) s2.
Proof. intros [Ha Hb] [Hc Hd]. split; [rewrite frames_app; by apply Forall_app_2|congruence]. Qed.

Lemma quiet_parity s es s' : quiet s es s' -> parity s es s'.
Proof. intros [Ha Hb]. split; [rewrite Ha; constructor|done]. Qed.

Lemma parity_data s es s' : parity s es s' -> data_frames es = [] /\ sview s' = sview s.
Proof.
  intros [Hf Hs]. split; [|done]. unfold data_frames.
  induction Hf as [|[i b] l (f & shard & Hb & Ht & _) _ IH]; [done|]. cbn in *.
  by rewrite Hb, ParseDataHeader_fec.
Qed.

(** ** Quiet operations *)

Lemma alter_conn f (i : nat) (ps : list Path) : (forall p, conn (f p) = conn p) -> conn <$> alter f i ps = conn <$> ps.
Proof.
  intros Hf. apply list_eq. intros j. rewrite !list_lookup_fmap. destruct (decide (j = i)) as [->|Hne].
  - rewrite list_lookup_alter_eq. destruct (ps !! i); [|done]. cbn. by rewrite Hf.
  - by rewrite list_lookup_alter_ne.
Qed.

Lemma quiet_updPath i f : (forall p, conn (f p) = conn p) -> rel quiet (updPath i f).
Proof.
  intros Hf. apply rel_updPath. intros s. split; [done|]. unfold sview. cbn. by rewrite alter_conn.
Qed.

Ltac quiet_sub := fail.
Ltac quiet := rel_with quiet_refl quiet_trans ltac:(done) ltac:(first [by apply quiet_updPath | quiet_sub]).

Lemma quiet_pathAt i : rel quiet (pathAt i).
Proof. unfold pathAt. quiet. Qed.
Lemma quiet_now : rel quiet now.
Proof. unfold now. quiet. Qed.
Lemma quiet_txTS : rel quiet txTS.
Proof. unfold txTS. quiet. Qed.
Lemma quiet_Get : rel quiet Get.
Proof. unfold Get. quiet. Qed.
Lemma quiet_Put sl : rel quiet (Put sl).
Proof. unfold Put. quiet. Qed.
Lemma quiet_stripe ix : rel quiet (stripe ix).
Proof. unfold stripe, pathAt. quiet. Qed.
Lemma quiet_classifyCt ct : rel quiet (classifyCt ct).
Proof. unfold classifyCt. quiet. Qed.
Lemma quiet_nextRt : rel quiet nextRt.
Proof. unfold nextRt. quiet. Qed.
Lemma quiet_aqm p : rel quiet (aqm p).
Proof. unfold aqm. quiet. Qed.
Lemma quiet_countTx n : rel quiet (_ ← count set_TxPackets TxPackets 1; count set_TxBytes TxBytes n).
Proof. unfold count. quiet. Qed.

Lemma quiet_countBad : rel quiet (count set_RxDropMalformed RxDropMalformed 1).
Proof. unfold count. quiet. Qed.

(** ** One datagram *)

Lemma write_frames i b s s' es ok :
  write i b s = Ret (s', es, ok) ->
  sview s' = sview s /\ (frames es = [] \/ frames es = [(i, b)]) /\
  (forall k, (conn <$> paths s) !! i = Some (Some k) -> frames es = [(i, b)]).
Proof.
  unfold write. intros (s1 & e1 & p & e2 & E1 & E2 & ->)%bind_inv.
  unfold pathAt in E1. apply bind_inv in E1 as (s0 & e0 & ps & e0' & [= <- <- <-] & E1 & ->).
  apply at_inv in E1 as (Hp & _ & -> & ->). rewrite Nat2Z.id in Hp.
  rewrite list_lookup_fmap, Hp. cbn [fmap option_fmap option_map].
  destruct (conn p) as [k|].
  - apply bind_inv in E2 as (s2 & e3 & a & e4 & [= <- <- <-] & E2 & ->).
    apply bind_inv in E2 as (s3 & e5 & [] & e6 & [= <- <-] & [= <- <- <-] & ->). cbn. auto.
  - injection E2 as <- <- <-. cbn. split_and!; [done|by left|done].
Qed.

(** [sends i d ct s es s']: at most this DATA datagram was written to path
    [i], and it was if the path has a socket and the datagram fits. *)
Definition sends (i : nat) (d : DataHeader) (ct : list Z) (s : Engine) (es : list ev) (s' : Engine) : Prop :=
  sview s' = sview s /\ (frames es = [] \/ frames es = [(i, data_bytes d ++ ct)]) /\
  (forall k, (conn <$> paths s) !! i = Some (Some k) -> (Len d + length ct <= SlabSize)%nat ->
     frames es = [(i, data_bytes d ++ ct)]).

(** The header a ciphertext gets, as far as the sender decides it. *)
Record header_for (s : Engine) (i : nat) (class : Z) (dup : bool) (sq : Z) (tag : fecTag)
    (d : DataHeader) : Prop := {
  hf_wf : wf_data d;
  hf_class : Class (dHeader d) = class;
  hf_dup : Z.testbit (hFlags (dHeader d)) 0 = dup;
  hf_fec : hasFEC (dHeader d) = tag_on tag;
  hf_path : exists b, (view s).1 !! i = Some (hPathID (dHeader d), b);
  hf_session : dSession d = cfgSession cfg;
  hf_seq : dGlobalSeq d = sq;
  hf_tag : dFECGroup d = tag_group tag /\ dFECIndex d = tag_index tag;
}.

Lemma dataFlags_spec class dup tag :
  wf_class class ->
  is_u8 (dataFlags class dup tag) /\
  Z.land (Z.shiftr (dataFlags class dup tag) 2) 3 = class /\
  Z.testbit (dataFlags class dup tag) 0 = dup /\
  negb (Z.land (dataFlags class dup tag) FlagFECInfo =? 0) = tag_on tag.
Proof.
  unfold dataFlags. intros Hc. destruct tag as [on g k]. cbn [tag_on].
  destruct Hc as [->|[->| ->]], dup, on; by vm_compute.
Qed.

(** The header [sendDataOn] fills in is the one it should. *)
Lemma data_header_for s i p class dup sq tag pseq ts :
  path_ok i p -> (view s).1 !! i = Some (pID p, registered p) -> wf_class class -> is_u32 sq -> tag_ok tag ->
  is_u32 (cfgSession cfg) -> is_u32 pseq -> is_u32 ts ->
  header_for s i class dup sq tag
    (mkDataHeader (mkHeader TypeData (dataFlags class dup tag) (pID p) 0) (cfgSession cfg) sq pseq ts
       (tag_group tag) (tag_index tag)).
Proof.
  intros [Hid Hps] Hpv Hc Hsq (Htg & Hti & Hton) Hses Hpq Hts.
  destruct (dataFlags_spec class dup tag Hc) as (Hfl & Hcl & Hdu & Hfe).
  constructor; [|done|done|done| |done|done|done]; [|by exists (registered p)].
  split_and!; cbn; try done.
  - split_and!; cbn; [done|done|done|rewrite Hid; apply u8_range|done].
  - intros Hoff. apply Hton. by rewrite <- Hfe.
Qed.

Lemma sendDataOn_sends i class dup sq tag ct s s' es :
  sendDataOn i class dup (cfgSession cfg) sq tag ct s = Ret (s', es, tt) ->
  inv s -> (i < np s)%nat -> wf_class class -> is_u32 sq -> tag_ok tag -> is_u32 (cfgSession cfg) ->
  exists d, header_for s i class dup sq tag d /\ sends i d ct s es s'.
Proof.
  intros E Hi Hlt Hc Hsq Htag Hses. unfold sendDataOn in E.
  apply bind_inv in E as (s1 & e1 & sl & e2 & E1 & E & ->).
  destruct (wp_inv _ _ _ _ _ _ E1 (trip_Get s Hi)) as (Hi1 & _ & Hv1 & Hl & _).
  destruct (quiet_Get _ _ _ _ E1) as [Hf1 Hs1].
  apply bind_inv in E as (s2 & e3 & p & e4 & E2 & E & ->).
  rewrite <- (np_view s1 s) in Hlt by done.
  destruct (wp_inv _ _ _ _ _ _ E2 (same_pathAt s1 i Hlt Hi1)) as (Hi2 & _ & Hv2 & Hp & Hpv).
  destruct (quiet_pathAt _ _ _ _ _ E2) as [Hf2 Hs2].
  apply bind_inv in E as (s3 & e5 & [] & e6 & E3 & E & ->).
  destruct (quiet_updPath i (set_pathSeq _) (fun _ => eq_refl) _ _ _ _ E3) as [Hf3 Hs3].
  apply bind_inv in E as (s4 & e7 & ts & e8 & E4 & E & ->).
  assert (Hlt2 : (i < np s2)%nat) by (by rewrite (np_view s2 s1)).
  assert (Hok : forall q, path_ok i q -> path_ok i (set_pathSeq (u32 (pathSeq p + 1)) q)).
  { intros q []. constructor; [done|apply u32_range]. }
  destruct (wp_inv _ _ _ _ _ _ E3 (same_updPath s2 i _ Hlt2 Hok (fun _ => conj eq_refl eq_refl) Hi2)) as (Hi3 & _).
  destruct (wp_inv _ _ _ _ _ _ E4 (same_txTS s3 Hi3)) as (_ & _ & _ & Hts).
  destruct (quiet_txTS _ _ _ _ E4) as [Hf4 Hs4].
  set (d := mkDataHeader _ _ _ _ _ _ _) in E. exists d.
  apply bind_inv in E as (s5 & e9 & [mem n] & e10 & E5 & E & ->).
  apply must_inv in E5 as (E5 & -> & ->).
  destruct (data_frame (sl_mem sl) d ct Hl) as (mem' & E6 & Hm & Hfill).
  rewrite E6 in E5. injection E5 as <- <-. cbv iota in E.
  apply bind_inv in E as (s6 & e11 & [] & e12 & E7 & E & ->).
  destruct (quiet_Put sl _ _ _ _ E) as [Hf6 Hs6].
  assert (Hsv : sview s4 = sview s) by congruence.
  assert (Hfr : frames (e1 ++ e3 ++ e5 ++ e7 ++ [] ++ e11 ++ e12) = frames e11).
  { by rewrite !frames_app, Hf1, Hf2, Hf3, Hf4, Hf6, app_nil_r. }
  split.
  - rewrite Hv1 in Hpv. apply data_header_for; [by apply Hok|done..|apply u32_range|done].
  - unfold sends. rewrite Hfr. case_decide as Hfit.
    + destruct (quiet_countBad _ _ _ _ E7) as [Hf7 Hs7].
      split_and!; [congruence|left; done|]. intros; lia.
    + apply bind_inv in E7 as (s7 & e13 & ok & e14 & E7 & E8 & ->).
      destruct (write_frames _ _ _ _ _ _ E7) as (Hs7 & Hw & Hk).
      rewrite Hfill in Hw, Hk by lia.
      assert (quiet s7 e14 s6) as [Hf8 Hs8].
      { destruct ok; [by apply (quiet_countTx _ _ _ _ _ E8)|].
        by apply (quiet_updPath i (onLink MarkDown) (fun _ => eq_refl) _ _ _ _ E8). }
      rewrite frames_app, Hf8, app_nil_r. split_and!; [congruence|done|].
      intros k Hconn _. apply (Hk k). unfold sview in Hsv. injection Hsv as _ _ Hcn _. by rewrite Hcn.
Qed.

(** ** Parity *)

Lemma Get_inv s s' es sl : Get s = Ret (s', es, sl) -> length (sl_mem sl) = SlabSize.
Proof.
  unfold Get. intros (s1 & e1 & a & e2 & [= <- <- <-] & E & _)%bind_inv.
  apply bind_inv in E as (? & ? & ? & ? & _ & [= _ _ <-] & _). apply garbage_len.
Qed.

Lemma parity_quiet {A} (m : eng A) : rel quiet m -> rel parity m.
Proof. intros Hm s s' es a E. by apply quiet_parity, (Hm _ _ _ _ E). Qed.

Lemma parity_emit e : rel parity (clientEmitParity cfg e).
Proof.
  unfold clientEmitParity. destruct e as [grp index k m shard|]; [|apply (rel_ret _ parity_refl)].
  apply (rel_bind _ parity_trans); [apply (rel_gets _ parity_refl)|intros ix].
  case_decide; [apply (rel_ret _ parity_refl)|].
  apply (rel_bind _ parity_trans); [apply parity_quiet, quiet_stripe|intros i].
  intros s s' es [] (s1 & e1 & sl & e2 & E1 & E & ->)%bind_inv. pose proof (Get_inv _ _ _ _ E1) as Hl.
  apply bind_inv in E as (s2 & e3 & p & e4 & E2 & E & ->).
  set (f := mkFECHeader _ _ _ _ _ _ _) in E.
  apply bind_inv in E as (s3 & e5 & [mem n] & e6 & E3 & E & ->).
  apply must_inv in E3 as (E3 & -> & ->).
  destruct (fec_frame (sl_mem sl) f shard Hl) as (mem' & E4 & Hm & Hfill).
  rewrite E4 in E3. injection E3 as <- <-. cbv iota in E.
  apply bind_inv in E as (s4 & e7 & [] & e8 & E5 & E6 & ->).
  eapply parity_trans; [by apply (parity_quiet _ quiet_Get _ _ _ _ E1)|].
  eapply parity_trans; [by apply (parity_quiet _ (quiet_pathAt i) _ _ _ _ E2)|].
  apply (parity_trans _ [] s2); [apply parity_refl|].
  eapply parity_trans; [|by apply (parity_quiet _ (quiet_Put sl) _ _ _ _ E6)].
  case_decide as Hfit; [injection E5 as <- <-; apply parity_refl|].
  apply bind_inv in E5 as (s5 & e9 & ok & e10 & E7 & E8 & ->).
  destruct (write_frames _ _ _ _ _ _ E7) as (Hs7 & Hw & _). rewrite Hfill in Hw by lia.
  eapply parity_trans.
  - split; [|exact Hs7]. destruct Hw as [->| ->]; [apply List.Forall_nil|].
    apply List.Forall_cons; [|apply List.Forall_nil]. by exists (as_fec f), shard.
  - destruct ok; [by apply (parity_quiet _ (quiet_countTx _) _ _ _ _ E8)|].
    injection E8 as <- <-. apply parity_refl.
Qed.

Lemma parity_fecAdd sq ct : rel parity (fecAdd cfg sq ct).
Proof.
  unfold fecAdd. rel_with parity_refl parity_trans ltac:(split; [constructor|done])
    ltac:(first [apply parity_emit | apply parity_quiet, quiet_now]).
Qed.

(** ** Bulk *)

(** The parts of [sview]. *)
Definition with_seq (g : Z) (v : Z * list (list Z) * list (option nat) * Z) :=
  let '(_, p, c, a) := v in (g, p, c, a).
Definition with_aqm (a : Z) (v : Z * list (list Z) * list (option nat) * Z) :=
  let '(g, p, c, _) := v in (g, p, c, a).

(** Parity may come first, then this datagram and no other, written when
    [must] holds. *)
Definition wrote (must : Prop) (i : nat) (d : DataHeader) (ct : list Z) (es : list ev) : Prop :=
  exists par rest, frames es = par ++ rest /\ Forall is_parity par /\
    (rest = [] \/ rest = [(i, data_bytes d ++ ct)]) /\
    (must -> rest = [(i, data_bytes d ++ ct)]).

(** Path [i] has a socket and the ciphertext fits behind any header. *)
Definition can_write (s : Engine) (i : nat) (ct : list Z) : Prop :=
  (exists k, (conn <$> paths s) !! i = Some (Some k)) /\ (length ct + DataHeaderFECSize <= SlabSize)%nat.

Lemma Len_le d : (Len d <= DataHeaderFECSize)%nat.
Proof. unfold Len, DataHeaderFECSize, DataHeaderSize. destruct (hasFEC _); lia. Qed.

Lemma sview_conn s s' : sview s' = sview s -> conn <$> paths s' = conn <$> paths s.
Proof. unfold sview. congruence. Qed.

Lemma wrote_after s0 e0 s1 i d ct es s' :
  parity s0 e0 s1 -> sends i d ct s1 es s' ->
  wrote (can_write s0 i ct) i d ct (e0 ++ es).
Proof.
  intros [Hp Hs] (_ & Hw & Hc). exists (frames e0), (frames es).
  split_and!; [apply frames_app|done|done|]. intros [[k Hk] Hl]. apply (Hc k).
  - by rewrite (sview_conn _ _ Hs).
  - pose proof (Len_le d). lia.
Qed.

Lemma header_for_view s1 s i class dup sq tag d :
  view s1 = view s -> header_for s1 i class dup sq tag d -> header_for s i class dup sq tag d.
Proof. intros Hv []. rewrite Hv in *. by constructor. Qed.

Lemma nextGlobal_inv s s' es sq :
  nextGlobal s = Ret (s', es, sq) ->
  sq = u32 (globalSeq s + 1) /\ frames es = [] /\ sview s' = with_seq sq (sview s).
Proof.
  unfold nextGlobal. intros (s1 & e1 & [] & e2 & [= <- <-] & [= <- <- <-] & ->)%bind_inv. done.
Qed.

(** A bulk packet is dropped early and counted, or numbered next and sent. *)
Definition bulk (ix : list nat) (ct : list Z) (s : Engine) (es : list ev) (s' : Engine) : Prop :=
  (frames es = [] /\ sview s' = with_aqm (u64 (AQMDrops (Stats s) + 1)) (sview s)) \/
  exists i tag d, i ∈ ix /\
    header_for s i ClassBulk false (u32 (globalSeq s + 1)) tag d /\
    wrote (can_write s i ct) i d ct es /\
    sview s' = with_seq (u32 (globalSeq s + 1)) (sview s).

Lemma sendBulk_bulk ix ct s s' es :
  sendBulk cfg ix ct s = Ret (s', es, tt) ->
  inv s -> ix <> [] -> (forall i, i ∈ ix -> (i < np s)%nat) -> is_u32 (cfgSession cfg) ->
  bulk ix ct s es s'.
Proof.
  intros E Hi Hne Hlt Hses. unfold sendBulk in E.
  apply bind_inv in E as (s1 & e1 & i & e2 & E1 & E & ->).
  destruct (wp_inv _ _ _ _ _ _ E1 (same_stripe s ix Hne Hlt Hi)) as (Hi1 & _ & Hv1 & Hix).
  destruct (quiet_stripe _ _ _ _ _ E1) as [Hf1 Hs1].
  apply bind_inv in E as (s2 & e3 & p & e4 & E2 & E & ->).
  assert (Hlt1 : (i < np s1)%nat) by (rewrite (np_view s1 s) by done; by apply Hlt).
  destruct (wp_inv _ _ _ _ _ _ E2 (same_pathAt s1 i Hlt1 Hi1)) as (Hi2 & _ & Hv2 & _).
  destruct (quiet_pathAt _ _ _ _ _ E2) as [Hf2 Hs2].
  apply bind_inv in E as (s3 & e5 & drop & e6 & E3 & E & ->).
  destruct (wp_inv _ _ _ _ _ _ E3 (same_aqm s2 _ Hi2)) as (Hi3 & _ & Hv3 & _).
  destruct (quiet_aqm _ _ _ _ _ E3) as [Hf3 Hs3].
  assert (Hs : sview s3 = sview s) by congruence.
  assert (Hg : globalSeq s3 = globalSeq s) by (unfold sview in Hs; congruence).
  destruct drop.
  { left. injection E as <- <-. rewrite !frames_app, Hf1, Hf2, Hf3. split; [done|].
    unfold sview in *. cbn. injection Hs as -> -> -> ->. done. }
  right. apply bind_inv in E as (s4 & e7 & sq & e8 & E4 & E & ->).
  destruct (wp_inv _ _ _ _ _ _ E4 (same_nextGlobal s3 Hi3)) as (Hi4 & _ & Hv4 & Hsq).
  destruct (nextGlobal_inv _ _ _ _ E4) as (Hsqe & Hf4 & Hs4). rewrite Hg in Hsqe.
  apply bind_inv in E as (s5 & e9 & tag & e10 & E5 & E & ->).
  destruct (wp_inv _ _ _ _ _ _ E5 (same_fecAdd cfg s4 sq ct Hi4)) as (Hi5 & _ & Hv5 & Htag).
  pose proof (parity_fecAdd _ _ _ _ _ _ E5) as Hp5.
  destruct (sendDataOn_sends _ _ _ _ _ _ _ _ _ E Hi5) as (d & Hd & Hsend);
    [rewrite (np_view s5 s1) by congruence; done|by left|done|done|done|].
  assert (Hsv : sview s' = with_seq sq (sview s)).
  { destruct Hsend as (-> & _). destruct Hp5 as [_ ->]. by rewrite Hs4, Hs. }
  rewrite <- Hsqe. exists i, tag, d. split_and!; [done| | |done].
  - eapply (header_for_view s5); [congruence|done].
  - destruct (wrote_after _ _ _ _ _ _ _ _ Hp5 Hsend) as (par & rest & Hfr & Hpar & Hr & Hm).
    exists par, rest. rewrite !frames_app, Hf1, Hf2, Hf3, Hf4. cbn [app].
    rewrite <- frames_app. split_and!; [done|done|done|]. intros [Hc Hl]. apply Hm. split; [|done].
    rewrite Hs in Hs4. unfold sview in Hs4. cbn in Hs4. injection Hs4 as _ _ -> _. done.
Qed.

(** ** Priority classes *)

(** The abstract decision for a packet of class [class]: stripe it by weight,
    or send it on path [i] with an optional duplicate. *)
Inductive choice := Stripe | Direct (i : nat) (dup : option nat).

Definition snapshots (ps : list Path) (ix : list nat) : list Link.Snapshot :=
  omap (fun i => (fun p => LinkSnapshot (pLink p)) <$> ps !! i) ix.

Definition choose (class : Z) (ps : list Path) : choice :=
  let ix := sendable ps in
  if class =? ClassBulk then Stripe
  else if decide (length ix = 1)%nat then
    match ix !! 0%nat with Some i => Direct i None | None => Stripe end
  else
    let '(first, second) := BestPair (snapshots ps ix) in
    match (if first <? 0 then None else ix !! Z.to_nat first) with
    | None => Stripe
    | Some i =>
        Direct i (if (class =? ClassRealtime) && (0 <=? second) then ix !! Z.to_nat second else None)
    end.

(** At most this datagram, written when it can be. *)
Definition one (s : Engine) (i : nat) (d : DataHeader) (ct : list Z) (fs : list (nat * list Z)) : Prop :=
  (fs = [] \/ fs = [(i, data_bytes d ++ ct)]) /\ (can_write s i ct -> fs = [(i, data_bytes d ++ ct)]).

(** The packet on path [i], and its copy with the same number on path [j]. *)
Definition direct (class : Z) (i : nat) (dup : option nat) (ct : list Z) (s : Engine) (es : list ev)
    (s' : Engine) : Prop :=
  exists sq d fs1 fs2, frames es = fs1 ++ fs2 /\ sview s' = sview s /\
    header_for s i class false sq noTag d /\ one s i d ct fs1 /\
    match dup with
    | None => fs2 = []
    | Some j => exists d', header_for s j class true sq noTag d' /\ one s j d' ct fs2
    end.

(** Carry out a decision. *)
Definition sent_as (class : Z) (c : choice) (ct : list Z) (s : Engine) (es : list ev) (s' : Engine) : Prop :=
  match c with
  | Stripe => bulk (sendable (paths s)) ct s es s'
  | Direct i dup => direct class i dup ct s es s'
  end.

Lemma pathAt_inv i s s' es p :
  pathAt i s = Ret (s', es, p) -> s' = s /\ es = [] /\ paths s !! i = Some p.
Proof.
  unfold pathAt. intros (s1 & e1 & ps & e2 & [= <- <- <-] & E & ->)%bind_inv.
  apply at_inv in E as (Hp & _ & -> & ->). by rewrite Nat2Z.id in Hp.
Qed.

Lemma mapEach_pathAt_inv ix : forall s s' es ps,
  mapEach pathAt ix s = Ret (s', es, ps) ->
  s' = s /\ es = [] /\ (fun p => LinkSnapshot (pLink p)) <$> ps = snapshots (paths s) ix /\
  length ps = length ix.
Proof.
  induction ix as [|i ix IH]; intros s s' es ps; cbn [mapEach]; [by intros [= <- <- <-]|].
  intros (s1 & e1 & p & e2 & E1 & E & ->)%bind_inv. apply pathAt_inv in E1 as (-> & -> & Hp).
  apply bind_inv in E as (s2 & e3 & ps' & e4 & E2 & E & ->).
  apply IH in E2 as (-> & -> & Hs & Hl). injection E as <- <- <-.
  split_and!; [done|done| |cbn; by rewrite Hl]. unfold snapshots in *. cbn. rewrite Hp. cbn. by rewrite Hs.
Qed.

(** [classifyCt] leaves the paths as they are. *)
Lemma classifyCt_paths ct s s' es c : classifyCt ct s = Ret (s', es, c) -> paths s' = paths s.
Proof.
  set (R := fun (s : Engine) (_ : list ev) (s' : Engine) => paths s' = paths s).
  assert (Hr : forall s, R s [] s) by done.
  assert (Ht : forall s e1 s1 e2 s2, R s e1 s1 -> R s1 e2 s2 -> R s (e1 ++ e2) s2)
    by (unfold R; congruence).
  apply (fun H : rel R (classifyCt ct) => H s s' es c). unfold classifyCt.
  rel_with Hr Ht ltac:(done) ltac:(fail).
Qed.

(** A quiet prefix does not show. *)
Lemma direct_after class i dup ct s e0 s1 es s' :
  quiet s e0 s1 -> view s1 = view s -> direct class i dup ct s1 es s' ->
  direct class i dup ct s (e0 ++ es) s'.
Proof.
  intros [Hf Hs] Hv (sq & d & fs1 & fs2 & Hfr & Hsv & Hd & [Ho Hm] & Hdup).
  exists sq, d, fs1, fs2. rewrite frames_app, Hf.
  assert (Hc : forall j, can_write s j ct -> can_write s1 j ct).
  { unfold can_write. by rewrite (sview_conn _ _ Hs). }
  split_and!; [done|congruence|by eapply header_for_view|by split; auto|].
  destruct dup as [j|]; [|done]. destruct Hdup as (d' & Hd' & [Ho' Hm']). exists d'.
  split; [by eapply header_for_view|by split; auto].
Qed.

Lemma one_sends s0 i d ct s es s' :
  sview s = sview s0 -> sends i d ct s es s' -> one s0 i d ct (frames es).
Proof.
  intros Hs (_ & Hw & Hc). split; [done|]. intros [[k Hk] Hl]. apply (Hc k).
  - by rewrite (sview_conn _ _ Hs).
  - pose proof (Len_le d). lia.
Qed.

Lemma direct_run class i dup ct s s1 s2 s' es e1 e3 e4 sq :
  inv s -> is_u32 (cfgSession cfg) -> wf_class class -> (i < np s)%nat ->
  (forall j, dup = Some j -> (j < np s)%nat) ->
  nextRt s = Ret (s1, e1, sq) ->
  sendDataOn i class false (cfgSession cfg) sq noTag ct s1 = Ret (s2, e3, tt) ->
  match dup with
  | Some j => sendDataOn j class true (cfgSession cfg) sq noTag ct s2 = Ret (s', e4, tt)
  | None => s' = s2 /\ e4 = []
  end ->
  frames es = frames e1 ++ frames e3 ++ frames e4 ->
  direct class i dup ct s es s'.
Proof.
  intros Hi Hses Hc Hlt Hdup E1 E2 E Hfr.
  destruct (wp_inv _ _ _ _ _ _ E1 (same_nextRt s Hi)) as (Hi1 & _ & Hv1 & Hsq).
  destruct (quiet_nextRt _ _ _ _ E1) as [Hf1 Hs1].
  assert (Hlt1 : (i < np s1)%nat) by by rewrite (np_view s1 s).
  destruct (sendDataOn_sends _ _ _ _ _ _ _ _ _ E2 Hi1 Hlt1 Hc Hsq noTag_ok Hses) as (d & Hd & Hsend).
  destruct (wp_inv _ _ _ _ _ _ E2 (same_sendDataOn s1 i class false (cfgSession cfg) sq noTag ct Hlt1 Hi1))
    as (Hi2 & _ & Hv2 & _).
  exists sq, d, (frames e3), (frames e4). rewrite Hfr, Hf1.
  assert (Hs2 : sview s2 = sview s) by (destruct Hsend as (-> & _); done).
  destruct dup as [j|].
  - assert (Hlt2 : (j < np s2)%nat) by (rewrite (np_view s2 s) by congruence; by apply Hdup).
    destruct (sendDataOn_sends _ _ _ _ _ _ _ _ _ E Hi2 Hlt2 Hc Hsq noTag_ok Hses) as (d' & Hd' & Hsend').
    split_and!; [done|destruct Hsend' as (-> & _); done|by eapply header_for_view
      |exact (one_sends s _ _ _ _ _ _ Hs1 Hsend)|].
    exists d'. split; [eapply header_for_view; [|exact Hd']; congruence|].
    exact (one_sends s _ _ _ _ _ _ Hs2 Hsend').
  - destruct E as [-> ->]. split_and!; [done|done|by eapply header_for_view
      |exact (one_sends s _ _ _ _ _ _ Hs1 Hsend)|done].
Qed.

Lemma bulk_after ix ct s e0 s1 es s' :
  quiet s e0 s1 -> view s1 = view s -> bulk ix ct s1 es s' -> bulk ix ct s (e0 ++ es) s'.
Proof.
  intros [Hf Hs] Hv Hb. pose proof Hs as Hs0. unfold sview in Hs0. injection Hs0 as Hg _ Hcn Ha.
  unfold bulk. rewrite frames_app, Hf. cbn [app].
  destruct Hb as [[Hfr Hsv]|(i & tag & d & Hix & Hd & (par & rest & Hw & Hp & Hr & Hm) & Hsv)].
  - left. rewrite Hsv, Hs, Ha. done.
  - right. rewrite Hg in *. exists i, tag, d. split_and!; [done|by eapply header_for_view| |by rewrite Hsv, Hs].
    exists par, rest. rewrite frames_app, Hf. split_and!; [done..|]. intros [Hc Hl]. apply Hm.
    split; [by rewrite Hcn|done].
Qed.

(** The two priority branches of [sendOne], from the state after
    classification. *)
Lemma single_run class ct ix s s' es :
  inv s -> is_u32 (cfgSession cfg) -> wf_class class -> (forall i, i ∈ ix -> (i < np s)%nat) ->
  (i ← at_ ix 0; sq ← nextRt; sendDataOn i class false (cfgSession cfg) sq noTag ct) s = Ret (s', es, tt) ->
  exists i, ix !! 0%nat = Some i /\ direct class i None ct s es s'.
Proof.
  intros Hi Hses Hc Hlt (s2 & e4 & i & e5 & E2 & E & ->)%bind_inv.
  apply at_inv in E2 as (Hix & _ & -> & ->). change (Z.to_nat 0) with 0%nat in Hix.
  apply bind_inv in E as (s3 & e6 & sq & e7 & E3 & E & ->). exists i. split; [done|].
  eapply (direct_run _ _ None _ _ _ _ _ _ _ _ []); [done|done|done| |done|exact E3|exact E|done|].
  - eapply Hlt, list_elem_of_lookup_2, Hix.
  - rewrite !frames_app. cbn. by rewrite app_nil_r.
Qed.

Lemma pair_run class first second ct ix s s' es :
  inv s -> is_u32 (cfgSession cfg) -> wf_class class -> (forall i, i ∈ ix -> (i < np s)%nat) ->
  (sq ← nextRt; i ← at_ ix first;
   _ ← sendDataOn i class false (cfgSession cfg) sq noTag ct;
   when ((class =? ClassRealtime) && (0 <=? second))
     (j ← at_ ix second; sendDataOn j class true (cfgSession cfg) sq noTag ct)) s = Ret (s', es, tt) ->
  exists i, ix !! Z.to_nat first = Some i /\
    direct class i (if (class =? ClassRealtime) && (0 <=? second) then ix !! Z.to_nat second else None)
      ct s es s'.
Proof.
  intros Hi Hses Hc Hlt (s1 & e1 & sq & e2 & E1 & E & ->)%bind_inv.
  apply bind_inv in E as (s2 & e3 & i & e4 & E2 & E & ->). apply at_inv in E2 as (Hix & _ & -> & ->).
  apply bind_inv in E as (s3 & e5 & [] & e6 & E3 & E & ->). exists i. split; [done|].
  destruct (_ && _).
  - apply bind_inv in E as (s4 & e7 & j & e8 & E4 & E & ->). apply at_inv in E4 as (Hjx & _ & -> & ->).
    rewrite Hjx. eapply (direct_run _ _ (Some j)); [done|done|done| | |exact E1|exact E3|exact E|].
    + eapply Hlt, list_elem_of_lookup_2, Hix.
    + intros ? [= <-]. eapply Hlt, list_elem_of_lookup_2, Hjx.
    + by rewrite !frames_app.
  - injection E as <- <-.
    eapply (direct_run _ _ None _ _ _ _ _ _ _ _ []); [done|done|done| |done|exact E1|exact E3|done|].
    + eapply Hlt, list_elem_of_lookup_2, Hix.
    + by rewrite !frames_app.
Qed.

Lemma sendOne_refines ct s s' es :
  inv s -> is_u32 (cfgSession cfg) -> sendable (paths s) <> [] ->
  sendOne cfg ct s = Ret (s', es, tt) ->
  exists class s0 e0, classifyCt ct s = Ret (s0, e0, class) /\ wf_class class /\
    sent_as class (choose class (paths s)) ct s es s'.
Proof.
  intros Hi Hses Hne E. unfold sendOne in E.
  apply bind_inv in E as (s0 & e0 & ix & e1 & [= <- <- <-] & E & ->).
  assert (Hlt : forall i, i ∈ sendable (paths s) -> (i < np s)%nat) by (intros i Hj%sendable_lt; done).
  case_decide as Hl; [by destruct (sendable (paths s))|].
  apply bind_inv in E as (s1 & e2 & class & e3 & E1 & E & ->).
  destruct (wp_inv _ _ _ _ _ _ E1 (same_classifyCt s ct Hi)) as (Hi1 & _ & Hv1 & Hc).
  pose proof (quiet_classifyCt _ _ _ _ _ E1) as Hq1. pose proof (classifyCt_paths _ _ _ _ _ E1) as Hp1.
  exists class, s1, e2. split_and!; [done|done|]. cbn [app].
  assert (Hlt1 : forall i, i ∈ sendable (paths s) -> (i < np s1)%nat)
    by (intros i Hj; rewrite (np_view s1 s) by done; by apply Hlt).
  assert (Hbulk : sendBulk cfg (sendable (paths s)) ct s1 = Ret (s', e3, tt) ->
    bulk (sendable (paths s)) ct s (e2 ++ e3) s').
  { intros Eb. eapply bulk_after; [done|done|]. by eapply sendBulk_bulk. }
  unfold choose. destruct (Z.eqb_spec class ClassBulk) as [->|Hnb].
  { rewrite andb_false_r in E. by apply Hbulk. }
  cbn [negb] in E. rewrite andb_true_r in E.
  case_decide as Hone.
  { rewrite bool_decide_true in E by done.
    apply single_run in E as (i & Hix & E); [|done..]. rewrite Hix. by eapply direct_after. }
  rewrite bool_decide_false in E by done.
  assert (Hcl : (class =? ClassRealtime) || (class =? ClassInteractive) = true).
  { destruct Hc as [->|[->| ->]]; [by destruct Hnb|done|done]. }
  rewrite Hcl in E. apply bind_inv in E as (s2 & e4 & ps & e5 & E2 & E & ->).
  apply mapEach_pathAt_inv in E2 as (-> & -> & Hsn & Hps). rewrite Hp1 in Hsn. rewrite Hsn in E.
  destruct (BestPair _) as [first second] eqn:Hbp. cbn [app].
  destruct (Z.ltb_spec first 0); [by apply Hbulk|].
  apply pair_run in E as (i & Hix & E); [|done..]. rewrite Hix. by eapply direct_after.
Qed.

(** C9: What the client sends for one ciphertext implements the abstract
    decision [choose] on the current paths. Nothing is held back: a bulk
    packet gets the next number of the 32-bit bulk sequence and is written to
    one sendable path (after the parity of the group it completes), unless
    the early drop takes it, which is counted and uses no number; a realtime
    or interactive packet is written to the path of least score, with no
    bulk number, and a realtime packet once more to the second best, under
    the same number and flagged as a duplicate. Each datagram carries the
    session, the class and the id of the path it is written to, and parses
    back to the ciphertext. *)
Theorem client_send_refines ct s s' es :
  inv s -> is_u32 (cfgSession cfg) -> sendable (paths s) <> [] ->
  sendOne cfg ct s = Ret (s', es, tt) ->
  exists class s0 e0, classifyCt ct s = Ret (s0, e0, class) /\ wf_class class /\
    sent_as class (choose class (paths s)) ct s es s'.
Proof. apply sendOne_refines. Qed.

(** ** The two best paths *)

Lemma indices_spec f ps i : i ∈ indices f ps <-> exists p, ps !! i = Some p /\ f p = true.
Proof.
  unfold indices. split.
  - intros ([j p] & -> & Hf)%list_elem_of_fmap. apply list_elem_of_filter in Hf as [Hf Hin].
    apply elem_of_lookup_imap in Hin as (k & q & [= -> ->] & Hq). by exists q.
  - intros (p & Hp & Hf). apply list_elem_of_fmap. exists (i, p). split; [done|].
    apply list_elem_of_filter. split; [done|]. apply elem_of_lookup_imap. by exists i, p.
Qed.

Lemma indices_NoDup f ps : NoDup (indices f ps).
Proof.
  unfold indices. apply NoDup_fmap_fst.
  - intros i p q [_ Hp]%list_elem_of_filter [_ Hq]%list_elem_of_filter.
    apply elem_of_lookup_imap in Hp as (k & x & [= -> ->] & Hp).
    apply elem_of_lookup_imap in Hq as (k' & y & [= <- ->] & Hq). congruence.
  - apply list.NoDup_filter. apply NoDup_alt. intros i j x Hi Hj.
    apply list_lookup_imap_Some in Hi as (p & Hi & ->), Hj as (q & Hj & [=]). done.
Qed.

Lemma snapshots_lookup ps ix (a : nat) :
  (forall i, i ∈ ix -> (i < length ps)%nat) ->
  snapshots ps ix !! a = i ← ix !! a; p ← ps !! i; Some (LinkSnapshot (pLink p)).
Proof.
  revert a. induction ix as [|i ix IH]; intros a Hlt; [done|].
  destruct (lookup_lt_is_Some_2 ps i) as [p Hp]; [apply Hlt; by left|].
  unfold snapshots in *. cbn. rewrite Hp. cbn. destruct a as [|a]; cbn; [by rewrite Hp|].
  apply IH. intros j Hj. apply Hlt. by right.
Qed.

(** [live ps i p]: path [i] is [p], registered and probed up. *)
Definition live (ps : list Path) (i : nat) (p : Path) : Prop :=
  ps !! i = Some p /\ registered p = true /\ Link.Up (pLink p) = true.
Definition score (p : Path) : Z := realtimeScore (LinkSnapshot (pLink p)).

(** With at least two live paths, a realtime packet goes to two different
    live paths: the one of least score (smoothed round trip, jitter and loss)
    among all live paths, and the least among the rest. *)
Theorem realtime_two_best ps :
  (2 <= length (indices (fun p => registered p && Link.Up (pLink p)) ps))%nat ->
  exists i j p q, choose ClassRealtime ps = Direct i (Some j) /\ i <> j /\
    live ps i p /\ live ps j q /\
    (forall k r, live ps k r -> score p <= score r) /\
    (forall k r, live ps k r -> k <> i -> score q <= score r).
Proof.
  set (f := fun p => _ && _). intros Hlen.
  assert (Hsend : sendable ps = indices f ps) by (unfold sendable; fold f; by rewrite decide_True by lia).
  assert (Hlive : forall i p, live ps i p <-> ps !! i = Some p /\ i ∈ indices f ps).
  { intros i p. unfold live. rewrite indices_spec. unfold f. split.
    - intros (Hp & Hr & Hu). split; [done|]. exists p. by rewrite Hr, Hu.
    - intros (Hp & q & Hq & [Hr Hu]%andb_prop). by simplify_eq. }
  set (snaps := snapshots ps (sendable ps)).
  assert (Hsn : forall a, snaps !! a = i ← sendable ps !! a; p ← ps !! i; Some (LinkSnapshot (pLink p))).
  { intros a. apply snapshots_lookup. apply sendable_lt. }
  assert (Hsc : forall a i p, sendable ps !! a = Some i -> ps !! i = Some p -> scored snaps a (score p)).
  { intros a i p Ha Hp. exists (LinkSnapshot (pLink p)). rewrite Hsn, Ha. cbn. rewrite Hp. cbn.
    split_and!; [done| |done]. apply list_elem_of_lookup_2 in Ha. rewrite Hsend in Ha.
    by destruct (proj2 (Hlive i p)) as (_ & _ & Hu). }
  assert (Hinv : forall a x, scored snaps a x -> exists i p, sendable ps !! a = Some i /\ live ps i p /\ x = score p).
  { intros a x (sn & Ha & _ & <-). rewrite Hsn in Ha. destruct (sendable ps !! a) as [i|] eqn:Hi; [|done].
    cbn in Ha. destruct (ps !! i) as [p|] eqn:Hp; [|done]. injection Ha as <-. exists i, p.
    split_and!; [done| |done]. apply Hlive. split; [done|]. rewrite <- Hsend. by eapply list_elem_of_lookup_2. }
  assert (Hof : forall k r, live ps k r -> exists a, sendable ps !! a = Some k /\ scored snaps a (score r)).
  { intros k r Hk. apply Hlive in Hk as [Hr Hk]. rewrite <- Hsend in Hk.
    apply list_elem_of_lookup in Hk as [a Ha]. exists a. split; [done|]. by eapply Hsc. }
  destruct (lookup_lt_is_Some_2 (sendable ps) 0) as [i0 Hi0]; [rewrite Hsend; lia|].
  destruct (lookup_lt_is_Some_2 (sendable ps) 1) as [j0 Hj0]; [rewrite Hsend; lia|].
  destruct (lookup_lt_is_Some_2 ps i0) as [p0 Hp0]; [by eapply sendable_lt, list_elem_of_lookup_2|].
  destruct (lookup_lt_is_Some_2 ps j0) as [q0 Hq0]; [by eapply sendable_lt, list_elem_of_lookup_2|].
  destruct (BestPair_two snaps 0 1 _ _ (Hsc _ _ _ Hi0 Hp0) (Hsc _ _ _ Hj0 Hq0)) as
    (a & b & x & y & Hbp & Hab & Ha & Hb & Hmin & Hmin2); [done|].
  destruct (Hinv _ _ Ha) as (i & p & Hia & Hli & ->). destruct (Hinv _ _ Hb) as (j & q & Hjb & Hlj & ->).
  assert (Hnd : NoDup (sendable ps)) by (rewrite Hsend; apply indices_NoDup).
  exists i, j, p, q. split_and!; [|by intros ->; apply Hab; eapply NoDup_lookup|done|done| |].
  - unfold choose. change (ClassRealtime =? ClassBulk) with false. cbv iota.
    rewrite decide_False by (rewrite Hsend; lia). fold snaps. rewrite Hbp.
    destruct (Z.ltb_spec (Z.of_nat a) 0); [lia|]. rewrite Nat2Z.id, Hia.
    change (ClassRealtime =? ClassRealtime) with true. cbn [andb].
    destruct (Z.leb_spec 0 (Z.of_nat b)); [|lia]. by rewrite Nat2Z.id, Hjb.
  - intros k r Hk. destruct (Hof k r Hk) as (c & _ & Hc). by eapply Hmin.
  - intros k r Hk Hki. destruct (Hof k r Hk) as (c & Hck & Hc). eapply Hmin2; [done|]. congruence.
Qed.

(** ** Numbering *)

Definition bulk_seqs (es : list ev) : list Z :=
  omap (fun x => if Class (dHeader x.1.2) =? ClassBulk then Some (dGlobalSeq x.1.2) else None)
    (data_frames es).

(** A DATA datagram of this client: what it carries, and on which path. *)
Definition own_frame (s : Engine) (bufs : list (list Z)) (x : nat * DataHeader * list Z) : Prop :=
  x.2 ∈ bufs /\ dSession x.1.2 = cfgSession cfg /\
  exists b, (view s).1 !! x.1.1 = Some (hPathID (dHeader x.1.2), b).

(** Every datagram is FEC or DATA of this client. *)
Definition only_own (s : Engine) (bufs : list (list Z)) (es : list ev) : Prop :=
  Forall (fun ib => is_parity ib \/ exists x, ParseDataHeader ib.2 = Ret (x.1.2, x.2) /\
            x.1.1 = ib.1 /\ own_frame s bufs x) (frames es).

(** [N] numbers were used, each for at most one bulk datagram, in order. *)
Definition numbered (s : Engine) (N : nat) (es : list ev) (s' : Engine) : Prop :=
  globalSeq s' = u32 (globalSeq s + Z.of_nat N) /\
  bulk_seqs es `sublist_of` ((fun k => u32 (globalSeq s + Z.of_nat k)) <$> seq 1 N).

Lemma bulk_seqs_app e1 e2 : bulk_seqs (e1 ++ e2) = bulk_seqs e1 ++ bulk_seqs e2.
Proof. unfold bulk_seqs. by rewrite data_frames_app, omap_app. Qed.

Lemma numbered_trans s N1 e1 s1 N2 e2 s2 :
  numbered s N1 e1 s1 -> numbered s1 N2 e2 s2 -> numbered s (N1 + N2) (e1 ++ e2) s2.
Proof.
  intros [Hg Hb] [Hg2 Hb2]. split.
  - rewrite Hg2, Hg. clear. mlia.
  - rewrite bulk_seqs_app, seq_app, fmap_app. apply sublist_app; [done|].
    assert (((fun k => u32 (globalSeq s1 + Z.of_nat k)) <$> seq 1 N2)
            = ((fun k => u32 (globalSeq s + Z.of_nat k)) <$> seq (1 + N1) N2)) as <-; [|done].
    rewrite Hg, Nat.add_comm, <- (fmap_add_seq N1 1 N2), <- list_fmap_compose.
    apply list_fmap_ext. intros _ k _. cbn. clear. mlia.
Qed.

Lemma frames_data es : data_frames es =
  omap (fun ib => match ParseDataHeader ib.2 with Ret (d, ct) => Some (ib.1, d, ct) | _ => None end)
    (frames es).
Proof. done. Qed.

Lemma parity_omap par : Forall is_parity par ->
  omap (fun ib => match ParseDataHeader ib.2 with Ret (d, ct) => Some (ib.1, d, ct) | _ => None end) par = [].
Proof.
  induction 1 as [|[i b] l (f & shard & Hb & Ht & _) _ IH]; [done|]. cbn in *.
  by rewrite Hb, ParseDataHeader_fec.
Qed.

Lemma own_one s bufs i class dup sq tag d ct :
  header_for s i class dup sq tag d -> ct ∈ bufs ->
  ParseDataHeader (data_bytes d ++ ct) = Ret (d, ct) /\ own_frame s bufs (i, d, ct).
Proof.
  intros [] Hct. split; [by apply ParseDataHeader_bytes|]. by split_and!.
Qed.

Lemma bulk_numbered bufs ix ct s es s' :
  is_u32 (globalSeq s) -> ct ∈ bufs -> bulk ix ct s es s' ->
  (exists N, (N <= 1)%nat /\ numbered s N es s') /\ only_own s bufs es /\ pending s' = pending s.
Proof.
  intros Hg Hct [[Hf Hs]|(i & tag & d & _ & Hd & (par & rest & Hf & Hp & Hr & _) & Hs)].
  - unfold sview in Hs. injection Hs as Hgs Hpd _ _. split_and!; [|unfold only_own; rewrite Hf; constructor|done].
    exists 0%nat. split; [lia|]. split; [rewrite Hgs, Z.add_0_r; symmetry; by apply u32_id|].
    unfold bulk_seqs. rewrite frames_data, Hf. constructor.
  - unfold sview in Hs. injection Hs as Hgs Hpd _ _.
    destruct (own_one s bufs _ _ _ _ _ _ ct Hd Hct) as [Hparse Hown]. split_and!; [| |done].
    + exists 1%nat. split; [lia|]. split; [done|]. unfold bulk_seqs.
      rewrite frames_data, Hf, omap_app, parity_omap by done. cbn [app].
      destruct Hr as [->| ->]; [constructor; constructor|]. cbn. rewrite Hparse. cbn.
      rewrite (hf_class _ _ _ _ _ _ _ Hd). cbn. rewrite (hf_seq _ _ _ _ _ _ _ Hd). done.
    + unfold only_own. rewrite Hf. apply Forall_app_2.
      * eapply Forall_impl; [|exact Hp]. intros ? ?. by left.
      * destruct Hr as [->| ->]; [constructor|]. apply List.Forall_cons; [|constructor]. right.
        by exists (i, d, ct).
Qed.

Lemma direct_numbered bufs class i dup ct s es s' :
  is_u32 (globalSeq s) -> ct ∈ bufs -> class <> ClassBulk -> direct class i dup ct s es s' ->
  numbered s 0 es s' /\ only_own s bufs es /\ pending s' = pending s.
Proof.
  intros Hg Hct Hnb (sq & d & fs1 & fs2 & Hf & Hs & Hd & [Ho _] & Hdup).
  unfold sview in Hs. injection Hs as Hgs Hpd _ _.
  assert (Hfs : forall j dp d' fs, header_for s j class dp sq noTag d' ->
    fs = [] \/ fs = [(j, data_bytes d' ++ ct)] ->
    omap (fun x => if Class (dHeader x.1.2) =? ClassBulk then Some (dGlobalSeq x.1.2) else None)
      (omap (fun ib => match ParseDataHeader ib.2 with Ret (d, ct) => Some (ib.1, d, ct) | _ => None end) fs) = [] /\
    Forall (fun ib => is_parity ib \/ exists x, ParseDataHeader ib.2 = Ret (x.1.2, x.2) /\
            x.1.1 = ib.1 /\ own_frame s bufs x) fs).
  { intros j dp d' fs Hd' Hfs. destruct (own_one s bufs _ _ _ _ _ _ ct Hd' Hct) as [Hparse Hown].
    destruct Hfs as [->| ->]; [split; [done|constructor]|]. cbn. rewrite Hparse. cbn.
    rewrite (hf_class _ _ _ _ _ _ _ Hd'). destruct (Z.eqb_spec class ClassBulk); [done|]. split; [done|].
    apply List.Forall_cons; [|constructor]. right. by exists (j, d', ct). }
  destruct (Hfs _ _ _ _ Hd Ho) as [Hs1 Ho1].
  assert (exists j dp d', header_for s j class dp sq noTag d' /\ (fs2 = [] \/ fs2 = [(j, data_bytes d' ++ ct)]))
    as (j & dp & d' & Hd' & Ho').
  { destruct dup as [j|]; [destruct Hdup as (d' & Hd' & [Ho' _]); eauto 6|].
    exists i, false, d. subst. eauto. }
  destruct (Hfs _ _ _ _ Hd' Ho') as [Hs2 Ho2]. split_and!; [|unfold only_own; rewrite Hf; by apply Forall_app_2|done].
  split; [rewrite Hgs, Z.add_0_r; symmetry; by apply u32_id|].
  unfold bulk_seqs. rewrite frames_data, Hf, !omap_app, Hs1, Hs2. constructor.
Qed.

Lemma choose_direct class ps i dup : choose class ps = Direct i dup -> class <> ClassBulk.
Proof. unfold choose. by destruct (Z.eqb_spec class ClassBulk). Qed.

Lemma sendOne_numbered bufs ct s s' es :
  inv s -> is_u32 (cfgSession cfg) -> ct ∈ bufs -> sendOne cfg ct s = Ret (s', es, tt) ->
  (exists N, (N <= 1)%nat /\ numbered s N es s') /\ only_own s bufs es /\
  (sendable (paths s) <> [] -> pending s' = pending s).
Proof.
  intros Hi Hses Hct E. destruct (decide (sendable (paths s) = [])) as [Hnil|Hne].
  - unfold sendOne in E. apply bind_inv in E as (s0 & e0 & ix & e1 & [= <- <- <-] & E & ->).
    rewrite Hnil in E. cbn [length] in E. rewrite decide_True in E by done.
    assert (Hq : globalSeq s' = globalSeq s /\ frames e1 = []).
    { unfold holdPending in E. apply bind_inv in E as (s2 & e2 & pn & e3 & [= <- <- <-] & E & ->).
      case_decide; injection E as <- <-; done. }
    destruct Hq as [Hg Hf]. split_and!; [|unfold only_own; cbn [app]; rewrite Hf; constructor|done].
    exists 0%nat. split; [lia|]. split; [rewrite Hg, Z.add_0_r; symmetry; apply u32_id, Hi|].
    unfold bulk_seqs. rewrite frames_data. cbn [app]. rewrite Hf. constructor.
  - destruct (sendOne_refines ct s s' es Hi Hses Hne E) as (class & s0 & e0 & _ & Hc & Hsent).
    destruct (choose class (paths s)) as [|i dup] eqn:Hch; cbn [sent_as] in Hsent.
    + apply (bulk_numbered bufs) in Hsent as (HN & Ho & Hp); [|apply Hi|done]. by split_and!.
    + apply choose_direct in Hch. apply (direct_numbered bufs) in Hsent as (HN & Ho & Hp); [|apply Hi|done|done].
      split_and!; [|done|done]. exists 0%nat. split; [lia|done].
Qed.

Lemma own_frame_view s1 s bufs bufs' x :
  view s1 = view s -> bufs ⊆ bufs' -> own_frame s1 bufs x -> own_frame s bufs' x.
Proof. intros Hv Hb (Ha & Hs & Hp). split_and!; [by apply Hb|done|by rewrite <- Hv]. Qed.

Lemma only_own_view s1 s bufs bufs' es :
  view s1 = view s -> bufs ⊆ bufs' -> only_own s1 bufs es -> only_own s bufs' es.
Proof.
  intros Hv Hb Ho. eapply Forall_impl; [|exact Ho]. intros ib [Hp|(x & Hx & Hi & Hown)]; [by left|right].
  exists x. split_and!; [done|done|by eapply own_frame_view].
Qed.

(** C36: Everything [clientSend] puts on the wire belongs to it: each datagram
    is FEC of this session, or DATA of this session with the id of the path
    it is written to, whose payload is one of the given ciphertexts. The bulk
    datagrams carry increasing numbers of the 32-bit sequence, no number is
    used twice, and the counter advances by the numbers used, at most one per
    ciphertext. *)
Theorem client_numbering bufs s s' es :
  inv s -> is_u32 (cfgSession cfg) -> clientSend cfg bufs s = Ret (s', es, tt) ->
  only_own s bufs es /\ exists N, (N <= length bufs)%nat /\ numbered s N es s'.
Proof.
  intros Hi Hses. unfold clientSend. revert s s' es Hi.
  induction bufs as [|ct bufs IH]; intros s s' es Hi; cbn [forEach].
  { intros [= <- <-]. split; [constructor|]. exists 0%nat. split; [lia|]. split; [|constructor].
    rewrite Z.add_0_r. symmetry. apply u32_id, Hi. }
  intros (s1 & e1 & [] & e2 & E1 & E2 & ->)%bind_inv.
  destruct (wp_inv _ _ _ _ _ _ E1 (same_sendOne cfg s ct Hi)) as (Hi1 & _ & Hv1 & _).
  destruct (sendOne_numbered (ct :: bufs) _ _ _ _ Hi Hses (list_elem_of_here _ _) E1) as ((N1 & HN1 & Hn1) & Ho1 & _).
  destruct (IH _ _ _ Hi1 E2) as (Ho2 & N2 & HN2 & Hn2). split.
  - unfold only_own. rewrite frames_app. apply Forall_app_2; [done|].
    eapply only_own_view; [exact Hv1| |exact Ho2]. intros x Hx. by right.
  - exists (N1 + N2)%nat. split; [cbn; lia|]. by eapply numbered_trans.
Qed.

(** ** Before the first registration *)

Lemma sendable_nil ps : sendable ps = [] <-> Forall (fun p => registered p = false) ps.
Proof.
  assert (Hind : forall f, indices f ps = [] <-> Forall (fun p => f p = false) ps).
  { intros f. rewrite Forall_lookup. split.
    - intros Hn i p Hp. destruct (f p) eqn:E; [|done].
      assert (i ∈ indices f ps) as Hi by (apply indices_spec; eauto). rewrite Hn in Hi. by apply elem_of_nil in Hi.
    - intros Hf. destruct (indices f ps) as [|i l] eqn:E; [done|].
      assert (i ∈ indices f ps) as Hi by (rewrite E; by left). apply indices_spec in Hi as (p & Hp & Ht).
      specialize (Hf i p Hp). congruence. }
  unfold sendable. set (up := indices _ ps). case_decide as Hl.
  - split; [intros ->; cbn in Hl; lia|]. intros Hf. exfalso. assert (up = []) as E; [|rewrite E in Hl; cbn in Hl; lia].
    apply Hind. eapply Forall_impl; [|exact Hf]. intros p Hp. by rewrite Hp.
  - apply Hind.
Qed.

Lemma sendable_view s1 s : view s1 = view s -> sendable (paths s) <> [] -> sendable (paths s1) <> [].
Proof.
  rewrite !sendable_nil. intros Hv Hne Hall. apply Hne.
  assert (Hf : Forall (fun x => x.2 = false) (view s1).1) by by apply Forall_fmap.
  rewrite Hv in Hf. by apply Forall_fmap in Hf.
Qed.

Lemma sendOne_hold ct s : sendable (paths s) = [] ->
  sendOne cfg ct s =
    if decide (pendingCap <= length (pending s))%nat
    then count set_TxDropNoPath TxDropNoPath 1 s
    else Ret (set_pending (pending s ++ [ct]) s, [], tt).
Proof.
  intros Hn. unfold sendOne, sendablePaths, mbind, eng_bind, gets. rewrite Hn.
  cbn [length]. rewrite decide_True by done. unfold holdPending, mbind, eng_bind, gets.
  by case_decide.
Qed.

Lemma clientSend_hold bufs : forall s,
  sendable (paths s) = [] -> (length (pending s) <= pendingCap)%nat ->
  0 <= TxDropNoPath (Stats s) < two64 ->
  exists s', clientSend cfg bufs s = Ret (s', [], tt) /\ view s' = view s /\
    pending s' = take pendingCap (pending s ++ bufs) /\
    TxDropNoPath (Stats s') =
      u64 (TxDropNoPath (Stats s) + Z.of_nat (length (pending s) + length bufs - pendingCap)).
Proof.
  induction bufs as [|ct bufs IH]; intros s Hn Hl Hu; cbn [clientSend forEach].
  - exists s. rewrite app_nil_r, take_ge by lia. split_and!; [done|done|done|].
    cbn [length]. replace (length (pending s) + 0 - pendingCap)%nat with 0%nat by lia.
    rewrite Z.add_0_r. symmetry. by apply u64_id.
  - unfold clientSend in *. cbn [forEach]. unfold mbind at 1, eng_bind at 1. rewrite sendOne_hold by done.
    case_decide as Hfull.
    + destruct (IH (set_Stats (set_TxDropNoPath (u64 (TxDropNoPath (Stats s) + 1)) (Stats s)) s))
        as (s' & E & Hv & Hp & Hd); [done|done|apply u64_range|].
      exists s'. unfold count, modify. rewrite E. cbn -[pendingCap] in Hp, Hd. split_and!; [done|done| |].
      * rewrite Hp. rewrite !take_app_le by lia. done.
      * rewrite Hd. cbn [length]. clear -Hfull Hu.
        replace (length (pending s) + S (length bufs) - pendingCap)%nat
          with (S (length (pending s) + length bufs - pendingCap)) by lia. mlia.
    + destruct (IH (set_pending (pending s ++ [ct]) s)) as (s' & E & Hv & Hp & Hd);
        [done|cbn; rewrite length_app; cbn; lia|done|].
      exists s'. rewrite E. cbn -[pendingCap] in Hp, Hd. split_and!; [done|done| |].
      * by rewrite Hp, <- app_assoc.
      * rewrite Hd, length_app. cbn [length]. do 2 f_equal. lia.
Qed.

Lemma clientSend_pending bufs : forall s s' es,
  inv s -> is_u32 (cfgSession cfg) -> sendable (paths s) <> [] ->
  clientSend cfg bufs s = Ret (s', es, tt) -> pending s' = pending s.
Proof.
  unfold clientSend. induction bufs as [|ct bufs IH]; intros s s' es Hi Hses Hne; cbn [forEach].
  { by intros [= <- <-]. }
  intros (s1 & e1 & [] & e2 & E1 & E2 & ->)%bind_inv.
  destruct (wp_inv _ _ _ _ _ _ E1 (same_sendOne cfg s ct Hi)) as (Hi1 & _ & Hv1 & _).
  destruct (sendOne_numbered [ct] _ _ _ _ Hi Hses (list_elem_of_here _ _) E1) as (_ & _ & Hp1).
  rewrite (IH _ _ _ Hi1 Hses (sendable_view _ _ Hv1 Hne) E2). by apply Hp1.
Qed.

(** C37: Ciphertext sent before any path is registered waits: it is staged in
    order, at most 64 datagrams, the rest is dropped and counted, and nothing
    is written. Flushing after a registration hands exactly the staged
    datagrams, in order, to the normal send path and leaves none staged. *)
Theorem pending_staged bufs s :
  inv s -> is_u32 (cfgSession cfg) -> (length (pending s) <= pendingCap)%nat ->
  0 <= TxDropNoPath (Stats s) < two64 ->
  (sendable (paths s) = [] ->
   exists s', clientSend cfg bufs s = Ret (s', [], tt) /\ view s' = view s /\
     pending s' = take pendingCap (pending s ++ bufs) /\
     TxDropNoPath (Stats s') =
       u64 (TxDropNoPath (Stats s) + Z.of_nat (length (pending s) + length bufs - pendingCap))) /\
  (sendable (paths s) <> [] ->
   exists s' es, flushPending cfg s = Ret (s', es, tt) /\
     clientSend cfg (pending s) (set_pending [] s) = Ret (s', es, tt) /\ pending s' = []).
Proof.
  intros Hi Hses Hl Hu. split; [intros; by apply clientSend_hold|]. intros Hne.
  assert (Hi0 : inv (set_pending [] s)) by (destruct Hi; by constructor).
  pose proof (same_clientSend cfg (set_pending [] s) (pending s) Hi0) as Hw. unfold wp in Hw.
  destruct (clientSend cfg (pending s) (set_pending [] s)) as [[[s' es] []]| |] eqn:E; [|done..].
  exists s', es. split_and!; [|done|by apply (clientSend_pending _ _ _ _ Hi0 Hses Hne E)].
  unfold flushPending, mbind, eng_bind, gets, modify. case_decide as Hz; [|by rewrite E].
  destruct (pending s); [|done]. cbn in *. by injection E as <- <-.
Qed.

End Send.
