(* ===== verification/ServerSafe.v ===== *)
(** * The server datapath is safe, and what its registry does

    No server operation panics, each keeps the engine's invariant and
    accounts for every packet slab; the registry of sessions changes as the
    abstract function [reg_after] says. *)

From S2P Require Import Prelude Wire Control Float64 Sched Link PathSelect Fec Reorder.
From S2P Require Import ReorderInv ReorderTrace ReorderSpec Wgbridge Engine EngineLogic Server.
#[local] Open Scope Z_scope.

(** The registry: each session's client id and the addresses of its paths. *)
Abbreviation registry := (gmap Z (Z * gmap Z AddrPort)).
Definition reg (s : Engine) : registry := (view s).2.

Lemma reg_view s1 s : view s1 = view s -> reg s1 = reg s.
Proof. unfold reg. congruence. Qed.

Lemma reg_lookup s id : reg s !! id = sess_view <$> sessions s !! id.
Proof. unfold reg, view. cbn. apply lookup_fmap. Qed.

(** A session that is there. *)
Lemma sessAt_inv id s s' es x :
  sessAt id s = Ret (s', es, x) -> s' = s /\ es = [] /\ sessions s !! id = Some x.
Proof.
  unfold sessAt. intros (s1 & e1 & o & e2 & [= <- <- <-] & E & ->)%bind_inv.
  destruct (sessions s !! id); [|done]. by injection E as <- <- <-.
Qed.

(** ** The slabs of the sessions *)

Lemma sess_vals_lookup m id x :
  m !! id = Some x -> sess_vals m ≡ₚ vals (sReorder x) ++ sess_vals (delete id m).
Proof.
  intros Hx. unfold sess_vals. rewrite <- (insert_delete_id m id x Hx) at 1.
  rewrite map_to_list_insert by apply lookup_delete_eq. done.
Qed.

Lemma sess_vals_insert m id x :
  sess_vals (<[id := x]> m) ≡ₚ vals (sReorder x) ++ sess_vals (delete id m).
Proof. rewrite (sess_vals_lookup _ id x) by apply lookup_insert_eq. by rewrite delete_insert_eq. Qed.

Lemma alter_insert_eq {A} (f : A -> A) (m : gmap Z A) id x :
  m !! id = Some x -> alter f id m = <[id := f x]> m.
Proof.
  intros Hx. apply map_eq. intros j. destruct (decide (id = j)) as [<-|Hne].
  - by rewrite lookup_alter_eq, lookup_insert_eq, Hx.
  - by rewrite lookup_alter_ne, lookup_insert_ne.
Qed.

Lemma alter_none {A} (f : A -> A) (m : gmap Z A) id : m !! id = None -> alter f id m = m.
Proof.
  intros Hx. apply map_eq. intros j. destruct (decide (id = j)) as [<-|Hne].
  - by rewrite lookup_alter_eq, Hx.
  - by rewrite lookup_alter_ne.
Qed.

Section Safe.
Context `{Rounding} `{Blake2s} `{ReedSolomon} `{MapOrder} `{World} `{!WorldLaws _}.
Context (cfg : Config).

(** ** Sessions *)

Lemma inv_updSess s id f :
  inv s -> (forall x, sess_ok id x -> sess_ok id (f x)) -> inv (set_sessions (alter f id (sessions s)) s).
Proof.
  intros [] Hok. constructor; cbn; try done. intros j x Hj. destruct (decide (id = j)) as [<-|Hne].
  - rewrite lookup_alter_eq in Hj. destruct (sessions s !! id) as [y|] eqn:E; [|done].
    injection Hj as <-. by apply Hok, inv_sess.
  - rewrite lookup_alter_ne in Hj by done. by apply inv_sess.
Qed.

Lemma held_updSess s id f own own' es :
  (forall x, sessions s !! id = Some x ->
     (vals (sReorder x) ≫= pkt_slabs) ++ own ++ gots es ≡ₚ puts es ++ (vals (sReorder (f x)) ≫= pkt_slabs) ++ own') ->
  is_Some (sessions s !! id) ->
  flow s own es (set_sessions (alter f id (sessions s)) s) own'.
Proof.
  intros Hp [x Hx]. specialize (Hp x Hx). unfold flow, held. cbn [reorderBuf sessions bind set_sessions].
  rewrite (alter_insert_eq f _ _ _ Hx), sess_vals_insert, (sess_vals_lookup _ _ _ Hx), !bind_app.
  set (a := vals (reorderBuf s) ≫= pkt_slabs). set (c := queued (bind s) ≫= _).
  set (b := sess_vals (delete id (sessions s)) ≫= pkt_slabs).
  set (v := vals (sReorder x) ≫= pkt_slabs) in *. set (v' := vals (sReorder (f x)) ≫= pkt_slabs) in *.
  clearbody a b c v v'. clear -Hp. permlia.
Qed.

Lemma view_updSess s id f :
  (forall x, sess_view (f x) = sess_view x) ->
  view (set_sessions (alter f id (sessions s)) s) = view s.
Proof.
  intros Hv. unfold view. cbn. f_equal. apply map_eq. intros j. rewrite !lookup_fmap.
  destruct (decide (id = j)) as [<-|Hne]; [|by rewrite lookup_alter_ne].
  rewrite lookup_alter_eq. destruct (sessions s !! id); [|done]. cbn. by rewrite Hv.
Qed.

Definition has (s : Engine) (id : Z) : Prop := is_Some (reg s !! id).

Lemma has_view s1 s id : view s1 = view s -> has s id -> has s1 id.
Proof. intros Hv. unfold has. by rewrite (reg_view s1 s). Qed.

Lemma has_sess s id : has s id -> is_Some (sessions s !! id).
Proof. unfold has. by rewrite reg_lookup, fmap_is_Some. Qed.

Lemma lookup_inv id s s' es o :
  lookupSession id s = Ret (s', es, o) -> s' = s /\ es = [] /\ o = sessions s !! id.
Proof. by intros [= <- <- <-]. Qed.

Lemma same_sessAt s id : has s id ->
  same s (sessAt id) (fun x => sess_ok id x /\ reg s !! id = Some (sess_view x)).
Proof.
  intros [v Hv]. apply trip_assume. intros Hi. unfold sessAt. apply same_gets_bind.
  rewrite reg_lookup in Hv |- *. destruct (sessions s !! id) as [x|] eqn:Hx; [|done].
  apply same_ret. split; [|done]. by apply (inv_sess _ Hi).
Qed.

(** [on s id pid]: session [id] has a path [pid]. *)
Definition on (s : Engine) (id pid : Z) : Prop :=
  exists c ads, reg s !! id = Some (c, ads) /\ is_Some (ads !! pid).

Lemma on_has s id pid : on s id pid -> has s id.
Proof. intros (c & ads & Hr & _). by eexists. Qed.

Lemma on_view s1 s id pid : view s1 = view s -> on s id pid -> on s1 id pid.
Proof. intros Hv. unfold on. by rewrite (reg_view s1 s). Qed.

Lemma same_psAt s id pid : on s id pid ->
  same s (psAt id pid) (fun p => psId p = pid /\ is_u8 pid /\
    exists c ads, reg s !! id = Some (c, ads) /\ ads !! pid = Some (psAddr p)).
Proof.
  intros Hon. pose proof (on_has _ _ _ Hon) as Hh. destruct Hon as (c & ads & Hr & a & Ha).
  unfold psAt. sbind ltac:(by apply same_sessAt). intros s1 x Hv1 [Hx Hrx].
  rewrite Hr in Hrx. unfold sess_view in Hrx. injection Hrx as -> ->.
  rewrite lookup_fmap in Ha. destruct (sPaths x !! pid) as [p|] eqn:Hp; [|done]. injection Ha as <-.
  apply same_ret. destruct (so_paths _ _ Hx pid p Hp). split_and!; [done|done|].
  exists (sClientID x), (psAddr <$> sPaths x). by rewrite lookup_fmap, Hp.
Qed.

(** A session or a path of an earlier state with the same view. *)
Ltac known :=
  match goal with
  | |- has ?s ?id =>
      first [ assumption
            | match goal with H : has ?s0 id |- _ => apply (has_view s s0); [congruence|exact H] end
            | match goal with H : on ?s0 id _ |- _ => apply (has_view s s0); [congruence|exact (on_has _ _ _ H)] end ]
  | |- on ?s ?id ?pid =>
      first [ assumption
            | match goal with H : on ?s0 id pid |- _ => apply (on_view s s0); [congruence|exact H] end ]
  end.

Lemma same_updSess s id f :
  has s id ->
  (forall x, sess_ok id x -> sess_ok id (f x)) -> (forall x, sess_view (f x) = sess_view x) ->
  (forall x, vals (sReorder (f x)) = vals (sReorder x)) ->
  same s (updSess id f) (fun _ => True).
Proof.
  intros Hh Hok Hv Hr. unfold updSess. sbind ltac:(by apply same_sessAt). intros s1 x Hv1 [_ Hx] Hi.
  apply (has_view s1) in Hh; [|done]. apply has_sess in Hh. clear s x Hv1 Hx. rename s1 into s.
  split; [by apply inv_updSess|]. split; [|split; [by apply view_updSess|done]].
  apply held_updSess; [|done]. intros y _. cbn. by rewrite Hr, !app_nil_r.
Qed.

Lemma sess_ok_frame id x x' :
  sess_ok id x -> sID x' = sID x -> sReorder x' = sReorder x -> sRtSeq x' = sRtSeq x ->
  sGlobalSeq x' = sGlobalSeq x -> sPaths x' = sPaths x -> sEnc x' = sEnc x -> sess_ok id x'.
Proof. intros [] Hi Ha Hb Hc Hd He. constructor; rewrite ?Hi, ?Ha, ?Hb, ?Hc, ?Hd, ?He; done. Qed.

(** An update of fields that neither invariant nor view mention. *)
Lemma same_updSess_frame s id f :
  has s id ->
  (forall x, sID (f x) = sID x /\ sReorder (f x) = sReorder x /\ sRtSeq (f x) = sRtSeq x /\
     sGlobalSeq (f x) = sGlobalSeq x /\ sPaths (f x) = sPaths x /\ sEnc (f x) = sEnc x /\
     sClientID (f x) = sClientID x) ->
  same s (updSess id f) (fun _ => True).
Proof.
  intros Hh Hf. apply same_updSess; [done|..].
  - intros x Hx. destruct (Hf x) as (? & ? & ? & ? & ? & ? & ?). by eapply sess_ok_frame.
  - intros x. destruct (Hf x) as (_ & _ & _ & _ & Hp & _ & Hc). unfold sess_view. by rewrite Hp, Hc.
  - intros x. by destruct (Hf x) as (_ & -> & _).
Qed.

Lemma alter_paths_ok f pid (ps : gmap Z pathState) :
  (forall p, psId (f p) = psId p) ->
  map_Forall (fun pid p => psId p = pid /\ is_u8 pid) ps ->
  map_Forall (fun pid p => psId p = pid /\ is_u8 pid) (alter f pid ps).
Proof.
  intros Hf Hps j p Hj. destruct (decide (pid = j)) as [<-|Hne].
  - rewrite lookup_alter_eq in Hj. destruct (ps !! pid) as [q|] eqn:E; [|done].
    injection Hj as <-. rewrite Hf. by apply Hps.
  - rewrite lookup_alter_ne in Hj by done. by apply Hps.
Qed.

Lemma same_updPs s id pid f :
  on s id pid ->
  (forall p, psId (f p) = psId p /\ psAddr (f p) = psAddr p) -> same s (updPs id pid f) (fun _ => True).
Proof.
  intros Hon Hf. unfold updPs. sbind ltac:(by apply same_psAt). intros s1 q Hv1 _. apply same_updSess; [known| | |done].
  - intros x []. constructor; cbn; try done. apply alter_paths_ok; [|done]. intros p. apply Hf.
  - intros x. unfold sess_view. cbn. f_equal. apply map_eq. intros j. rewrite !lookup_fmap.
    destruct (decide (pid = j)) as [<-|Hne]; [|by rewrite lookup_alter_ne].
    rewrite lookup_alter_eq. destruct (sPaths x !! pid) as [p|]; [|done]. cbn. by destruct (Hf p) as [_ ->].
Qed.

Lemma same_alivePaths s id t : has s id ->
  same s (alivePaths id t) (fun pids => NoDup pids /\ forall pid, pid ∈ pids -> on s id pid).
Proof.
  intros Hh. unfold alivePaths. sbind ltac:(by apply same_sessAt). intros s1 x Hv1 [Hx Hr].
  sbind ltac:(apply same_ask). intros s2 ks Hv2 [k ->]. apply same_ret.
  assert (Hnd : NoDup (shuffle k (map_to_list (sPaths x)).*1))
    by (rewrite shuffle_perm; apply NoDup_fst_map_to_list).
  split; [by apply list.NoDup_filter|]. intros pid [_ Hin]%list_elem_of_filter.
  rewrite shuffle_perm in Hin. apply list_elem_of_fmap in Hin as ([j p] & -> & Hj).
  apply elem_of_map_to_list in Hj. exists (sClientID x), (psAddr <$> sPaths x). split; [done|].
  cbn. by rewrite lookup_fmap, Hj.
Qed.

Lemma same_writeTo s a b : same s (writeTo a b) (fun _ => True).
Proof.
  unfold writeTo. sbind ltac:(apply same_ask). intros s1 ok _ _. sbind ltac:(by apply same_tell).
  intros. by apply same_ret.
Qed.

(** ** Return traffic *)

Lemma same_psAll s id pids : (forall pid, pid ∈ pids -> on s id pid) ->
  same s (mapEach (psAt id) pids) (Forall2 (fun pid p => psId p = pid) pids).
Proof.
  intros Hon. apply same_mapEach. intros s1 pid Hin Hv. eapply same_weaken; [|apply same_psAt].
  - by intros p (? & _).
  - eapply on_view; [done|by apply Hon].
Qed.

Lemma same_stripeTo s id pids :
  pids <> [] -> (forall pid, pid ∈ pids -> on s id pid) -> same s (stripeTo id pids) (fun pid => pid ∈ pids).
Proof.
  intros Hne Hon. unfold stripeTo. case_decide as Hone.
  { destruct pids as [|i l]; [done|]. eapply same_weaken; [|by apply (same_at s _ 0)]. intros ? ->. by left. }
  assert (Htwo : (2 <= length pids)%nat) by (destruct pids as [|? [|? ?]]; cbn in *; (done || lia)).
  assert (Hh : has s id) by (destruct pids as [|i l]; [done|]; eapply on_has, Hon; by left).
  sbind ltac:(by apply same_psAll). intros s1 ps Hv1 Hps%Forall2_length.
  sbind ltac:(apply same_sessAt; by eapply has_view). intros s2 x Hv2 _.
  destruct (Pick_ret (psId <$> ps) ((fun p => Weight (psLink p)) <$> ps) (sSched x))
    as (k & w' & b & E & Hb & _); [by rewrite length_fmap, <- Hps|by rewrite !length_fmap|].
  eapply trip_must_bind; [exact E|]. cbn [fst snd].
  sbind ltac:(by apply same_updSess_frame; [known|]). intros s3 [] _ _.
  apply lookup_lt_Some in Hb. rewrite length_fmap, <- Hps in Hb.
  destruct (lookup_lt_is_Some_2 pids b Hb) as [i Hi]. eapply same_weaken; [|by apply same_at].
  intros ? ->. by eapply list_elem_of_lookup_2.
Qed.

Lemma same_serverSendData s id pid class dup sq tag ct :
  on s id pid -> same s (serverSendData id pid class dup sq tag ct) (fun _ => True).
Proof.
  intros Hon. unfold serverSendData. tbind ltac:(apply trip_Get). intros s1 sl (Hv1 & Hl & _).
  sbind ltac:(apply same_psAt; by eapply on_view). intros s2 p Hv2 _.
  sbind ltac:(apply same_sessAt; eapply on_has, on_view; [|exact Hon]; congruence). intros s3 x Hv3 _.
  sbind ltac:(by apply same_updSess_frame; [known|]). intros s4 [] Hv4 _.
  sbind ltac:(apply same_txTS). intros s5 ts Hv5 _. set (d := mkDataHeader _ _ _ _ _ _ _).
  destruct (data_frame (sl_mem sl) d ct Hl) as (mem & E & Hm & _).
  eapply trip_must_bind; [exact E|]. cbv iota. ubind.
  { case_decide; [by apply same_ret|]. sbind ltac:(apply same_writeTo). intros s6 ok _ _.
    apply same_when. intros _. apply same_countTx. }
  intros s6 [] Hv6 _. apply trip_Put_view. congruence.
Qed.

Lemma same_serverEmitParity s id e : has s id -> same s (serverEmitParity id e) (fun _ => True).
Proof.
  intros Hh. unfold serverEmitParity. destruct e as [grp index k m shard|]; [|by apply same_ret].
  sbind ltac:(apply same_now). intros s1 t Hv1 _.
  sbind ltac:(apply same_alivePaths; by eapply has_view). intros s2 alive Hv2 [_ Hal].
  case_decide as Hne; [by apply same_ret|].
  sbind ltac:(apply same_stripeTo).
  { intros E. by rewrite E in Hne. }
  { intros pid Hp. eapply on_view; [exact Hv2|by apply Hal]. }
  intros s3 pid Hv3 Hpid. apply Hal in Hpid as Hon.
  tbind ltac:(apply trip_Get). intros s4 sl (Hv4 & Hl & _).
  sbind ltac:(apply same_psAt; eapply on_view; [|exact Hon]; congruence). intros s5 p Hv5 _.
  sbind ltac:(apply same_sessAt; eapply on_has, on_view; [|exact Hon]; congruence). intros s6 x Hv6 _.
  set (f := mkFECHeader _ _ _ _ _ _ _).
  destruct (fec_frame (sl_mem sl) f shard Hl) as (mem & E & Hm & _).
  eapply trip_must_bind; [exact E|]. cbv iota. ubind.
  { case_decide; [by apply same_ret|]. sbind ltac:(apply same_writeTo). intros s7 ok _ _.
    apply same_when. intros _. apply same_countTx. }
  intros s7 [] Hv7 _. apply trip_Put_view. congruence.
Qed.

Lemma same_sNextRt s id : has s id -> same s (sNextRt id) is_u32.
Proof.
  intros Hh. unfold sNextRt. sbind ltac:(apply same_updSess; [known| |done|done]).
  { intros x []. constructor; cbn; try done. split; [apply u32_range|apply so_seqs]. }
  intros s1 [] Hv1 _. sbind ltac:(apply same_sessAt; by eapply has_view). intros s2 x _ [Hx _].
  apply same_ret, Hx.
Qed.

Lemma same_sNextGlobal s id : has s id -> same s (sNextGlobal id) is_u32.
Proof.
  intros Hh. unfold sNextGlobal. sbind ltac:(apply same_updSess; [known| |done|done]).
  { intros x []. constructor; cbn; try done. split; [apply so_seqs|apply u32_range]. }
  intros s1 [] Hv1 _. sbind ltac:(apply same_sessAt; by eapply has_view). intros s2 x _ [Hx _].
  apply same_ret, Hx.
Qed.

Lemma same_setSEnc s id e : has s id -> is_u24 (groupID e) -> same s (updSess id (set_sEnc (Some e))) (fun _ => True).
Proof.
  intros Hh He. apply same_updSess; [known| |done|done]. intros x []. constructor; cbn; try done.
  by intros ? [= <-].
Qed.

Lemma same_sFecAdd s id sq ct : has s id -> same s (sFecAdd id sq ct) (fun _ => True).
Proof.
  intros Hh. unfold sFecAdd. sbind ltac:(by apply same_sessAt). intros s1 x Hv1 [Hx _].
  destruct (sEnc x) as [enc|] eqn:He; [|by apply same_ret].
  pose proof (so_enc _ _ Hx enc He) as Hu. sbind ltac:(apply same_now). intros s2 t Hv2 _.
  destruct (Fec.Add sq ct t enc) as [[enc' es] stamp] eqn:E.
  destruct (Add_group _ _ _ _ _ _ _ E Hu) as [Hu' _].
  sbind ltac:(by apply same_setSEnc; [known|]). intros s3 [] Hv3 _.
  sbind ltac:(apply same_forEach; intros s4 e _ Hv4; apply same_serverEmitParity;
    eapply has_view; [|exact Hh]; congruence).
  intros. by apply same_ret.
Qed.

Lemma same_sAqm s p : same s (sAqm p) (fun _ => True).
Proof.
  unfold sAqm. destruct (Qltb 0 p); [|by apply same_ret]. sbind ltac:(apply same_ask). intros.
  by apply same_ret.
Qed.

Lemma same_serverBulk s id pids ct :
  pids <> [] -> (forall pid, pid ∈ pids -> on s id pid) -> same s (serverBulk id pids ct) (fun _ => True).
Proof.
  intros Hne Hon. unfold serverBulk. sbind ltac:(by apply same_stripeTo). intros s1 pid Hv1 Hp%Hon.
  sbind ltac:(apply same_psAt; by eapply on_view). intros s2 p Hv2 _.
  sbind ltac:(apply same_sAqm). intros s3 drop Hv3 _. destruct drop; [apply same_count|].
  assert (Hon3 : on s3 id pid) by (eapply on_view; [|exact Hp]; congruence).
  sbind ltac:(apply same_sNextGlobal; by eapply on_has). intros s4 sq Hv4 _.
  sbind ltac:(apply same_sFecAdd; eapply on_has, on_view; [exact Hv4|done]). intros s5 tag Hv5 _.
  apply same_serverSendData. eapply on_view; [|exact Hon3]. congruence.
Qed.

Lemma same_serverSendOne s id ct : has s id -> same s (serverSendOne id ct) (fun _ => True).
Proof.
  intros Hh. unfold serverSendOne. sbind ltac:(apply same_now). intros s1 t Hv1 _.
  sbind ltac:(apply same_alivePaths; by eapply has_view). intros s2 alive Hv2 [_ Hal].
  assert (Hal2 : forall pid, pid ∈ alive -> on s2 id pid)
    by (intros pid Hp; eapply on_view; [exact Hv2|by apply Hal]).
  sbind ltac:(by apply same_psAll). intros s3 ps Hv3 Hps.
  set (usable := usablePaths alive ps).
  assert (Husable : forall pid, pid ∈ usable -> on s3 id pid).
  { intros pid Hp. eapply on_view; [exact Hv3|]. apply Hal2. unfold usable, usablePaths in Hp.
    case_decide; [done|]. apply list_elem_of_fmap in Hp as ([q p] & -> & Hq).
    apply list_elem_of_filter in Hq as [_ Hq]. by apply elem_of_zip_l in Hq. }
  clearbody usable. case_decide as Hne; [apply same_count|].
  assert (Hnil : usable <> []) by (intros E; by rewrite E in Hne).
  sbind ltac:(apply same_classifyCt). intros s4 class Hv4 _.
  assert (Hu4 : forall pid, pid ∈ usable -> on s4 id pid) by (intros pid Hp; eapply on_view, Husable; done).
  destruct (_ && _).
  { destruct usable as [|i l]; [done|]. sbind ltac:(by apply (same_at s4 _ 0)). intros s5 ? Hv5 ->.
    assert (Hon : on s4 id i) by (apply Hu4; by left).
    sbind ltac:(apply same_sNextRt; eapply on_has, on_view; [exact Hv5|done]). intros s6 sq Hv6 _.
    apply same_serverSendData. eapply on_view; [|exact Hon]. congruence. }
  destruct (_ || _); [|by apply same_serverBulk].
  sbind ltac:(by apply same_psAll). intros s5 us Hv5 Hus%Forall2_length.
  destruct (BestPair _) as [first second] eqn:Hbp. apply BestPair_index in Hbp as [Hf Hs].
  rewrite length_fmap, <- Hus in Hf, Hs.
  assert (Hu5 : forall pid, pid ∈ usable -> on s5 id pid) by (intros pid Hp; eapply on_view, Hu4; done).
  destruct (Z.ltb_spec first 0); [by apply same_serverBulk|].
  destruct Hf as [?|(j & -> & Hj)]; [lia|]. destruct (lookup_lt_is_Some_2 usable j Hj) as [i Hi].
  assert (Hon : on s5 id i) by (by eapply Hu5, list_elem_of_lookup_2).
  sbind ltac:(apply same_sNextRt; by eapply on_has). intros s6 sq Hv6 _.
  sbind ltac:(by apply same_at). intros s7 ? Hv7 ->.
  sbind ltac:(apply same_serverSendData; eapply on_view; [|exact Hon]; congruence). intros s8 [] Hv8 _.
  apply same_when. intros [_ Hs0]%andb_prop. apply Z.leb_le in Hs0.
  destruct Hs as [?|(k & -> & Hk)]; [lia|]. destruct (lookup_lt_is_Some_2 usable k Hk) as [i' Hi'].
  sbind ltac:(by apply same_at). intros s9 ? Hv9 ->. apply same_serverSendData.
  eapply on_view; [|eapply Hu5, list_elem_of_lookup_2, Hi']. congruence.
Qed.

Lemma same_serverSend s bufs ep : same s (serverSend bufs ep) (fun _ => True).
Proof.
  unfold serverSend, lookupSession. apply same_gets_bind.
  destruct (sessions s !! ep) as [x|] eqn:Hx; [|apply same_count].
  assert (Hh : has s ep) by (unfold has; by rewrite reg_lookup, Hx).
  apply same_forEach. intros s1 ct _ Hv. apply same_serverSendOne. by eapply has_view.
Qed.

(** ** Receiving *)

Lemma trip_sessAt_bind {A} s own id x (f : Session -> eng A) own' Φ :
  sessions s !! id = Some x -> trip s own (f x) own' Φ -> trip s own (sessAt id ≫= f) own' Φ.
Proof.
  intros Hx Hf Hi. apply wp_bind. unfold sessAt, lookupSession. apply wp_bind. unfold wp at 1, gets.
  rewrite Hx. unfold wp at 1. cbn. exact (Hf Hi).
Qed.

Lemma has_lookup s id : has s id -> exists x, sessions s !! id = Some x.
Proof. intros [v Hv]. rewrite reg_lookup in Hv. destruct (sessions s !! id); [by eexists|done]. Qed.

(** An update that returns has changed that session and nothing else. *)
Lemma updSess_inv id f s s' es a :
  updSess id f s = Ret (s', es, a) ->
  s' = set_sessions (alter f id (sessions s)) s /\ es = [] /\ is_Some (sessions s !! id).
Proof.
  unfold updSess. intros (s1 & e1 & x & e2 & (-> & -> & Hx)%sessAt_inv & [= <- <-] & ->)%bind_inv.
  split_and!; [done|done|by eexists].
Qed.

Lemma rel_updSess (R : Engine -> list ev -> Engine -> Prop) id f :
  (forall s, R s [] (set_sessions (alter f id (sessions s)) s)) -> rel R (updSess id f).
Proof. intros HR s s' es a (-> & -> & _)%updSess_inv. apply HR. Qed.

Lemma psAt_inv id pid s s' es p :
  psAt id pid s = Ret (s', es, p) ->
  s' = s /\ es = [] /\ exists x, sessions s !! id = Some x /\ sPaths x !! pid = Some p.
Proof.
  unfold psAt. intros (s1 & e1 & x & e2 & (-> & -> & Hx)%sessAt_inv & E & ->)%bind_inv.
  destruct (sPaths x !! pid) as [q|] eqn:Hp; [|done]. injection E as <- <- <-. eauto.
Qed.

Lemma rel_updPs (R : Engine -> list ev -> Engine -> Prop) id pid f :
  rel R (updSess id (fun s => set_sPaths (alter f pid (sPaths s)) s)) -> rel R (updPs id pid f).
Proof. intros HR s s' es a (s1 & e1 & p & e2 & (-> & -> & _)%psAt_inv & E & ->)%bind_inv. by eapply HR. Qed.

(** An update of a session that is there. *)
Lemma trip_updSess s own id f own' (Φ : Engine -> unit -> Prop) :
  has s id -> trip s own (modify (fun s => set_sessions (alter f id (sessions s)) s)) own' Φ ->
  trip s own (updSess id f) own' Φ.
Proof. intros (x & Hx)%has_lookup Hm. unfold updSess. by apply (trip_sessAt_bind _ _ _ x). Qed.

Lemma trip_serverReorder s id o :
  has s id -> op_ok o -> Forall pkt_wf (op_ins o) ->
  trip s (op_ins o ≫= pkt_slabs) (serverReorder id (exec o)) (fun _ => []) (fun s' _ => view s' = view s).
Proof.
  intros Hh Ho Hins. destruct (has_lookup _ _ Hh) as (x & Hx). apply trip_assume. intros Hi. unfold serverReorder.
  apply (trip_sessAt_bind _ _ _ x); [done|]. pose proof (inv_sess _ Hi id x Hx) as Hok.
  destruct (exec o (sReorder x)) as [b es] eqn:E.
  destruct (exec_run (fun _ => 0) _ _ _ _ E (so_reorder _ _ Hok) Ho) as (Hg & Hp & _).
  assert (Hall : Forall pkt_wf (outs es ++ vals b)) by (rewrite <- Hp; apply Forall_app_2; [apply (so_vals _ _ Hok)|done]).
  apply Forall_app in Hall as [Hout Hvals].
  eapply (trip_bind _ _ _ (fun _ => event_slabs es) (fun s' _ => view s' = view s)).
  - apply trip_updSess; [done|]. intros _. split; [apply inv_updSess; [done|]; intros y []; by constructor|].
    split; [|by apply view_updSess]. apply held_updSess; [|by eexists]. intros y Hy.
    rewrite Hx in Hy. injection Hy as <-. cbn [gots puts omap list_omap sReorder set_sReorder app].
    rewrite app_nil_r. unfold event_slabs. rewrite <- !bind_app, Hp. by rewrite Permutation_app_comm.
  - intros s1 [] Hv. eapply trip_weaken; [by apply trip_onReorder|done|done|]. intros ? ? ->. done.
Qed.

Lemma trip_serverPush s id sq pkt :
  has s id -> is_u32 sq -> pkt_wf pkt ->
  trip s (pkt_slabs pkt) (serverPush id sq pkt) (fun _ => []) (fun s' _ => view s' = view s).
Proof.
  intros Hh Hu Hwf. unfold serverPush. sbind ltac:(apply same_now). intros s1 t Hv1 _.
  eapply trip_weaken; [apply (trip_serverReorder s1 id (OpPush t sq pkt));
    [by eapply has_view|exact Hu|by apply List.Forall_cons; [|apply List.Forall_nil]]| |done|].
  - cbn. by rewrite app_nil_r.
  - intros ? ? ->. done.
Qed.

Lemma same_serverTimer s id : same s (serverTimer id) (fun _ => True).
Proof.
  unfold serverTimer, lookupSession. apply same_gets_bind.
  destruct (sessions s !! id) as [x|] eqn:Hx; [|by apply same_ret].
  assert (Hh : has s id) by (unfold has; by rewrite reg_lookup, Hx).
  sbind ltac:(apply same_now). intros s1 t Hv1 _.
  eapply trip_weaken; [apply (trip_serverReorder s1 id (OpTimer t)); [by eapply has_view|done|apply List.Forall_nil]|done|done|by intros].
Qed.

Lemma same_serverDecode s id f : has s id -> same s (serverDecode id f) (fun _ => True).
Proof.
  intros Hh. unfold serverDecode. sbind ltac:(by apply same_sessAt). intros s1 x Hv1 _.
  destruct (sDec x) as [dec|]; [|by apply same_ret]. destruct (f dec) as [dec' es].
  sbind ltac:(by apply same_updSess_frame; [known|]). intros s2 [] Hv2 _.
  apply same_forEach. intros s3 e _ Hv3. apply same_recover. intros s4 sq pkt Hv4 Hwf.
  apply trip_serverPush; [|apply u32_range|done]. eapply has_view; [|exact Hh]. congruence.
Qed.

(** ** The registry *)

Definition touch_reg (id pid : Z) (src : AddrPort) (v : registry) : registry :=
  alter (fun x => (x.1, <[pid := src]> x.2)) id v.

Lemma psAddr_touch pid src t ps :
  psAddr <$> touch_paths pid src t ps = <[pid := src]> (psAddr <$> ps).
Proof. unfold touch_paths. by rewrite fmap_insert. Qed.

Lemma trip_touchPath s id pid src t :
  has s id -> is_u8 pid ->
  trip s [] (touchPath id pid src t) (fun _ => [])
    (fun s' _ => view s' = ((view s).1, touch_reg id pid src (reg s))).
Proof.
  intros Hh Hu. unfold touchPath. apply trip_updSess; [done|]. intros Hi. split; [|split].
  - apply inv_updSess; [done|]. intros x []. constructor; cbn; try done.
    unfold touch_paths. apply map_Forall_insert_2; [|done]. cbn. split; [|done].
    destruct (sPaths x !! pid) as [p|] eqn:Hp; [|done]. cbn. by apply (so_paths pid p).
  - apply held_updSess; [|by apply has_sess]. intros y _. cbn. by rewrite !app_nil_r.
  - change (view ?x) with ((view x).1, reg x) at 1. f_equal. unfold touch_reg. apply map_eq. intros j.
    rewrite reg_lookup. cbn [sessions set_sessions]. destruct (decide (id = j)) as [<-|Hne].
    + rewrite !lookup_alter_eq. rewrite reg_lookup. destruct (sessions s !! id) as [x|]; [|done]. cbn.
      unfold sess_view. cbn. by rewrite psAddr_touch.
    + by rewrite !lookup_alter_ne, reg_lookup.
Qed.

Lemma touch_has id pid src v j : is_Some (v !! j) -> is_Some (touch_reg id pid src v !! j).
Proof.
  intros [x Hx]. unfold touch_reg. destruct (decide (id = j)) as [<-|Hne].
  - rewrite lookup_alter_eq, Hx. by eexists.
  - rewrite lookup_alter_ne, Hx by done. by eexists.
Qed.

Lemma touch_on id pid src v : is_Some (v !! id) ->
  exists c ads, touch_reg id pid src v !! id = Some (c, ads) /\ is_Some (ads !! pid).
Proof.
  intros [[c ads] Hv]. unfold touch_reg. rewrite lookup_alter_eq, Hv. eexists _, _. split; [done|].
  cbn. rewrite lookup_insert_eq. by eexists.
Qed.

Lemma trip_onServerData s sl n src d payload t :
  has s (dSession d) -> is_u8 (hPathID (dHeader d)) -> is_u32 (dGlobalSeq d) ->
  (Len d + length payload <= length (sl_mem sl))%nat ->
  trip s [sl_id sl] (onServerData sl n src d payload t) (fun _ => [])
    (fun s' _ => view s' = ((view s).1, touch_reg (dSession d) (hPathID (dHeader d)) src (reg s))).
Proof.
  intros Hh Hp Hu Hfit. unfold onServerData.
  tbind ltac:(exact (trip_frame [sl_id sl] _ [] _ _ _
    (trip_touchPath s (dSession d) (hPathID (dHeader d)) src t Hh Hp))).
  intros s1 [] Hv1. set (V := (_, touch_reg _ _ _ _)) in *.
  assert (Hon1 : on s1 (dSession d) (hPathID (dHeader d))) by (unfold on, reg; rewrite Hv1; by apply touch_on).
  pose proof (on_has _ _ _ Hon1) as Hh1.
  cbn [app]. sbind ltac:(apply same_txTS). intros s2 ts Hv2 _.
  sbind ltac:(by apply same_updPs; [known|]). intros s3 [] Hv3 _.
  sbind ltac:(by apply same_updSess_frame; [known|]). intros s4 [] Hv4 _.
  sbind ltac:(apply same_count). intros s5 [] Hv5 _.
  sbind ltac:(apply same_count). intros s6 [] Hv6 _.
  assert (Hh6 : has s6 (dSession d)) by (eapply has_view; [|exact Hh1]; congruence).
  set (pkt := mkPacket (Some sl) _ _). change [sl_id sl] with (pkt_slabs pkt).
  assert (Hwf : pkt_wf pkt) by by apply pkt_wf_slab.
  destruct (_ =? _).
  - sbind ltac:(apply same_when; intros; by apply same_serverDecode). intros s7 [] Hv7 _.
    eapply trip_weaken; [apply trip_serverPush; [by eapply has_view|done|done]|done|done|].
    intros s8 [] Hv8. congruence.
  - sbind ltac:(by apply same_sessAt). intros s7 x Hv7 _.
    eapply trip_weaken; [by apply trip_deliverOrCount|done|done|]. intros s8 [] Hv8. congruence.
Qed.

Lemma same_onServerFEC s n dgram t : same s (onServerFEC n dgram t) (fun _ => True).
Proof.
  unfold onServerFEC. sbind ltac:(apply same_try, ParseFEC_no_panic). intros s1 r Hv1 _.
  destruct r as [[f shard]|]; [|by apply same_ret]. unfold lookupSession. apply same_gets_bind.
  destruct (sessions s1 !! fSession f) as [x|] eqn:Hx; [|by apply same_ret].
  assert (Hh : has s1 (fSession f)) by (unfold has; by rewrite reg_lookup, Hx).
  destruct (sDec x); [|by apply same_ret].
  sbind ltac:(apply same_count). intros s2 [] Hv2 _. sbind ltac:(apply same_count). intros s3 [] Hv3 _.
  apply same_serverDecode. eapply has_view; [|exact Hh]. congruence.
Qed.

(** [sess.path]: what is found is a path of the session. *)
Lemma same_sessPath s id pid : has s id ->
  same s (sessPath id pid) (fun o => match o with Some _ => on s id pid | None => True end).
Proof.
  intros Hh. unfold sessPath. sbind ltac:(by apply same_sessAt). intros s1 x Hv1 [_ Hx]. apply same_ret.
  destruct (sPaths x !! pid) as [p|] eqn:Hp; [|done]. exists (sClientID x), (psAddr <$> sPaths x).
  split; [done|]. rewrite lookup_fmap, Hp. by eexists.
Qed.

Lemma same_onServerProbeAck s dgram : same s (onServerProbeAck cfg dgram) (fun _ => True).
Proof.
  unfold onServerProbeAck. destruct (codec_total _ _ _ _ _ (ack_codec (cfgMAC cfg)) dgram) as [r E].
  eapply trip_must_bind; [exact E|]. destruct r as [[hh ack]|]; [|by apply same_ret].
  unfold lookupSession. apply same_gets_bind. destruct (sessions s !! paSession ack) as [x|] eqn:Hx; [|by apply same_ret].
  assert (Hh : has s (paSession ack)) by (unfold has; by rewrite reg_lookup, Hx).
  sbind ltac:(by apply same_sessPath). intros s1 ps Hv1 Hps. destruct ps as [p|]; [|by apply same_ret].
  sbind ltac:(apply same_nowUS). intros s2 us Hv2 _. by apply same_updPs; [known|].
Qed.

Lemma same_onServerCtrl s dgram t : same s (onServerCtrl cfg dgram t) (fun _ => True).
Proof.
  unfold onServerCtrl. destruct (ParseCtrl_total (cfgMAC cfg) dgram) as [r E].
  eapply trip_must_bind; [exact E|]. destruct r as [[hh c]|]; [|by apply same_ret].
  unfold lookupSession. apply same_gets_bind. destruct (sessions s !! ctSession c) as [x|] eqn:Hx; [|by apply same_ret].
  assert (Hh : has s (ctSession c)) by (unfold has; by rewrite reg_lookup, Hx).
  apply same_forEach. intros s1 st _ Hv1. sbind ltac:(apply same_sessPath; known). intros s2 ps Hv2 Hps.
  destruct ps as [p|]; [|by apply same_ret]. by apply same_updPs; [known|].
Qed.

(** What each kind of datagram means for the registry, at clock reading [t]:
    DATA and PROBE move a known path to the sender's address; a fresh HELLO
    opens a session, or moves a path of the session its client owns; a fresh
    BYE removes a path, and with the last path the session. *)
Definition hello_reg (id cid pid : Z) (src : AddrPort) (v : registry) : registry :=
  match v !! id with
  | None => touch_reg id pid src (<[id := (cid, ∅)]> v)
  | Some (c, _) => if c =? cid then touch_reg id pid src v else v
  end.

Definition bye_reg (id pid : Z) (v : registry) : registry :=
  match v !! id with
  | None => v
  | Some (c, ads) =>
      if decide (size (delete pid ads) = 0)%nat then delete id v else <[id := (c, delete pid ads)]> v
  end.

Definition data_reg (dgram : list Z) (src : AddrPort) (v : registry) : registry :=
  match ParseDataHeader dgram with
  | Ret (d, _) => touch_reg (dSession d) (hPathID (dHeader d)) src v
  | _ => v
  end.

Definition probe_reg (dgram : list Z) (src : AddrPort) (v : registry) : registry :=
  match ParseProbe dgram (cfgMAC cfg) with
  | Ret (Some (hh, pr)) => touch_reg (prSession pr) (hPathID hh) src v
  | _ => v
  end.

Definition hello_after (dgram : list Z) (src : AddrPort) (t : Z) (v : registry) : registry :=
  match ParseHello dgram (cfgMAC cfg) with
  | Ret (Some (hh, m)) =>
      if (hType hh =? TypeHello) && FreshTS (heUnixTS m) (unix t)
      then hello_reg (heSession m) (ClientID m) (hPathID hh) src v else v
  | _ => v
  end.

Definition bye_after (dgram : list Z) (t : Z) (v : registry) : registry :=
  match ParseBye dgram (cfgMAC cfg) with
  | Ret (Some (hb, m)) =>
      if FreshTS (byUnixTS m) (unix t) then bye_reg (bySession m) (hPathID hb) v else v
  | _ => v
  end.

Definition reg_after (dgram : list Z) (src : AddrPort) (t : Z) (v : registry) : registry :=
  match ParseHeader dgram with
  | Ret h =>
      if hType h =? TypeData then data_reg dgram src v
      else if hType h =? TypeProbe then probe_reg dgram src v
      else if hType h =? TypeHello then hello_after dgram src t v
      else if hType h =? TypeBye then bye_after dgram t v
      else v
  | _ => v
  end.

Lemma touch_none id pid src v : v !! id = None -> touch_reg id pid src v = v.
Proof. apply alter_none. Qed.

Lemma view_eq s s' : (view s').1 = (view s).1 -> view s' = ((view s).1, reg s').
Proof. unfold reg. intros <-. by destruct (view s'). Qed.

Lemma trip_onServerProbe s dgram src t :
  is_bytes dgram ->
  trip s [] (onServerProbe cfg dgram src t) (fun _ => [])
    (fun s' _ => view s' = ((view s).1, probe_reg dgram src (reg s))).
Proof.
  intros Hb. unfold onServerProbe, probe_reg. destruct (codec_total _ _ _ _ _ (probe_codec (cfgMAC cfg)) dgram) as [r E].
  eapply trip_must_bind; [exact E|]. rewrite E. destruct r as [[hh pr]|]; [|by apply trip_ret; [|apply view_eq]].
  apply (codec_accept _ _ _ _ _ (probe_codec (cfgMAC cfg))) in E as ((_ & _ & Hp & _) & _); [|done].
  unfold lookupSession. apply trip_gets_bind.
  destruct (sessions s !! prSession pr) as [x|] eqn:Hx.
  2:{ apply trip_ret; [done|]. rewrite touch_none; [by apply view_eq|]. by rewrite reg_lookup, Hx. }
  assert (Hh : has s (prSession pr)) by (unfold has; by rewrite reg_lookup, Hx).
  tbind ltac:(by apply trip_touchPath). intros s1 [] Hv1.
  eapply trip_must_bind; [apply EncodeProbeAck_eq|].
  eapply same_bind; [apply same_writeTo|]. intros s2 ok Hv2 _. apply trip_ret; [done|]. by rewrite Hv2.
Qed.

Lemma newSession_ok m : is_u32 (heSession m) -> sess_ok (heSession m) (newSession cfg m).
Proof.
  intros Hu. constructor; cbn; [done|done|apply good_New|apply List.Forall_nil|by vm_compute|apply map_Forall_empty|].
  intros e He. destruct (cfgFECDisabled cfg); [done|]. injection He as <-. by vm_compute.
Qed.

(** A new session joins the registry. *)
Lemma trip_addSession s m :
  is_u32 (heSession m) -> sessions s !! heSession m = None ->
  trip s [] (modify (fun e => set_sessions (<[heSession m := newSession cfg m]> (sessions e)) e)) (fun _ => [])
    (fun s' _ => view s' = ((view s).1, <[heSession m := (ClientID m, ∅)]> (reg s))).
Proof.
  intros Hu Hn Hi. split; [|split].
  - pose proof (newSession_ok m Hu). destruct Hi. constructor; cbn; try done.
    by apply map_Forall_insert_2.
  - apply flow_pure; [|done|done]. unfold held. cbn [reorderBuf sessions bind set_sessions].
    rewrite sess_vals_insert, (delete_id (sessions s)) by done. done.
  - unfold view, reg, view. cbn [paths sessions set_sessions fst snd]. rewrite fmap_insert.
    unfold sess_view at 1. cbn. by rewrite fmap_empty.
Qed.

(** The registry once the session of a HELLO is there. *)
Definition joined (id cid : Z) (v : registry) : registry :=
  match v !! id with None => <[id := (cid, ∅)]> v | _ => v end.

Lemma hello_reg_joined id cid pid src v c :
  (exists ads, joined id cid v !! id = Some (c, ads)) ->
  hello_reg id cid pid src v = if c =? cid then touch_reg id pid src (joined id cid v) else joined id cid v.
Proof.
  unfold hello_reg, joined. intros [ads Hx]. destruct (v !! id) as [[c' a]|] eqn:Hr.
  - rewrite Hr in Hx. injection Hx as -> ->. done.
  - rewrite lookup_insert_eq in Hx. injection Hx as -> <-. by rewrite Z.eqb_refl.
Qed.

Lemma trip_handleHello s dgram src :
  is_bytes dgram ->
  trip s [] (handleHello cfg dgram src) (fun _ => [])
    (fun s' _ => exists t, reading t /\ view s' = ((view s).1, hello_after dgram src t (reg s))).
Proof.
  intros Hb. unfold handleHello, hello_after. destruct (codec_total _ _ _ _ _ (hello_codec (cfgMAC cfg)) dgram) as [r E].
  eapply trip_must_bind; [exact E|]. rewrite E.
  eapply same_bind; [apply same_now|]. intros s1 t Hv1 Ht.
  assert (Hbad : forall s2 s3 : Engine, view s2 = view s1 -> view s3 = view s2 -> view s3 = ((view s).1, reg s)).
  { intros s2 s3 Ha Hc. unfold reg. rewrite <- surjective_pairing. congruence. }
  destruct r as [[hh m]|].
  2:{ eapply trip_weaken; [apply same_count|done|done|]. intros s2 [] [Hv2 _]. exists t.
      split; [done|]. by apply (Hbad s1). }
  apply (codec_accept _ _ _ _ _ (hello_codec (cfgMAC cfg))) in E as ((_ & _ & Hp & _) & _ & (Hses & _) & _); [|done].
  rewrite <- negb_andb. destruct (_ && _) eqn:Hfresh; cbn [negb].
  2:{ eapply trip_weaken; [apply same_count|done|done|]. intros s2 [] [Hv2 _]. exists t.
      rewrite Hfresh. split; [done|]. by apply (Hbad s1). }
  unfold lookupSession. apply trip_gets_bind.
  assert (Hreg1 : reg s1 = reg s) by by apply reg_view.
  set (v1 := joined (heSession m) (ClientID m) (reg s)).
  set (x := default (newSession cfg m) (sessions s1 !! heSession m)).
  eapply (trip_bind _ _ _ (fun _ => []) (fun s' _ => view s' = ((view s).1, v1))).
  { unfold v1, joined. rewrite <- Hreg1, reg_lookup. destruct (sessions s1 !! heSession m) as [y|] eqn:Hs.
    - rewrite bool_decide_false by done. apply trip_ret; [done|]. rewrite <- Hv1. by apply view_eq.
    - rewrite bool_decide_true by done. rewrite <- Hv1. by apply trip_addSession. }
  intros s2 [] Hv2.
  assert (Hx : exists ads, v1 !! heSession m = Some (sClientID x, ads)).
  { unfold v1, x, joined. rewrite <- Hreg1, reg_lookup. destruct (sessions s1 !! heSession m) as [y|] eqn:Hs.
    - cbn [fmap option_fmap option_map default]. rewrite reg_lookup, Hs. by eexists.
    - cbn [fmap option_fmap option_map default]. rewrite lookup_insert_eq. by eexists. }
  pose proof (hello_reg_joined _ _ (hPathID hh) src _ _ Hx) as Hhello. fold v1 in Hhello.
  destruct (Z.eqb_spec (sClientID x) (ClientID m)) as [He|He]; cbn [negb].
  2:{ eapply trip_weaken; [apply same_count|done|done|]. intros s3 [] [Hv3 _]. exists t.
      rewrite Hfresh, Hhello. split; [done|]. congruence. }
  eapply same_bind; [apply same_now|]. intros s3 t3 Hv3 _.
  assert (Hh3 : has s3 (heSession m)) by (unfold has, reg; rewrite Hv3, Hv2; destruct Hx as [ads Hx]; by eexists).
  tbind ltac:(by apply trip_touchPath). intros s4 [] Hv4.
  assert (Hh4 : has s4 (heSession m)) by (unfold has, reg; rewrite Hv4; by apply touch_has).
  eapply same_bind; [by apply same_updSess_frame; [known|]|]. intros s5 [] Hv5 _.
  eapply same_bind; [apply same_now|]. intros s6 t6 Hv6 _.
  eapply trip_must_bind; [apply EncodeHello_eq|].
  eapply same_bind; [apply same_writeTo|]. intros s7 ok Hv7 _. apply trip_ret; [done|].
  exists t. split; [done|]. rewrite Hfresh, Hhello, Hv7, Hv6, Hv5, Hv4.
  unfold reg at 1. rewrite Hv3, Hv2. done.
Qed.

(** Closing the buffer of a removed session hands out all it holds. *)
Lemma closed_outs (b : Buffer Packet) : good b -> outs (Reorder.Close b).2 ≡ₚ vals b.
Proof.
  intros Hg. destruct (Reorder.Close b) as [b' es] eqn:E.
  destruct (close_run (fun _ => 0) _ _ _ E Hg) as (_ & Hw & _ & _ & _ & ps & He & _).
  pose proof (ef_perm _ _ _ _ _ _ He) as Hp. cbn [fst snd] in Hp.
  rewrite (vals_empty b' Hw), !app_nil_r in Hp. by rewrite Hp.
Qed.

Lemma close_slabs b : good b -> event_slabs (Reorder.Close b).2 ≡ₚ vals b ≫= pkt_slabs.
Proof. intros Hg. unfold event_slabs. by rewrite closed_outs. Qed.

Lemma trip_dropSession s x id y :
  sessions s !! id = Some y -> sReorder y = sReorder x ->
  trip s [] (dropSession x id) (fun _ => []) (fun s' _ => view s' = ((view s).1, delete id (reg s))).
Proof.
  intros Hy Hr. apply trip_assume. intros Hi. unfold dropSession.
  pose proof (so_reorder _ _ (inv_sess _ Hi id y Hy)) as Hg. rewrite Hr in Hg.
  pose proof (so_vals _ _ (inv_sess _ Hi id y Hy)) as Hvals. rewrite Hr in Hvals.
  assert (Hout : Forall pkt_wf (outs (Reorder.Close (sReorder x)).2)) by by rewrite closed_outs.
  eapply (trip_bind _ _ _ (fun _ => event_slabs (Reorder.Close (sReorder x)).2)
            (fun s' _ => view s' = ((view s).1, delete id (reg s)))).
  - intros _. split; [|split].
    + destruct Hi. constructor; cbn; try done. by apply map_Forall_delete.
    + unfold flow, held. cbn [reorderBuf sessions bind set_sessions gots puts omap list_omap app].
      rewrite close_slabs, (sess_vals_lookup _ _ _ Hy), Hr, bind_app by done. clear. permlia.
    + unfold view, reg, view. cbn [paths sessions set_sessions fst snd]. by rewrite fmap_delete.
  - intros s1 [] Hv. eapply trip_weaken; [by apply trip_onReorder|done|done|]. intros ? ? ->. done.
Qed.

Lemma size_fmap_map {A B} (f : A -> B) (m : gmap Z A) : size (f <$> m) = size m.
Proof. apply map_size_fmap. Qed.

Lemma trip_removeSessionPath s id pid :
  trip s [] (removeSessionPath id pid) (fun _ => [])
    (fun s' _ => view s' = ((view s).1, bye_reg id pid (reg s))).
Proof.
  unfold removeSessionPath, lookupSession. apply trip_gets_bind.
  unfold bye_reg. rewrite reg_lookup.
  destruct (sessions s !! id) as [x|] eqn:Hx; cbn [fmap option_fmap option_map].
  2:{ apply trip_ret; [done|]. by apply view_eq. }
  unfold sess_view. rewrite <- fmap_delete, size_fmap_map. set (ps := delete pid (sPaths x)).
  eapply (trip_bind _ _ _ (fun _ => []) (fun s' _ =>
    view s' = ((view s).1, <[id := (sClientID x, psAddr <$> ps)]> (reg s)) /\
    sessions s' !! id = Some (set_sPaths ps x))).
  { apply trip_updSess; [unfold has; by rewrite reg_lookup, Hx|]. intros Hi. split; [|split; [|split]].
    - apply inv_updSess; [done|]. intros y []. constructor; cbn; try done.
      destruct (inv_sess _ Hi id x Hx). by apply map_Forall_delete.
    - apply held_updSess; [|by eexists]. intros y _. cbn. by rewrite !app_nil_r.
    - unfold view, reg, view. cbn [paths sessions set_sessions fst snd]. f_equal.
      rewrite (alter_insert_eq _ _ _ _ Hx), fmap_insert. done.
    - cbn [sessions set_sessions]. by rewrite lookup_alter_eq, Hx. }
  intros s1 [] [Hv1 Hs1]. destruct (decide (size ps = 0)%nat) as [Hz|Hz].
  - rewrite bool_decide_true by done.
    eapply trip_weaken; [by apply (trip_dropSession s1 x id _ Hs1)|done|done|]. intros s2 [] Hv2.
    rewrite Hv2. unfold reg at 1. rewrite Hv1. cbn [fst snd]. by rewrite delete_insert_eq.
  - rewrite bool_decide_false by done. by apply trip_ret.
Qed.

Lemma trip_onBye s dgram t :
  trip s [] (onBye cfg dgram t) (fun _ => [])
    (fun s' _ => view s' = ((view s).1, bye_after dgram t (reg s))).
Proof.
  unfold onBye, bye_after. destruct (codec_total _ _ _ _ _ (bye_codec (cfgMAC cfg)) dgram) as [r E].
  eapply trip_must_bind; [exact E|]. rewrite E. destruct r as [[hb m]|]; [|by apply trip_ret; [|apply view_eq]].
  apply trip_when; intros Hf; rewrite Hf; [apply trip_removeSessionPath|by apply view_eq].
Qed.

(** Moving the registry clause of a triple to an earlier state. *)
Lemma trip_reg s0 s (m : eng unit) own (f : registry -> registry) :
  view s = view s0 ->
  trip s own m (fun _ => []) (fun s' _ => view s' = ((view s).1, f (reg s))) ->
  trip s own m (fun _ => []) (fun s' _ => view s' = ((view s0).1, f (reg s0))).
Proof. intros Hv Hm. unfold reg in *. by rewrite Hv in Hm. Qed.

Lemma trip_kept s0 s (m : eng unit) own :
  view s = view s0 -> trip s own m (fun _ => []) (fun s' _ => view s' = view s) ->
  trip s own m (fun _ => []) (fun s' _ => view s' = ((view s0).1, reg s0)).
Proof.
  intros Hv Hm. eapply trip_weaken; [exact Hm|done|done|]. intros s' [] ->. rewrite Hv. unfold reg.
  by rewrite <- surjective_pairing.
Qed.

(** The control messages and FEC, by type. *)
Lemma trip_byType n s s2 dgram src t h :
  view s2 = view s -> reading t -> is_bytes dgram -> ParseHeader dgram = Ret h ->
  (hType h =? TypeData) = false ->
  trip s2 []
    (if hType h =? TypeFEC then onServerFEC n dgram t
     else if hType h =? TypeProbe then onServerProbe cfg dgram src t
     else if hType h =? TypeProbeAck then onServerProbeAck cfg dgram
     else if hType h =? TypeCtrl then onServerCtrl cfg dgram t
     else if hType h =? TypeHello then handleHello cfg dgram src
     else if hType h =? TypeBye then onBye cfg dgram t
     else mret tt) (fun _ => [])
    (fun s' _ => exists t, reading t /\ view s' = ((view s).1, reg_after dgram src t (reg s))).
Proof.
  intros Hv Ht Hd Hh HT.
  assert (Hkeep : forall m : eng unit, reg_after dgram src t (reg s) = reg s ->
    same s2 m (fun _ => True) ->
    trip s2 [] m (fun _ => [])
      (fun s' _ => exists t, reading t /\ view s' = ((view s).1, reg_after dgram src t (reg s)))).
  { intros m Hsame Hm. eapply trip_weaken; [apply (trip_kept s s2 m []); [done|]|done|done|].
    - eapply trip_weaken; [exact Hm|done|done|]. by intros ? ? [? _].
    - intros s' [] Hv'. exists t. by rewrite Hsame. }
  assert (Hreg : forall (m : eng unit) f, (forall t', reg_after dgram src t' (reg s) = f t' (reg s)) ->
    trip s2 [] m (fun _ => []) (fun s' _ => exists t', reading t' /\ view s' = ((view s2).1, f t' (reg s2))) ->
    trip s2 [] m (fun _ => [])
      (fun s' _ => exists t, reading t /\ view s' = ((view s).1, reg_after dgram src t (reg s)))).
  { intros m f Hf Hm. eapply trip_weaken; [exact Hm|done|done|]. intros s' [] (t' & Hr' & Hv').
    exists t'. split; [done|]. rewrite Hf, Hv', Hv. by rewrite (reg_view s2 s). }
  assert (Hnop : forall ty, hType h = ty -> ty = TypeFEC \/ ty = TypeProbeAck \/ ty = TypeCtrl ->
    reg_after dgram src t (reg s) = reg s).
  { intros ty E Hty. unfold reg_after. rewrite Hh, E. by destruct Hty as [->|[->| ->]]. }
  destruct (Z.eqb_spec (hType h) TypeFEC) as [E|_]; [apply Hkeep; [by eapply Hnop; auto|apply same_onServerFEC]|].
  destruct (Z.eqb_spec (hType h) TypeProbe) as [E|N1].
  { apply (Hreg _ (fun _ => probe_reg dgram src)); [intros t'; unfold reg_after; by rewrite Hh, E|].
    eapply trip_weaken; [by apply trip_onServerProbe|done|done|]. intros s' [] Hv'. by exists t. }
  destruct (Z.eqb_spec (hType h) TypeProbeAck) as [E|_];
    [apply Hkeep; [by eapply Hnop; auto|apply same_onServerProbeAck]|].
  destruct (Z.eqb_spec (hType h) TypeCtrl) as [E|_]; [apply Hkeep; [by eapply Hnop; auto|apply same_onServerCtrl]|].
  destruct (Z.eqb_spec (hType h) TypeHello) as [E|N2].
  { apply (Hreg _ (hello_after dgram src)); [intros t'; unfold reg_after; by rewrite Hh, E|].
    by apply trip_handleHello. }
  destruct (Z.eqb_spec (hType h) TypeBye) as [E|N3].
  { apply (Hreg _ (bye_after dgram)); [intros t'; unfold reg_after; by rewrite Hh, E|].
    eapply trip_weaken; [by apply trip_onBye|done|done|]. intros s' [] Hv'. by exists t. }
  apply Hkeep; [|by apply same_ret]. unfold reg_after. rewrite Hh, HT.
  by rewrite (proj2 (Z.eqb_neq _ _) N1), (proj2 (Z.eqb_neq _ _) N2), (proj2 (Z.eqb_neq _ _) N3).
Qed.

Lemma trip_handleServerDatagram s sl n src :
  (n <= length (sl_mem sl))%nat -> is_bytes (sl_mem sl) ->
  trip s [sl_id sl] (handleServerDatagram cfg sl n src) (fun _ => [])
    (fun s' _ => exists t, reading t /\
       view s' = ((view s).1, reg_after (take n (sl_mem sl)) src t (reg s))).
Proof.
  intros Hn Hb. unfold handleServerDatagram.
  eapply trip_must_bind; [by apply slice_le; lia|]. rewrite drop_0, Nat.sub_0_r.
  set (dgram := take n (sl_mem sl)). assert (Hd : is_bytes dgram) by by apply Forall_take.
  eapply same_bind; [apply same_try, ParseHeader_no_panic|]. intros s1 h Hv1 Hh.
  assert (Hbad : forall s2 (m : eng unit) t, view s2 = view s -> reading t ->
    reg_after dgram src t (reg s) = reg s ->
    trip s2 [sl_id sl] m (fun _ => []) (fun s' _ => view s' = view s2) ->
    trip s2 [sl_id sl] m (fun _ => [])
      (fun s' _ => exists t, reading t /\ view s' = ((view s).1, reg_after dgram src t (reg s)))).
  { intros s2 m t Hv Ht Hsame Hm. eapply trip_weaken; [by apply (trip_kept s s2)|done|done|].
    intros s' [] Hv'. exists t. by rewrite Hsame. }
  destruct h as [h|].
  2:{ destruct Hh as [e Hh]. apply (Hbad s1 _ (clock 0)); [done|by eexists| |apply trip_badDatagram].
      unfold reg_after. by rewrite Hh. }
  eapply same_bind; [apply same_now|]. intros s2 t Hv2 Ht.
  assert (Hv : view s2 = view s) by congruence.
  destruct (hType h =? TypeData) eqn:HT0.
  { eapply same_bind; [apply same_try, ParseDataHeader_no_panic|]. intros s3 r Hv3 Hr.
    destruct r as [[d payload]|].
    2:{ destruct Hr as [e Hr]. apply (Hbad s3 _ t); [congruence|done| |apply trip_badDatagram].
        unfold reg_after, data_reg. by rewrite Hh, HT0, Hr. }
    assert (Hra : reg_after dgram src t (reg s) = touch_reg (dSession d) (hPathID (dHeader d)) src (reg s))
      by (unfold reg_after, data_reg; by rewrite Hh, HT0, Hr).
    apply ParseDataHeader_inv in Hr as [((_ & _ & Hp & _) & _ & _ & Hu & _) Ed]; [|done]. apply payload_fits in Ed.
    unfold lookupSession. apply trip_gets_bind.
    destruct (sessions s3 !! dSession d) as [x|] eqn:Hx.
    - assert (Hh3 : has s3 (dSession d)) by (unfold has; by rewrite reg_lookup, Hx).
      eapply trip_weaken; [apply (trip_reg s s3 _ _ (touch_reg (dSession d) (hPathID (dHeader d)) src));
        [congruence|by apply trip_onServerData]|done|done|].
      intros s' [] Hv'. exists t. by rewrite Hra.
    - apply (Hbad s3 _ t); [congruence|done| |].
      + rewrite Hra. apply touch_none. rewrite <- (reg_view s3 s) by congruence. by rewrite reg_lookup, Hx.
      + sbind ltac:(apply same_count). intros s4 [] Hv4 _.
        eapply trip_weaken; [apply trip_Put|done|done|]. intros s5 [] ->. done. }
  apply (trip_then_Put _ _ _ (fun s' => exists t, reading t /\
    view s' = ((view s).1, reg_after dgram src t (reg s)))).
  { intros sa sb Hab (t' & Hr' & Hva). exists t'. split; [done|congruence]. }
  by apply (trip_byType n s s2 dgram src t h).
Qed.

Lemma trip_serverRx s r :
  (forall dgram src, r = Some (dgram, src) -> is_bytes dgram) ->
  trip s [] (serverRx cfg r) (fun _ => [])
    (fun s' _ => exists t, reading t /\ view s' = ((view s).1,
       match r with Some (dgram, src) => reg_after (take SlabSize dgram) src t (reg s) | None => reg s end)).
Proof.
  intros Hr. unfold serverRx. tbind ltac:(apply trip_Get). intros s1 sl (Hv1 & Hl & Hb).
  destruct r as [[dgram src]|].
  2:{ eapply trip_weaken; [apply (trip_kept s s1); [done|apply trip_Put]|done|done|].
      intros s2 [] Hv2. exists (clock 0). split; [by eexists|done]. }
  destruct (readInto_ok sl dgram Hl Hb (Hr _ _ eq_refl)) as (Hn & Hbb & Ht).
  eapply trip_weaken; [by apply (trip_handleServerDatagram s1 (readInto sl dgram))|done|done|].
  intros s2 [] (t & Hrd & Hv2). exists t. split; [done|]. by rewrite Hv2, Hv1, Ht, (reg_view s1 s).
Qed.

(** ** Periodic loops *)

(** Combine a triple with a relation on the states. *)
Lemma trip_rel {A} (R : Engine -> Engine -> Prop) s own (m : eng A) own' (Φ : Engine -> A -> Prop) :
  rel (fun s _ s' => R s s') m -> trip s own m own' Φ ->
  trip s own m own' (fun s' a => Φ s' a /\ R s s').
Proof.
  intros HR Hm Hi. specialize (Hm Hi). unfold wp in *. destruct (m s) as [[[s' es] a]| |] eqn:E; [|done..].
  destruct Hm as (? & ? & ?). split_and!; [done..|]. exact (HR _ _ _ _ E).
Qed.

Definition keeps_sessions (s : Engine) (_ : list ev) (s' : Engine) : Prop := sessions s' = sessions s.

Lemma keeps_refl s : keeps_sessions s [] s.
Proof. done. Qed.
Lemma keeps_trans s e1 s1 e2 s2 : keeps_sessions s e1 s1 -> keeps_sessions s1 e2 s2 -> keeps_sessions s (e1 ++ e2) s2.
Proof. unfold keeps_sessions. congruence. Qed.

Lemma keeps_onReorder ep es : rel keeps_sessions (forEach (onReorder ep) es).
Proof.
  unfold onReorder, deliverOrCount, deliver, Release, Put, count.
  rel_with keeps_refl keeps_trans ltac:(done) ltac:(fail).
Qed.

Lemma trip_dropSession_exact s x id y :
  sessions s !! id = Some y -> sReorder y = sReorder x ->
  trip s [] (dropSession x id) (fun _ => []) (fun s' _ => sessions s' = delete id (sessions s)).
Proof.
  intros Hy Hr. eapply trip_weaken; [apply (trip_rel (fun s s' => sessions s' = delete id (sessions s)));
    [|by eapply trip_dropSession]|done|done|by intros ? ? [_ ?]].
  intros s0 s' es a E. unfold dropSession in E. apply bind_inv in E as (s1 & e1 & [] & e2 & [= <- <-] & E & ->).
  by apply keeps_onReorder in E.
Qed.

(** The sessions left after visiting [ids]. *)
Definition reap1 (cutoff : Z) (m : gmap Z Session) (id : Z) : gmap Z Session :=
  match m !! id with
  | Some x => if lastSeen x <? cutoff then delete id m else m
  | None => m
  end.

Lemma trip_reapOne s cutoff id :
  trip s [] (reapOne cutoff id) (fun _ => []) (fun s' _ => sessions s' = reap1 cutoff (sessions s) id).
Proof.
  unfold reapOne, lookupSession. apply trip_gets_bind. unfold reap1.
  destruct (sessions s !! id) as [x|] eqn:Hx; [|by apply trip_ret].
  apply trip_when; intros Hc; rewrite Hc; [by eapply trip_dropSession_exact|done].
Qed.

Lemma trip_reapAll cutoff ids : forall s,
  trip s [] (forEach (reapOne cutoff) ids) (fun _ => [])
    (fun s' _ => sessions s' = foldl (reap1 cutoff) (sessions s) ids).
Proof.
  induction ids as [|id ids IH]; intros s; cbn [forEach foldl]; [by apply trip_ret|].
  tbind ltac:(apply trip_reapOne). intros s1 [] Hs1.
  eapply trip_weaken; [apply IH|done|done|]. intros s2 [] Hs2. by rewrite Hs2, Hs1.
Qed.

Lemma reap1_lookup cutoff m id j :
  reap1 cutoff m id !! j = if decide (id = j) then x ← m !! j; (if lastSeen x <? cutoff then None else Some x) else m !! j.
Proof.
  unfold reap1. case_decide as Hj.
  - subst j. destruct (m !! id) as [x|] eqn:Hx; cbn; [|done].
    destruct (_ <? _); [by rewrite lookup_delete_eq|done].
  - destruct (m !! id) as [x|]; [|done]. destruct (_ <? _); [by rewrite lookup_delete_ne|done].
Qed.

Lemma reap_all_lookup cutoff ids : forall m j,
  foldl (reap1 cutoff) m ids !! j =
    if decide (j ∈ ids) then x ← m !! j; (if lastSeen x <? cutoff then None else Some x) else m !! j.
Proof.
  induction ids as [|id ids IH]; intros m j; cbn [foldl].
  - rewrite decide_False by by intros ?%elem_of_nil. done.
  - rewrite IH, reap1_lookup. destruct (decide (id = j)) as [->|Hne].
    + rewrite (decide_True (P := j ∈ j :: ids)) by by left.
      case_decide; [|done]. destruct (m !! j) as [x|]; [|done]. cbn. destruct (lastSeen x <? cutoff) eqn:E; cbn; by rewrite ?E.
    + destruct (decide (j ∈ ids)) as [Hin|Hin].
      * by rewrite decide_True by by right.
      * rewrite decide_False; [done|]. intros [E|]%elem_of_cons; [by apply Hne|done].
Qed.

Lemma trip_reaperTick s :
  trip s [] reaperTick (fun _ => [])
    (fun s' _ => exists t, reading t /\ forall id, sessions s' !! id =
       x ← sessions s !! id; (if lastSeen x <? t - sessionTimeout then None else Some x)).
Proof.
  intros Hi. unfold reaperTick. apply wp_bind. unfold wp at 1, now, ask.
  apply wp_bind. unfold allSessions. apply wp_bind. unfold wp at 1, gets. unfold wp at 1, ask.
  set (s1 := set_ticks _ (set_ticks _ s)). assert (Hi1 : inv s1) by by do 2 apply inv_ticks.
  eapply wp_mono; [|exact (trip_reapAll _ _ s1 Hi1)]. cbn [app].
  intros s' es [] (Hi' & Hf & Hs). split_and!; [done|done|]. exists (clock (ticks s)). split; [by eexists|].
  intros id. rewrite Hs, reap_all_lookup. change (sessions s1) with (sessions s).
  case_decide as Hin; [done|]. destruct (sessions s !! id) as [x|] eqn:Hx; [|done]. exfalso. apply Hin.
  rewrite shuffle_perm. apply list_elem_of_fmap. exists (id, x). split; [done|]. by apply elem_of_map_to_list.
Qed.

Lemma same_allSessions s : same s allSessions (fun ids => forall id, id ∈ ids -> has s id).
Proof.
  unfold allSessions. apply same_gets_bind. eapply same_weaken; [|apply same_ask].
  intros ids [k ->] id Hin. rewrite shuffle_perm in Hin. apply list_elem_of_fmap in Hin as ([j x] & -> & Hj).
  apply elem_of_map_to_list in Hj. cbn [fst]. unfold has. by rewrite reg_lookup, Hj.
Qed.

Lemma same_serverFecFlushTick s : same s serverFecFlushTick (fun _ => True).
Proof.
  unfold serverFecFlushTick. sbind ltac:(apply same_now). intros s1 t Hv1 _.
  sbind ltac:(apply same_allSessions). intros s2 ids Hv2 Hids. apply same_forEach. intros s3 id Hin Hv3.
  assert (Hh : has s3 id) by (eapply has_view, Hids; [congruence|done]). unfold fecFlushOne.
  sbind ltac:(by apply same_sessAt). intros s4 x Hv4 [Hx _].
  destruct (sEnc x) as [enc|] eqn:He; [|by apply same_ret].
  pose proof (Flush_group t enc) as Hg. destruct (Fec.Flush t enc) as [enc' es]. cbn in Hg.
  sbind ltac:(apply same_setSEnc; [known|]). { rewrite Hg. by apply (so_enc _ _ Hx). }
  intros s5 [] Hv5 _. apply same_forEach. intros s6 e _ Hv6. apply same_serverEmitParity.
  eapply has_view; [|exact Hh]. congruence.
Qed.

Lemma bestUpTo_in ps : forall best srtt pid,
  bestUpTo ps best srtt = Some pid -> best = Some pid \/ pid ∈ ps.*1.
Proof.
  induction ps as [|[q p] ps IH]; intros best srtt pid; cbn [bestUpTo]; [by left|].
  destruct (negb _); [intros [?|?]%IH; [by left|right; by right]|].
  destruct (_ || _); [|intros [?|?]%IH; [by left|right; by right]].
  intros [[= <-]|?]%IH; right; [by left|by right].
Qed.

Lemma newestOf_in ps : forall newest pid,
  newestOf ps newest = Some pid -> fst <$> newest = Some pid \/ pid ∈ ps.*1.
Proof.
  induction ps as [|[q p] ps IH]; intros newest pid; cbn [newestOf]; [by left|].
  destruct newest as [[n t]|].
  - destruct (_ <? _); intros [E|?]%IH; [right|right; by right|by left|right; by right].
    cbn in E. injection E as <-. by left.
  - intros [E|?]%IH; right; [|by right]. cbn in E. injection E as <-. by left.
Qed.

Lemma bestServerCtrlPath_in ps pid : bestServerCtrlPath ps = Some pid -> pid ∈ ps.*1.
Proof.
  unfold bestServerCtrlPath. destruct (bestUpTo ps None 0) as [q|] eqn:E.
  - intros [= <-]. apply bestUpTo_in in E as [?|?]; done.
  - intros [?|?]%newestOf_in; done.
Qed.

Lemma same_probeTo s id tick t pid : on s id pid -> same s (probeTo cfg id tick t pid) (fun _ => True).
Proof.
  intros Hon. unfold probeTo. sbind ltac:(by apply same_psAt). intros s1 p Hv1 _.
  destruct (_ && _); [by apply same_ret|]. destruct (OnProbeSent t (psLink p)) as [[l sq] wd]. cbv iota.
  sbind ltac:(by apply same_updPs; [known|]). intros s2 [] Hv2 _.
  sbind ltac:(apply same_sessAt; eapply on_has, on_view; [|exact Hon]; congruence). intros s3 x Hv3 _.
  sbind ltac:(apply same_nowUS). intros s4 us _ _. eapply trip_must_bind; [apply EncodeProbe_eq|].
  sbind ltac:(apply same_writeTo). intros. by apply same_ret.
Qed.

Lemma same_reportTo s id pid : on s id pid -> same s (reportTo id pid) (fun _ => True).
Proof.
  intros Hon. unfold reportTo. sbind ltac:(by apply same_psAt). intros s1 p Hv1 _.
  destruct (Report (psRx p)) as [rx r]. sbind ltac:(by apply same_updPs; [known|]). intros. by apply same_ret.
Qed.

(** Retuning the hold time and the FEC geometry of a session. *)
Lemma same_setHold s id hold :
  has s id ->
  same s (updSess id (fun x => set_sReorder (SetHold hold (sReorder x)) x)) (fun _ => True).
Proof.
  intros Hh. apply same_updSess; [known| |done|done]. intros x []. constructor; cbn; try done.
  by apply (hold_run (fun _ => 0)).
Qed.

Lemma same_retune s id snaps :
  has s id ->
  same s (updSess id (fun x => set_sEnc (retuneFEC cfg (sEnc x) snaps) x)) (fun _ => True).
Proof.
  intros Hh. apply same_updSess; [known| |done|done]. intros x []. constructor; cbn; try done. by apply enc_ok_retune.
Qed.

Lemma same_controlOne s tick t lastRx id : has s id -> same s (controlOne cfg tick t lastRx id) (fun _ => True).
Proof.
  intros Hh. unfold controlOne. sbind ltac:(by apply same_alivePaths). intros s1 alive Hv1 [_ Hal].
  case_decide; [by apply same_ret|].
  assert (Hon : forall s2 pid, view s2 = view s -> pid ∈ alive -> on s2 id pid)
    by (intros s2 pid Hv Hp; eapply on_view; [exact Hv|by apply Hal]).
  sbind ltac:(apply same_when; intros _; apply same_forEach; intros s2 pid Hp Hv2; apply same_probeTo;
    apply Hon; [congruence|done]). intros s2 [] Hv2 _.
  sbind ltac:(apply (same_mapEach (fun _ _ => True)); intros s3 pid Hp Hv3; apply same_reportTo;
    apply Hon; [congruence|done]). intros s3 rs Hv3 _.
  case_decide; [by apply same_ret|].
  sbind ltac:(apply same_sessAt; eapply has_view; [|exact Hh]; congruence). intros s4 x Hv4 _.
  destruct (_ && _); [by apply same_ret|].
  sbind ltac:(apply same_psAll; intros pid Hp; apply Hon; [congruence|done]). intros s5 ps Hv5 Hps.
  destruct (bestServerCtrlPath _) as [best|] eqn:Hb; [|by apply same_ret].
  apply bestServerCtrlPath_in in Hb. rewrite fst_zip in Hb by (apply Forall2_length in Hps; lia).
  sbind ltac:(apply same_psAt, Hon; [congruence|done]). intros s6 bp Hv6 _.
  eapply trip_must_bind; [apply EncodeCtrl_eq|].
  sbind ltac:(apply same_writeTo). intros s7 ok Hv7 _.
  ubind; [apply same_when; intros _; apply same_when; intros _; apply same_setHold; known|]. intros s8 [] Hv8 _.
  ubind; [apply same_when; intros _; apply same_retune; known|]. intros s9 [] Hv9 _. by apply same_ret.
Qed.

Lemma same_controlEach tick t ids : forall s lastRx,
  (forall id, id ∈ ids -> has s id) -> same s (controlEach cfg tick t lastRx ids) (fun _ => True).
Proof.
  induction ids as [|id ids IH]; intros s lastRx Hids; cbn [controlEach]; [by apply same_ret|].
  sbind ltac:(apply same_controlOne, Hids; by left). intros s1 lr Hv1 _. apply IH.
  intros j Hj. eapply has_view; [done|]. apply Hids. by right.
Qed.

Lemma same_serverControlTick s tick lastRx : same s (serverControlTick cfg tick lastRx) (fun _ => True).
Proof.
  unfold serverControlTick. sbind ltac:(apply same_now). intros s1 t Hv1 _.
  sbind ltac:(apply same_allSessions). intros s2 ids Hv2 Hids. apply same_controlEach.
  intros id Hin. eapply has_view; [exact Hv2|by apply Hids].
Qed.

Lemma same_closeServer s : same s closeServer (fun _ => True).
Proof.
  unfold closeServer. sbind ltac:(apply same_allSessions). intros s1 ids Hv1 Hids.
  apply same_forEach. intros s2 id Hin Hv2.
  eapply trip_weaken; [apply (trip_serverReorder s2 id OpClose); [|done|apply List.Forall_nil]|done|done|by intros].
  eapply has_view, Hids; [congruence|done].
Qed.

End Safe.
