(* ===== verification/ServerSpec.v ===== *)
(** * What a run of the server guarantees

    Runs of the server from a new engine: safety and the accounting of
    packet slabs, the session registry (exactly, by the function [reg_after],
    and as the protocol's lifecycle describes it), and what it takes to open,
    close or move a session. *)

From S2P Require Import Prelude Wire Control Float64 Sched Link PathSelect Fec Reorder.
From S2P Require Import ReorderInv ReorderTrace ReorderSpec Wgbridge Engine EngineLogic Server.
From S2P Require Import ServerSafe.
#[local] Open Scope Z_scope.

Section Spec.
Context `{Rounding} `{Blake2s} `{ReedSolomon} `{MapOrder} `{World} `{!WorldLaws _}.
Context (cfg : Config).

(** ** Runs *)

(** What can happen to a running server: WireGuard opens, closes and reads
    the bind, sends ciphertext to a session's endpoint or shows plaintext;
    the socket receives; a session's gap timer or a loop fires. [k] and [l]
    are the variables of the control loop. *)
Inductive server_op :=
  | SOpen | SBindClose
  | SRecv (ch : nat)
  | SInspect (pkt : list Z)
  | SSend (bufs : list (list Z)) (ep : Z)
  | SRx (r : option (list Z * AddrPort))
  | STimer (id : Z)
  | SFecFlush
  | SControl (k : Z) (l : gmap Z Z)
  | SReap
  | SClose.

Definition server_exec (o : server_op) : eng unit :=
  match o with
  | SOpen => bindOpen
  | SBindClose => bindClose
  | SRecv ch => _ ← wgRecv ch; mret tt
  | SInspect pkt => inspect pkt
  | SSend bufs ep => serverSend bufs ep
  | SRx r => serverRx cfg r
  | STimer id => serverTimer id
  | SFecFlush => serverFecFlushTick
  | SControl k l => _ ← serverControlTick cfg k l; mret tt
  | SReap => reaperTick
  | SClose => closeServer
  end.

(** What is read from the socket is bytes. *)
Definition server_op_ok (o : server_op) : Prop :=
  match o with
  | SRx r => forall dgram src, r = Some (dgram, src) -> is_bytes dgram
  | _ => True
  end.

(** What an operation relies on to return: a packet is inspected while the
    classifier's 64-bit packet counters have room for it. *)
Definition server_fit (o : server_op) (s : Engine) : Prop :=
  match o with
  | SInspect _ => room 1 s
  | _ => True
  end.

(** What a reaper tick at [t] leaves of the sessions. *)
Definition reaped (t : Z) (s s' : Engine) : Prop :=
  forall id, sessions s' !! id =
    x ← sessions s !! id; (if lastSeen x <? t - sessionTimeout then None else Some x).

(** What an operation does to the registry. *)
Definition server_post (o : server_op) (s s' : Engine) : Prop :=
  match o with
  | SRx (Some (dgram, src)) =>
      exists t, reading t /\ reg s' = reg_after cfg (take SlabSize dgram) src t (reg s)
  | SReap => exists t, reading t /\ reaped t s s'
  | _ => reg s' = reg s
  end.

Lemma keeps_reg s (m : eng unit) :
  trip s [] m (fun _ => []) (fun s' _ => view s' = view s) ->
  trip s [] m (fun _ => []) (fun s' _ => reg s' = reg s).
Proof. intros Hm. eapply trip_weaken; [exact Hm|done|done|]. intros s' [] Hv. by apply reg_view. Qed.

Lemma trip_server_exec o s :
  server_op_ok o -> server_fit o s -> trip s [] (server_exec o) (fun _ => []) (fun s' _ => server_post o s s').
Proof.
  intros Ho Hfit. destruct o as [| |ch|pkt|bufs ep|r|id| |k l| |]; cbn [server_exec server_post];
    try (apply keeps_reg).
  - apply trip_bindOpen.
  - apply trip_bindClose.
  - eapply trip_drop, same_trip, trip_wgRecv.
  - by eapply same_trip, same_inspect.
  - eapply same_trip, same_serverSend.
  - eapply trip_weaken; [by apply trip_serverRx|done|done|].
    intros s' [] (t & Ht & Hv). destruct r as [[dgram src]|]; [exists t; split; [done|]|];
      unfold reg at 1; by rewrite Hv.
  - eapply same_trip, same_serverTimer.
  - eapply same_trip, same_serverFecFlushTick.
  - eapply trip_drop, same_trip, same_serverControlTick.
  - apply trip_reaperTick.
  - eapply same_trip, same_closeServer.
Qed.

(** What an operation leaves, when it returns. *)
Lemma server_exec_inv o s s' es :
  inv s -> server_op_ok o -> server_exec o s = Ret (s', es, tt) ->
  inv s' /\ flow s [] es s' [] /\ server_post o s s'.
Proof.
  intros Hi Ho E. assert (Hfit : server_fit o s \/ exists pkt, o = SInspect pkt) by (destruct o; cbn [server_fit]; eauto).
  destruct Hfit as [Hfit|[pkt ->]]; [exact (wp_inv _ _ _ _ _ _ E (trip_server_exec o s Ho Hfit Hi))|].
  destruct (inspect_keeps _ _ _ _ _ Hi E) as (Hi' & Hf & Hv). split_and!; [done|done|by apply reg_view].
Qed.

(** [server_run es s]: from a new engine, some operations with the effects
    [es] led to [s]. *)
Inductive server_run : list ev -> Engine -> Prop :=
  | server_new t : server_run [] (NewEngine cfg t)
  | server_step es s o s' es' :
      server_run es s -> server_op_ok o -> server_exec o s = Ret (s', es', tt) ->
      server_run (es ++ es') s'.

Lemma server_run_inv es s : cfg_ok cfg -> server_run es s -> inv s /\ gots es ≡ₚ puts es ++ held s.
Proof.
  intros Hc. induction 1 as [t|es s o s' es' _ [Hi Hp] Ho E].
  - split; [by apply inv_New|]. by rewrite held_New.
  - destruct (server_exec_inv _ _ _ _ Hi Ho E) as (Hi' & Hf & _). split; [done|].
    unfold flow in Hf. cbn [app] in Hf. rewrite app_nil_r in Hf.
    by rewrite gots_app, puts_app, Hp, <- !app_assoc, Hf.
Qed.

Lemma server_step_post es s o s' es' :
  cfg_ok cfg -> server_run es s -> server_op_ok o -> server_exec o s = Ret (s', es', tt) ->
  server_post o s s'.
Proof.
  intros Hc Hr Ho E. destruct (server_run_inv _ _ Hc Hr) as [Hi _].
  by destruct (server_exec_inv _ _ _ _ Hi Ho E) as (_ & _ & Hpost).
Qed.


(** The registry, exactly: in every run, a datagram from [src] changes the
    registry (each session's client id and the address of each of its paths)
    as [reg_after] says at a reading of the clock, a reaper tick removes the
    idle sessions, and nothing else changes it. *)
Theorem registry_exact es s o s' es' :
  cfg_ok cfg -> server_run es s -> server_op_ok o -> server_exec o s = Ret (s', es', tt) ->
  server_post o s s'.
Proof. apply server_step_post. Qed.

(** A reaper tick removes exactly the sessions last seen more than five
    minutes before the reading of the clock it takes, and leaves every other
    session as it is. *)
Theorem reaper_exact es s s' es' :
  cfg_ok cfg -> server_run es s -> reaperTick s = Ret (s', es', tt) ->
  exists t, reading t /\ forall id, sessions s' !! id =
    x ← sessions s !! id; (if lastSeen x <? t - sessionTimeout then None else Some x).
Proof. intros Hc Hr E. exact (server_step_post es s SReap s' es' Hc Hr I E). Qed.

(** ** The registry as the protocol describes it *)

(** A valid datagram and the session and path it names: DATA and parity that
    parse, and the five control messages a client sends, accepted by their
    parsers (tag included), HELLO and BYE with a fresh timestamp. *)
Inductive valid (dgram : list Z) (t : Z) : Z -> Z -> Prop :=
  | valid_data d payload : ParseDataHeader dgram = Ret (d, payload) ->
      valid dgram t (dSession d) (hPathID (dHeader d))
  | valid_fec f shard : ParseFEC dgram = Ret (f, shard) -> valid dgram t (fSession f) (hPathID (fHeader f))
  | valid_probe hh m : ParseProbe dgram (cfgMAC cfg) = Ret (Some (hh, m)) -> valid dgram t (prSession m) (hPathID hh)
  | valid_ack hh m : ParseProbeAck dgram (cfgMAC cfg) = Ret (Some (hh, m)) -> valid dgram t (paSession m) (hPathID hh)
  | valid_ctrl hh m : ParseCtrl dgram (cfgMAC cfg) = Ret (Some (hh, m)) -> valid dgram t (ctSession m) (hPathID hh)
  | valid_hello hh m : ParseHello dgram (cfgMAC cfg) = Ret (Some (hh, m)) -> hType hh = TypeHello ->
      FreshTS (heUnixTS m) (unix t) = true -> valid dgram t (heSession m) (hPathID hh)
  | valid_bye hb m : ParseBye dgram (cfgMAC cfg) = Ret (Some (hb, m)) ->
      FreshTS (byUnixTS m) (unix t) = true -> valid dgram t (bySession m) (hPathID hb).

(** The registry before and after a datagram from [src]: a fresh HELLO opens
    its session or refreshes the path of its client; DATA and PROBE of a known
    session move their path to [src]; a fresh BYE takes its path away, and the
    session with its last path; whatever the datagram is, only the session a
    valid one names changes, and of an existing session only the named path,
    which is gone, as it was, or at [src]. *)
Record received (dgram : list Z) (src : AddrPort) (t : Z) (v v' : registry) : Prop := {
  rcv_hello : forall hh m, ParseHello dgram (cfgMAC cfg) = Ret (Some (hh, m)) -> hType hh = TypeHello ->
    FreshTS (heUnixTS m) (unix t) = true ->
    v' = hello_reg (heSession m) (ClientID m) (hPathID hh) src v;
  rcv_bye : forall hb m, ParseBye dgram (cfgMAC cfg) = Ret (Some (hb, m)) ->
    FreshTS (byUnixTS m) (unix t) = true -> v' = bye_reg (bySession m) (hPathID hb) v;
  rcv_data : forall d payload, ParseDataHeader dgram = Ret (d, payload) ->
    v' = touch_reg (dSession d) (hPathID (dHeader d)) src v;
  rcv_probe : forall hh m, ParseProbe dgram (cfgMAC cfg) = Ret (Some (hh, m)) ->
    v' = touch_reg (prSession m) (hPathID hh) src v;
  rcv_named : forall id, v' !! id = v !! id \/ exists pid, valid dgram t id pid;
  rcv_addr : forall id c ads c' ads' pid, v !! id = Some (c, ads) -> v' !! id = Some (c', ads') ->
    ads' !! pid = ads !! pid \/ valid dgram t id pid /\ (ads' !! pid = Some src \/ ads' !! pid = None);
}.

(** ** Who may change the registry *)

(** An authenticated, fresh HELLO or BYE; an authenticated PROBE; DATA. *)
Definition hello_in (dgram : list Z) (t : Z) (hh : Header) (m : Hello) : Prop :=
  dgram = AppendTag (cfgMAC cfg) (header_bytes hh ++ hello_body m) /\
  hType hh = TypeHello /\ FreshTS (heUnixTS m) (unix t) = true.
Definition bye_in (dgram : list Z) (t : Z) (hb : Header) (m : Bye) : Prop :=
  dgram = AppendTag (cfgMAC cfg) (header_bytes hb ++ bye_body m) /\
  hType hb = TypeBye /\ FreshTS (byUnixTS m) (unix t) = true.
Definition probe_in (dgram : list Z) (hh : Header) (m : Probe) : Prop :=
  dgram = AppendTag (cfgMAC cfg) (header_bytes hh ++ probe_body m) /\ hType hh = TypeProbe.
Definition data_in (dgram : list Z) (d : DataHeader) : Prop :=
  exists payload, dgram = data_bytes d ++ payload /\ hType (dHeader d) = TypeData.

(** The four ways a datagram changes the registry. *)
Inductive reg_change (dgram : list Z) (src : AddrPort) (t : Z) (v : registry) : registry -> Prop :=
  | rc_none : reg_change dgram src t v v
  | rc_data d : data_in dgram d ->
      reg_change dgram src t v (touch_reg (dSession d) (hPathID (dHeader d)) src v)
  | rc_probe hh m : probe_in dgram hh m ->
      reg_change dgram src t v (touch_reg (prSession m) (hPathID hh) src v)
  | rc_hello hh m : hello_in dgram t hh m ->
      reg_change dgram src t v (hello_reg (heSession m) (ClientID m) (hPathID hh) src v)
  | rc_bye hb m : bye_in dgram t hb m ->
      reg_change dgram src t v (bye_reg (bySession m) (hPathID hb) v).

Lemma reg_after_change dgram src t v :
  is_bytes dgram -> reg_change dgram src t v (reg_after cfg dgram src t v).
Proof.
  intros Hb. unfold reg_after. destruct (ParseHeader dgram) as [h| |]; [|constructor..].
  destruct (_ =? TypeData); [|destruct (_ =? TypeProbe); [|destruct (_ =? TypeHello); [|destruct (_ =? TypeBye)]]].
  - unfold data_reg. destruct (ParseDataHeader dgram) as [[d p]| |] eqn:E; [|constructor..].
    apply ParseDataHeader_inv in E as [Hd ->]; [|done]. constructor. exists p. split; [done|]. apply Hd.
  - unfold probe_reg. destruct (ParseProbe _ _) as [[[hh m]|]| |] eqn:E; [|constructor..].
    apply (codec_accept _ _ _ _ _ (probe_codec (cfgMAC cfg))) in E as (_ & Ht%Z.eqb_eq & _ & E); [|done].
    by constructor.
  - unfold hello_after. destruct (ParseHello _ _) as [[[hh m]|]| |] eqn:E; [|constructor..].
    apply (codec_accept _ _ _ _ _ (hello_codec (cfgMAC cfg))) in E as (_ & _ & _ & E); [|done].
    destruct (_ && _) eqn:Hf; [|constructor]. apply andb_prop in Hf as [?%Z.eqb_eq ?].
    by apply rc_hello.
  - unfold bye_after. destruct (ParseBye _ _) as [[[hh m]|]| |] eqn:E; [|constructor..].
    apply (codec_accept _ _ _ _ _ (bye_codec (cfgMAC cfg))) in E as (_ & Ht%Z.eqb_eq & _ & E); [|done].
    destruct (FreshTS _ _) eqn:Hf; [|constructor]. by apply rc_bye.
  - constructor.
Qed.

(** A step either is a datagram that changed the registry in one of these
    ways, or a reaper tick, or kept the registry. *)
Lemma server_change es s o s' es' :
  cfg_ok cfg -> server_run es s -> server_op_ok o -> server_exec o s = Ret (s', es', tt) ->
  reg s' = reg s \/
  (exists t, o = SReap /\ reading t /\ reaped t s s') \/
  (exists dgram src t, o = SRx (Some (dgram, src)) /\ reading t /\
     reg_change (take SlabSize dgram) src t (reg s) (reg s')).
Proof.
  intros Hc Hr Ho E. pose proof (server_step_post _ _ _ _ _ Hc Hr Ho E) as Hp.
  destruct o as [| |ch|pkt|bufs ep|[[dgram src]|]|id| |k l| |]; cbn [server_post] in Hp; auto.
  - right; right. destruct Hp as (t & Ht & ->). exists dgram, src, t. split_and!; [done..|].
    apply reg_after_change, Forall_take. by eapply Ho.
  - right; left. destruct Hp as (t & ? & ?). eauto.
Qed.

Lemma touch_lookup id pid src (v : registry) j :
  touch_reg id pid src v !! j =
    if decide (id = j) then (fun x => (x.1, <[pid := src]> x.2)) <$> v !! j else v !! j.
Proof.
  unfold touch_reg. case_decide as E; [subst; by rewrite lookup_alter_eq|by rewrite lookup_alter_ne].
Qed.

Lemma hello_lookup id cid pid src (v : registry) j :
  hello_reg id cid pid src v !! j =
    if decide (id = j) then
      match v !! j with
      | None => Some (cid, {[pid := src]})
      | Some (c, ads) => Some (c, if c =? cid then <[pid := src]> ads else ads)
      end
    else v !! j.
Proof.
  unfold hello_reg. case_decide as E; [subst j|].
  - destruct (v !! id) as [[c ads]|] eqn:Hv.
    + destruct (c =? cid); rewrite ?touch_lookup, ?decide_True by done; by rewrite Hv.
    + rewrite touch_lookup, decide_True, lookup_insert_eq by done. done.
  - destruct (v !! id) as [[c ads]|]; [destruct (c =? cid)|];
      rewrite ?touch_lookup, ?decide_False by done; [done..|]. by rewrite lookup_insert_ne.
Qed.

Lemma bye_lookup id pid (v : registry) j :
  bye_reg id pid v !! j =
    if decide (id = j) then
      x ← v !! j; (if decide (size (delete pid x.2) = 0)%nat then None else Some (x.1, delete pid x.2))
    else v !! j.
Proof.
  unfold bye_reg. case_decide as E; [subst j|].
  - destruct (v !! id) as [[c ads]|] eqn:Hv; [|by rewrite Hv]. cbn.
    case_decide; [by rewrite lookup_delete_eq|by rewrite lookup_insert_eq].
  - destruct (v !! id) as [[c ads]|]; [|done].
    case_decide; [by rewrite lookup_delete_ne|by rewrite lookup_insert_ne].
Qed.

Lemma reaped_lookup t s s' id :
  reaped t s s' -> reg s' !! id = reg s !! id \/
    (reg s' !! id = None /\ exists x, sessions s !! id = Some x /\ lastSeen x < t - sessionTimeout).
Proof.
  intros Hr. rewrite !reg_lookup, (Hr id). destruct (sessions s !! id) as [x|]; [|by left]. cbn.
  destruct (Z.ltb_spec (lastSeen x) (t - sessionTimeout)); [right|by left]. split; [done|]. by exists x.
Qed.

(** The header an accepted control message starts with. *)
Lemma accepted_header {M} (wf : M -> Prop) types (body : M -> list Z) Parse dgram hh m :
  codec (cfgMAC cfg) wf types (fun h m => header_bytes h ++ body m) Parse -> is_bytes dgram ->
  Parse dgram (cfgMAC cfg) = Ret (Some (hh, m)) -> ParseHeader dgram = Ret hh /\ types (hType hh).
Proof.
  intros Hc Hb (Hh & Ht & _ & ->)%(codec_accept _ _ _ _ _ Hc); [|done]. split; [|done].
  unfold AppendTag. rewrite <- !app_assoc. by apply ParseHeader_bytes.
Qed.

Lemma data_header dgram d payload :
  is_bytes dgram -> ParseDataHeader dgram = Ret (d, payload) ->
  ParseHeader dgram = Ret (dHeader d) /\ hType (dHeader d) = TypeData.
Proof.
  intros Hb [(Ht & Hh & _) ->]%ParseDataHeader_inv; [|done]. split; [|done].
  unfold data_bytes. rewrite <- !app_assoc. by apply ParseHeader_bytes.
Qed.

(** What changes an entry: nothing, or a valid datagram that names it. *)
Lemma reg_after_named dgram src t v id :
  reg_after cfg dgram src t v !! id = v !! id \/ exists pid, valid dgram t id pid /\
    forall c ads c' ads', v !! id = Some (c, ads) -> reg_after cfg dgram src t v !! id = Some (c', ads') ->
      ads' = <[pid := src]> ads \/ ads' = delete pid ads \/ ads' = ads.
Proof.
  unfold reg_after. destruct (ParseHeader dgram) as [h| |]; [|by left..].
  destruct (_ =? TypeData); [|destruct (_ =? TypeProbe); [|destruct (_ =? TypeHello); [|destruct (_ =? TypeBye)]]].
  - unfold data_reg. destruct (ParseDataHeader dgram) as [[d p]| |] eqn:E; [|by left..].
    rewrite touch_lookup. case_decide as Hid; [|by left]. right. subst id. exists (hPathID (dHeader d)).
    split; [by econstructor|]. intros c ads c' ads' ->. cbn. intros [= _ <-]. by left.
  - unfold probe_reg. destruct (ParseProbe _ _) as [[[hh m]|]| |] eqn:E; [|by left..].
    rewrite touch_lookup. case_decide as Hid; [|by left]. right. subst id. exists (hPathID hh).
    split; [by econstructor|]. intros c ads c' ads' ->. cbn. intros [= _ <-]. by left.
  - unfold hello_after. destruct (ParseHello _ _) as [[[hh m]|]| |] eqn:E; [|by left..].
    destruct (_ && _) eqn:Hf; [|by left]. apply andb_prop in Hf as [Ht%Z.eqb_eq Hf].
    rewrite hello_lookup. case_decide as Hid; [|by left]. right. subst id. exists (hPathID hh).
    split; [by constructor|]. intros c ads c' ads' ->. destruct (_ =? _); intros [= _ <-]; auto.
  - unfold bye_after. destruct (ParseBye _ _) as [[[hh m]|]| |] eqn:E; [|by left..].
    destruct (FreshTS _ _) eqn:Hf; [|by left].
    rewrite bye_lookup. case_decide as Hid; [|by left]. right. subst id. exists (hPathID hh).
    split; [by constructor|]. intros c ads c' ads' ->. cbn. case_decide; [done|]. intros [= _ <-]. auto.
  - by left.
Qed.

Lemma reg_after_received dgram src t v : is_bytes dgram -> received dgram src t v (reg_after cfg dgram src t v).
Proof.
  intros Hb. constructor.
  - intros hh m E Ht Hf. destruct (accepted_header _ _ _ _ _ _ _ (hello_codec (cfgMAC cfg)) Hb E) as [Hh _].
    unfold reg_after, hello_after. by rewrite Hh, Ht, E, Ht, Hf.
  - intros hb m E Hf. destruct (accepted_header _ _ _ _ _ _ _ (bye_codec (cfgMAC cfg)) Hb E) as [Hh Ht%Z.eqb_eq].
    unfold reg_after, bye_after. by rewrite Hh, Ht, E, Hf.
  - intros d payload E. destruct (data_header _ _ _ Hb E) as [Hh Ht].
    unfold reg_after, data_reg. by rewrite Hh, Ht, E.
  - intros hh m E. destruct (accepted_header _ _ _ _ _ _ _ (probe_codec (cfgMAC cfg)) Hb E) as [Hh Ht%Z.eqb_eq].
    unfold reg_after, probe_reg. by rewrite Hh, Ht, E.
  - intros id. destruct (reg_after_named dgram src t v id) as [?|(pid & ? & _)]; [by left|by right; eauto].
  - intros id c ads c' ads' pid Hv Hv'. destruct (reg_after_named dgram src t v id) as [E|(q & Hq & Hads)].
    + left. congruence.
    + destruct (decide (q = pid)) as [->|Hne].
      * destruct (Hads _ _ _ _ Hv Hv') as [->|[->| ->]]; [right|right|by left]; split; [done| |done|];
          [left; apply lookup_insert_eq|right; apply lookup_delete_eq].
      * left. destruct (Hads _ _ _ _ Hv Hv') as [->|[->| ->]]; [by rewrite lookup_insert_ne|by rewrite lookup_delete_ne|done].
Qed.

(** C6: The server's registry (each session's client id and the address of
    each of its paths) implements the protocol's session lifecycle: in every
    run, a datagram from [src] changes it as [received] says at a reading of
    the clock (an authentic fresh HELLO opens the session or refreshes its
    client's path, DATA and authentic PROBEs move the named path to [src], an
    authentic fresh BYE removes the path and, with the last one, the session;
    otherwise only the session and path a valid datagram names can change); a
    reaper tick removes exactly the sessions last seen more than five minutes
    before its reading of the clock; and no call of WireGuard, no timer, no
    control, FEC or closing step changes it. *)
Theorem server_registry es s o s' es' :
  cfg_ok cfg -> server_run es s -> server_op_ok o -> server_exec o s = Ret (s', es', tt) ->
  match o with
  | SRx (Some (dgram, src)) => exists t, reading t /\ received (take SlabSize dgram) src t (reg s) (reg s')
  | SReap => exists t, reading t /\ forall id, sessions s' !! id =
      x ← sessions s !! id; (if lastSeen x <? t - sessionTimeout then None else Some x)
  | _ => reg s' = reg s
  end.
Proof.
  intros Hc Hr Ho E. pose proof (server_step_post _ _ _ _ _ Hc Hr Ho E) as Hp.
  destruct o as [| |ch|pkt|bufs ep|[[dgram src]|]|id| |k l| |]; try exact Hp.
  destruct Hp as (t & Ht & ->). exists t. split; [done|]. apply reg_after_received, Forall_take. by eapply Ho.
Qed.

(** C13: A session is opened only by its client: in every run, a step after
    which a new session is there is the receipt of a datagram that is, tag
    included, the encoding of a HELLO for that session, by that client, with a
    timestamp inside the replay window; and the session starts with one path,
    the datagram's, at the address it came from. *)
Theorem session_opened es s o s' es' id c ads :
  cfg_ok cfg -> server_run es s -> server_op_ok o -> server_exec o s = Ret (s', es', tt) ->
  reg s !! id = None -> reg s' !! id = Some (c, ads) ->
  exists dgram src t hh m, o = SRx (Some (dgram, src)) /\ reading t /\
    hello_in (take SlabSize dgram) t hh m /\
    heSession m = id /\ ClientID m = c /\ ads = {[hPathID hh := src]}.
Proof.
  intros Hc Hr Ho E Hn Hs.
  destruct (server_change _ _ _ _ _ Hc Hr Ho E) as [Heq|[(t & _ & _ & Hre)|(dgram & src & t & -> & Ht & Hch)]].
  - congruence.
  - destruct (reaped_lookup _ _ _ id Hre) as [|[]]; congruence.
  - destruct Hch as [|d Hd|hh m Hm|hh m Hm|hb m Hm]; [congruence|..]; revert Hs;
      rewrite ?touch_lookup, ?hello_lookup, ?bye_lookup, Hn; case_decide as Hid; try done.
    intros [= <- <-]. exists dgram, src, t, hh, m. by rewrite Hid.
Qed.

(** C14: A session belongs to the client that opened it until it ends, and it
    ends in one of two ways: a step keeps its client id, or removes it, and
    then it is a reaper tick that found it idle for more than five minutes, or
    the receipt of a datagram that is, tag included, the encoding of a BYE for
    that session with a timestamp inside the replay window, which names the
    last path the session had. *)
Theorem session_closed es s o s' es' id c ads :
  cfg_ok cfg -> server_run es s -> server_op_ok o -> server_exec o s = Ret (s', es', tt) ->
  reg s !! id = Some (c, ads) ->
  match reg s' !! id with
  | Some (c', _) => c' = c
  | None =>
      (exists t x, o = SReap /\ reading t /\ sessions s !! id = Some x /\ lastSeen x < t - sessionTimeout) \/
      (exists dgram src t hb m, o = SRx (Some (dgram, src)) /\ reading t /\
         bye_in (take SlabSize dgram) t hb m /\ bySession m = id /\ delete (hPathID hb) ads = ∅)
  end.
Proof.
  intros Hc Hr Ho E Hs.
  destruct (server_change _ _ _ _ _ Hc Hr Ho E) as [Heq|[(t & -> & Ht & Hre)|(dgram & src & t & -> & Ht & Hch)]].
  - by rewrite Heq, Hs.
  - destruct (reaped_lookup _ _ _ id Hre) as [Heq|[-> (x & Hx & Hl)]]; [by rewrite Heq, Hs|].
    left. by exists t, x.
  - destruct Hch as [|d Hd|hh m Hm|hh m Hm|hb m Hm]; [by rewrite Hs|..];
      rewrite ?touch_lookup, ?hello_lookup, ?bye_lookup, Hs; case_decide as Hid; try done.
    cbn. case_decide as Hz; [|done]. right. exists dgram, src, t, hb, m.
    apply map_size_empty_iff in Hz. by rewrite Hid.
Qed.

(** The datagrams that move a path, exactly: DATA (which carries no tag), and
    what is, tag included, the encoding of a PROBE (of any age) or of a fresh
    HELLO by the session's client. *)
Theorem path_moved_exact es s o s' es' id c c' ads ads' pid a :
  cfg_ok cfg -> server_run es s -> server_op_ok o -> server_exec o s = Ret (s', es', tt) ->
  reg s !! id = Some (c, ads) -> reg s' !! id = Some (c', ads') ->
  ads' !! pid = Some a -> ads !! pid <> Some a ->
  exists dgram t, o = SRx (Some (dgram, a)) /\ reading t /\
    ((exists d, data_in (take SlabSize dgram) d /\ dSession d = id /\ hPathID (dHeader d) = pid) \/
     (exists hh m, probe_in (take SlabSize dgram) hh m /\ prSession m = id /\ hPathID hh = pid) \/
     (exists hh m, hello_in (take SlabSize dgram) t hh m /\ heSession m = id /\ ClientID m = c /\
        hPathID hh = pid)).
Proof.
  intros Hc Hr Ho E Hs Hs' Ha Hna.
  assert (Hin : forall p src ads0, ads0 = <[p := src]> ads -> ads0 !! pid = Some a -> p = pid /\ src = a).
  { intros p src ads0 -> Hl. apply lookup_insert_Some in Hl as [?|[_ ?]]; [done|congruence]. }
  destruct (server_change _ _ _ _ _ Hc Hr Ho E) as [Heq|[(t & -> & Ht & Hre)|(dgram & src & t & -> & Ht & Hch)]].
  - congruence.
  - destruct (reaped_lookup _ _ _ id Hre) as [Heq|[Heq _]]; congruence.
  - exists dgram, t. destruct Hch as [|d Hd|hh m Hm|hh m Hm|hb m Hm]; [congruence|..]; revert Hs';
      rewrite ?touch_lookup, ?hello_lookup, ?bye_lookup, Hs; case_decide as Hid; try congruence.
    + intros [= _ <-]. destruct (Hin _ _ _ eq_refl Ha) as [? <-]. split_and!; [done..|]. left. eauto.
    + intros [= _ <-]. destruct (Hin _ _ _ eq_refl Ha) as [? <-]. split_and!; [done..|].
      right; left. eauto.
    + destruct (Z.eqb_spec c (ClientID m)) as [Hcl|_]; [|congruence].
      intros [= _ <-]. destruct (Hin _ _ _ eq_refl Ha) as [? <-]. split_and!; [done..|].
      right; right. exists hh, m. by rewrite Hid.
    + cbn. case_decide; [done|]. intros [= _ <-]. apply lookup_delete_Some in Ha as [_ Ha]. done.
Qed.

(** A session that stays keeps its client. *)
Lemma client_kept es s o s' es' id c c' ads ads' :
  cfg_ok cfg -> server_run es s -> server_op_ok o -> server_exec o s = Ret (s', es', tt) ->
  reg s !! id = Some (c, ads) -> reg s' !! id = Some (c', ads') -> c' = c.
Proof.
  intros Hc Hr Ho E Hs.
  destruct (server_change _ _ _ _ _ Hc Hr Ho E) as [Heq|[(t & -> & Ht & Hre)|(dgram & src & t & -> & Ht & Hch)]].
  - rewrite Heq. congruence.
  - destruct (reaped_lookup _ _ _ id Hre) as [->|[-> _]]; congruence.
  - destruct Hch as [|d Hd|hh m Hm|hh m Hm|hb m Hm]; [congruence|..];
      rewrite ?touch_lookup, ?hello_lookup, ?bye_lookup, Hs; case_decide as Hid; cbn; try congruence.
    case_decide; congruence.
Qed.

(** C15: Where the server sends a path's traffic: a path of a session gets a
    new address only from the receipt of a valid datagram that names that
    session and path (DATA or parity that parses, or a control message whose
    tag verifies, a HELLO or BYE also with a fresh timestamp), the address is
    the one the datagram came from, and the session stays its client's. *)
Theorem path_moved es s o s' es' id c c' ads ads' pid a :
  cfg_ok cfg -> server_run es s -> server_op_ok o -> server_exec o s = Ret (s', es', tt) ->
  reg s !! id = Some (c, ads) -> reg s' !! id = Some (c', ads') ->
  ads' !! pid = Some a -> ads !! pid <> Some a ->
  c' = c /\ exists dgram t, o = SRx (Some (dgram, a)) /\ reading t /\ valid (take SlabSize dgram) t id pid.
Proof.
  intros Hc Hr Ho E Hs Hs' Ha Hna. pose proof (server_step_post _ _ _ _ _ Hc Hr Ho E) as Hp.
  pose proof (client_kept _ _ _ _ _ _ _ _ _ _ Hc Hr Ho E Hs Hs') as ->. split; [done|].
  destruct o as [| |ch|pkt|bufs ep|[[dgram src]|]|i| |k l| |]; cbn [server_post] in Hp; try congruence.
  - destruct Hp as (t & Ht & Er). exists dgram, t. rewrite Er in Hs'.
    assert (Hb : is_bytes (take SlabSize dgram)) by (apply Forall_take; by eapply Ho).
    destruct (rcv_addr _ _ _ _ _ (reg_after_received _ src t (reg s) Hb) _ _ _ _ _ pid Hs Hs') as [?|[Hv [Hd|Hd]]];
      [congruence| |congruence]. split_and!; [congruence|done|done].
  - destruct Hp as (t & _ & Hre). destruct (reaped_lookup _ _ _ id Hre) as [?|[? _]]; congruence.
Qed.

End Spec.
