(* ===== verification/ClientCarry.v ===== *)
(** * What the client puts on the wire

    Every datagram a client writes, in any run, is a control message of its
    own, DATA around a ciphertext it was given, or parity of its FEC groups;
    and the FEC stamps and parity are those of one run of the encoder. *)

From stdpp Require Import strings.
From S2P Require Import Prelude Wire Control Float64 Sched Link PathSelect Fec FecSpec FecSound.
From S2P Require Import Classify Reorder Wgbridge Engine EngineLogic Client ClientSafe ClientSend.
#[local] Open Scope Z_scope.

Section Carry.
Context `{Rounding} `{Blake2s} {C : ReedSolomon} {CL : ReedSolomonLaws C} `{MapOrder} `{World} `{!WorldLaws _}.
Context (cfg : Config).
Context (ok : list Z -> Prop).
Context (ok_len : forall ct, ok ct -> (length ct + DataHeaderFECSize <= SlabSize)%nat).
Context (Hsession : is_u32 (cfgSession cfg)).

(** ** Datagrams *)

Definition is_control (h : Header) : Prop :=
  0 <= hType h <= maxType /\ hType h <> TypeData /\ hType h <> TypeFEC.

(** The three kinds of datagram; [fs] are the stamped packets and parity
    shards of the encoder. *)
Inductive legit (fs : list datagram) : list Z -> Prop :=
  | legit_data d ct : wf_data d -> dSession d = cfgSession cfg -> ok ct ->
      (hasFEC (dHeader d) = true -> DataPkt (dFECGroup d) (dFECIndex d) (dGlobalSeq d, ct) ∈ fs) ->
      legit fs (data_bytes d ++ ct)
  | legit_fec f shard : wf_fec f -> fShardLen f = Z.of_nat (length shard) -> fSession f = cfgSession cfg ->
      ParityPkt (fGroup f) (fIndex f) (fK f) (fM f) shard ∈ fs ->
      (FECHeaderSize + length shard <= SlabSize)%nat ->
      legit fs (fec_bytes f ++ shard)
  | legit_control h rest : is_control h -> legit fs (header_bytes h ++ rest).

Definition written (es : list ev) : list (list Z) := (frames es).*2.

Lemma written_app e1 e2 : written (e1 ++ e2) = written e1 ++ written e2.
Proof. unfold written. by rewrite frames_app, fmap_app. Qed.

Lemma legit_more fs fs' b : fs ⊆ fs' -> legit fs b -> legit fs' b.
Proof. intros Hs [d ct ? ? ? Ht|f shard ? ? ? Ht ?|h rest ?]; constructor; auto. Qed.

(** ** Operations that leave the sender's bookkeeping alone *)

Definition sframe (s : Engine) : option Encoder * list (list Z) * list Z := (fecEnc s, pending s, pID <$> paths s).
Definition ids_ok (s : Engine) : Prop := Forall is_u8 (pID <$> paths s).

Definition calm (fs : list datagram) (s : Engine) (es : list ev) (s' : Engine) : Prop :=
  ids_ok s -> sframe s' = sframe s /\ Forall (legit fs) (written es).

Lemma ids_frame s s' : sframe s' = sframe s -> ids_ok s -> ids_ok s'.
Proof. unfold sframe, ids_ok. by intros [= _ _ ->]. Qed.

Lemma calm_refl fs s : calm fs s [] s.
Proof. intros _. by split; [|apply List.Forall_nil]. Qed.

Lemma calm_trans fs s e1 s1 e2 s2 : calm fs s e1 s1 -> calm fs s1 e2 s2 -> calm fs s (e1 ++ e2) s2.
Proof.
  intros Ha Hb Hi. destruct (Ha Hi) as [Hs1 Hl1]. destruct (Hb (ids_frame _ _ Hs1 Hi)) as [Hs2 Hl2].
  split; [congruence|]. rewrite written_app. by apply Forall_app_2.
Qed.

Lemma calm_updPath fs i f : (forall p, pID (f p) = pID p) -> rel (calm fs) (updPath i f).
Proof.
  intros Hf. apply rel_updPath. intros s _. split; [|apply List.Forall_nil]. unfold sframe. cbn. f_equal.
  apply list_eq. intros j. rewrite !list_lookup_fmap. destruct (decide (j = i)) as [->|Hne].
  - rewrite list_lookup_alter_eq. destruct (paths s !! i); [|done]. cbn. by rewrite Hf.
  - by rewrite list_lookup_alter_ne.
Qed.

Section Fixed.
Context (fs : list datagram).

Ltac calm_leaf := intros _; split; [done|apply List.Forall_nil].
Ltac calm_with sub :=
  rel_with (calm_refl fs) (calm_trans fs) ltac:(calm_leaf) ltac:(first [sub | by apply calm_updPath]).
Ltac calm0 := calm_with ltac:(fail).

Lemma calm_count set get n : rel (calm fs) (count set get n).
Proof. unfold count. calm0. Qed.
Lemma calm_now : rel (calm fs) now.
Proof. unfold now. calm0. Qed.
Lemma calm_pollReady d : rel (calm fs) (pollReady d).
Proof. unfold pollReady, activePath. calm_with ltac:(apply calm_now). Qed.
Lemma calm_nowUS : rel (calm fs) nowUS.
Proof. unfold nowUS, now. calm0. Qed.
Lemma calm_txTS : rel (calm fs) txTS.
Proof. unfold txTS, now. calm0. Qed.
Lemma calm_Get : rel (calm fs) Get.
Proof. unfold Get. calm0. Qed.
Lemma calm_Put sl : rel (calm fs) (Put sl).
Proof. unfold Put. calm0. Qed.
Lemma calm_Release p : rel (calm fs) (Release p).
Proof. unfold Release, Put. calm0. Qed.
Lemma calm_pathAt i : rel (calm fs) (pathAt i).
Proof. unfold pathAt. calm0. Qed.
Lemma calm_stripe ix : rel (calm fs) (stripe ix).
Proof. unfold stripe, pathAt. calm0. Qed.
Lemma calm_classifyCt ct : rel (calm fs) (classifyCt ct).
Proof. unfold classifyCt. calm0. Qed.
Lemma calm_inspect pkt : rel (calm fs) (inspect pkt).
Proof. unfold inspect. calm0. Qed.
Lemma calm_nextRt : rel (calm fs) nextRt.
Proof. unfold nextRt. calm0. Qed.
Lemma calm_nextGlobal : rel (calm fs) nextGlobal.
Proof. unfold nextGlobal. calm0. Qed.
Lemma calm_aqm p : rel (calm fs) (aqm p).
Proof. unfold aqm. calm0. Qed.
Lemma calm_dial i : rel (calm fs) (dial i).
Proof. unfold dial, pathAt. calm0. Qed.
Lemma calm_closePath i : rel (calm fs) (closePath i).
Proof. unfold closePath, pathAt. calm0. Qed.
Lemma calm_allPaths : rel (calm fs) allPaths.
Proof. unfold allPaths. calm0. Qed.

(** Writing a datagram of one of the three kinds. *)
Lemma calm_write i b : legit fs b -> rel (calm fs) (write i b).
Proof.
  intros Hb. unfold write. apply (rel_bind _ (calm_trans fs)); [apply calm_pathAt|]. intros p.
  destruct (conn p); [|apply (rel_ret _ (calm_refl fs))].
  apply (rel_bind _ (calm_trans fs)); [apply rel_ask; intros; calm_leaf|]. intros r.
  apply (rel_bind _ (calm_trans fs)); [|intros; apply (rel_ret _ (calm_refl fs))].
  apply rel_tell. intros s _. split; [done|]. by apply List.Forall_cons; [|apply List.Forall_nil].
Qed.

(** ** Control messages *)

Lemma legit_tagged (o : outcome wire_error (list Z)) b h body mac :
  o = Ret b -> o = Ret (AppendTag mac (header_bytes h ++ body)) -> is_control h -> legit fs b.
Proof.
  intros Hb Ho Hh. assert (b = AppendTag mac (header_bytes h ++ body)) as -> by congruence.
  unfold AppendTag. rewrite <- app_assoc. by constructor.
Qed.

Lemma control_hello h m mac ack b : EncodeHello h m mac ack = Ret b -> legit fs b.
Proof. intros E. eapply legit_tagged; [exact E|apply EncodeHello_eq|]. destruct ack; by vm_compute. Qed.
Lemma control_bye h m mac b : EncodeBye h m mac = Ret b -> legit fs b.
Proof. intros E. eapply legit_tagged; [exact E|apply EncodeBye_eq|]. by vm_compute. Qed.
Lemma control_probe h m mac b : EncodeProbe h m mac = Ret b -> legit fs b.
Proof. intros E. eapply legit_tagged; [exact E|apply EncodeProbe_eq|]. by vm_compute. Qed.
Lemma control_ack h m mac b : EncodeProbeAck h m mac = Ret b -> legit fs b.
Proof. intros E. eapply legit_tagged; [exact E|apply EncodeProbeAck_eq|]. by vm_compute. Qed.
Lemma control_ctrl h c mac b : EncodeCtrl h c mac = Ret b -> legit fs b.
Proof. intros E. eapply legit_tagged; [exact E|apply EncodeCtrl_eq|]. by vm_compute. Qed.

(** ** DATA and parity *)

(** A step whose value is known to satisfy [Φ]. *)
Lemma calm_bind {A B} (m : eng A) (f : A -> eng B) (Φ : A -> Prop) :
  rel (calm fs) m -> (forall s s' es a, ids_ok s -> m s = Ret (s', es, a) -> Φ a) ->
  (forall a, Φ a -> rel (calm fs) (f a)) -> rel (calm fs) (m ≫= f).
Proof.
  intros Hm HΦ Hf s s' es b (s1 & e1 & a & e2 & E1 & E2 & ->)%bind_inv Hids.
  exact (calm_trans fs _ _ _ _ _ (Hm _ _ _ _ E1) (Hf a (HΦ _ _ _ _ Hids E1) _ _ _ _ E2) Hids).
Qed.

Lemma pathAt_id s s' es i p : ids_ok s -> pathAt i s = Ret (s', es, p) -> is_u8 (pID p).
Proof.
  unfold pathAt. intros Hids (s1 & e1 & ps & e2 & [= <- <- <-] & (Hp & _)%at_inv & _)%bind_inv.
  unfold ids_ok in Hids. rewrite Forall_lookup in Hids. apply (Hids (Z.to_nat (Z.of_nat i))).
  by rewrite list_lookup_fmap, Hp.
Qed.

Lemma txTS_range s s' es ts : txTS s = Ret (s', es, ts) -> is_u32 ts.
Proof.
  unfold txTS. intros (s1 & e1 & t & e2 & _ & E & _)%bind_inv.
  apply bind_inv in E as (s2 & e3 & t0 & e4 & _ & [= _ _ <-] & _). apply u32_range.
Qed.

Lemma calm_sendDataOn i class dup sq tag ct :
  ok ct -> wf_class class -> is_u32 sq -> tag_ok tag ->
  (tag_on tag = true -> DataPkt (tag_group tag) (tag_index tag) (sq, ct) ∈ fs) ->
  rel (calm fs) (sendDataOn i class dup (cfgSession cfg) sq tag ct).
Proof.
  intros Hok Hc Hsq (Htg & Hti & Hton) Htag. unfold sendDataOn.
  apply (calm_bind _ _ (fun sl => length (sl_mem sl) = SlabSize)); [apply calm_Get|intros; by eapply Get_inv|]. intros sl Hl.
  apply (calm_bind _ _ (fun p => is_u8 (pID p))); [apply calm_pathAt|intros; by eapply pathAt_id|]. intros p Hp.
  apply (rel_bind _ (calm_trans fs)); [by apply calm_updPath|]. intros _.
  apply (calm_bind _ _ is_u32); [apply calm_txTS|intros; by eapply txTS_range|]. intros ts Hts.
  set (d := mkDataHeader _ _ _ _ _ _ _).
  destruct (dataFlags_spec class dup tag Hc) as (Hfl & _ & _ & Hfe).
  assert (Hwf : wf_data d).
  { unfold wf_data, wf_header. cbn. split_and!; try done; try apply u32_range.
    intros Hoff. apply Hton. by rewrite <- Hfe. }
  apply rel_must_bind. intros [mem n] Em.
  destruct (data_frame (sl_mem sl) d ct Hl) as (mem' & Em' & Hm & Hfill). rewrite Em' in Em. injection Em as <- <-.
  apply (rel_bind _ (calm_trans fs)); [|intros _; apply calm_Put]. case_decide as Hfit; [apply calm_count|].
  rewrite Hfill by lia. apply (rel_bind _ (calm_trans fs)).
  - apply calm_write. constructor; [done|done|done|]. intros Hf. apply Htag. by rewrite <- Hfe.
  - intros r. calm_with ltac:(apply calm_count).
Qed.

Lemma calm_clientEmitParity e :
  (forall g i k m s, e = EmitParity g i k m s -> ParityPkt g i k m s ∈ fs /\ in_range (ParityPkt g i k m s)) ->
  rel (calm fs) (clientEmitParity cfg e).
Proof.
  intros He. unfold clientEmitParity. destruct e as [g i k m shard|]; [|apply (rel_ret _ (calm_refl fs))].
  destruct (He _ _ _ _ _ eq_refl) as (Hin & Hg & Hx & Hk & Hm).
  apply (rel_bind _ (calm_trans fs)); [unfold sendablePaths; calm0|]. intros ix. case_decide; [apply (rel_ret _ (calm_refl fs))|].
  apply (rel_bind _ (calm_trans fs)); [apply calm_stripe|]. intros j.
  apply (calm_bind _ _ (fun sl => length (sl_mem sl) = SlabSize)); [apply calm_Get|intros; by eapply Get_inv|]. intros sl Hl.
  apply (calm_bind _ _ (fun p => is_u8 (pID p))); [apply calm_pathAt|intros; by eapply pathAt_id|]. intros p Hp.
  set (f := mkFECHeader _ _ _ _ _ _ _). apply rel_must_bind. intros [mem n] Em.
  destruct (fec_frame (sl_mem sl) f shard Hl) as (mem' & Em' & Hml & Hfill). rewrite Em' in Em. injection Em as <- <-.
  apply (rel_bind _ (calm_trans fs)); [|intros _; apply calm_Put].
  case_decide as Hfit; [apply (rel_ret _ (calm_refl fs))|]. rewrite Hfill by lia.
  rewrite Hml in Hfit. assert (Hfit' : (FECHeaderSize + length shard <= SlabSize)%nat) by lia.
  assert (Hsl : Z.of_nat (length shard) < two16) by (unfold SlabSize in Hfit; lia).
  apply (rel_bind _ (calm_trans fs)).
  - apply calm_write. apply (legit_fec fs (as_fec f)); [|by apply u16_id; mlia|done|done|exact Hfit'].
    unfold wf_fec, wf_header. cbn. split_and!; try done; apply u16_range.
  - intros r. calm_with ltac:(apply calm_count).
Qed.

End Fixed.

(** ** The sender's bookkeeping *)

Definition force_ok (p : Params) : Prop := 0 <= pK p <= 64 /\ 0 <= pM p <= 16.

(** [src n fs s]: the encoder of [s] has sent [fs], and has opened at most
    [n] groups, the staged ciphertext counted as if sent. *)
Record src (n : Z) (fs : list datagram) (s : Engine) : Prop := {
  src_ids : ids_ok s;
  src_pending : Forall ok (pending s);
  src_enc : match fecEnc s with
            | None => fs = []
            | Some e => exists b, FecSound.enc_ok b e fs /\ few e /\
                nextGroup e + Z.of_nat (length (pending s)) <= n
            end;
  src_fs : forall id i p, DataPkt id i p ∈ fs -> ok p.2;
}.

Lemma src_frame n fs s s' : sframe s' = sframe s -> src n fs s -> src n fs s'.
Proof.
  unfold sframe. intros [= Ha Hb Hc] [Hi Hp He Hf].
  constructor; [unfold ids_ok; by rewrite Hc|by rewrite Hb|by rewrite Ha, Hb|done].
Qed.

Lemma src_more n n' fs s : n <= n' -> src n fs s -> src n' fs s.
Proof.
  intros Hn [Hi Hp He Hf]. constructor; try done. destruct (fecEnc s); [|done].
  destruct He as (b & ? & ? & ?). exists b. split_and!; [done|done|lia].
Qed.

(** The outcome of a step: the books moved from [(n, fs)] to [(n', _)]. *)
Definition fed (n' : Z) (fs : list datagram) (es : list ev) (s' : Engine) (fs' : list datagram) : Prop :=
  src n' fs' s' /\ fs ⊆ fs' /\ Forall (legit fs') (written es).

Definition feeds {A} (n n' : Z) (m : eng A) : Prop :=
  forall s s' es a fs, m s = Ret (s', es, a) -> src n fs s -> exists fs', fed n' fs es s' fs'.

Lemma fed_calm {A} (m : eng A) n fs s s' es a :
  rel (calm fs) m -> m s = Ret (s', es, a) -> src n fs s -> fed n fs es s' fs.
Proof.
  intros Hm E Hs. destruct (Hm _ _ _ _ E (src_ids _ _ _ Hs)) as [Hf Hl]. split_and!; [by eapply src_frame|done|done].
Qed.

Lemma feeds_calm {A} (m : eng A) n : (forall fs, rel (calm fs) m) -> feeds n n m.
Proof. intros Hm s s' es a fs E Hs. exists fs. by eapply fed_calm. Qed.

Lemma fed_then n fs e1 s1 fs1 n' e2 s2 fs2 :
  fed n fs e1 s1 fs1 -> fed n' fs1 e2 s2 fs2 -> fed n' fs (e1 ++ e2) s2 fs2.
Proof.
  intros (_ & Hf1 & Hl1) (Hs2 & Hf2 & Hl2). split_and!; [done|by etrans|]. rewrite written_app. apply Forall_app_2; [|done].
  eapply Forall_impl; [|exact Hl1]. intros b. by apply legit_more.
Qed.

Lemma feeds_bind {A B} n1 n2 n3 (m : eng A) (f : A -> eng B) :
  feeds n1 n2 m -> (forall a, feeds n2 n3 (f a)) -> feeds n1 n3 (m ≫= f).
Proof.
  intros Hm Hf s s' es b fs (s1 & e1 & a & e2 & E1 & E2 & ->)%bind_inv Hs.
  destruct (Hm _ _ _ _ _ E1 Hs) as (fs1 & H1'). destruct (Hf a _ _ _ _ _ E2 (proj1 H1')) as (fs2 & H2').
  exists fs2. by eapply fed_then.
Qed.

Lemma feeds_le {A} n n' n'' (m : eng A) : n' <= n'' -> feeds n n' m -> feeds n n'' m.
Proof.
  intros Hn Hm s s' es a fs E Hs. destruct (Hm _ _ _ _ _ E Hs) as (fs' & Hs' & ?). exists fs'. split; [by eapply src_more|done].
Qed.

Lemma feeds_ret {A} n (a : A) : feeds n n (mret a).
Proof. apply feeds_calm. intros fs. apply (rel_ret _ (calm_refl fs)). Qed.

Lemma feeds_must_bind {E A B} n n' (o : outcome E A) (f : A -> eng B) :
  (forall a, o = Ret a -> feeds n n' (f a)) -> feeds n n' (must o ≫= f).
Proof.
  intros Hf s s' es b fs (s1 & e1 & a & e2 & (Ho & -> & ->)%must_inv & E2 & ->)%bind_inv.
  exact (Hf a Ho _ _ _ _ _ E2).
Qed.

Lemma feeds_when n b m : feeds n n m -> feeds n n (when b m).
Proof. destruct b; [done|]. intros _. apply feeds_ret. Qed.

Lemma calm_forEach {A} fs (f : A -> eng unit) l :
  (forall x, x ∈ l -> rel (calm fs) (f x)) -> rel (calm fs) (forEach f l).
Proof.
  induction l as [|x l IH]; intros Hf; cbn [forEach]; [apply (rel_ret _ (calm_refl fs))|].
  apply (rel_bind _ (calm_trans fs)); [apply Hf; by left|]. intros _. apply IH. intros y Hy. apply Hf. by right.
Qed.

(** ** The encoder in the engine *)

(** A step of the encoder. *)
Lemma src_encoder n o enc s fs :
  src n fs s -> fecEnc s = Some enc -> FecSound.op_ok o -> (forall p t, o = EAdd p t -> ok p.2) ->
  n + op_cost o <= two24 ->
  src (n + op_cost o) (fs ++ (enc_step o enc).2) (set_fecEnc (Some (enc_step o enc).1) s) /\
  Forall in_range (fs ++ (enc_step o enc).2).
Proof.
  intros [Hi Hp He Hf] Ee Ho Hok Hn. rewrite Ee in He. destruct He as (b & Hb & Hfew & Hng).
  assert (0 <= op_cost o) by (by destruct o).
  destruct (step_ok b enc fs o Hb Hfew Ho) as (b' & Hb' & Hfew' & Hng'); [change (2 ^ 24) with two24; lia|].
  split; [|apply Hb']. constructor; cbn; try done.
  - exists b'. split_and!; [done|done|lia].
  - intros id i p [Hin|Hin]%elem_of_app; [by eapply Hf|]. apply out_data in Hin as [t ->]. by eapply Hok.
Qed.

(** The parity of a step is legitimate, and sending it changes no book. *)
Lemma fed_parity n fs s evs s' es a :
  forEach (clientEmitParity cfg) evs s = Ret (s', es, a) -> src n fs s -> Forall in_range fs ->
  sent_parity evs ⊆ fs -> fed n fs es s' fs.
Proof.
  intros E Hs Hr Hsub. eapply fed_calm; [|exact E|exact Hs]. apply calm_forEach. intros e He.
  apply calm_clientEmitParity. intros g i k m x ->. apply emit_sent, Hsub in He. split; [done|].
  rewrite list.Forall_forall in Hr. by apply Hr.
Qed.

Lemma feeds_fecAdd n sq ct s s' es tag fs :
  fecAdd cfg sq ct s = Ret (s', es, tag) -> src n fs s -> ok ct -> is_u32 sq -> n + 1 <= two24 ->
  exists fs', fed (n + 1) fs es s' fs' /\ tag_ok tag /\
    (tag_on tag = true -> DataPkt (tag_group tag) (tag_index tag) (sq, ct) ∈ fs').
Proof.
  intros E Hs Hok Hsq Hn. unfold fecAdd in E.
  apply bind_inv in E as (s1 & e1 & enc & e2 & [= <- <- <-] & E & ->). cbn [app].
  destruct (fecEnc s) as [enc|] eqn:Ee.
  2:{ injection E as <- <- <-. exists fs. split; [|split; [apply noTag_ok|done]].
      split_and!; [eapply src_more; [|exact Hs]; lia|done|apply List.Forall_nil]. }
  apply bind_inv in E as (s2 & e3 & t & e4 & E1 & E & ->).
  pose proof (fed_calm now n fs _ _ _ _ (calm_now fs) E1 Hs) as H1'.
  assert (Ee2 : fecEnc s2 = Some enc).
  { destruct (calm_now fs _ _ _ _ E1 (src_ids _ _ _ Hs)) as [[= -> _ _] _]. done. }
  assert (Hop : FecSound.op_ok (EAdd (sq, ct) t)).
  { split; [done|]. apply ok_len in Hok. cbn. unfold SlabSize in Hok. lia. }
  destruct (src_encoder n (EAdd (sq, ct) t) enc s2 fs (proj1 H1') Ee2 Hop) as [Hs2 Hr];
    [by intros p t' [= <- _]|done|].
  cbn [enc_step fst snd] in Hs2, Hr. destruct (Fec.Add sq ct t enc) as [[enc' evs] stamp] eqn:Ea.
  cbn [fst snd] in Hs2, Hr. set (out := sent_data stamp (sq, ct) ++ sent_parity evs) in *.
  apply bind_inv in E as (s3 & e5 & [] & e6 & [= <- <-] & E & ->). cbn [app].
  revert E Hs2. generalize (set_fecEnc (Some enc') s2). intros s3 E Hs3.
  apply bind_inv in E as (s4 & e7 & [] & e8 & E2 & [= <- <- <-] & ->). rewrite app_nil_r.
  exists (fs ++ out). split.
  - eapply fed_then; [exact H1'|]. destruct (fed_parity _ _ _ _ _ _ _ E2 Hs3 Hr) as (? & _ & ?); [set_solver|].
    split_and!; [done|set_solver|done].
  - destruct stamp as [[g i]|]; [|split; [apply noTag_ok|done]].
    assert (Hin : DataPkt g i (sq, ct) ∈ fs ++ out).
    { apply elem_of_app. right. unfold out. cbn. by left. }
    split; [|done]. rewrite list.Forall_forall in Hr. by destruct (Hr _ Hin).
Qed.

(** ** Sending *)

Lemma nextSeq_range (g : Engine -> Z) (f : Engine -> Engine) s s' es (sq : Z) :
  (forall s, is_u32 (g (f s))) -> (_ ← modify f; gets g) s = Ret (s', es, sq) -> is_u32 sq.
Proof. intros Hg (s1 & e1 & [] & e2 & [= <- <-] & [= <- <- <-] & _)%bind_inv. apply Hg. Qed.

Lemma feeds_sendBulk n ix ct : ok ct -> n + 1 <= two24 -> feeds n (n + 1) (sendBulk cfg ix ct).
Proof.
  intros Hok Hn. unfold sendBulk.
  apply (feeds_bind n n); [apply feeds_calm; intros; apply calm_stripe|]. intros i.
  apply (feeds_bind n n); [apply feeds_calm; intros; apply calm_pathAt|]. intros p.
  apply (feeds_bind n n); [apply feeds_calm; intros; apply calm_aqm|]. intros [|].
  { eapply feeds_le; [|apply feeds_calm; intros; apply calm_count]. lia. }
  intros s s' es a fs (s1 & e1 & sq & e2 & E1 & E & ->)%bind_inv Hs.
  assert (Hsq : is_u32 sq) by (eapply nextSeq_range; [|exact E1]; intros; apply u32_range).
  pose proof (fed_calm _ _ _ _ _ _ _ (calm_nextGlobal fs) E1 Hs) as H1'.
  apply bind_inv in E as (s2 & e3 & tag & e4 & E2 & E & ->).
  destruct (feeds_fecAdd n sq ct _ _ _ _ _ E2 (proj1 H1') Hok Hsq Hn) as (fs2 & H2' & Htag & Hin).
  exists fs2. eapply fed_then; [exact H1'|]. eapply fed_then; [exact H2'|].
  eapply fed_calm; [|exact E|apply H2']. apply calm_sendDataOn; [done|by left|done|done|done].
Qed.

Lemma feeds_holdPending n ct : ok ct -> feeds n (n + 1) (holdPending ct).
Proof.
  intros Hok s s' es a fs E Hs. unfold holdPending in E.
  apply bind_inv in E as (s1 & e1 & ps & e2 & [= <- <- <-] & E & ->). exists fs. cbn [app].
  case_decide; injection E as <- <-; (split_and!; [|done|apply List.Forall_nil]).
  { eapply src_more; [|eapply src_frame; [|exact Hs]; done]. lia. }
  destruct Hs as [Hi Hp He Hf]. constructor; try done; cbn.
  - apply Forall_app_2; [done|]. by apply List.Forall_cons; [|apply List.Forall_nil].
  - destruct (fecEnc s); [|done]. destruct He as (b & ? & ? & ?). exists b. rewrite length_app. cbn.
    split_and!; [done|done|lia].
Qed.

Lemma classify_range s s' es ct class :
  inv s -> classifyCt ct s = Ret (s', es, class) -> wf_class class.
Proof. intros Hi E. by destruct (wp_inv _ _ _ _ _ _ E (same_classifyCt s ct Hi)) as (_ & _ & _ & ?). Qed.

Lemma feeds_sendOne n ct : ok ct -> n + 1 <= two24 -> forall s s' es a fs,
  inv s -> sendOne cfg ct s = Ret (s', es, a) -> src n fs s -> exists fs', fed (n + 1) fs es s' fs'.
Proof.
  intros Hok Hn s s' es a fs Hi E Hs. unfold sendOne in E.
  apply bind_inv in E as (s1 & e1 & ix & e2 & [= <- <- <-] & E & ->). cbn [app].
  case_decide; [exact (feeds_holdPending n ct Hok _ _ _ _ _ E Hs)|].
  apply bind_inv in E as (s2 & e3 & class & e4 & E1 & E & ->). pose proof (classify_range _ _ _ _ _ Hi E1) as Hc.
  pose proof (fed_calm _ _ _ _ _ _ _ (calm_classifyCt fs ct) E1 Hs) as H1'.
  assert (Hgo : forall m : eng unit, feeds n (n + 1) m -> m s2 = Ret (s', e4, a) -> exists fs', fed (n + 1) fs (e3 ++ e4) s' fs').
  { intros m Hm Em. destruct (Hm _ _ _ _ _ Em (proj1 H1')) as (fs' & H2'). exists fs'. by eapply fed_then. }
  assert (Hone : forall i dup sq, is_u32 sq -> feeds n n (sendDataOn i class dup (cfgSession cfg) sq noTag ct)).
  { intros i dup sq Hsq. apply feeds_calm. intros fs0. by apply calm_sendDataOn; [| | |apply noTag_ok|]. }
  assert (Hrt : forall (f : Z -> eng unit), (forall sq, is_u32 sq -> feeds n n (f sq)) -> feeds n n (nextRt ≫= f)).
  { intros f Hf s0 s0' es0 a0 fs0 (s3 & e5 & sq & e6 & E3 & E4 & ->)%bind_inv Hs0.
    assert (Hsq : is_u32 sq) by (eapply nextSeq_range; [|exact E3]; intros; apply u32_range).
    pose proof (fed_calm _ _ _ _ _ _ _ (calm_nextRt fs0) E3 Hs0) as H3'.
    destruct (Hf sq Hsq _ _ _ _ _ E4 (proj1 H3')) as (fs' & H4'). exists fs'. by eapply fed_then. }
  assert (Hat : forall (l : list nat) j (f : nat -> eng unit), (forall i, feeds n n (f i)) -> feeds n n (at_ l j ≫= f)).
  { intros l j f Hf. apply (feeds_bind n n); [|done]. apply feeds_calm. intros fs0. apply (rel_at _ (calm_refl fs0)). }
  revert E. destruct (_ && _).
  { apply Hgo. eapply feeds_le; [|apply Hat; intros i; apply Hrt; intros sq Hsq; by apply Hone]. lia. }
  destruct (_ || _); [|apply Hgo; by apply feeds_sendBulk].
  apply Hgo. apply (feeds_bind n n).
  { apply feeds_calm. intros fs0. apply (rel_mapEach _ (calm_refl fs0) (calm_trans fs0)). intros i. apply calm_pathAt. }
  intros ps. destruct (BestPair _) as [first second]. destruct (first <? 0); [by apply feeds_sendBulk|].
  eapply (feeds_le _ n); [lia|]. apply Hrt. intros sq Hsq. apply Hat. intros i.
  apply (feeds_bind n n); [by apply Hone|]. intros _. apply feeds_when, Hat. intros j. by apply Hone.
Qed.

Lemma feeds_clientSend bufs : forall n s s' es a fs,
  Forall ok bufs -> n + Z.of_nat (length bufs) <= two24 -> inv s -> clientSend cfg bufs s = Ret (s', es, a) ->
  src n fs s -> exists fs', fed (n + Z.of_nat (length bufs)) fs es s' fs'.
Proof.
  unfold clientSend. induction bufs as [|ct bufs IH]; intros n s s' es a fs Hok Hn Hi E Hs; cbn [forEach] in E.
  { rewrite Z.add_0_r. exact (feeds_ret n tt _ _ _ _ _ E Hs). }
  apply Forall_cons_iff in Hok as [Hct Hok]. cbn [length] in Hn |- *.
  apply bind_inv in E as (s1 & e1 & [] & e2 & E1 & E & ->).
  destruct (wp_inv _ _ _ _ _ _ E1 (same_sendOne cfg s ct Hi)) as (Hi1 & _).
  destruct (feeds_sendOne n ct Hct ltac:(lia) _ _ _ _ _ Hi E1 Hs) as (fs1 & H1').
  destruct (IH (n + 1) _ _ _ _ fs1 Hok ltac:(lia) Hi1 E (proj1 H1')) as (fs2 & H2').
  exists fs2. replace (n + Z.of_nat (S (length bufs))) with (n + 1 + Z.of_nat (length bufs)) by lia. by eapply fed_then.
Qed.

Lemma feeds_flushPending n s s' es a fs :
  inv s -> n <= two24 -> flushPending cfg s = Ret (s', es, a) -> src n fs s -> exists fs', fed n fs es s' fs'.
Proof.
  intros Hi Hn E Hs. unfold flushPending in E.
  apply bind_inv in E as (s1 & e1 & staged & e2 & [= <- <- <-] & E & ->). cbn [app].
  apply bind_inv in E as (s2 & e3 & [] & e4 & [= <- <-] & E & ->). cbn [app].
  set (k := n - Z.of_nat (length (pending s))).
  assert (Hs2 : src k fs (set_pending [] s)).
  { destruct Hs as [Hids Hp He Hf]. constructor; try done; cbn.
    destruct (fecEnc s); [|done]. destruct He as (b & ? & ? & ?). exists b. unfold k. split_and!; [done|done|lia]. }
  assert (Hi2 : inv (set_pending [] s)) by (destruct Hi; by constructor).
  case_decide as Hl.
  { injection E as <- <- <-. exists fs. split_and!; [eapply src_more; [|exact Hs2]; unfold k; lia|done|apply List.Forall_nil]. }
  destruct (feeds_clientSend (pending s) k _ _ _ _ fs (src_pending _ _ _ Hs) ltac:(unfold k; lia) Hi2 E Hs2) as (fs' & H').
  exists fs'. by replace (k + Z.of_nat (length (pending s))) with n in H' by (unfold k; lia).
Qed.

(** ** Everything else the client does *)

Section Calm.
Context (fs : list datagram).

Ltac calm_with sub :=
  rel_with (calm_refl fs) (calm_trans fs) ltac:(intros _; split; [done|apply List.Forall_nil])
    ltac:(first [sub | by apply calm_updPath]).

Lemma calm_deliver pkt ep : rel (calm fs) (deliver pkt ep).
Proof. unfold deliver. calm_with ltac:(apply calm_Release). Qed.

Lemma calm_onReorder ep e : rel (calm fs) (onReorder ep e).
Proof. unfold onReorder, deliverOrCount. calm_with ltac:(first [apply calm_deliver | apply calm_Release | apply calm_count]). Qed.

Lemma calm_clientReorder f : rel (calm fs) (clientReorder cfg f).
Proof. unfold clientReorder. calm_with ltac:(apply calm_onReorder). Qed.

Lemma calm_clientPush sq pkt : rel (calm fs) (clientPush cfg sq pkt).
Proof. unfold clientPush. calm_with ltac:(first [apply calm_now | apply calm_clientReorder]). Qed.

Lemma calm_clientDecode f : rel (calm fs) (clientDecode cfg f).
Proof. unfold clientDecode, recover. calm_with ltac:(first [apply calm_Get | apply calm_clientPush]). Qed.

Lemma calm_onData i sl n d payload t : rel (calm fs) (onData cfg i sl n d payload t).
Proof.
  unfold onData, deliverOrCount. calm_with ltac:(first [apply calm_txTS | apply calm_count | apply calm_clientDecode
    | apply calm_clientPush | apply calm_deliver]).
Qed.

Lemma calm_onFEC i n dgram t : rel (calm fs) (onFEC cfg i n dgram t).
Proof.
  unfold onFEC. apply (rel_bind _ (calm_trans fs)); [apply (rel_try _ (calm_refl fs))|]. intros r.
  apply (rel_bind _ (calm_trans fs)); [apply (rel_gets _ (calm_refl fs))|]. intros dec.
  destruct r as [[f shard]|], dec; calm_with ltac:(first [apply calm_count | apply calm_clientDecode]).
Qed.

Lemma calm_onProbe i dgram : rel (calm fs) (onProbe cfg i dgram).
Proof.
  unfold onProbe. apply (rel_bind _ (calm_trans fs)); [apply (rel_must _ (calm_refl fs))|].
  intros [[hh pr]|]; [|apply (rel_ret _ (calm_refl fs))]. apply (rel_when _ (calm_refl fs)).
  apply rel_must_bind. intros ack Ea. calm_with ltac:(by apply calm_write; eapply control_ack).
Qed.

Lemma calm_onProbeAck i dgram t : rel (calm fs) (onProbeAck cfg i dgram t).
Proof. unfold onProbeAck. calm_with ltac:(first [apply calm_pathAt | apply calm_nowUS]). Qed.

Lemma calm_onClientCtrl c t : rel (calm fs) (onClientCtrl c t).
Proof. unfold onClientCtrl. calm_with ltac:(fail). Qed.

Lemma calm_helloTick : rel (calm fs) (helloTick cfg).
Proof.
  unfold helloTick. apply (rel_bind _ (calm_trans fs)); [apply calm_now|]. intros t.
  apply (rel_bind _ (calm_trans fs)); [apply calm_allPaths|]. intros ix.
  apply (rel_forEach _ (calm_refl fs) (calm_trans fs)). intros i. unfold helloPath.
  apply (rel_bind _ (calm_trans fs)); [apply calm_pathAt|]. intros p. cbv zeta.
  destruct (_ <? _); [apply (rel_ret _ (calm_refl fs))|].
  apply (rel_bind _ (calm_trans fs)); [by apply calm_updPath|]. intros _.
  apply rel_must_bind. intros dg Ed. calm_with ltac:(by apply calm_write; eapply control_hello).
Qed.

Lemma calm_probeTick k : rel (calm fs) (probeTick cfg k).
Proof.
  unfold probeTick. apply (rel_bind _ (calm_trans fs)); [apply calm_now|]. intros t.
  apply (rel_bind _ (calm_trans fs)); [apply calm_allPaths|]. intros ix.
  apply (rel_forEach _ (calm_refl fs) (calm_trans fs)). intros i. unfold probePath.
  apply (rel_bind _ (calm_trans fs)); [apply calm_pathAt|]. intros p. cbv zeta.
  destruct (negb (registered p)); [calm_with ltac:(apply calm_dial)|].
  destruct (_ && _); [apply (rel_ret _ (calm_refl fs))|]. destruct (OnProbeSent _ _) as [[l sq] x].
  apply (rel_bind _ (calm_trans fs)); [by apply calm_updPath|]. intros _.
  apply (rel_bind _ (calm_trans fs)); [apply calm_nowUS|]. intros us.
  apply rel_must_bind. intros dg Ed.
  calm_with ltac:(first [by apply calm_write; eapply control_probe | apply calm_dial]).
Qed.

Lemma calm_closeClient : rel (calm fs) (closeClient cfg).
Proof.
  unfold closeClient, sendByes, byePath.
  apply (rel_bind _ (calm_trans fs)); [|intros _; calm_with ltac:(first [apply calm_allPaths | apply calm_closePath | apply calm_clientReorder])].
  apply (rel_bind _ (calm_trans fs)); [apply calm_now|]. intros t.
  apply (rel_bind _ (calm_trans fs)); [apply calm_allPaths|]. intros ix.
  apply (rel_forEach _ (calm_refl fs) (calm_trans fs)). intros i.
  apply (rel_bind _ (calm_trans fs)); [apply calm_pathAt|]. intros p. apply (rel_when _ (calm_refl fs)).
  apply rel_must_bind. intros dg Ed. calm_with ltac:(by apply calm_write; eapply control_bye).
Qed.

Lemma calm_wgRecv ch : rel (calm fs) (wgRecv ch).
Proof. unfold wgRecv. calm_with ltac:(apply calm_Release). Qed.

Lemma calm_bindOpen : rel (calm fs) bindOpen.
Proof. unfold bindOpen. calm_with ltac:(fail). Qed.

Lemma calm_bindClose : rel (calm fs) bindClose.
Proof. unfold bindClose. calm_with ltac:(fail). Qed.

Lemma calm_clientTimer : rel (calm fs) (clientTimer cfg).
Proof. unfold clientTimer. calm_with ltac:(first [apply calm_now | apply calm_clientReorder]). Qed.

Lemma calm_reportPath i : rel (calm fs) (reportPath i).
Proof. unfold reportPath. calm_with ltac:(apply calm_pathAt). Qed.

End Calm.

(** ** Steps that touch the books *)

Lemma feeds_fecFlushTick n : n <= two24 -> feeds n n (fecFlushTick cfg).
Proof.
  intros Hn. unfold fecFlushTick. apply (feeds_bind n n); [apply feeds_calm; intros; apply calm_now|]. intros t.
  intros s s' es a fs (s1 & e1 & enc & e2 & [= <- <- <-] & E & ->)%bind_inv Hs. cbn [app].
  destruct (fecEnc s) as [enc|] eqn:Ee; [|done].
  destruct (src_encoder n (EFlush t) enc s fs Hs Ee I) as [Hs2 Hr]; [done|cbn; lia|].
  cbn [enc_step op_cost] in Hs2, Hr. rewrite Z.add_0_r in Hs2. destruct (Fec.Flush t enc) as [enc' evs].
  cbn [fst snd] in Hs2, Hr. apply bind_inv in E as (s2 & e3 & [] & e4 & [= <- <-] & E & ->). cbn [app].
  exists (fs ++ sent_parity evs). destruct (fed_parity _ _ _ _ _ _ _ E Hs2 Hr) as (? & _ & ?); [set_solver|].
  split_and!; [done|set_solver|done].
Qed.

Lemma PickParams_range loss : force_ok (PickParams loss).
Proof. unfold PickParams, force_ok. repeat destruct (Qltb _ _); cbn; lia. Qed.

Lemma feeds_retune n snaps : n <= two24 -> force_ok (cfgFECForce cfg) ->
  feeds n n (modify (fun s => set_fecEnc (retuneFEC cfg (fecEnc s) snaps) s)).
Proof.
  intros Hn Hf s s' es a fs [= <- <- _] Hs. exists fs. split_and!; [|done|apply List.Forall_nil].
  destruct (fecEnc s) as [enc|] eqn:Ee; cbn [retuneFEC].
  - set (p := if pK (cfgFECForce cfg) =? 0 then _ else _).
    assert (Hp : force_ok p) by (unfold p; destruct (_ =? 0); [apply PickParams_range|done]).
    destruct (src_encoder n (ESet p) enc s fs Hs Ee Hp) as [Hs2 _]; [done|cbn; lia|].
    cbn [enc_step op_cost fst snd] in Hs2. by rewrite Z.add_0_r, app_nil_r in Hs2.
  - eapply src_frame; [|exact Hs]. unfold sframe. cbn. by rewrite Ee.
Qed.

Lemma feeds_ctrlTick n l : n <= two24 -> force_ok (cfgFECForce cfg) -> feeds n n (ctrlTick cfg l).
Proof.
  intros Hn Hf. unfold ctrlTick.
  apply (feeds_bind n n); [apply feeds_calm; intros; apply calm_now|]. intros t.
  apply (feeds_bind n n); [apply feeds_calm; intros fs; apply (rel_gets _ (calm_refl fs))|]. intros rx.
  destruct (_ && _); [apply feeds_ret|]. cbv zeta.
  apply (feeds_bind n n); [apply feeds_calm; intros; apply calm_allPaths|]. intros ix.
  apply (feeds_bind n n).
  { apply feeds_calm. intros fs. apply (rel_mapEach _ (calm_refl fs) (calm_trans fs)). intros i. apply calm_reportPath. }
  intros rs. case_decide; [apply feeds_ret|].
  apply (feeds_bind n n); [apply feeds_calm; intros fs; apply (rel_gets _ (calm_refl fs))|]. intros [b|]; [|apply feeds_ret].
  apply (feeds_bind n n); [apply feeds_calm; intros; apply calm_pathAt|]. intros bp.
  apply feeds_must_bind. intros dg Ed.
  apply (feeds_bind n n); [apply feeds_calm; intros fs; by apply calm_write; eapply control_ctrl|]. intros _.
  apply (feeds_bind n n); [apply feeds_calm; intros fs; apply (rel_gets _ (calm_refl fs))|]. intros ps.
  apply (feeds_bind n n).
  { apply feeds_when, feeds_when, feeds_calm. intros fs. apply rel_modify. intros s _. by split; [|apply List.Forall_nil]. }
  intros _. apply (feeds_bind n n); [by apply feeds_when, feeds_retune|]. intros _. apply feeds_ret.
Qed.

Lemma feeds_AddPath n name : feeds n n (AddPath name).
Proof.
  unfold AddPath. apply (feeds_bind n n); [apply feeds_calm; intros; apply calm_now|]. intros t.
  apply (feeds_bind n n); [apply feeds_calm; intros fs; apply (rel_gets _ (calm_refl fs))|]. intros i.
  apply (feeds_bind n n); [|intros _; apply feeds_calm; intros; apply calm_dial].
  intros s s' es a fs [= <- <- _] [Hi Hp He Hf]. exists fs. split_and!; [|done|apply List.Forall_nil].
  constructor; try done. unfold ids_ok in *. cbn. rewrite fmap_app. apply Forall_app_2; [done|].
  apply List.Forall_cons; [apply u8_range|apply List.Forall_nil].
Qed.

Lemma pathAt_same s s' es i p : pathAt i s = Ret (s', es, p) -> s' = s /\ es = [].
Proof. unfold pathAt. intros (s1 & e1 & ps & e2 & [= <- <- <-] & (_ & _ & -> & ->)%at_inv & ->)%bind_inv. done. Qed.

Lemma feeds_onHelloAck n i dgram t s s' es a fs :
  inv s -> n <= two24 -> onHelloAck cfg i dgram t s = Ret (s', es, a) -> src n fs s ->
  exists fs', fed n fs es s' fs'.
Proof.
  intros Hi Hn E Hs. unfold onHelloAck in E.
  apply bind_inv in E as (s1 & e1 & r & e2 & (_ & -> & ->)%must_inv & E & ->). cbn [app].
  destruct r as [[hh m]|]; [|exact (feeds_ret n tt _ _ _ _ _ E Hs)].
  apply bind_inv in E as (s1 & e1 & p & e3 & (-> & ->)%pathAt_same & E & ->). cbn [app].
  destruct (_ && _); [|exact (feeds_ret n tt _ _ _ _ _ E Hs)]. cbn [when] in E.
  apply bind_inv in E as (s2 & e4 & [] & e5 & E1 & E & ->).
  destruct (updPath_inv _ _ _ _ _ _ E1) as (_ & _ & Hlt).
  destruct (wp_inv _ _ _ _ _ _ E1 (trip_register s i true (set_registered true) Hlt (fun _ => conj eq_refl (conj eq_refl eq_refl)) Hi)) as (Hi2 & _).
  pose proof (fed_calm _ n fs _ _ _ _ (calm_updPath fs i (set_registered true) (fun _ => eq_refl)) E1 Hs) as H1'.
  apply bind_inv in E as (s3 & e6 & [] & e7 & E2 & E3 & ->).
  assert (H2' : exists fs2, fed n fs e6 s3 fs2).
  { destruct (negb (registered p)); cbn [when] in E2; [|exact (feeds_ret n tt _ _ _ _ _ E2 (proj1 H1'))].
    exact (feeds_flushPending n _ _ _ _ fs Hi2 Hn E2 (proj1 H1')). }
  destruct H2' as (fs2 & H2').
  pose proof (fed_calm _ n fs2 _ _ _ _ (calm_updPath fs2 i (set_lastRxNano t) (fun _ => eq_refl)) E3 (proj1 H2')) as H3'.
  exists fs2. eapply fed_then; [exact H1'|]. by eapply fed_then.
Qed.

Lemma feeds_handleClientDatagram n i sl k s s' es a fs :
  inv s -> n <= two24 -> handleClientDatagram cfg i sl k s = Ret (s', es, a) -> src n fs s ->
  exists fs', fed n fs es s' fs'.
Proof.
  intros Hi Hn E Hs. unfold handleClientDatagram in E.
  apply bind_inv in E as (s1 & e1 & dgram & e2 & (_ & -> & ->)%must_inv & E & ->). cbn [app].
  apply bind_inv in E as (s1 & e1 & h & e3 & E1 & E & ->).
  assert (Ht : s1 = s /\ e1 = []) by (destruct (ParseHeader dgram); [..|done]; by injection E1 as <- <- _).
  destruct Ht as [-> ->]. cbn [app]. clear E1.
  assert (Hbad : feeds n n (_ ← count set_RxDropMalformed RxDropMalformed 1; Put sl)).
  { apply feeds_calm. intros fs0. apply (rel_bind _ (calm_trans fs0)); [apply calm_count|intros _; apply calm_Put]. }
  destruct h as [h|]; [|exact (Hbad _ _ _ _ _ E Hs)].
  apply bind_inv in E as (s2 & e4 & t & e5 & E1 & E & ->).
  destruct (wp_inv _ _ _ _ _ _ E1 (same_now s Hi)) as (Hi2 & _).
  pose proof (fed_calm _ _ _ _ _ _ _ (calm_now fs) E1 Hs) as H1'. destruct H1' as (Hs2 & Hr).
  assert (Hgo : (exists fs', fed n fs e5 s' fs') -> exists fs', fed n fs (e4 ++ e5) s' fs').
  { intros (fs' & H2'). exists fs'. eapply fed_then; [|exact H2']. by split. }
  apply Hgo. clear Hgo Hr E1. destruct (hType h =? TypeData).
  { refine (feeds_bind n n n _ _ _ _ _ _ _ _ _ E Hs2).
    - apply feeds_calm. intros fs0. apply (rel_try _ (calm_refl fs0)).
    - intros [[d payload]|]; [|done]. destruct (negb _); [done|]. apply feeds_calm. intros fs0. apply calm_onData. }
  apply bind_inv in E as (s3 & e6 & [] & e7 & E2 & E3 & ->).
  assert (H2' : exists fs2, fed n fs e6 s3 fs2).
  { revert E2. destruct (hType h =? TypeFEC); [intros E2; exists fs; eapply fed_calm; [apply calm_onFEC|done|done]|].
    destruct (hType h =? TypeProbe); [intros E2; exists fs; eapply fed_calm; [apply calm_onProbe|done|done]|].
    destruct (hType h =? TypeProbeAck); [intros E2; exists fs; eapply fed_calm; [apply calm_onProbeAck|done|done]|].
    destruct (hType h =? TypeCtrl).
    { intros E2. exists fs. eapply fed_calm; [|done|done]. apply (rel_bind _ (calm_trans fs)); [apply (rel_must _ (calm_refl fs))|].
      intros [[? c]|]; [|apply (rel_ret _ (calm_refl fs))]. apply (rel_when _ (calm_refl fs)), calm_onClientCtrl. }
    destruct (hType h =? TypeHelloAck); [intros E2; by eapply feeds_onHelloAck|].
    intros E2. exact (feeds_ret n tt _ _ _ _ _ E2 Hs2). }
  destruct H2' as (fs2 & H2'). exists fs2. eapply fed_then; [exact H2'|].
  eapply fed_calm; [apply calm_Put|exact E3|apply H2'].
Qed.

Lemma feeds_clientRx n i r s s' es a fs :
  inv s -> n <= two24 -> clientRx cfg i r s = Ret (s', es, a) -> src n fs s -> exists fs', fed n fs es s' fs'.
Proof.
  intros Hi Hn E Hs. unfold clientRx in E. apply bind_inv in E as (s1 & e1 & sl & e2 & E1 & E & ->).
  destruct (wp_inv _ _ _ _ _ _ E1 (trip_Get s Hi)) as (Hi1 & _).
  pose proof (fed_calm _ _ _ _ _ _ _ (calm_Get fs) E1 Hs) as H1'.
  assert (H2' : exists fs', fed n fs e2 s' fs').
  { destruct r as [dgram|]; [by eapply feeds_handleClientDatagram; [..|apply H1']|].
    exists fs. eapply fed_calm; [apply calm_Put|exact E|apply H1']. }
  destruct H2' as (fs' & H2'). exists fs'. by eapply fed_then.
Qed.

(** ** Runs *)

(** The ciphertext an operation is given. *)
Definition op_sends (o : client_op) : list (list Z) := match o with CSend bufs => bufs | _ => [] end.

Lemma feeds_exec n o s s' es a fs :
  inv s -> Forall ok (op_sends o) -> n + Z.of_nat (length (op_sends o)) <= two24 -> force_ok (cfgFECForce cfg) ->
  client_exec cfg o s = Ret (s', es, a) -> src n fs s ->
  exists fs', fed (n + Z.of_nat (length (op_sends o))) fs es s' fs'.
Proof.
  intros Hi Hok Hn Hf E Hs.
  assert (Hthen : forall A (m : eng A), feeds n n m -> feeds n n (_ ← m; mret tt)).
  { intros A m Hm. apply (feeds_bind n n); [done|]. intros _. apply feeds_ret. }
  destruct o as [| |ch|pkt|bufs|name|i r| | | |k|l| |d]; cbn [client_exec op_sends length] in *;
    change (Z.of_nat 0) with 0 in *; rewrite ?Z.add_0_r in *; revert E Hs.
  - intros. exists fs. eapply fed_calm; [apply calm_bindOpen|done|done].
  - intros. exists fs. eapply fed_calm; [apply calm_bindClose|done|done].
  - intros E Hs. refine (Hthen _ _ _ _ _ _ _ _ E Hs). apply feeds_calm. intros. apply calm_wgRecv.
  - intros. exists fs. eapply fed_calm; [apply calm_inspect|done|done].
  - intros. by eapply feeds_clientSend.
  - intros E Hs. exact (Hthen _ _ (feeds_AddPath n name) _ _ _ _ _ E Hs).
  - intros. by eapply feeds_clientRx.
  - intros. exists fs. eapply fed_calm; [apply calm_clientTimer|done|done].
  - intros E Hs. exact (feeds_fecFlushTick n Hn _ _ _ _ _ E Hs).
  - intros. exists fs. eapply fed_calm; [apply calm_helloTick|done|done].
  - intros. exists fs. eapply fed_calm; [apply calm_probeTick|done|done].
  - intros E Hs. exact (Hthen _ _ (feeds_ctrlTick n l Hn Hf) _ _ _ _ _ E Hs).
  - intros. exists fs. eapply fed_calm; [apply calm_closeClient|done|done].
  - intros E Hs. refine (Hthen _ _ _ _ _ _ _ _ E Hs). apply feeds_calm. intros. apply calm_pollReady.
Qed.

Lemma src_New t : force_ok (cfgFECForce cfg) -> src 0 [] (NewEngine cfg t).
Proof.
  intros Hf. constructor; cbn; [apply List.Forall_nil|apply List.Forall_nil| |by intros ? ? ? ?%elem_of_nil].
  destruct (match cfgMode cfg with ModeClient => _ | ModeServer => _ end); [|done].
  destruct enc_new as [He Hfew]. exists ∅. split_and!; [|done|done]. destruct He. by constructor.
Qed.

End Carry.
