(* ===== verification/ServerCarry.v ===== *)
(** * What the server carries

    A server whose datagrams of one session have acceptable contents hands
    only acceptable ciphertext of that session to WireGuard, whatever else
    arrives: the contents of packets are followed through the FEC decoder,
    the resequencing buffer and WireGuard's queue. *)

From S2P Require Import Prelude Wire Control Float64 Sched Link PathSelect Fec FecSpec FecSound.
From S2P Require Import Reorder ReorderInv ReorderTrace ReorderSpec Wgbridge Engine EngineLogic.
From S2P Require Import Server ServerSafe ServerSpec.
#[local] Open Scope Z_scope.

Section Carry.
Context `{Rounding} `{Blake2s} {C : ReedSolomon} {CL : ReedSolomonLaws C} `{MapOrder} `{World} `{!WorldLaws _}.
Context (cfg : Config).

(** [sid] is the session followed, [bk] the book of its sender's FEC groups,
    [ok] what its ciphertext satisfies. *)
Context (sid : Z) (bk : book) (ok : list Z -> Prop).
Context (bk_ok : forall id en p, bk !! id = Some en -> p ∈ en_pkts en -> ok p.2 /\ (length p.2 <= SlabSize)%nat).

(** A datagram the network may bring: if it is DATA of the session, its
    payload is acceptable and any FEC stamp is in the book; if it is parity of
    the session, it is in the book as well. *)
Record fine (dgram : list Z) : Prop := {
  fine_data : forall d payload, ParseDataHeader dgram = Ret (d, payload) -> dSession d = sid ->
    ok payload /\
    (hasFEC (dHeader d) = true -> logged bk (DataPkt (dFECGroup d) (dFECIndex d) (dGlobalSeq d, payload)));
  fine_fec : forall f shard, ParseFEC dgram = Ret (f, shard) -> fSession f = sid ->
    logged bk (ParityPkt (fGroup f) (fIndex f) (fK f) (fM f) shard);
}.

(** ** The invariant *)

Definition carried (id : Z) (p : Packet) : Prop := id = sid -> forall b, Bytes p = Ret b -> ok b.
Definition queued_ok (i : Inbound) : Prop := carried (inEp i) (inPkt i).

Record sess_carry (id : Z) (x : Session) : Prop := {
  sc_id : sID x = id;
  sc_good : good (sReorder x);
  sc_vals : Forall (carried id) (vals (sReorder x));
  sc_dec : id = sid -> forall d, sDec x = Some d -> dec_ok bk d;
}.

Record carry (s : Engine) : Prop := {
  ca_bind : wf_bind (bind s);
  ca_queue : Forall queued_ok (queued (bind s));
  ca_sess : map_Forall sess_carry (sessions s);
}.

Definition ev_ok (e : ev) : Prop :=
  match e with ToWireGuard ep ct => ep = sid -> ok ct | _ => True end.

Definition keeps (s : Engine) (es : list ev) (s' : Engine) : Prop := carry s -> carry s' /\ Forall ev_ok es.

Lemma carry_refl s : keeps s [] s.
Proof. intros Hc. by split; [|apply List.Forall_nil]. Qed.

Lemma carry_trans s e1 s1 e2 s2 : keeps s e1 s1 -> keeps s1 e2 s2 -> keeps s (e1 ++ e2) s2.
Proof. intros Ha Hb Hc. destruct (Ha Hc) as [Hc1 He1]. destruct (Hb Hc1). split; [done|by apply Forall_app_2]. Qed.

(** An update of the fields the invariant does not mention, or an event that
    is none of its business. *)
Ltac keeps_leaf :=
  first [ intros [? ? ?]; split; [by constructor|apply List.Forall_nil]
        | intros ?; split; [done|apply List.Forall_cons; [exact I|apply List.Forall_nil]] ].

Lemma map_Forall_alter (P : Z -> Session -> Prop) f id (m : gmap Z Session) :
  map_Forall P m -> (forall x, P id x -> P id (f x)) -> map_Forall P (alter f id m).
Proof.
  intros Hm Hf j x Hj. destruct (decide (id = j)) as [<-|Hne].
  - rewrite lookup_alter_eq in Hj. destruct (m !! id) as [y|] eqn:E; [|done]. injection Hj as <-. by apply Hf, Hm.
  - rewrite lookup_alter_ne in Hj by done. by apply Hm.
Qed.

Lemma keeps_updSess id f : (forall x, sess_carry id x -> sess_carry id (f x)) -> rel keeps (updSess id f).
Proof.
  intros Hf. apply rel_updSess. intros s [? ? ?]. split; [|apply List.Forall_nil]. constructor; cbn; try done.
  by apply map_Forall_alter.
Qed.

(** Most updates of a session leave buffer and decoder alone. *)
Ltac keeps_sess := apply keeps_updSess; intros ? []; by constructor.

Lemma keeps_updPs id pid f : rel keeps (updPs id pid f).
Proof. apply rel_updPs. keeps_sess. Qed.

Lemma keeps_touchPath id pid a t : rel keeps (touchPath id pid a t).
Proof. unfold touchPath. keeps_sess. Qed.

Ltac keeps_with sub :=
  rel_with carry_refl carry_trans ltac:(keeps_leaf)
    ltac:(first [sub | keeps_sess | apply keeps_updPs | apply keeps_touchPath]).
Ltac keeps0 := keeps_with ltac:(fail).

Lemma keeps_count set get n : rel keeps (count set get n).
Proof. unfold count. keeps0. Qed.
Lemma keeps_now : rel keeps now.
Proof. unfold now. keeps0. Qed.
Lemma keeps_nowUS : rel keeps nowUS.
Proof. unfold nowUS, now. keeps0. Qed.
Lemma keeps_txTS : rel keeps txTS.
Proof. unfold txTS, now. keeps0. Qed.
Lemma keeps_Put sl : rel keeps (Put sl).
Proof. unfold Put. keeps0. Qed.
Lemma keeps_Get : rel keeps Get.
Proof. unfold Get. keeps0. Qed.
Lemma keeps_Release p : rel keeps (Release p).
Proof. unfold Release, Put. keeps0. Qed.
Lemma keeps_writeTo a d : rel keeps (writeTo a d).
Proof. unfold writeTo. keeps0. Qed.
Lemma keeps_sessAt id : rel keeps (sessAt id).
Proof. unfold sessAt, lookupSession. keeps0. Qed.
Lemma keeps_psAt id pid : rel keeps (psAt id pid).
Proof. unfold psAt. keeps_with ltac:(apply keeps_sessAt). Qed.
Lemma keeps_alivePaths id t : rel keeps (alivePaths id t).
Proof. unfold alivePaths. keeps_with ltac:(apply keeps_sessAt). Qed.
Lemma keeps_allSessions : rel keeps allSessions.
Proof. unfold allSessions. keeps0. Qed.

(** ** Packets on their way *)

Lemma keeps_events g es : (forall i p, BRecv i p ∈ es -> rel keeps (g p)) ->
  rel keeps (forEach (fun e => match e with BRelease i => Release (inPkt i) | BRecv _ p => g p end) es).
Proof.
  induction es as [|e es IH]; intros Hg; cbn [forEach]; [apply (rel_ret _ carry_refl)|].
  apply (rel_bind _ carry_trans).
  - destruct e as [p|i p]; [apply keeps_Release|]. apply (Hg i). by left.
  - intros _. apply IH. intros i p Hin. apply (Hg i). by right.
Qed.

(** Replacing the bind after one of its steps. *)
Lemma carry_bind s ins es b' :
  carry s -> bind_step (bind s) ins es b' -> Forall queued_ok ins ->
  carry (set_bind b' s) /\ Forall queued_ok (released es).
Proof.
  intros [Hw Hq Hs] Hb Hi. destruct (bind_step_wf _ _ _ _ Hw Hb) as [Hw' Hp].
  assert (Hall : Forall queued_ok (released es ++ queued b')).
  { rewrite <- Hp. by apply Forall_app_2. }
  apply Forall_app in Hall as [Hr Hq']. split; [by constructor|done].
Qed.

Lemma keeps_deliver pkt ep : carried ep pkt -> rel keeps (deliver pkt ep).
Proof.
  intros Hp s s' es a E Hc. unfold deliver in E.
  apply bind_inv in E as (s1 & e1 & b & e2 & [= <- <- <-] & E & ->).
  apply bind_inv in E as (s2 & e3 & [[b' bes] r] & e4 & E1 & E & ->).
  apply must_inv in E1 as (E1 & -> & ->). cbv iota in E.
  apply bind_inv in E as (s3 & e5 & [] & e6 & [= <- <-] & E & ->). cbn [app].
  destruct (carry_bind _ [mkInbound pkt ep] bes b' Hc) as [Hc' _];
    [by eapply bs_deliver|by apply List.Forall_cons; [|apply List.Forall_nil]|].
  revert Hc'. revert E. generalize (set_bind b' s). intros s0 E Hc'.
  apply bind_inv in E as (s4 & e7 & [] & e8 & E & [= <- <- <-] & ->). rewrite app_nil_r.
  assert (Hnr : forall i p, BRecv i p ∈ bes -> rel keeps (mret tt : eng unit)) by (intros; apply (rel_ret _ carry_refl)).
  exact (keeps_events (fun _ => mret tt) bes Hnr _ _ _ _ E Hc').
Qed.

Lemma keeps_deliverOrCount pkt ep : carried ep pkt -> rel keeps (deliverOrCount pkt ep).
Proof.
  intros Hp. unfold deliverOrCount. keeps_with ltac:(first [by apply keeps_deliver | apply keeps_count]).
Qed.

Lemma carry_onReorder ep es : Forall (carried ep) (outs es) -> rel keeps (forEach (onReorder ep) es).
Proof.
  induction es as [|e es IH]; intros Ho; cbn [forEach]; [apply (rel_ret _ carry_refl)|].
  change (e :: es) with ([e] ++ es) in Ho. rewrite outs_app in Ho. apply Forall_app in Ho as [He Hes].
  apply (rel_bind _ carry_trans); [|intros _; by apply IH].
  destruct e as [p l|p|d|]; cbn [onReorder].
  - apply keeps_deliverOrCount. by apply Forall_inv in He.
  - apply keeps_Release.
  - apply rel_tell. intros ?. keeps_leaf.
  - apply rel_tell. intros ?. keeps_leaf.
Qed.

Lemma keeps_serverReorder id o :
  op_ok o -> Forall (carried id) (op_ins o) -> rel keeps (serverReorder id (exec o)).
Proof.
  intros Ho Hin s s' es a E Hc. unfold serverReorder in E.
  apply bind_inv in E as (s1 & e1 & x & e2 & E1 & E & ->).
  apply sessAt_inv in E1 as (-> & -> & Hx). destruct (exec o (sReorder x)) as [b res] eqn:Ex.
  destruct (ca_sess _ Hc _ _ Hx) as [Hid Hg Hv Hd].
  destruct (exec_run (fun _ => 0) _ _ _ _ Ex Hg Ho) as (Hg' & Hp & _).
  assert (Hall : Forall (carried id) (outs res ++ vals b)).
  { rewrite <- Hp. by apply Forall_app_2. }
  apply Forall_app in Hall as [Hout Hvals].
  apply bind_inv in E as (s2 & e3 & [] & e4 & E2 & E & ->).
  assert (Hc2 : carry s2 /\ e3 = []).
  { apply updSess_inv in E2 as (-> & -> & _). split; [|done]. destruct Hc. constructor; cbn; try done.
    intros j y Hj. destruct (decide (id = j)) as [<-|Hne].
    - rewrite lookup_alter_eq, Hx in Hj. injection Hj as <-. by constructor.
    - rewrite lookup_alter_ne in Hj by done. by apply ca_sess0. }
  destruct Hc2 as [Hc2 ->]. cbn [app]. rewrite Hid in E.
  exact (carry_onReorder id res Hout _ _ _ _ E Hc2).
Qed.

Lemma keeps_serverPush id sq pkt : is_u32 sq -> carried id pkt -> rel keeps (serverPush id sq pkt).
Proof.
  intros Hu Hp. unfold serverPush. apply (rel_bind _ carry_trans); [apply keeps_now|]. intros t.
  apply (keeps_serverReorder id (OpPush t sq pkt)); [exact Hu|]. by apply List.Forall_cons; [|apply List.Forall_nil].
Qed.

Lemma keeps_serverTimer id : rel keeps (serverTimer id).
Proof.
  unfold serverTimer, lookupSession. apply (rel_bind _ carry_trans); [apply (rel_gets _ carry_refl)|].
  intros [x|]; [|apply (rel_ret _ carry_refl)]. apply (rel_bind _ carry_trans); [apply keeps_now|]. intros t.
  apply (keeps_serverReorder id (OpTimer t)); [done|apply List.Forall_nil].
Qed.

(** ** FEC *)

Lemma Get_shape s s' es sl : Get s = Ret (s', es, sl) -> length (sl_mem sl) = SlabSize.
Proof.
  unfold Get. intros (s1 & e1 & a & e2 & [= <- <- <-] & E & _)%bind_inv.
  apply bind_inv in E as (? & ? & ? & ? & _ & [= _ _ <-] & _). apply garbage_len.
Qed.

(** A repaired packet fits its slab, so nothing of it is lost. *)
Lemma keeps_recover id e : (id = sid -> from_book bk e) ->
  rel keeps (recover (fun sq pkt => serverPush id (u32 sq) pkt) e).
Proof.
  destruct e as [|sq ct]; [intros _; apply (rel_ret _ carry_refl)|]. intros Hfrom.
  intros s s' es a E. cbn [recover] in E. apply bind_inv in E as (s1 & e1 & sl & e2 & E1 & E & ->).
  pose proof (Get_shape _ _ _ _ E1) as Hl. apply (carry_trans _ _ s1); [by apply (keeps_Get _ _ _ _ E1)|].
  eapply keeps_serverPush; [apply u32_range| |exact E]. intros Hid.
  destruct (Hfrom Hid) as (gid & en & Hb & Hin). destruct (bk_ok _ _ _ Hb Hin) as [Hok Hlen]. cbn [snd] in Hok, Hlen.
  rewrite Bytes_copied by lia. by intros ? [= <-].
Qed.

Lemma keeps_serverDecode id f : (id = sid -> forall d, dec_ok bk d -> sound bk (f d)) -> rel keeps (serverDecode id f).
Proof.
  intros Hf s s' es a E Hc. unfold serverDecode in E.
  apply bind_inv in E as (s1 & e1 & x & e2 & E1 & E & ->). apply sessAt_inv in E1 as (-> & -> & Hx).
  destruct (ca_sess _ Hc _ _ Hx) as [Hid Hg Hv Hd].
  destruct (sDec x) as [dec|]; [|injection E as <- <- <-; split; [done|apply List.Forall_nil]].
  destruct (f dec) as [dec' fes] eqn:Ef.
  assert (Hso : id = sid -> sound bk (dec', fes)) by (intros Es; rewrite <- Ef; auto).
  apply bind_inv in E as (s2 & e3 & [] & e4 & E2 & E & ->).
  assert (Hu : rel keeps (updSess id (set_sDec (Some dec')))).
  { apply keeps_updSess. intros y []. constructor; try done. intros Es d' [= <-]. by apply Hso. }
  destruct (Hu _ _ _ _ E2 Hc) as [Hc2 He2].
  cbn [app]. assert (Hr : rel keeps (forEach (recover (fun sq pkt => serverPush id (u32 sq) pkt)) fes)).
  { assert (Hev : forall e, e ∈ fes -> id = sid -> from_book bk e).
    { intros e He Es. destruct (Hso Es) as [_ Hall]. rewrite list.Forall_forall in Hall. by apply Hall. }
    clear -Hev bk_ok WorldLaws0. induction fes as [|e fes IH]; cbn [forEach]; [apply (rel_ret _ carry_refl)|].
    apply (rel_bind _ carry_trans); [apply keeps_recover, Hev; by left|]. intros _. apply IH. intros e' He'. apply Hev. by right. }
  destruct (Hr _ _ _ _ E Hc2). split; [done|by apply Forall_app_2].
Qed.

(** ** Receiving *)

(** The payload, as it sits in the slab. *)
Lemma payload_bytes sl n d payload :
  (n <= length (sl_mem sl))%nat -> take n (sl_mem sl) = data_bytes d ++ payload ->
  Bytes (mkPacket (Some sl) (Len d) (length payload)) = Ret payload.
Proof.
  intros Hn E. pose proof (payload_fits _ _ _ _ E) as Hf. unfold Bytes. cbn [Slab Off PktLen].
  rewrite slice_le by lia. f_equal. rewrite Nat.add_comm, Nat.add_sub.
  rewrite <- (take_drop n (sl_mem sl)), E, <- app_assoc, <- (length_data_bytes d), drop_app_length.
  by rewrite take_app_length.
Qed.

Lemma keeps_onServerData sl n src d payload t :
  wf_data d -> carried (dSession d) (mkPacket (Some sl) (Len d) (length payload)) ->
  (dSession d = sid -> hasFEC (dHeader d) = true -> logged bk (DataPkt (dFECGroup d) (dFECIndex d) (dGlobalSeq d, payload))) ->
  rel keeps (onServerData sl n src d payload t).
Proof.
  intros Hwf Hok Hfec. unfold onServerData.
  assert (Hseq : is_u32 (dGlobalSeq d)) by apply Hwf.
  do 6 (apply (rel_bind _ carry_trans);
    [first [apply keeps_touchPath | apply keeps_txTS | apply keeps_updPs | apply keeps_count | keeps_sess]|intros ?]).
  cbv zeta. destruct (_ =? _).
  - apply (rel_bind _ carry_trans); [|intros _; by apply keeps_serverPush].
    destruct (hasFEC (dHeader d)); [|apply (rel_ret _ carry_refl)]. cbn [when].
    apply keeps_serverDecode. intros Es dec Hdec. apply (receive_sound bk (DataPkt _ _ (_, _)) t dec Hdec). by apply Hfec.
  - intros s s' es r (s1 & e1 & x & e2 & E1 & E & ->)%bind_inv. apply sessAt_inv in E1 as (-> & -> & Hx).
    cbn [app]. intros Hc. pose proof (sc_id _ _ (ca_sess _ Hc _ _ Hx)) as Hid. rewrite Hid in E.
    exact (keeps_deliverOrCount _ _ Hok _ _ _ _ E Hc).
Qed.

Lemma keeps_onServerFEC n dgram t : fine dgram -> rel keeps (onServerFEC n dgram t).
Proof.
  intros Hf. unfold onServerFEC. apply rel_try_bind; [intros [f shard] Ep|keeps0].
  pose proof (fine_fec _ Hf _ _ Ep) as Hl. unfold lookupSession.
  keeps_with ltac:(first [apply keeps_count | apply keeps_serverDecode; intros Es dec Hdec;
    exact (receive_sound bk (ParityPkt _ _ _ _ _) t dec Hdec (Hl Es))]).
Qed.

Lemma keeps_onServerProbe dgram src t : rel keeps (onServerProbe cfg dgram src t).
Proof. unfold onServerProbe, lookupSession. keeps_with ltac:(apply keeps_writeTo). Qed.

Lemma keeps_onServerProbeAck dgram : rel keeps (onServerProbeAck cfg dgram).
Proof. unfold onServerProbeAck, lookupSession. keeps_with ltac:(apply keeps_nowUS). Qed.

Lemma keeps_onServerCtrl dgram t : rel keeps (onServerCtrl cfg dgram t).
Proof. unfold onServerCtrl, lookupSession. keeps0. Qed.

Lemma newSession_carry m : sess_carry (heSession m) (newSession cfg m).
Proof.
  constructor; cbn; [done|apply good_New|by apply List.Forall_nil|].
  intros _ d. destruct (cfgFECDisabled cfg); [done|]. intros [= <-]. apply map_Forall_empty.
Qed.

Lemma keeps_handleHello dgram src : rel keeps (handleHello cfg dgram src).
Proof.
  unfold handleHello, lookupSession.
  keeps_with ltac:(first [apply keeps_writeTo | apply keeps_now | apply keeps_count
    | apply rel_modify; intros ? [? ? ?]; split; [|apply List.Forall_nil]; constructor; cbn; try done;
      apply map_Forall_insert_2; [apply newSession_carry|done] ]).
Qed.

(** Closing a buffer lets out what it held. *)
Lemma close_outs id x : sess_carry id x -> Forall (carried id) (outs (Reorder.Close (sReorder x)).2).
Proof.
  intros [_ Hg Hv _]. destruct (Reorder.Close (sReorder x)) as [b es] eqn:E. cbn [snd].
  destruct (exec_run (fun _ => 0) OpClose _ _ _ E Hg I) as (_ & Hp & _). cbn [op_ins] in Hp. rewrite app_nil_r in Hp.
  rewrite Hp in Hv. by apply Forall_app in Hv as [? _].
Qed.

Lemma keeps_dropSession x id : sess_carry id x -> rel keeps (dropSession x id).
Proof.
  intros Hx. unfold dropSession. apply (rel_bind _ carry_trans).
  - apply rel_modify. intros s [? ? ?]. split; [|apply List.Forall_nil]. constructor; cbn; try done.
    by apply map_Forall_delete.
  - intros _. rewrite (sc_id _ _ Hx). by apply carry_onReorder, close_outs.
Qed.

(** Reading a session that satisfies the invariant. *)
Lemma keeps_lookup {A} id (f : option Session -> eng A) :
  (forall x, sess_carry id x -> rel keeps (f (Some x))) -> rel keeps (f None) ->
  rel keeps (lookupSession id ≫= f).
Proof.
  intros Hs Hn s s' es a (s1 & e1 & o & e2 & [= <- <- <-] & E & ->)%bind_inv Hc. cbn [app].
  destruct (sessions s !! id) as [x|] eqn:Hx; [|by apply (Hn _ _ _ _ E)].
  exact (Hs x (ca_sess _ Hc _ _ Hx) _ _ _ _ E Hc).
Qed.

Lemma keeps_removeSessionPath id pid : rel keeps (removeSessionPath id pid).
Proof.
  unfold removeSessionPath. apply keeps_lookup; [intros x Hx|apply (rel_ret _ carry_refl)].
  apply (rel_bind _ carry_trans); [keeps_sess|]. intros _. apply (rel_when _ carry_refl). by apply keeps_dropSession.
Qed.

Lemma keeps_onBye dgram t : rel keeps (onBye cfg dgram t).
Proof. unfold onBye. keeps_with ltac:(apply keeps_removeSessionPath). Qed.

Lemma keeps_handleServerDatagram sl n src :
  (n <= length (sl_mem sl))%nat -> is_bytes (sl_mem sl) -> fine (take n (sl_mem sl)) ->
  rel keeps (handleServerDatagram cfg sl n src).
Proof.
  intros Hn Hb Hf. unfold handleServerDatagram. set (dg := take n (sl_mem sl)) in *.
  assert (Hdg : is_bytes dg) by by apply Forall_take.
  apply rel_must_bind. intros dg' Edg. rewrite slice_le, drop_0, Nat.sub_0_r in Edg by lia. injection Edg as <-.
  fold dg. apply rel_try_bind; [intros h _|keeps_with ltac:(first [apply keeps_count | apply keeps_Put])].
  apply (rel_bind _ carry_trans); [apply keeps_now|]. intros t. destruct (hType h =? TypeData).
  - apply rel_try_bind; [intros [d payload] Hp|keeps_with ltac:(first [apply keeps_count | apply keeps_Put])].
    pose proof (fine_data _ Hf _ _ Hp) as Hfine. destruct (ParseDataHeader_inv _ _ _ Hdg Hp) as [Hwf E].
    apply keeps_lookup; [intros x _|keeps_with ltac:(first [apply keeps_count | apply keeps_Put])].
    apply keeps_onServerData; [done|intros Es; rewrite (payload_bytes sl n) by done; intros ? [= <-]; by apply Hfine|intros Es; by apply Hfine].
  - keeps_with ltac:(first [by apply keeps_onServerFEC | apply keeps_onServerProbe | apply keeps_onServerProbeAck
      | apply keeps_onServerCtrl | apply keeps_handleHello | apply keeps_onBye | apply keeps_Put]).
Qed.

Lemma Get_bytes s s' es sl : Get s = Ret (s', es, sl) -> is_bytes (sl_mem sl).
Proof.
  unfold Get. intros (s1 & e1 & a & e2 & [= <- <- <-] & E & _)%bind_inv.
  apply bind_inv in E as (? & ? & ? & ? & _ & [= _ _ <-] & _). apply garbage_bytes.
Qed.

Lemma keeps_serverRx r :
  (forall dgram src, r = Some (dgram, src) -> is_bytes dgram /\ fine (take SlabSize dgram)) ->
  rel keeps (serverRx cfg r).
Proof.
  intros Hr. unfold serverRx. intros s s' es a (s1 & e1 & sl & e2 & E1 & E & ->)%bind_inv.
  apply (carry_trans _ _ s1); [by apply (keeps_Get _ _ _ _ E1)|].
  destruct r as [[dgram src]|]; [|by apply (keeps_Put _ _ _ _ _ E)].
  destruct (Hr _ _ eq_refl) as [Hb Hf].
  destruct (readInto_ok sl dgram (Get_shape _ _ _ _ E1) (Get_bytes _ _ _ _ E1) Hb) as (Hn & Hb' & Ht).
  refine (keeps_handleServerDatagram _ _ _ Hn Hb' _ _ _ _ _ E). by rewrite Ht.
Qed.

(** ** Everything else the server does *)

Lemma keeps_stripeTo id pids : rel keeps (stripeTo id pids).
Proof. unfold stripeTo. keeps_with ltac:(first [apply keeps_psAt | apply keeps_sessAt]). Qed.

Lemma keeps_serverSendData id pid class dup sq tag ct : rel keeps (serverSendData id pid class dup sq tag ct).
Proof.
  unfold serverSendData. keeps_with ltac:(first [apply keeps_Get | apply keeps_psAt | apply keeps_sessAt
    | apply keeps_txTS | apply keeps_writeTo | apply keeps_count | apply keeps_Put]).
Qed.

Lemma keeps_serverEmitParity id e : rel keeps (serverEmitParity id e).
Proof.
  unfold serverEmitParity. keeps_with ltac:(first [apply keeps_now | apply keeps_alivePaths | apply keeps_stripeTo
    | apply keeps_Get | apply keeps_psAt | apply keeps_sessAt | apply keeps_writeTo | apply keeps_count | apply keeps_Put]).
Qed.

Lemma keeps_serverBulk id us ct : rel keeps (serverBulk id us ct).
Proof.
  unfold serverBulk, sAqm, sNextGlobal, sFecAdd. keeps_with ltac:(first [apply keeps_stripeTo | apply keeps_psAt
    | apply keeps_sessAt | apply keeps_now | apply keeps_count | apply keeps_serverEmitParity | apply keeps_serverSendData]).
Qed.

Lemma keeps_classifyCt ct : rel keeps (classifyCt ct).
Proof. unfold classifyCt. keeps0. Qed.

Lemma keeps_serverSend bufs ep : rel keeps (serverSend bufs ep).
Proof.
  unfold serverSend, lookupSession, serverSendOne, sNextRt. keeps_with ltac:(first [apply keeps_now | apply keeps_alivePaths
    | apply keeps_psAt | apply keeps_count | apply keeps_classifyCt | apply keeps_sessAt | apply keeps_serverSendData
    | apply keeps_serverBulk]).
Qed.

Lemma keeps_reaperTick : rel keeps reaperTick.
Proof.
  unfold reaperTick. apply (rel_bind _ carry_trans); [apply keeps_now|]. intros t.
  apply (rel_bind _ carry_trans); [apply keeps_allSessions|]. intros ids.
  apply (rel_forEach _ carry_refl carry_trans). intros id. unfold reapOne.
  apply keeps_lookup; [intros x Hx|apply (rel_ret _ carry_refl)]. apply (rel_when _ carry_refl). by apply keeps_dropSession.
Qed.

Lemma keeps_serverFecFlushTick : rel keeps serverFecFlushTick.
Proof.
  unfold serverFecFlushTick, fecFlushOne. keeps_with ltac:(first [apply keeps_now | apply keeps_allSessions
    | apply keeps_sessAt | apply keeps_serverEmitParity]).
Qed.

(** Retuning the hold time moves no packet. *)
Lemma sess_carry_hold id h x : sess_carry id x -> sess_carry id (set_sReorder (SetHold h (sReorder x)) x).
Proof.
  intros [Hid Hg Hv Hd].
  destruct (exec_run (fun _ => 0) (OpSetHold h) _ _ _ eq_refl Hg I) as (Hg' & Hp & _).
  cbn [op_ins exec outs omap list_omap app] in Hp. rewrite app_nil_r in Hp. by constructor.
Qed.

Lemma keeps_controlOne tick t l id : rel keeps (controlOne cfg tick t l id).
Proof.
  unfold controlOne, probeTo, reportTo. keeps_with ltac:(first [apply keeps_alivePaths | apply keeps_psAt | apply keeps_sessAt
    | apply keeps_nowUS | apply keeps_writeTo | apply keeps_updSess; intros ?; apply sess_carry_hold]).
Qed.

Lemma keeps_serverControlTick tick l : rel keeps (serverControlTick cfg tick l).
Proof.
  unfold serverControlTick. apply (rel_bind _ carry_trans); [apply keeps_now|]. intros t.
  apply (rel_bind _ carry_trans); [apply keeps_allSessions|]. intros ids. revert l.
  induction ids as [|id ids IH]; intros l; cbn [controlEach]; [apply (rel_ret _ carry_refl)|].
  apply (rel_bind _ carry_trans); [apply keeps_controlOne|apply IH].
Qed.

Lemma keeps_closeServer : rel keeps closeServer.
Proof.
  unfold closeServer. apply (rel_bind _ carry_trans); [apply keeps_allSessions|]. intros ids.
  apply (rel_forEach _ carry_refl carry_trans). intros id.
  apply (keeps_serverReorder id OpClose); [done|apply List.Forall_nil].
Qed.

(** WireGuard receives, opens and closes. *)
Lemma keeps_wgRecv i : rel keeps (wgRecv i).
Proof.
  intros s s' es a E Hc. unfold wgRecv in E. apply bind_inv in E as (s1 & e1 & b & e2 & [= <- <- <-] & E & ->).
  destruct (recv i (bind s)) as [[[b' bes]| |]|] eqn:Er.
  2,4: injection E as <- <- <-; exact (carry_refl s Hc).
  2: done.
  apply bind_inv in E as (s2 & e3 & [] & e4 & [= <- <-] & E & ->). cbn [app].
  destruct (carry_bind _ [] bes b' Hc) as [Hc' Hrel]; [by eapply bs_recv|apply List.Forall_nil|].
  assert (Hin : forall j p, BRecv j p ∈ bes -> queued_ok p).
  { unfold recv in Er. destruct (heap (bind s) !! i) as [[[|p rest] cl]|]; [by destruct cl| |done].
    injection Er as <- <-. intros j q Hq. cbn in Hrel. apply Forall_inv in Hrel.
    apply elem_of_cons in Hq as [[= <- <-]|[?|?%elem_of_nil]%elem_of_cons]; done. }
  revert E Hc'. generalize (set_bind b' s). intros s0 E Hc'.
  apply bind_inv in E as (s4 & e7 & [] & e8 & E & [= <- <- <-] & ->). rewrite app_nil_r.
  refine (keeps_events (fun p => b ← must (Bytes (inPkt p)); tell (ToWireGuard (inEp p) b)) bes _ _ _ _ _ E Hc').
  intros j p Hjp s3 s3' es3 a3 (s5 & e5 & ct & e6 & (Hb & -> & ->)%must_inv & E5 & ->)%bind_inv.
  revert E5. apply (fun Hm : rel keeps (tell (ToWireGuard (inEp p) ct)) => Hm s3 s3' e6 a3). apply rel_tell. intros s5 Hc5. split; [done|]. apply List.Forall_cons; [|apply List.Forall_nil].
  intros Hep. by apply (Hin _ _ Hjp).
Qed.

Lemma keeps_bindOpen : rel keeps bindOpen.
Proof.
  apply rel_modify. intros s Hc. split; [|apply List.Forall_nil].
  destruct (Open (bind s)) as [b r] eqn:E. by destruct (carry_bind s [] [] b Hc (bs_open _ _ _ E) (List.Forall_nil _)).
Qed.

Lemma keeps_bindClose : rel keeps bindClose.
Proof.
  intros s s' es a (s1 & e1 & b & e2 & [= <- <- <-] & E & ->)%bind_inv Hc.
  apply bind_inv in E as (s2 & e3 & b' & e4 & (E1 & -> & ->)%must_inv & [= <- <-] & ->).
  destruct (carry_bind s [] [] b' Hc (bs_close _ _ E1) (List.Forall_nil _)). by split; [|apply List.Forall_nil].
Qed.

Lemma keeps_inspect pkt : rel keeps (inspect pkt).
Proof. unfold inspect. keeps0. Qed.

(** ** Runs *)

Definition op_fine (o : server_op) : Prop :=
  match o with
  | SRx r => forall dgram src, r = Some (dgram, src) -> is_bytes dgram /\ fine (take SlabSize dgram)
  | _ => True
  end.

Lemma keeps_server_exec o : op_fine o -> rel keeps (server_exec cfg o).
Proof.
  intros Ho. destruct o as [| |ch|pkt|bufs ep|r|id| |k l| |]; cbn [server_exec].
  - apply keeps_bindOpen.
  - apply keeps_bindClose.
  - apply (rel_bind _ carry_trans); [apply keeps_wgRecv|intros _; apply (rel_ret _ carry_refl)].
  - apply keeps_inspect.
  - apply keeps_serverSend.
  - by apply keeps_serverRx.
  - apply keeps_serverTimer.
  - apply keeps_serverFecFlushTick.
  - apply (rel_bind _ carry_trans); [apply keeps_serverControlTick|intros _; apply (rel_ret _ carry_refl)].
  - apply keeps_reaperTick.
  - apply keeps_closeServer.
Qed.

Lemma carry_New t : carry (NewEngine cfg t).
Proof.
  constructor; cbn; [|apply List.Forall_nil|apply map_Forall_empty].
  constructor; cbn; [done|apply List.Forall_nil].
Qed.

End Carry.
