(* ===== verification/Lifecycle.v ===== *)
(** * The life of a client: internal/engine/client.go, [Run] and [WaitReady]

    The goroutines of a client engine: which loops there are, who starts
    them, and what each may rely on when it runs; then [WaitReady], which
    polls while they run. Every life of a client is a run of it, so what is
    proved of runs holds here without their side conditions. *)

From stdpp Require Import strings.
From S2P Require Import Prelude Wire Control Float64 Sched Link PathSelect Fec FecSpec.
From S2P Require Import Classify Reorder ReorderInv ReorderTrace ReorderSpec Wgbridge Engine.
From S2P Require Import EngineLogic Client ClientSafe.
#[local] Open Scope Z_scope.

Section Life.
Context `{Rounding} `{Blake2s} {C : ReedSolomon} `{MapOrder} `{World} `{!WorldLaws _}.
Context (cfg : Config).

(** ** What never goes away *)

(** Paths and the encoder, once there, stay. *)
Definition grows (s : Engine) (_ : list ev) (s' : Engine) : Prop :=
  (is_Some (fecEnc s) -> is_Some (fecEnc s')) /\ (length (paths s) <= length (paths s'))%nat.

Lemma grows_refl s : grows s [] s.
Proof. by split. Qed.
Lemma grows_trans s e1 s1 e2 s2 : grows s e1 s1 -> grows s1 e2 s2 -> grows s (e1 ++ e2) s2.
Proof. intros [? ?] [? ?]. split; [auto|lia]. Qed.

Ltac grows_leaf := split; cbn; [done|rewrite ?length_alter, ?length_app; lia].
Ltac grow sub := rel_with grows_refl grows_trans ltac:(grows_leaf) ltac:(sub).
Ltac grow0 := grow ltac:(fail).

Lemma grows_updPath i f : rel grows (updPath i f).
Proof. apply rel_updPath. intros s. grows_leaf. Qed.
Lemma grows_count set get n : rel grows (count set get n).
Proof. unfold count. grow0. Qed.
Lemma grows_pathAt i : rel grows (pathAt i).
Proof. unfold pathAt. grow0. Qed.

Ltac grow1 := grow ltac:(first [apply grows_updPath | apply grows_count | apply grows_pathAt]).

Lemma grows_stripe ix : rel grows (stripe ix).
Proof. unfold stripe. grow1. Qed.
Lemma grows_write i b : rel grows (write i b).
Proof. unfold write. grow1. Qed.
Lemma grows_dial i : rel grows (dial i).
Proof. unfold dial. grow1. Qed.

Lemma grows_deliverOrCount pkt ep : rel grows (deliverOrCount pkt ep).
Proof. unfold deliverOrCount, deliver, Release, Put. grow1. Qed.

Lemma grows_clientReorder f : rel grows (clientReorder cfg f).
Proof. unfold clientReorder, onReorder, Release, Put. grow ltac:(apply grows_deliverOrCount). Qed.

Lemma grows_clientPush sq pkt : rel grows (clientPush cfg sq pkt).
Proof. unfold clientPush, now. grow ltac:(apply grows_clientReorder). Qed.

Lemma grows_clientDecode f : rel grows (clientDecode cfg f).
Proof. unfold clientDecode, recover, Get. grow ltac:(apply grows_clientPush). Qed.

Ltac grow2 := grow ltac:(first [apply grows_write | apply grows_updPath | apply grows_count | apply grows_pathAt
  | apply grows_stripe | apply grows_dial]).

Lemma grows_sendDataOn i class dup session sq tag ct : rel grows (sendDataOn i class dup session sq tag ct).
Proof. unfold sendDataOn, Get, Put, txTS, now. grow2. Qed.

Lemma grows_clientEmitParity e : rel grows (clientEmitParity cfg e).
Proof. unfold clientEmitParity, sendablePaths, Get, Put. grow2. Qed.

(** The encoder is replaced, never dropped. *)
Lemma grows_setEnc e : rel grows (modify (set_fecEnc (Some e))).
Proof. apply rel_modify. intros s. split; [by eexists|done]. Qed.

Lemma grows_retune snaps : rel grows (modify (fun s => set_fecEnc (retuneFEC cfg (fecEnc s) snaps) s)).
Proof. apply rel_modify. intros s. split; [|done]. cbn. intros [e ->]. by eexists. Qed.

Lemma grows_sendBulk ix ct : rel grows (sendBulk cfg ix ct).
Proof.
  unfold sendBulk, aqm, nextGlobal, fecAdd, now. grow ltac:(first [apply grows_stripe | apply grows_pathAt
    | apply grows_count | apply grows_setEnc | apply grows_clientEmitParity | apply grows_sendDataOn]).
Qed.

Lemma grows_clientSend bufs : rel grows (clientSend cfg bufs).
Proof.
  unfold clientSend, sendOne, sendablePaths, holdPending, nextRt, classifyCt. grow ltac:(first [apply grows_count
    | apply grows_pathAt | apply grows_sendDataOn | apply grows_sendBulk]).
Qed.

Lemma grows_onFEC i n dgram t : rel grows (onFEC cfg i n dgram t).
Proof.
  unfold onFEC. apply (rel_bind _ grows_trans); [apply (rel_try _ grows_refl)|].
  intros [[f shard]|]; grow ltac:(first [apply grows_updPath | apply grows_count | apply grows_clientDecode]).
Qed.

Lemma grows_clientRx i r : rel grows (clientRx cfg i r).
Proof.
  unfold clientRx, handleClientDatagram, onData, onProbe, onProbeAck, onClientCtrl, onHelloAck, flushPending,
    Get, Put, txTS, nowUS, now.
  grow ltac:(first [apply grows_updPath | apply grows_count | apply grows_pathAt | apply grows_write
    | apply grows_onFEC | apply grows_clientDecode | apply grows_clientPush | apply grows_deliverOrCount | apply grows_clientSend]).
Qed.

(** No operation takes a path or the encoder away. *)
Lemma grows_exec o : rel grows (client_exec cfg o).
Proof.
  destruct o; cbn [client_exec];
    unfold bindOpen, bindClose, wgRecv, inspect, AddPath, clientTimer, fecFlushTick, helloTick, helloPath, probeTick,
      probePath, ctrlTick, reportPath, closeClient, sendByes, byePath, closePath, pollReady, activePath, allPaths,
      Release, Get, Put, nowUS, now;
    grow ltac:(first [apply grows_updPath | apply grows_count | apply grows_pathAt | apply grows_write | apply grows_dial
      | apply grows_clientReorder | apply grows_clientEmitParity | apply grows_setEnc | apply grows_retune
      | apply grows_clientSend | apply grows_clientRx]).
Qed.

(** ** The loops *)

(** The goroutines of a client engine. *)
Inductive loop := clientRxLoop (i : nat) | helloLoop | clientProbeLoop | clientCtrlLoop | fecFlushLoop.

#[global] Instance loop_eq_dec : EqDecision loop.
Proof. solve_decision. Defined.

(** The loops [Run] starts. *)
Definition Run (s : Engine) : list loop :=
  match cfgMode cfg with
  | ModeClient =>
      [helloLoop; clientProbeLoop; clientCtrlLoop] ++ match fecEnc s with Some _ => [fecFlushLoop] | None => [] end
  | ModeServer => []
  end.

(** The loop an operation is a turn of; the others are calls of WireGuard, of
    the command, or of a timer. *)
Definition turn_of (o : client_op) : option loop :=
  match o with
  | CRx i _ => Some (clientRxLoop i)
  | CHello => Some helloLoop
  | CProbe _ => Some clientProbeLoop
  | CCtrl _ => Some clientCtrlLoop
  | CFecFlush => Some fecFlushLoop
  | _ => None
  end.

(** What arrives is bytes. *)
Definition arrives_ok (o : client_op) : Prop := forall i dgram, o = CRx i (Some dgram) -> is_bytes dgram.

(** [life ls es s]: an engine in state [s] after the events [es], with the
    loops [ls] started. [AddPath] starts the path's receive loop if it could
    dial, [Run] the others; a loop takes a turn only once it is started. *)
Inductive life : list loop -> list ev -> Engine -> Prop :=
  | life_new t : life [] [] (NewEngine cfg t)
  | life_add ls es s name s' es' ok :
      life ls es s -> AddPath name s = Ret (s', es', ok) ->
      life (ls ++ if ok then [clientRxLoop (length (paths s))] else []) (es ++ es') s'
  | life_run ls es s : life ls es s -> life (ls ++ Run s) es s
  | life_turn ls es s o s' es' :
      life ls es s -> (forall l, turn_of o = Some l -> l ∈ ls) -> arrives_ok o ->
      client_exec cfg o s = Ret (s', es', tt) -> life ls (es ++ es') s'.

(** What a loop relies on without checking: a receive loop its path, the
    flush loop the encoder it calls. *)
Definition relies (l : loop) (s : Engine) : Prop :=
  match l with
  | clientRxLoop i => (i < length (paths s))%nat
  | fecFlushLoop => is_Some (fecEnc s)
  | _ => True
  end.

Lemma relies_grows l s es s' : grows s es s' -> relies l s -> relies l s'.
Proof. intros [He Hp]. destruct l; cbn; [lia|done..|exact He]. Qed.

Lemma AddPath_grows name s s' es ok :
  AddPath name s = Ret (s', es, ok) -> grows s es s' /\ (length (paths s) < length (paths s'))%nat.
Proof.
  unfold AddPath. intros (s1 & e1 & t & e2 & [= <- <- <-] & E & ->)%bind_inv.
  apply bind_inv in E as (s2 & e3 & i & e4 & [= <- <- <-] & E & ->).
  apply bind_inv in E as (s3 & e5 & [] & e6 & [= <- <-] & E & ->).
  destruct (grows_dial _ _ _ _ _ E) as [He Hp]. cbn in He, Hp. rewrite length_app in Hp. cbn in Hp.
  split; [split; [exact He|lia]|lia].
Qed.

Lemma AddPath_exec name s s' es ok :
  AddPath name s = Ret (s', es, ok) -> client_exec cfg (CAddPath name) s = Ret (s', es, tt).
Proof. intros E. cbn [client_exec]. unfold mbind, eng_bind. rewrite E. cbn. by rewrite app_nil_r. Qed.

(** C22: A client's loops never run without what they use. Whatever the order
    in which paths are added, loops are started and take their turns, a
    receive loop that was started has its path, and the flush loop, which
    calls the encoder without checking for it, has an encoder. So the life of
    a client is a run of it: everything proved of runs holds of it. *)
Theorem life_sound ls es s : life ls es s -> client_run cfg es s /\ Forall (fun l => relies l s) ls.
Proof.
  induction 1 as [t|ls es s name s' es' ok _ [Hr Hl] E|ls es s _ [Hr Hl]|ls es s o s' es' _ [Hr Hl] Ht Ha E].
  - split; [constructor|apply List.Forall_nil].
  - destruct (AddPath_grows _ _ _ _ _ E) as [Hg Hlt].
    split; [exact (client_step cfg _ _ (CAddPath name) _ _ Hr I (AddPath_exec _ _ _ _ _ E))|].
    apply Forall_app_2; [eapply list.Forall_impl; [exact Hl|intros l; by apply relies_grows with es']|].
    destruct ok; [|apply List.Forall_nil]. by apply List.Forall_cons; [|apply List.Forall_nil].
  - split; [done|]. apply Forall_app_2; [done|]. unfold Run. destruct (cfgMode cfg); [|apply List.Forall_nil].
    repeat apply List.Forall_cons; try done. destruct (fecEnc s) as [e|] eqn:Ee; [|apply List.Forall_nil].
    apply List.Forall_cons; [by exists e|apply List.Forall_nil].
  - rewrite list.Forall_forall in Hl. split.
    + eapply client_step; [exact Hr| |exact E]. destruct o; try done.
      split; [exact (Hl _ (Ht _ eq_refl))|]. intros dgram ->. by eapply Ha.
    + apply list.Forall_forall. intros l Hin. eapply relies_grows; [by eapply grows_exec|by apply Hl].
Qed.

(** ** Waiting for a path *)

(** Operations one after the other. *)
Fixpoint clientRuns (ops : list client_op) : eng unit :=
  match ops with [] => mret tt | o :: ops => _ ← client_exec cfg o; clientRuns ops end.

(** Steps that are possible one after another. *)
Fixpoint allowed (ops : list client_op) (s : Engine) : Prop :=
  match ops with
  | [] => True
  | o :: ops => client_op_ok o s /\ client_fit o s /\ forall s' es, client_exec cfg o s = Ret (s', es, tt) -> allowed ops s'
  end.

Lemma clientRuns_run ops : forall es s, cfg_ok cfg -> client_run cfg es s -> allowed ops s ->
  exists s' es', clientRuns ops s = Ret (s', es', tt) /\ client_run cfg (es ++ es') s'.
Proof.
  induction ops as [|o ops IH]; intros es s Hc Hr Ha; cbn [clientRuns].
  { exists s, []. rewrite app_nil_r. by split. }
  destruct Ha as (Ho & Hfit & Ha). destruct (client_run_inv _ _ _ Hc Hr) as [Hi _].
  pose proof (trip_client_exec cfg o s Ho Hfit Hi) as Hw. unfold wp in Hw.
  destruct (client_exec cfg o s) as [[[s1 e1] []]| |] eqn:E; [|done..].
  destruct (IH (es ++ e1) s1 Hc (client_step cfg es s o s1 e1 Hr Ho E) (Ha _ _ eq_refl)) as (s2 & e2 & E2 & Hr2).
  exists s2, (e1 ++ e2). unfold mbind, eng_bind. rewrite E, E2. by rewrite app_assoc.
Qed.

(** The pause between two polls. *)
Definition waitPoll : Z := 25 * Millisecond.

(** What happens during a pause: the turns the loops take, and whether the
    engine is closed meanwhile. *)
Record pause := mkPause { turns : list client_op; closed_by : bool }.

(** [WaitReady], as far as the pauses go: [None] when it is still waiting
    after all of them. *)
Fixpoint waitLoop (deadline : Z) (pauses : list pause) : eng (option ready) :=
  r ← pollReady deadline;
  match r with
  | Some r => mret (Some r)
  | None =>
      match pauses with
      | [] => mret None
      | p :: pauses =>
          _ ← clientRuns (turns p);
          if closed_by p then mret (Some Cancelled) else waitLoop deadline pauses
      end
  end.

Definition WaitReady (timeout : Z) (pauses : list pause) : eng (option ready) :=
  t ← now;
  waitLoop (t + timeout) pauses.

(** A question to the world and nothing else. *)
Definition ticked (s : Engine) : Engine := set_ticks (S (ticks s)) s.

(** The turns are possible when their pauses come. *)
Fixpoint possible (pauses : list pause) (s : Engine) : Prop :=
  match pauses with
  | [] => True
  | p :: pauses =>
      allowed (turns p) (ticked s) /\
      forall s1 es, clientRuns (turns p) (ticked s) = Ret (s1, es, tt) -> possible pauses s1
  end.

(** Each pause takes at least as long as its timer was set for, by the
    readings of the clock around it. *)
Fixpoint paced (pauses : list pause) (s : Engine) : Prop :=
  match pauses with
  | [] => True
  | p :: pauses =>
      forall s1 es, clientRuns (turns p) (ticked s) = Ret (s1, es, tt) ->
        clock (ticks s) + waitPoll <= clock (ticks s1) /\ paced pauses s1
  end.

(** What the answer of [WaitReady] tells. *)
Definition answer (deadline : Z) (pauses : list pause) (s : Engine) (r : ready) : Prop :=
  match r with
  | Ready => exists p, p ∈ paths s /\ registered p = true
  | Cancelled => exists p, p ∈ pauses /\ closed_by p = true
  | TimedOut => exists t, reading t /\ deadline <= t
  end.

Lemma pollReady_eq deadline s : pollReady deadline s =
  Ret (ticked s, [], if clock (ticks s) <? deadline
                     then match fst <$> list_find (fun p => registered p = true) (paths s) with Some _ => Some Ready | None => None end
                     else Some TimedOut).
Proof.
  unfold pollReady, activePath, now, ask, mbind, eng_bind. destruct (clock (ticks s) <? deadline); [|done].
  cbn. by destruct (list_find _ _).
Qed.

Lemma client_run_ticked es s : client_run cfg es s -> client_run cfg es (ticked s).
Proof.
  intros Hr. rewrite <- (app_nil_r es). eapply (client_step cfg _ _ (CPoll 0)); [exact Hr|done|].
  cbn [client_exec]. unfold mbind, eng_bind. by rewrite pollReady_eq.
Qed.

Lemma waitLoop_run deadline pauses : forall es s,
  cfg_ok cfg -> client_run cfg es s -> possible pauses s ->
  exists s' es' o, waitLoop deadline pauses s = Ret (s', es', o) /\ client_run cfg (es ++ es') s' /\
    forall r, o = Some r -> answer deadline pauses s' r.
Proof.
  induction pauses as [|p pauses IH]; intros es s Hc Hr Hp; cbn [waitLoop]; unfold mbind, eng_bind;
    rewrite pollReady_eq; pose proof (client_run_ticked _ _ Hr) as Hr';
    destruct (Z.ltb_spec (clock (ticks s)) deadline) as [Ht|Ht].
  2,4: exists (ticked s), [], (Some TimedOut); rewrite app_nil_r; split_and!; [done|done|]; intros r [= <-];
    exists (clock (ticks s)); split; [by eexists|lia].
  all: destruct (list_find _ (paths s)) as [[i q]|] eqn:Ef; cbn.
  1,3: exists (ticked s), [], (Some Ready); rewrite app_nil_r; split_and!; [done|done|]; intros r [= <-];
    apply list_find_Some in Ef as (Hq & Hreg & _); exists q; split; [by eapply list_elem_of_lookup_2|done].
  - exists (ticked s), [], None. rewrite app_nil_r. by split_and!.
  - destruct Hp as [Ha Hp]. destruct (clientRuns_run (turns p) es (ticked s) Hc Hr' Ha) as (s1 & e1 & E1 & Hr1).
    rewrite E1. destruct (closed_by p) eqn:Ecl; cbn.
    { exists s1, e1, (Some Cancelled). rewrite app_nil_r. split_and!; [done|done|]. intros r [= <-].
      exists p. split; [by left|done]. }
    destruct (IH (es ++ e1) s1 Hc Hr1 (Hp _ _ E1)) as (s2 & e2 & o & E2 & Hr2 & Hans).
    exists s2, (e1 ++ e2), o. rewrite E2, app_assoc. split_and!; [done|done|]. intros r Eo. specialize (Hans r Eo).
    destruct r; [done| |done]. destruct Hans as (q & Hq & ?). exists q. split; [by right|done].
Qed.

Lemma waitLoop_done deadline pauses : forall s s' es o,
  paced pauses s -> deadline <= clock (ticks s) + waitPoll * Z.of_nat (length pauses) ->
  waitLoop deadline pauses s = Ret (s', es, o) -> is_Some o.
Proof.
  induction pauses as [|p pauses IH]; intros s s' es o Hp Hd E; cbn [waitLoop length] in E, Hd;
    apply bind_inv in E as (s1 & e1 & r & e2 & E1 & E & ->); rewrite pollReady_eq in E1; injection E1 as <- <- <-.
  - destruct (Z.ltb_spec (clock (ticks s)) deadline); [lia|]. injection E as _ _ <-. by eexists.
  - destruct (_ <? _); [|injection E as _ _ <-; by eexists].
    destruct (list_find _ _) as [[? ?]|]; cbn [fmap option_fmap option_map] in E; [injection E as _ _ <-; by eexists|].
    apply bind_inv in E as (s2 & e3 & [] & e4 & E2 & E & ->). destruct (Hp _ _ E2) as [Hclk Hp'].
    destruct (closed_by p); [injection E as _ _ <-; by eexists|].
    eapply IH; [exact Hp'| |exact E]. unfold waitPoll, Millisecond in *. lia.
Qed.

(** [WaitReady] in a run, whatever the clock does. *)
Lemma WaitReady_run timeout pauses es s :
  cfg_ok cfg -> client_run cfg es s -> possible pauses (ticked s) ->
  exists s' es' o, WaitReady timeout pauses s = Ret (s', es', o) /\ client_run cfg (es ++ es') s' /\
    forall r, o = Some r -> answer (clock (ticks s) + timeout) pauses s' r.
Proof.
  intros Hc Hr Hp.
  destruct (waitLoop_run (clock (ticks s) + timeout) pauses es (ticked s) Hc (client_run_ticked _ _ Hr) Hp)
    as (s' & es' & o & E & Hr' & Ha).
  exists s', es', o. split_and!; [|done|done]. unfold WaitReady, now, ask, mbind, eng_bind.
  change (set_ticks (S (ticks s)) s) with (ticked s). by rewrite E.
Qed.

(** C23: [WaitReady] returns. When the clock does not run backwards and each
    pause lasts at least the 25 ms its timer was set for, [timeout] divided
    by 25 ms pauses are enough, whatever the loops do meanwhile: [WaitReady]
    returns, the client is still in a run of it, and the answer is honest
    (a registered path, a closed engine, or a deadline that has passed). *)
Theorem WaitReady_returns timeout pauses es s :
  cfg_ok cfg -> client_run cfg es s -> possible pauses (ticked s) ->
  clock (ticks s) <= clock (S (ticks s)) -> paced pauses (ticked s) ->
  timeout <= waitPoll * Z.of_nat (length pauses) ->
  exists s' es' r, WaitReady timeout pauses s = Ret (s', es', Some r) /\ client_run cfg (es ++ es') s' /\
    answer (clock (ticks s) + timeout) pauses s' r.
Proof.
  intros Hc Hr Hok Hm Hp Ht. destruct (WaitReady_run timeout pauses es s Hc Hr Hok) as (s' & es' & o & E & Hr' & Ha).
  pose proof E as (s1 & e1 & t & e2 & E1 & E2 & _)%bind_inv. injection E1 as <- _ <-.
  assert (Hd : clock (ticks s) + timeout <= clock (ticks (ticked s)) + waitPoll * Z.of_nat (length pauses)).
  { change (ticks (ticked s)) with (S (ticks s)). lia. }
  destruct (waitLoop_done _ _ _ _ _ _ Hp Hd E2) as [r ->].
  exists s', es', r. split_and!; [done|done|by apply Ha].
Qed.

End Life.
