(* ===== verification/ServerSource.v ===== *)
(** * What the server sends back

    Every datagram a server writes, in any run, is a control message, or DATA
    or parity; that of the session followed wraps a ciphertext WireGuard gave
    it for that session, and the FEC stamps and parity are those of one run
    of the session's encoder, for as long as the session exists. *)

From S2P Require Import Prelude Wire Control Float64 Sched Link PathSelect Fec FecSpec FecSound.
From S2P Require Import Classify Reorder ReorderInv ReorderTrace ReorderSpec Wgbridge Engine EngineLogic.
From S2P Require Import Client ClientSafe ClientSend ClientCarry Server ServerSafe ServerSpec ServerCarry.
#[local] Open Scope Z_scope.

(** The datagrams written to the socket, in order. *)
Definition replies (es : list ev) : list (list Z) :=
  omap (fun e => match e with Sent (ToAddr _) b _ => Some b | _ => None end) es.

Lemma replies_app e1 e2 : replies (e1 ++ e2) = replies e1 ++ replies e2.
Proof. apply omap_app. Qed.

Section Source.
Context `{Rounding} `{Blake2s} {C : ReedSolomon} {CL : ReedSolomonLaws C} `{MapOrder} `{World} `{!WorldLaws _}.

(** The server, and the client whose session is followed. *)
Context (cfg ccfg : Config).
Context (ok : list Z -> Prop).
Context (ok_len : forall ct, ok ct -> (length ct + DataHeaderFECSize <= SlabSize)%nat).

Abbreviation sid := (cfgSession ccfg).

(** What may be written: for the session followed, as a client frames it; for
    another session, anything that names it. *)
Inductive emitted (fs : list datagram) (b : list Z) : Prop :=
  | em_own : legit ccfg ok fs b -> emitted fs b
  | em_other h id rest : b = header_bytes h ++ be 4 id ++ rest -> is_u32 id -> id <> sid -> emitted fs b.

Lemma emitted_more fs fs' b : fs ⊆ fs' -> emitted fs b -> emitted fs' b.
Proof. intros Hs [Hl|h id rest E Hid Hne]; [by left; eapply legit_more|by eright]. Qed.

(** ** Operations that leave the encoder alone *)

Record sess_src (id : Z) (x : Session) : Prop := {
  ss_id : sID x = id;
  ss_u32 : is_u32 id;
  ss_paths : map_Forall (fun _ p => is_u8 (psId p)) (sPaths x);
}.

Record ids_src (s : Engine) : Prop := {
  is_sess : map_Forall sess_src (sessions s);
  is_fifo : Forall (fun e => wf_class (ceClass e)) (fifo (correlator s));
}.

Definition enc_of (s : Engine) : option (option Encoder) := sEnc <$> sessions s !! sid.

(** [idle lo fs]: the encoder of the session stays as it is, or, when [lo],
    the session is removed; only datagrams covered by [fs] are written. *)
Definition idle (lo : bool) (fs : list datagram) (s : Engine) (es : list ev) (s' : Engine) : Prop :=
  ids_src s ->
  ids_src s' /\ (enc_of s' = enc_of s \/ lo = true /\ enc_of s' = None) /\ Forall (emitted fs) (replies es).

Lemma idle_refl lo fs s : idle lo fs s [] s.
Proof. intros Hi. split_and!; [done|by left|apply List.Forall_nil]. Qed.

Lemma idle_trans lo fs s e1 s1 e2 s2 : idle lo fs s e1 s1 -> idle lo fs s1 e2 s2 -> idle lo fs s (e1 ++ e2) s2.
Proof.
  intros Ha Hb Hi. destruct (Ha Hi) as (Hi1 & He1 & Hl1). destruct (Hb Hi1) as (Hi2 & He2 & Hl2).
  split_and!; [done| |rewrite replies_app; by apply Forall_app_2].
  destruct He2 as [He2|[Hlo He2]]; [|by right]. destruct He1 as [He1|[Hlo He1]]; [left|right]; by rewrite He2.
Qed.

Section Fixed.
Context (lo : bool) (fs : list datagram).

Lemma idle_updSess id f :
  (forall x, sess_src id x -> sess_src id (f x)) -> (id = sid -> forall x, sEnc (f x) = sEnc x) ->
  rel (idle lo fs) (updSess id f).
Proof.
  intros Hf He. apply rel_updSess. intros s [Hs Hq]. split_and!; [|left|apply List.Forall_nil].
  - constructor; cbn; [by apply map_Forall_alter|done].
  - unfold enc_of. cbn. destruct (decide (id = sid)) as [->|Hne].
    + rewrite lookup_alter_eq. destruct (sessions s !! sid); [|done]. cbn. by rewrite He.
    + by rewrite lookup_alter_ne.
Qed.

(** Most updates of a session leave its identity, paths and encoder alone. *)
Ltac idle_sess := apply idle_updSess; [intros ? []; by constructor|done].

Lemma idle_updPs id pid f : (forall p, psId (f p) = psId p) -> rel (idle lo fs) (updPs id pid f).
Proof.
  intros Hf. apply rel_updPs, idle_updSess; [|done]. intros x [Hid Hu Hp]. constructor; cbn; [done|done|].
  intros j p Hj. destruct (decide (pid = j)) as [<-|Hne].
  - rewrite lookup_alter_eq in Hj. destruct (sPaths x !! pid) as [q|] eqn:E; [|done]. injection Hj as <-.
    rewrite Hf. by eapply Hp.
  - rewrite lookup_alter_ne in Hj by done. by eapply Hp.
Qed.

Lemma idle_touchPath id pid a t : is_u8 pid -> rel (idle lo fs) (touchPath id pid a t).
Proof.
  intros Hpid. apply idle_updSess; [|done]. intros x [Hid Hu Hp]. constructor; cbn; [done|done|].
  apply map_Forall_insert_2; [|done]. cbn. destruct (sPaths x !! pid) as [q|] eqn:E; [by eapply Hp|done].
Qed.

Ltac idle_leaf :=
  first [ intros [? ?]; split_and!; [by constructor|by left|apply List.Forall_nil]
        | intros ?; split_and!; [done|by left|apply List.Forall_nil] ].
Ltac idle_with sub :=
  rel_with (idle_refl lo fs) (idle_trans lo fs) ltac:(idle_leaf)
    ltac:(first [sub | idle_sess | by apply idle_updPs]).
Ltac idle0 := idle_with ltac:(fail).

Lemma idle_count set get n : rel (idle lo fs) (count set get n).
Proof. unfold count. idle0. Qed.
Lemma idle_now : rel (idle lo fs) now.
Proof. unfold now. idle0. Qed.
Lemma idle_nowUS : rel (idle lo fs) nowUS.
Proof. unfold nowUS, now. idle0. Qed.
Lemma idle_txTS : rel (idle lo fs) txTS.
Proof. unfold txTS, now. idle0. Qed.
Lemma idle_Put sl : rel (idle lo fs) (Put sl).
Proof. unfold Put. idle0. Qed.
Lemma idle_Get : rel (idle lo fs) Get.
Proof. unfold Get. idle0. Qed.
Lemma idle_Release p : rel (idle lo fs) (Release p).
Proof. unfold Release, Put. idle0. Qed.
Lemma idle_sessAt id : rel (idle lo fs) (sessAt id).
Proof. unfold sessAt, lookupSession. idle0. Qed.
Lemma idle_psAt id pid : rel (idle lo fs) (psAt id pid).
Proof. unfold psAt. idle_with ltac:(apply idle_sessAt). Qed.
Lemma idle_alivePaths id t : rel (idle lo fs) (alivePaths id t).
Proof. unfold alivePaths. idle_with ltac:(apply idle_sessAt). Qed.
Lemma idle_allSessions : rel (idle lo fs) allSessions.
Proof. unfold allSessions. idle0. Qed.
Lemma idle_stripeTo id pids : rel (idle lo fs) (stripeTo id pids).
Proof. unfold stripeTo. idle_with ltac:(first [apply idle_psAt | apply idle_sessAt]). Qed.
Lemma idle_writeTo a b : emitted fs b -> rel (idle lo fs) (writeTo a b).
Proof.
  intros Hb. unfold writeTo. apply (rel_bind _ (idle_trans lo fs)); [apply rel_ask; intros; idle_leaf|]. intros r.
  apply (rel_bind _ (idle_trans lo fs)); [|intros; apply (rel_ret _ (idle_refl lo fs))].
  apply rel_tell. intros s Hi. split_and!; [done|by left|]. by apply List.Forall_cons; [|apply List.Forall_nil].
Qed.

(** Matching a ciphertext only takes entries out of the queue. *)
Lemma idle_classifyCt ct : rel (idle lo fs) (classifyCt ct).
Proof.
  unfold classifyCt. case_decide; [apply (rel_ret _ (idle_refl lo fs))|].
  apply rel_must_bind. intros t _. destruct (negb _); [apply (rel_ret _ (idle_refl lo fs))|].
  case_decide; [apply (rel_ret _ (idle_refl lo fs))|].
  apply (rel_bind _ (idle_trans lo fs)); [apply (rel_gets _ (idle_refl lo fs))|]. intros [cl|]; [|apply (rel_ret _ (idle_refl lo fs))].
  intros s s' es a (s1 & e1 & c & e2 & [= <- <- <-] & E & ->)%bind_inv [Hs Hq]. cbn [app].
  destruct (Match_class (Z.of_nat (length ct)) _ Hq) as [Hf _]. destruct (MatchCiphertext _ _) as [c1 x].
  injection E as <- <- <-. split_and!; [by constructor|by left|apply List.Forall_nil].
Qed.

Lemma classify_src s s' es ct class : ids_src s -> classifyCt ct s = Ret (s', es, class) -> wf_class class.
Proof.
  intros [_ Hq]. unfold classifyCt. case_decide; [intros [= _ _ <-]; by right; right|].
  intros (s1 & e1 & t & e2 & (_ & -> & ->)%must_inv & E & ->)%bind_inv. revert E.
  destruct (negb _); [intros [= _ _ <-]; by right; right|]. case_decide; [intros [= _ _ <-]; by right; right|].
  intros (s1 & e1 & cl & e3 & [= <- <- <-] & E & _)%bind_inv.
  destruct (classifier s); [|injection E as _ _ <-; by left].
  apply bind_inv in E as (s1 & e1 & cr & e4 & [= <- <- <-] & E & _).
  destruct (Match_class (Z.of_nat (length ct)) _ Hq) as [_ Hx]. destruct (MatchCiphertext _ _) as [c1 x].
  by injection E as _ _ <-.
Qed.

(** ** DATA and parity *)

(** A step whose value is known to satisfy [Φ]. *)
Lemma idle_bind {A B} (m : eng A) (f : A -> eng B) (Φ : A -> Prop) :
  rel (idle lo fs) m -> (forall s s' es a, ids_src s -> m s = Ret (s', es, a) -> Φ a) ->
  (forall a, Φ a -> rel (idle lo fs) (f a)) -> rel (idle lo fs) (m ≫= f).
Proof.
  intros Hm HΦ Hf s s' es b (s1 & e1 & a & e2 & E1 & E2 & ->)%bind_inv Hids.
  exact (idle_trans lo fs _ _ _ _ _ (Hm _ _ _ _ E1) (Hf a (HΦ _ _ _ _ Hids E1) _ _ _ _ E2) Hids).
Qed.

Lemma sessAt_src s s' es id x : ids_src s -> sessAt id s = Ret (s', es, x) -> sess_src id x.
Proof. intros [Hs _] (_ & _ & Hx)%sessAt_inv. by apply Hs. Qed.

Lemma psAt_src s s' es id pid p : ids_src s -> psAt id pid s = Ret (s', es, p) -> is_u8 (psId p).
Proof.
  intros Hi (s1 & e1 & x & e2 & E1 & E & _)%bind_inv. pose proof (sessAt_src _ _ _ _ _ Hi E1) as Hx.
  destruct (sPaths x !! pid) as [q|] eqn:Hq; [|done]. injection E as _ _ <-. by eapply (ss_paths _ _ Hx).
Qed.

(** The conditions on a packet of the session followed. *)
Definition data_ok (class sq : Z) (tag : fecTag) (ct : list Z) : Prop :=
  ok ct /\ wf_class class /\ is_u32 sq /\ tag_ok tag /\
  (tag_on tag = true -> DataPkt (tag_group tag) (tag_index tag) (sq, ct) ∈ fs).

Lemma idle_serverSendData id pid class dup sq tag ct :
  (id = sid -> data_ok class sq tag ct) -> rel (idle lo fs) (serverSendData id pid class dup sq tag ct).
Proof.
  intros Hok. unfold serverSendData.
  apply (idle_bind _ _ (fun sl => length (sl_mem sl) = SlabSize)); [apply idle_Get|intros; by eapply Get_inv|]. intros sl Hl.
  apply (idle_bind _ _ (fun p => is_u8 (psId p))); [apply idle_psAt|intros; by eapply psAt_src|]. intros p Hp.
  apply (idle_bind _ _ (sess_src id)); [apply idle_sessAt|intros; by eapply sessAt_src|]. intros x [Hx Hu _].
  apply (rel_bind _ (idle_trans lo fs)); [idle_sess|]. intros _.
  apply (idle_bind _ _ is_u32); [apply idle_txTS|intros; by eapply txTS_range|]. intros ts Hts.
  rewrite Hx. set (d := mkDataHeader _ _ _ _ _ _ _). apply rel_must_bind. intros [mem n] Em.
  destruct (data_frame (sl_mem sl) d ct Hl) as (mem' & Em' & Hm & Hfill). rewrite Em' in Em. injection Em as <- <-.
  apply (rel_bind _ (idle_trans lo fs)); [|intros _; apply idle_Put].
  case_decide as Hfit; [apply (rel_ret _ (idle_refl lo fs))|].
  rewrite Hfill by lia. apply (rel_bind _ (idle_trans lo fs)); [|intros r; idle_with ltac:(apply idle_count)].
  apply idle_writeTo. destruct (decide (id = sid)) as [Es|Hne].
  - destruct (Hok Es) as (Hct & Hc & Hsq & (Htg & Hti & Hton) & Htag).
    destruct (dataFlags_spec class dup tag Hc) as (Hfl & _ & _ & Hfe). left. constructor; [|done|done|].
    + unfold wf_data, wf_header. cbn. split_and!; try done; try apply u32_range. intros Hoff. apply Hton. by rewrite <- Hfe.
    + intros Hf. apply Htag. by rewrite <- Hfe.
  - eapply em_other; [|exact Hu|exact Hne]. unfold data_bytes. cbn [dSession d]. rewrite <- !app_assoc. reflexivity.
Qed.

Lemma idle_serverEmitParity id e :
  (id = sid -> forall g i k m s, e = EmitParity g i k m s -> ParityPkt g i k m s ∈ fs /\ in_range (ParityPkt g i k m s)) ->
  rel (idle lo fs) (serverEmitParity id e).
Proof.
  intros He. unfold serverEmitParity. destruct e as [g i k m shard|]; [|apply (rel_ret _ (idle_refl lo fs))].
  apply (rel_bind _ (idle_trans lo fs)); [apply idle_now|]. intros t.
  apply (rel_bind _ (idle_trans lo fs)); [apply idle_alivePaths|]. intros alive.
  case_decide; [apply (rel_ret _ (idle_refl lo fs))|].
  apply (rel_bind _ (idle_trans lo fs)); [apply idle_stripeTo|]. intros pid.
  apply (idle_bind _ _ (fun sl => length (sl_mem sl) = SlabSize)); [apply idle_Get|intros; by eapply Get_inv|]. intros sl Hl.
  apply (idle_bind _ _ (fun p => is_u8 (psId p))); [apply idle_psAt|intros; by eapply psAt_src|]. intros p Hp.
  apply (idle_bind _ _ (sess_src id)); [apply idle_sessAt|intros; by eapply sessAt_src|]. intros x [Hx Hu _].
  rewrite Hx. set (f := mkFECHeader _ _ _ _ _ _ _). apply rel_must_bind. intros [mem n] Em.
  destruct (fec_frame (sl_mem sl) f shard Hl) as (mem' & Em' & Hml & Hfill). rewrite Em' in Em. injection Em as <- <-.
  apply (rel_bind _ (idle_trans lo fs)); [|intros _; apply idle_Put].
  case_decide as Hfit; [apply (rel_ret _ (idle_refl lo fs))|]. rewrite Hfill by lia.
  rewrite Hml in Hfit. assert (Hfit' : (FECHeaderSize + length shard <= SlabSize)%nat) by lia.
  assert (Hsl : Z.of_nat (length shard) < two16) by (unfold SlabSize in Hfit; lia).
  apply (rel_bind _ (idle_trans lo fs)); [|intros r; idle_with ltac:(apply idle_count)].
  apply idle_writeTo. destruct (decide (id = sid)) as [Es|Hne].
  - destruct (He Es _ _ _ _ _ eq_refl) as (Hin & Hg & Hi & Hk & Hm). left.
    apply (legit_fec ccfg ok fs (as_fec f)); [|by apply u16_id; mlia|done|done|exact Hfit'].
    unfold wf_fec, wf_header. cbn. split_and!; try done; apply u16_range.
  - eapply em_other; [|exact Hu|exact Hne]. unfold fec_bytes. cbn [fSession as_fec f]. rewrite <- !app_assoc. reflexivity.
Qed.

(** ** Everything that does not send for the session *)

Lemma idle_deliver pkt ep : rel (idle lo fs) (deliver pkt ep).
Proof. unfold deliver. idle_with ltac:(apply idle_Release). Qed.

Lemma idle_onReorder ep e : rel (idle lo fs) (onReorder ep e).
Proof. unfold onReorder, deliverOrCount. idle_with ltac:(first [apply idle_deliver | apply idle_Release | apply idle_count]). Qed.

Lemma idle_serverReorder id f : rel (idle lo fs) (serverReorder id f).
Proof. unfold serverReorder. idle_with ltac:(first [apply idle_sessAt | apply idle_onReorder]). Qed.

Lemma idle_serverPush id sq pkt : rel (idle lo fs) (serverPush id sq pkt).
Proof. unfold serverPush. idle_with ltac:(first [apply idle_now | apply idle_serverReorder]). Qed.

Lemma idle_serverTimer id : rel (idle lo fs) (serverTimer id).
Proof. unfold serverTimer, lookupSession. idle_with ltac:(first [apply idle_now | apply idle_serverReorder]). Qed.

Lemma idle_serverDecode id f : rel (idle lo fs) (serverDecode id f).
Proof.
  unfold serverDecode, recover. idle_with ltac:(first [apply idle_sessAt | apply idle_Get | apply idle_serverPush]).
Qed.

Lemma idle_onServerData sl n src d payload t :
  is_u8 (hPathID (dHeader d)) -> rel (idle lo fs) (onServerData sl n src d payload t).
Proof.
  intros Hp. unfold onServerData, deliverOrCount. idle_with ltac:(first [by apply idle_touchPath | apply idle_txTS
    | apply idle_count | apply idle_serverDecode | apply idle_serverPush | apply idle_sessAt | apply idle_deliver]).
Qed.

Lemma idle_onServerFEC n dgram t : rel (idle lo fs) (onServerFEC n dgram t).
Proof.
  unfold onServerFEC, lookupSession. apply rel_try_bind; [intros [f shard] _|idle0].
  idle_with ltac:(first [apply idle_count | apply idle_serverDecode]).
Qed.

Lemma idle_onServerProbe dgram src t : is_bytes dgram -> rel (idle lo fs) (onServerProbe cfg dgram src t).
Proof.
  intros Hb. unfold onServerProbe, lookupSession. apply rel_must_bind. intros [[hh pr]|] E; [|idle0].
  apply (codec_accept _ _ _ _ _ (probe_codec (cfgMAC cfg))) in E as ((_ & _ & Hp & _) & _); [|done].
  apply (rel_bind _ (idle_trans lo fs)); [apply (rel_gets _ (idle_refl lo fs))|]. intros [x|]; [|idle0].
  apply (rel_bind _ (idle_trans lo fs)); [by apply idle_touchPath|]. intros _.
  apply rel_must_bind. intros ack Ea. idle_with ltac:(by apply idle_writeTo; left; eapply control_ack).
Qed.

Lemma idle_onServerProbeAck dgram : rel (idle lo fs) (onServerProbeAck cfg dgram).
Proof. unfold onServerProbeAck, lookupSession. idle_with ltac:(apply idle_nowUS). Qed.

Lemma idle_onServerCtrl dgram t : rel (idle lo fs) (onServerCtrl cfg dgram t).
Proof. unfold onServerCtrl, lookupSession. idle0. Qed.

Lemma idle_wgRecv ch : rel (idle lo fs) (wgRecv ch).
Proof. unfold wgRecv. idle_with ltac:(apply idle_Release). Qed.

Lemma idle_bindOpen : rel (idle lo fs) bindOpen.
Proof. unfold bindOpen. idle0. Qed.

Lemma idle_bindClose : rel (idle lo fs) bindClose.
Proof. unfold bindClose. idle0. Qed.

Lemma idle_closeServer : rel (idle lo fs) closeServer.
Proof. unfold closeServer. idle_with ltac:(first [apply idle_allSessions | apply idle_serverReorder]). Qed.

(** Another session's traffic. *)
Lemma idle_serverBulk id us ct : id <> sid -> rel (idle lo fs) (serverBulk id us ct).
Proof.
  intros Hne. unfold serverBulk, sAqm, sNextGlobal, sFecAdd. idle_with ltac:(first [apply idle_stripeTo | apply idle_psAt
    | apply idle_sessAt | apply idle_now | apply idle_count | apply idle_serverEmitParity; done
    | apply idle_serverSendData; done | apply idle_updSess; [intros ? []; by constructor|done]]).
Qed.

Lemma idle_serverSendOne id ct : id <> sid -> rel (idle lo fs) (serverSendOne id ct).
Proof.
  intros Hne. unfold serverSendOne, sNextRt. idle_with ltac:(first [apply idle_now | apply idle_alivePaths | apply idle_psAt
    | apply idle_count | apply idle_classifyCt | apply idle_sessAt | apply idle_serverSendData; done
    | by apply idle_serverBulk]).
Qed.

Lemma idle_fecFlushOne t id : id <> sid -> rel (idle lo fs) (fecFlushOne t id).
Proof.
  intros Hne. unfold fecFlushOne. idle_with ltac:(first [apply idle_sessAt | apply idle_serverEmitParity; done
    | apply idle_updSess; [intros ? []; by constructor|done]]).
Qed.

Lemma idle_probeTo id tick t pid : rel (idle lo fs) (probeTo cfg id tick t pid).
Proof.
  unfold probeTo. apply (rel_bind _ (idle_trans lo fs)); [apply idle_psAt|]. intros p.
  destruct (_ && _); [apply (rel_ret _ (idle_refl lo fs))|]. destruct (OnProbeSent _ _) as [[l sq] b].
  apply (rel_bind _ (idle_trans lo fs)); [by apply idle_updPs|]. intros _.
  apply (rel_bind _ (idle_trans lo fs)); [apply idle_sessAt|]. intros x.
  apply (rel_bind _ (idle_trans lo fs)); [apply idle_nowUS|]. intros us.
  apply rel_must_bind. intros dg Ed. idle_with ltac:(by apply idle_writeTo; left; eapply control_probe).
Qed.

Lemma idle_reportTo id pid : rel (idle lo fs) (reportTo id pid).
Proof. unfold reportTo. idle_with ltac:(apply idle_psAt). Qed.

End Fixed.

(** ** Operations that may remove the session *)

Section Dropping.
Context (fs : list datagram).

Lemma idle_dropSession x id : rel (idle true fs) (dropSession x id).
Proof.
  unfold dropSession. apply (rel_bind _ (idle_trans true fs)).
  - apply rel_modify. intros s [Hs Hq]. split_and!; [|unfold enc_of; cbn|apply List.Forall_nil].
    + constructor; cbn; [by apply map_Forall_delete|done].
    + destruct (decide (id = sid)) as [->|Hne]; [right; by rewrite lookup_delete_eq|left; by rewrite lookup_delete_ne].
  - intros _. apply (rel_forEach _ (idle_refl true fs) (idle_trans true fs)). intros e. apply idle_onReorder.
Qed.

Lemma idle_removeSessionPath id pid : rel (idle true fs) (removeSessionPath id pid).
Proof.
  unfold removeSessionPath, lookupSession. intros s s' es a (s1 & e1 & o & e2 & [= <- <- <-] & E & ->)%bind_inv Hi.
  cbn [app]. destruct (sessions s !! id) as [x|] eqn:Hx; [|injection E as <- <- <-; exact (idle_refl true fs s Hi)].
  refine (rel_bind _ (idle_trans true fs) _ _ _ _ _ _ _ _ E Hi).
  - apply idle_updSess; [|done]. intros y [Hid Hu Hp]. constructor; cbn; [done|done|].
    apply map_Forall_delete. exact (ss_paths _ _ (is_sess _ Hi _ _ Hx)).
  - intros _. apply (rel_when _ (idle_refl true fs)), idle_dropSession.
Qed.

Lemma idle_onBye dgram t : rel (idle true fs) (onBye cfg dgram t).
Proof.
  unfold onBye. apply (rel_bind _ (idle_trans true fs)); [apply (rel_must _ (idle_refl true fs))|].
  intros [[hb m]|]; [|apply (rel_ret _ (idle_refl true fs))]. apply (rel_when _ (idle_refl true fs)), idle_removeSessionPath.
Qed.

Lemma idle_reaperTick : rel (idle true fs) reaperTick.
Proof.
  unfold reaperTick. apply (rel_bind _ (idle_trans true fs)); [apply idle_now|]. intros t.
  apply (rel_bind _ (idle_trans true fs)); [apply idle_allSessions|]. intros ids.
  apply (rel_forEach _ (idle_refl true fs) (idle_trans true fs)). intros id. unfold reapOne, lookupSession.
  apply (rel_bind _ (idle_trans true fs)); [apply (rel_gets _ (idle_refl true fs))|].
  intros [x|]; [|apply (rel_ret _ (idle_refl true fs))]. apply (rel_when _ (idle_refl true fs)), idle_dropSession.
Qed.

End Dropping.

(** ** The session's bookkeeping *)

(** [ssrc n fs s]: the session's encoder, once there is a session, has sent
    [fs] and opened at most [n] groups. *)
Record ssrc (n : Z) (fs : list datagram) (s : Engine) : Prop := {
  sr_ids : ids_src s;
  sr_enc : match enc_of s with
           | Some (Some e) => exists b, FecSound.enc_ok b e fs /\ few e /\ nextGroup e <= n
           | _ => fs = []
           end;
  sr_fs : forall id i p, DataPkt id i p ∈ fs -> ok p.2;
}.

Definition sfed (n' : Z) (fs : list datagram) (es : list ev) (s' : Engine) (fs' : list datagram) : Prop :=
  ssrc n' fs' s' /\ fs ⊆ fs' /\ Forall (emitted fs') (replies es).

Definition sfeeds {A} (n n' : Z) (m : eng A) : Prop :=
  forall s s' es a fs, m s = Ret (s', es, a) -> ssrc n fs s -> exists fs', sfed n' fs es s' fs'.

Lemma ssrc_more n n' fs s : n <= n' -> ssrc n fs s -> ssrc n' fs s.
Proof.
  intros Hn [Hi He Hf]. constructor; try done. destruct (enc_of s) as [[e|]|]; [|done..].
  destruct He as (b & ? & ? & ?). exists b. split_and!; [done|done|lia].
Qed.

(** A step that leaves the encoder alone and does not lose the session. *)
Lemma sfed_idle lo {A} (m : eng A) n fs s s' es a :
  rel (idle lo fs) m -> m s = Ret (s', es, a) -> ssrc n fs s ->
  (lo = true -> is_Some (sessions s !! sid) -> is_Some (sessions s' !! sid)) -> sfed n fs es s' fs.
Proof.
  intros Hm E [Hi He Hf] Hkeep. destruct (Hm _ _ _ _ E Hi) as (Hi' & Hen & Hl). split_and!; [|done|done].
  constructor; [done| |done]. destruct Hen as [->|[Hlo Hnone]]; [done|].
  assert (enc_of s = None) as Hs.
  { unfold enc_of in *. destruct (sessions s !! sid) eqn:Es; [|done].
    destruct (Hkeep Hlo) as [y Hy]; [done|]. by rewrite Hy in Hnone. }
  rewrite Hnone. by rewrite Hs in He.
Qed.

Lemma sfeeds_idle {A} (m : eng A) n : (forall fs, rel (idle false fs) m) -> sfeeds n n m.
Proof. intros Hm s s' es a fs E Hs. exists fs. by eapply (sfed_idle false). Qed.

Lemma sfed_then n fs e1 s1 fs1 n' e2 s2 fs2 :
  sfed n fs e1 s1 fs1 -> sfed n' fs1 e2 s2 fs2 -> sfed n' fs (e1 ++ e2) s2 fs2.
Proof.
  intros (_ & Hf1 & Hl1) (Hs2 & Hf2 & Hl2). split_and!; [done|by etrans|]. rewrite replies_app. apply Forall_app_2; [|done].
  eapply Forall_impl; [|exact Hl1]. intros b. by apply emitted_more.
Qed.

Lemma sfeeds_bind {A B} n1 n2 n3 (m : eng A) (f : A -> eng B) :
  sfeeds n1 n2 m -> (forall a, sfeeds n2 n3 (f a)) -> sfeeds n1 n3 (m ≫= f).
Proof.
  intros Hm Hf s s' es b fs (s1 & e1 & a & e2 & E1 & E2 & ->)%bind_inv Hs.
  destruct (Hm _ _ _ _ _ E1 Hs) as (fs1 & H1'). destruct (Hf a _ _ _ _ _ E2 (proj1 H1')) as (fs2 & H2').
  exists fs2. by eapply sfed_then.
Qed.

(** A step that leaves the encoder alone, with a fact about its value. *)
Lemma sfeeds_bind_val {A B} n n' (m : eng A) (f : A -> eng B) (Φ : A -> Prop) :
  (forall fs, rel (idle false fs) m) -> (forall s s' es a, ids_src s -> m s = Ret (s', es, a) -> Φ a) ->
  (forall a, Φ a -> sfeeds n n' (f a)) -> sfeeds n n' (m ≫= f).
Proof.
  intros Hm HΦ Hf s s' es b fs (s1 & e1 & a & e2 & E1 & E2 & ->)%bind_inv Hs.
  pose proof (HΦ _ _ _ _ (sr_ids _ _ _ Hs) E1) as Ha.
  pose proof (sfed_idle false _ _ _ _ _ _ _ (Hm fs) E1 Hs ltac:(done)) as H1'.
  destruct (Hf a Ha _ _ _ _ _ E2 (proj1 H1')) as (fs2 & H2'). exists fs2. by eapply sfed_then.
Qed.

Lemma sfeeds_le {A} n n' n'' (m : eng A) : n' <= n'' -> sfeeds n n' m -> sfeeds n n'' m.
Proof.
  intros Hn Hm s s' es a fs E Hs. destruct (Hm _ _ _ _ _ E Hs) as (fs' & Hs' & ?). exists fs'. split; [by eapply ssrc_more|done].
Qed.

Lemma sfeeds_ret {A} n (a : A) : sfeeds n n (mret a).
Proof. apply sfeeds_idle. intros fs. apply (rel_ret _ (idle_refl false fs)). Qed.

Lemma sfeeds_must_bind {E A B} n n' (o : outcome E A) (f : A -> eng B) :
  (forall a, o = Ret a -> sfeeds n n' (f a)) -> sfeeds n n' (must o ≫= f).
Proof.
  intros Hf s s' es b fs (s1 & e1 & a & e2 & (Ho & -> & ->)%must_inv & E2 & ->)%bind_inv.
  exact (Hf a Ho _ _ _ _ _ E2).
Qed.

Lemma sfeeds_when n b m : sfeeds n n m -> sfeeds n n (when b m).
Proof. destruct b; [done|]. intros _. apply sfeeds_ret. Qed.

Lemma sfeeds_forEach {A} n (f : A -> eng unit) l : (forall x, sfeeds n n (f x)) -> sfeeds n n (forEach f l).
Proof.
  intros Hf. induction l as [|x l IH]; cbn [forEach]; [apply sfeeds_ret|].
  apply (sfeeds_bind n n); [apply Hf|]. intros _. exact IH.
Qed.

(** ** The encoder in the session *)

Definition setEnc (e : option Encoder) (s : Engine) : Engine :=
  set_sessions (alter (set_sEnc e) sid (sessions s)) s.

Lemma enc_of_set e s : is_Some (sessions s !! sid) -> enc_of (setEnc e s) = Some e.
Proof. intros [x Hx]. unfold enc_of, setEnc. cbn. by rewrite lookup_alter_eq, Hx. Qed.

Lemma ids_src_set e s : ids_src s -> ids_src (setEnc e s).
Proof. intros [Hs Hq]. constructor; cbn; [|done]. apply map_Forall_alter; [done|]. intros x []. by constructor. Qed.

Lemma ssrc_encoder n o enc s fs x :
  ssrc n fs s -> sessions s !! sid = Some x -> sEnc x = Some enc -> FecSound.op_ok o -> (forall p t, o = EAdd p t -> ok p.2) ->
  n + op_cost o <= two24 ->
  ssrc (n + op_cost o) (fs ++ (enc_step o enc).2) (setEnc (Some (enc_step o enc).1) s) /\
  Forall in_range (fs ++ (enc_step o enc).2).
Proof.
  intros [Hi He Hf] Hx Ee Ho Hok Hn.
  assert (Henc : enc_of s = Some (Some enc)) by (unfold enc_of; rewrite Hx; cbn; by rewrite Ee).
  rewrite Henc in He. destruct He as (b & Hb & Hfew & Hng). assert (0 <= op_cost o) by (by destruct o).
  destruct (step_ok b enc fs o Hb Hfew Ho) as (b' & Hb' & Hfew' & Hng'); [change (2 ^ 24) with two24; lia|].
  split; [|apply Hb']. constructor; [by apply ids_src_set| |].
  - rewrite enc_of_set by by eexists. exists b'. split_and!; [done|done|lia].
  - intros id i p [Hin|Hin]%elem_of_app; [by eapply Hf|]. apply out_data in Hin as [t ->]. by eapply Hok.
Qed.

Lemma idle_forEach {A} lo fs (f : A -> eng unit) l :
  (forall x, x ∈ l -> rel (idle lo fs) (f x)) -> rel (idle lo fs) (forEach f l).
Proof.
  induction l as [|x l IH]; intros Hf; cbn [forEach]; [apply (rel_ret _ (idle_refl lo fs))|].
  apply (rel_bind _ (idle_trans lo fs)); [apply Hf; by left|]. intros _. apply IH. intros y Hy. apply Hf. by right.
Qed.

Lemma sfed_parity n fs s evs s' es a :
  forEach (serverEmitParity sid) evs s = Ret (s', es, a) -> ssrc n fs s -> Forall in_range fs ->
  sent_parity evs ⊆ fs -> sfed n fs es s' fs.
Proof.
  intros E Hs Hr Hsub. eapply (sfed_idle false); [|exact E|exact Hs|done]. apply idle_forEach. intros e He.
  apply idle_serverEmitParity. intros _ g i k m x ->. apply emit_sent, Hsub in He. split; [done|].
  rewrite list.Forall_forall in Hr. by apply Hr.
Qed.

Lemma sfed_sFecAdd n sq ct s s' es tag fs :
  sFecAdd sid sq ct s = Ret (s', es, tag) -> ssrc n fs s -> ok ct -> is_u32 sq -> n + 1 <= two24 ->
  exists fs', sfed (n + 1) fs es s' fs' /\ tag_ok tag /\
    (tag_on tag = true -> DataPkt (tag_group tag) (tag_index tag) (sq, ct) ∈ fs').
Proof.
  intros E Hs Hok Hsq Hn. unfold sFecAdd in E.
  apply bind_inv in E as (s1 & e1 & x & e2 & (-> & -> & Hx)%sessAt_inv & E & ->). cbn [app].
  destruct (sEnc x) as [enc|] eqn:Ee.
  2:{ injection E as <- <- <-. exists fs. split; [|split; [apply noTag_ok|done]].
      split_and!; [eapply ssrc_more; [|exact Hs]; lia|done|apply List.Forall_nil]. }
  apply bind_inv in E as (s2 & e3 & t & e4 & E1 & E & ->).
  assert (Hx2 : sessions s2 !! sid = Some x).
  { unfold now in E1. by injection E1 as <- _ _. }
  pose proof (sfed_idle false now n fs _ _ _ _ (idle_now false fs) E1 Hs ltac:(done)) as H1'.
  assert (Hop : FecSound.op_ok (EAdd (sq, ct) t)).
  { split; [done|]. apply ok_len in Hok. cbn. unfold SlabSize in Hok. lia. }
  destruct (ssrc_encoder n (EAdd (sq, ct) t) enc s2 fs x (proj1 H1') Hx2 Ee Hop) as [Hs2 Hr];
    [by intros p t' [= <- _]|done|].
  cbn [enc_step fst snd] in Hs2, Hr. destruct (Fec.Add sq ct t enc) as [[enc' evs] stamp] eqn:Ea.
  cbn [fst snd] in Hs2, Hr. set (out := sent_data stamp (sq, ct) ++ sent_parity evs) in *.
  apply bind_inv in E as (s3 & e5 & [] & e6 & (-> & -> & _)%updSess_inv & E & ->). cbn [app].
  change (set_sessions (alter (set_sEnc (Some enc')) sid (sessions s2)) s2) with (setEnc (Some enc') s2) in E.
  revert E Hs2. generalize (setEnc (Some enc') s2). intros s3 E Hs3.
  apply bind_inv in E as (s4 & e7 & [] & e8 & E2 & [= <- <- <-] & ->). rewrite app_nil_r.
  exists (fs ++ out). split.
  - eapply sfed_then; [exact H1'|]. destruct (sfed_parity _ _ _ _ _ _ _ E2 Hs3 Hr) as (? & _ & ?); [set_solver|].
    split_and!; [done|set_solver|done].
  - destruct stamp as [[g i]|]; [|split; [apply noTag_ok|done]].
    assert (Hin : DataPkt g i (sq, ct) ∈ fs ++ out).
    { apply elem_of_app. right. unfold out. cbn. by left. }
    split; [|done]. rewrite list.Forall_forall in Hr. by destruct (Hr _ Hin).
Qed.

(** ** Sending for the session *)

Lemma sNext_range (g : Session -> Z) (f : Session -> Session) s s' es (sq : Z) id :
  (forall x, is_u32 (g (f x))) ->
  (_ ← updSess id f; x ← sessAt id; mret (g x)) s = Ret (s', es, sq) -> is_u32 sq.
Proof.
  intros Hg (s1 & e1 & [] & e2 & (-> & -> & _)%updSess_inv & E & _)%bind_inv.
  apply bind_inv in E as (s2 & e3 & x & e4 & (_ & _ & Hx)%sessAt_inv & [= _ _ <-] & _). cbn in Hx.
  rewrite lookup_alter_eq in Hx. destruct (sessions s !! id); [|done]. injection Hx as <-. apply Hg.
Qed.

Lemma sNextRt_range s s' es sq id : sNextRt id s = Ret (s', es, sq) -> is_u32 sq.
Proof. apply (sNext_range sRtSeq). intros. apply u32_range. Qed.
Lemma sNextGlobal_range s s' es sq id : sNextGlobal id s = Ret (s', es, sq) -> is_u32 sq.
Proof. apply (sNext_range sGlobalSeq). intros. apply u32_range. Qed.

Lemma idle_next lo fs id (f : Session -> Session) (g : Session -> Z) :
  (forall x, sID (f x) = sID x /\ sPaths (f x) = sPaths x /\ sEnc (f x) = sEnc x) ->
  rel (idle lo fs) (_ ← updSess id f; x ← sessAt id; mret (g x)).
Proof.
  intros Hf. apply (rel_bind _ (idle_trans lo fs)).
  - apply idle_updSess; [|intros _ x; apply Hf]. intros x [Hid Hu Hp]. destruct (Hf x) as (E1 & E2 & _).
    constructor; [by rewrite E1|done|by rewrite E2].
  - intros _. apply (rel_bind _ (idle_trans lo fs)); [apply idle_sessAt|]. intros x. apply (rel_ret _ (idle_refl lo fs)).
Qed.

Lemma sfeeds_serverBulk n us ct : ok ct -> n + 1 <= two24 -> sfeeds n (n + 1) (serverBulk sid us ct).
Proof.
  intros Hok Hn. unfold serverBulk.
  apply (sfeeds_bind n n); [apply sfeeds_idle; intros; apply idle_stripeTo|]. intros pid.
  apply (sfeeds_bind n n); [apply sfeeds_idle; intros; apply idle_psAt|]. intros p.
  apply (sfeeds_bind n n).
  { apply sfeeds_idle. intros fs. unfold sAqm. destruct (Qltb _ _); [|apply (rel_ret _ (idle_refl false fs))].
    apply (rel_bind _ (idle_trans false fs)); [|intros; apply (rel_ret _ (idle_refl false fs))].
    apply rel_ask. intros k s Hi. destruct Hi. split_and!; [by constructor|by left|apply List.Forall_nil]. }
  intros [|]. { eapply sfeeds_le; [|apply sfeeds_idle; intros; apply idle_count]. lia. }
  apply (sfeeds_bind_val _ _ _ _ is_u32); [intros; by apply idle_next|intros; by eapply sNextGlobal_range|]. intros sq Hsq.
  intros s s' es a fs (s2 & e3 & tag & e4 & E2 & E & ->)%bind_inv Hs.
  destruct (sfed_sFecAdd n sq ct _ _ _ _ _ E2 Hs Hok Hsq Hn) as (fs2 & H2' & Htag & Hin).
  exists fs2. eapply sfed_then; [exact H2'|].
  eapply (sfed_idle false); [|exact E|apply H2'|done]. apply idle_serverSendData. intros _. split_and!; [done|by left|done..].
Qed.

Lemma sfeeds_serverSendOne n ct : ok ct -> n + 1 <= two24 -> sfeeds n (n + 1) (serverSendOne sid ct).
Proof.
  intros Hok Hn. unfold serverSendOne.
  apply (sfeeds_bind n n); [apply sfeeds_idle; intros; apply idle_now|]. intros t.
  apply (sfeeds_bind n n); [apply sfeeds_idle; intros; apply idle_alivePaths|]. intros alive.
  assert (Hps : forall l, sfeeds n n (mapEach (psAt sid) l)).
  { intros l. apply sfeeds_idle. intros fs. apply (rel_mapEach _ (idle_refl false fs) (idle_trans false fs)).
    intros pid. apply idle_psAt. }
  apply (sfeeds_bind n n); [apply Hps|]. intros ps. cbv zeta.
  case_decide; [eapply sfeeds_le; [|apply sfeeds_idle; intros; apply idle_count]; lia|].
  apply (sfeeds_bind_val _ _ _ _ wf_class); [intros; apply idle_classifyCt|intros; by eapply classify_src|]. intros class Hc.
  assert (Hone : forall pid dup sq, is_u32 sq -> sfeeds n n (serverSendData sid pid class dup sq noTag ct)).
  { intros pid dup sq Hsq. apply sfeeds_idle. intros fs. apply idle_serverSendData. intros _.
    split_and!; [done|done|done|apply noTag_ok|done]. }
  assert (Hat : forall (l : list Z) j (f : Z -> eng unit), (forall i, sfeeds n n (f i)) -> sfeeds n n (at_ l j ≫= f)).
  { intros l j f Hf. apply (sfeeds_bind n n); [|done]. apply sfeeds_idle. intros fs. apply (rel_at _ (idle_refl false fs)). }
  assert (Hrt : forall (f : Z -> eng unit), (forall sq, is_u32 sq -> sfeeds n n (f sq)) -> sfeeds n n (sNextRt sid ≫= f)).
  { intros f Hf. by apply (sfeeds_bind_val _ _ _ _ is_u32); [intros; apply idle_next|intros; eapply sNextRt_range|]. }
  destruct (_ && _).
  { eapply (sfeeds_le _ n); [lia|]. apply Hat. intros pid. apply Hrt. intros sq Hsq. by apply Hone. }
  destruct (_ || _); [|by apply sfeeds_serverBulk].
  apply (sfeeds_bind n n); [apply Hps|]. intros us. destruct (BestPair _) as [first second].
  destruct (first <? 0); [by apply sfeeds_serverBulk|]. eapply (sfeeds_le _ n); [lia|].
  apply Hrt. intros sq Hsq. apply Hat. intros i. apply (sfeeds_bind n n); [by apply Hone|]. intros _.
  apply sfeeds_when, Hat. intros j. by apply Hone.
Qed.

Lemma sfeeds_serverSend bufs : forall n, Forall ok bufs -> n + Z.of_nat (length bufs) <= two24 ->
  sfeeds n (n + Z.of_nat (length bufs)) (forEach (serverSendOne sid) bufs).
Proof.
  induction bufs as [|ct bufs IH]; intros n Hok Hn; cbn [forEach length].
  { rewrite Z.add_0_r. apply sfeeds_ret. }
  cbn [length] in Hn. apply Forall_cons_iff in Hok as [Hct Hok].
  replace (n + Z.of_nat (S (length bufs))) with (n + 1 + Z.of_nat (length bufs)) by lia.
  apply (sfeeds_bind n (n + 1)); [apply sfeeds_serverSendOne; [done|lia]|]. intros _. apply IH; [done|lia].
Qed.

(** ** Ticks *)

Lemma sfeeds_fecFlushOne n t id : n <= two24 -> sfeeds n n (fecFlushOne t id).
Proof.
  intros Hn. destruct (decide (id = sid)) as [->|Hne]; [|apply sfeeds_idle; intros; by apply idle_fecFlushOne].
  intros s s' es a fs E Hs. unfold fecFlushOne in E.
  apply bind_inv in E as (s1 & e1 & x & e2 & (-> & -> & Hx)%sessAt_inv & E & ->). cbn [app].
  destruct (sEnc x) as [enc|] eqn:Ee; [|exact (sfeeds_ret n tt _ _ _ _ _ E Hs)].
  destruct (ssrc_encoder n (EFlush t) enc s fs x Hs Hx Ee I) as [Hs2 Hr]; [done|cbn; lia|].
  cbn [enc_step op_cost] in Hs2, Hr. rewrite Z.add_0_r in Hs2. destruct (Fec.Flush t enc) as [enc' evs].
  cbn [fst snd] in Hs2, Hr. apply bind_inv in E as (s2 & e3 & [] & e4 & (-> & -> & _)%updSess_inv & E & ->). cbn [app].
  exists (fs ++ sent_parity evs). destruct (sfed_parity _ _ _ _ _ _ _ E Hs2 Hr) as (? & _ & ?); [set_solver|].
  split_and!; [done|set_solver|done].
Qed.

Lemma sfeeds_serverFecFlushTick n : n <= two24 -> sfeeds n n serverFecFlushTick.
Proof.
  intros Hn. unfold serverFecFlushTick.
  apply (sfeeds_bind n n); [apply sfeeds_idle; intros; apply idle_now|]. intros t.
  apply (sfeeds_bind n n); [apply sfeeds_idle; intros; apply idle_allSessions|]. intros ids.
  apply sfeeds_forEach. intros id. by apply sfeeds_fecFlushOne.
Qed.

Lemma sfeeds_retune n id snaps : n <= two24 -> force_ok (cfgFECForce cfg) ->
  sfeeds n n (updSess id (fun x => set_sEnc (retuneFEC cfg (sEnc x) snaps) x)).
Proof.
  intros Hn Hf. destruct (decide (id = sid)) as [->|Hne].
  2:{ apply sfeeds_idle. intros fs. apply idle_updSess; [intros ? []; by constructor|done]. }
  intros s s' es a fs (-> & -> & x & Hx)%updSess_inv Hs. exists fs. split_and!; [|done|apply List.Forall_nil].
  assert (Hsame : set_sessions (alter (fun x => set_sEnc (retuneFEC cfg (sEnc x) snaps) x) sid (sessions s)) s
    = setEnc (retuneFEC cfg (sEnc x) snaps) s).
  { unfold setEnc. f_equal. apply alter_ext. intros y Hy. rewrite Hx in Hy. by injection Hy as <-. }
  rewrite Hsame. destruct (sEnc x) as [enc|] eqn:Ee; cbn [retuneFEC].
  - set (p := if pK (cfgFECForce cfg) =? 0 then _ else _).
    assert (Hp : force_ok p) by (unfold p; destruct (_ =? 0); [apply PickParams_range|done]).
    destruct (ssrc_encoder n (ESet p) enc s fs x Hs Hx Ee Hp) as [Hs2 _]; [done|cbn; lia|].
    cbn [enc_step op_cost fst snd] in Hs2. by rewrite Z.add_0_r, app_nil_r in Hs2.
  - destruct Hs as [Hi He Hfs]. constructor; [by apply ids_src_set| |done]. rewrite enc_of_set by by eexists.
    unfold enc_of in He. rewrite Hx in He. cbn in He. by rewrite Ee in He.
Qed.

Lemma sfeeds_controlOne n tick t l id : n <= two24 -> force_ok (cfgFECForce cfg) -> sfeeds n n (controlOne cfg tick t l id).
Proof.
  intros Hn Hf. unfold controlOne.
  apply (sfeeds_bind n n); [apply sfeeds_idle; intros; apply idle_alivePaths|]. intros alive.
  case_decide; [apply sfeeds_ret|].
  assert (Hps : forall A (f : Z -> eng A), (forall fs pid, rel (idle false fs) (f pid)) -> forall k, sfeeds n n (mapEach f k)).
  { intros A f Hi k. apply sfeeds_idle. intros fs. apply (rel_mapEach _ (idle_refl false fs) (idle_trans false fs)). apply Hi. }
  apply (sfeeds_bind n n); [apply sfeeds_when, sfeeds_forEach; intros pid; apply sfeeds_idle; intros; apply idle_probeTo|]. intros _.
  apply (sfeeds_bind n n); [apply Hps; intros; apply idle_reportTo|]. intros rs. cbv zeta.
  case_decide; [apply sfeeds_ret|].
  apply (sfeeds_bind n n); [apply sfeeds_idle; intros; apply idle_sessAt|]. intros x.
  destruct (_ && _); [apply sfeeds_ret|].
  apply (sfeeds_bind n n); [apply Hps; intros; apply idle_psAt|]. intros ps.
  destruct (bestServerCtrlPath _) as [best|]; [|apply sfeeds_ret].
  apply (sfeeds_bind n n); [apply sfeeds_idle; intros; apply idle_psAt|]. intros bp.
  apply sfeeds_must_bind. intros dg Ed.
  apply (sfeeds_bind n n); [apply sfeeds_idle; intros; apply idle_writeTo; left; by eapply control_ctrl|]. intros _.
  apply (sfeeds_bind n n).
  { apply sfeeds_when, sfeeds_when, sfeeds_idle. intros fs. apply idle_updSess; [intros ? []; by constructor|done]. }
  intros _. apply (sfeeds_bind n n); [by apply sfeeds_when, sfeeds_retune|]. intros _. apply sfeeds_ret.
Qed.

Lemma sfeeds_serverControlTick n tick l : n <= two24 -> force_ok (cfgFECForce cfg) -> sfeeds n n (serverControlTick cfg tick l).
Proof.
  intros Hn Hf. unfold serverControlTick.
  apply (sfeeds_bind n n); [apply sfeeds_idle; intros; apply idle_now|]. intros t.
  apply (sfeeds_bind n n); [apply sfeeds_idle; intros; apply idle_allSessions|]. intros ids. revert l.
  induction ids as [|id ids IH]; intros l; cbn [controlEach]; [apply sfeeds_ret|].
  apply (sfeeds_bind n n); [by apply sfeeds_controlOne|apply IH].
Qed.

(** ** A session appears *)

(** A new session's encoder has sent nothing. *)
Lemma ssrc_open n m s fs :
  0 <= n -> force_ok (cfgFECForce cfg) -> is_u32 (heSession m) -> sessions s !! heSession m = None -> ssrc n fs s ->
  ssrc n fs (set_sessions (<[heSession m := newSession cfg m]> (sessions s)) s).
Proof.
  intros Hn Hf Hu Hnone [[Hi Hq] He Hfs]. constructor; [|unfold enc_of; cbn|done].
  - constructor; cbn; [|done]. apply map_Forall_insert_2; [|done]. constructor; cbn; [done|done|apply map_Forall_empty].
  - destruct (decide (heSession m = sid)) as [Es|Hne]; [|by rewrite lookup_insert_ne].
    unfold enc_of in He. rewrite Es in *. rewrite Hnone in He. cbn in He. subst fs. rewrite lookup_insert_eq. cbn.
    destruct (cfgFECDisabled cfg); [done|]. destruct enc_new as [Henc Hfew]. exists ∅.
    split_and!; [destruct Henc; by constructor|done|done].
Qed.

Lemma sfeeds_handleHello n dgram src :
  0 <= n -> force_ok (cfgFECForce cfg) -> is_bytes dgram -> sfeeds n n (handleHello cfg dgram src).
Proof.
  intros Hn Hf Hb. unfold handleHello. apply sfeeds_must_bind. intros r E.
  apply (sfeeds_bind n n); [apply sfeeds_idle; intros; apply idle_now|]. intros t.
  destruct r as [[hh m]|]; [|apply sfeeds_idle; intros; apply idle_count].
  apply (codec_accept _ _ _ _ _ (hello_codec (cfgMAC cfg))) in E as ((_ & _ & Hp & _) & _ & (Hses & _) & _); [|done].
  destruct (_ || _); [apply sfeeds_idle; intros; apply idle_count|].
  assert (Hrest : forall x, sfeeds n n (if negb (sClientID x =? ClientID m) then count set_RxDropUnknown RxDropUnknown 1
    else t ← now; _ ← touchPath (heSession m) (hPathID hh) src t; _ ← updSess (heSession m) (set_lastSeen t); t ← now;
      ack ← must (EncodeHello (mkHeader 0 0 (hPathID hh) 0) (mkHello (heSession m) (ClientID m) 0 (unix t)) (cfgMAC cfg) true);
      _ ← writeTo src ack; mret tt)).
  { intros x. apply sfeeds_idle. intros fs. destruct (negb _); [apply idle_count|].
    apply (rel_bind _ (idle_trans false fs)); [apply idle_now|]. intros t1.
    apply (rel_bind _ (idle_trans false fs)); [by apply idle_touchPath|]. intros _.
    apply (rel_bind _ (idle_trans false fs)); [apply idle_updSess; [intros ? []; by constructor|done]|]. intros _.
    apply (rel_bind _ (idle_trans false fs)); [apply idle_now|]. intros t2. apply rel_must_bind. intros ack Ea.
    apply (rel_bind _ (idle_trans false fs)); [apply idle_writeTo; left; by eapply control_hello|].
    intros _. apply (rel_ret _ (idle_refl false fs)). }
  intros s s' es a fs (s1 & e1 & o & e2 & [= <- <- <-] & E & ->)%bind_inv Hs. cbn [app]. cbv zeta in E.
  destruct (sessions s !! heSession m) as [x|] eqn:Hx; (case_bool_decide as Ho; [|]); try done; cbn [when default] in E.
  - exact (sfeeds_bind n n n _ _ (sfeeds_ret n tt) (fun _ => Hrest x) _ _ _ _ _ E Hs).
  - apply bind_inv in E as (s2 & e3 & [] & e4 & [= <- <-] & E & ->). cbn [app].
    exact (Hrest _ _ _ _ _ _ E (ssrc_open n m s fs Hn Hf Hses Hx Hs)).
Qed.

(** ** Datagrams *)

(** The session is not lost. *)
Definition kept (s s' : Engine) : Prop := is_Some (sessions s !! sid) -> is_Some (sessions s' !! sid).

Lemma src_handleServerDatagram n sl k src s s' es a fs :
  0 <= n -> force_ok (cfgFECForce cfg) -> (k <= length (sl_mem sl))%nat -> is_bytes (sl_mem sl) ->
  handleServerDatagram cfg sl k src s = Ret (s', es, a) -> ssrc n fs s -> kept s s' -> exists fs', sfed n fs es s' fs'.
Proof.
  intros Hn Hf Hk Hb E Hs Hkept. unfold handleServerDatagram in E.
  apply bind_inv in E as (s1 & e1 & dg & e2 & (Edg & -> & ->)%must_inv & E & ->). cbn [app].
  assert (Hdg : is_bytes dg).
  { rewrite slice_le, drop_0, Nat.sub_0_r in Edg by lia. injection Edg as <-. by apply Forall_take. }
  apply bind_inv in E as (s1 & e1 & h & e3 & E1 & E & ->).
  assert (Ht : s1 = s /\ e1 = []) by (destruct (ParseHeader dg); [..|done]; by injection E1 as <- <- _).
  destruct Ht as [-> ->]. cbn [app]. clear E1.
  assert (Hidle : forall (m : eng unit) e, rel (idle true fs) m -> m s = Ret (s', e, a) -> exists fs', sfed n fs e s' fs').
  { intros m e Hm Em. exists fs. by eapply (sfed_idle true). }
  destruct h as [h|].
  2:{ revert E. apply Hidle. apply (rel_bind _ (idle_trans true fs)); [apply idle_count|intros _; apply idle_Put]. }
  destruct (decide (hType h = TypeHello)) as [Hh|Hh].
  - apply bind_inv in E as (s2 & e4 & t & e5 & E1 & E & ->). rewrite Hh in E. cbn in E.
    pose proof (sfed_idle false now n fs _ _ _ _ (idle_now false fs) E1 Hs ltac:(done)) as H1'.
    apply bind_inv in E as (s3 & e6 & [] & e7 & E2 & E3 & ->).
    destruct (sfeeds_handleHello n dg src Hn Hf Hdg _ _ _ _ _ E2 (proj1 H1')) as (fs2 & H2').
    pose proof (sfed_idle false _ n fs2 _ _ _ _ (idle_Put false fs2 sl) E3 (proj1 H2') ltac:(done)) as H3'.
    exists fs2. eapply sfed_then; [exact H1'|]. by eapply sfed_then.
  - revert E. apply Hidle. apply (rel_bind _ (idle_trans true fs)); [apply idle_now|]. intros t.
    destruct (hType h =? TypeData).
    + apply rel_try_bind; [intros [d payload] Hp|apply (rel_bind _ (idle_trans true fs)); [apply idle_count|intros _; apply idle_Put]].
      destruct (ParseDataHeader_inv _ _ _ Hdg Hp) as [(Hwf & _) _]. unfold lookupSession.
      apply (rel_bind _ (idle_trans true fs)); [apply (rel_gets _ (idle_refl true fs))|]. intros [x|].
      * apply idle_onServerData. apply Hwf.
      * apply (rel_bind _ (idle_trans true fs)); [apply idle_count|intros _; apply idle_Put].
    + apply (rel_bind _ (idle_trans true fs)); [|intros _; apply idle_Put].
      destruct (hType h =? TypeFEC); [apply idle_onServerFEC|].
      destruct (hType h =? TypeProbe); [by apply idle_onServerProbe|].
      destruct (hType h =? TypeProbeAck); [apply idle_onServerProbeAck|].
      destruct (hType h =? TypeCtrl); [apply idle_onServerCtrl|].
      rewrite (proj2 (Z.eqb_neq _ _) Hh). destruct (hType h =? TypeBye); [apply idle_onBye|].
      apply (rel_ret _ (idle_refl true fs)).
Qed.

Lemma src_serverRx n r s s' es a fs :
  0 <= n -> force_ok (cfgFECForce cfg) -> (forall dgram from, r = Some (dgram, from) -> is_bytes dgram) ->
  serverRx cfg r s = Ret (s', es, a) -> ssrc n fs s -> kept s s' -> exists fs', sfed n fs es s' fs'.
Proof.
  intros Hn Hf Hr E Hs Hkept. unfold serverRx in E. apply bind_inv in E as (s1 & e1 & sl & e2 & E1 & E & ->).
  pose proof (sfed_idle false Get n fs _ _ _ _ (idle_Get false fs) E1 Hs ltac:(done)) as H1'.
  assert (Hsame : sessions s1 = sessions s).
  { unfold Get in E1. apply bind_inv in E1 as (s2 & e3 & x & e4 & [= <- <- <-] & E2 & _).
    apply bind_inv in E2 as (s3 & e5 & [] & e6 & E3 & [= <- _ _] & _). by injection E3 as <- _. }
  assert (H2' : exists fs', sfed n fs e2 s' fs').
  { destruct r as [[dgram src]|].
    - destruct (readInto_ok sl dgram (Get_shape _ _ _ _ E1) (Get_bytes _ _ _ _ E1) (Hr _ _ eq_refl)) as (Hk & Hb & _).
      eapply src_handleServerDatagram; [exact Hn|exact Hf|exact Hk|exact Hb|exact E|apply H1'|]. unfold kept. by rewrite Hsame.
    - exists fs. by eapply (sfed_idle false); [apply idle_Put|exact E|apply H1'|]. }
  destruct H2' as (fs' & H2'). exists fs'. by eapply sfed_then.
Qed.

(** ** Runs *)

(** The ciphertext an operation is given for the session. *)
Definition op_replies (o : server_op) : list (list Z) :=
  match o with SSend bufs ep => if decide (ep = sid) then bufs else [] | _ => [] end.

Lemma src_exec n o s s' es a fs :
  0 <= n -> force_ok (cfgFECForce cfg) -> inv s' -> server_op_ok o -> Forall ok (op_replies o) ->
  n + Z.of_nat (length (op_replies o)) <= two24 -> server_exec cfg o s = Ret (s', es, a) -> ssrc n fs s -> kept s s' ->
  exists fs', sfed (n + Z.of_nat (length (op_replies o))) fs es s' fs'.
Proof.
  intros Hn Hf Hi Ho Hok Hle E Hs Hkept.
  assert (Hthen : forall A (m : eng A), sfeeds n n m -> sfeeds n n (_ ← m; mret tt)).
  { intros A m Hm. apply (sfeeds_bind n n); [done|]. intros _. apply sfeeds_ret. }
  destruct o as [| |ch|pkt|bufs ep|r|id| |k l| |]; cbn [server_exec op_replies length] in *;
    change (Z.of_nat 0) with 0 in *; rewrite ?Z.add_0_r in *; revert E Hs.
  - apply sfeeds_idle. intros. apply idle_bindOpen.
  - apply sfeeds_idle. intros. apply idle_bindClose.
  - apply Hthen, sfeeds_idle. intros. apply idle_wgRecv.
  - intros E Hs. exists fs. destruct Hs as [[Hss Hq] He Hfs].
    assert (Hsame : sessions s' = sessions s /\ es = []).
    { unfold inspect in E. apply bind_inv in E as (s1 & e1 & cl & e2 & [= <- <- <-] & E & ->). cbn [app].
      destruct (classifier s); [|by injection E as <- <- _].
      apply bind_inv in E as (s2 & e3 & r & e4 & (_ & -> & ->)%must_inv & E & ->).
      apply bind_inv in E as (s3 & e5 & [] & e6 & [= <- <-] & [= <- <-] & ->). done. }
    destruct Hsame as [Hsame ->]. split_and!; [|done|apply List.Forall_nil].
    constructor; [constructor; [by rewrite Hsame|apply Hi]|unfold enc_of in *; by rewrite Hsame|done].
  - unfold serverSend, lookupSession. case_decide as Hep.
    + subst ep. apply (sfeeds_bind n n); [apply sfeeds_idle; intros fs0; apply (rel_gets _ (idle_refl false fs0))|].
      intros [x|]; [by apply sfeeds_serverSend|]. eapply sfeeds_le; [|apply sfeeds_idle; intros; apply idle_count]. lia.
    + cbn [length]. rewrite Z.add_0_r. apply sfeeds_idle. intros fs0.
      apply (rel_bind _ (idle_trans false fs0)); [apply (rel_gets _ (idle_refl false fs0))|].
      intros [x|]; [|apply idle_count]. apply idle_forEach. intros ct _. by apply idle_serverSendOne.
  - intros E Hs. by eapply src_serverRx.
  - apply sfeeds_idle. intros. apply idle_serverTimer.
  - by apply sfeeds_serverFecFlushTick.
  - by apply Hthen, sfeeds_serverControlTick.
  - intros E Hs. exists fs. by eapply (sfed_idle true); [apply idle_reaperTick|exact E|exact Hs|].
  - apply sfeeds_idle. intros. apply idle_closeServer.
Qed.

Lemma ssrc_New t : ssrc 0 [] (NewEngine cfg t).
Proof.
  constructor; [|done|by intros ? ? ? ?%elem_of_nil].
  constructor; cbn; [apply map_Forall_empty|apply List.Forall_nil].
Qed.

End Source.
