(* ===== verification/ClientSink.v ===== *)
(** * What the client takes

    A client whose datagrams of its session have acceptable contents hands
    only acceptable ciphertext to WireGuard: the contents of packets are
    followed through the FEC decoder, the resequencing buffer and WireGuard's
    queue, as on the server. *)

From stdpp Require Import strings.
From S2P Require Import Prelude Wire Control Float64 Sched Link PathSelect Fec FecSpec FecSound.
From S2P Require Import Classify Reorder ReorderInv ReorderTrace ReorderSpec Wgbridge Engine EngineLogic.
From S2P Require Import Client ClientSafe Server ServerSafe ServerSpec ServerCarry.
#[local] Open Scope Z_scope.

Section Sink.
Context `{Rounding} `{Blake2s} {C : ReedSolomon} {CL : ReedSolomonLaws C} `{MapOrder} `{World} `{!WorldLaws _}.
Context (cfg : Config).

(** [bk] is the book of the server's FEC groups for the session, [ok] what its
    ciphertext satisfies. *)
Context (bk : book) (ok : list Z -> Prop).
Context (bk_ok : forall id en p, bk !! id = Some en -> p ∈ en_pkts en -> ok p.2 /\ (length p.2 <= SlabSize)%nat).

(** ** The invariant *)

Definition pkt_ok (p : Packet) : Prop := forall b, Bytes p = Ret b -> ok b.
Definition in_ok (i : Inbound) : Prop := pkt_ok (inPkt i).

Record takes_ok (s : Engine) : Prop := {
  tk_bind : wf_bind (bind s);
  tk_queue : Forall in_ok (queued (bind s));
  tk_good : good (reorderBuf s);
  tk_vals : Forall pkt_ok (vals (reorderBuf s));
  tk_dec : forall d, fecDec s = Some d -> dec_ok bk d;
}.

Definition up_ok (e : ev) : Prop := match e with ToWireGuard _ ct => ok ct | _ => True end.

Definition takes (s : Engine) (es : list ev) (s' : Engine) : Prop := takes_ok s -> takes_ok s' /\ Forall up_ok es.

Lemma takes_refl s : takes s [] s.
Proof. intros Hc. by split; [|apply List.Forall_nil]. Qed.

Lemma takes_trans s e1 s1 e2 s2 : takes s e1 s1 -> takes s1 e2 s2 -> takes s (e1 ++ e2) s2.
Proof. intros Ha Hb Hc. destruct (Ha Hc) as [Hc1 He1]. destruct (Hb Hc1). split; [done|by apply Forall_app_2]. Qed.

Ltac takes_leaf :=
  first [ intros [? ? ? ? ?]; split; [by constructor|apply List.Forall_nil]
        | intros ?; split; [done|apply List.Forall_cons; [exact I|apply List.Forall_nil]] ].

(** Updates of paths are none of its business. *)
Lemma takes_updPath i f : rel takes (updPath i f).
Proof. apply rel_updPath. intros s. takes_leaf. Qed.

Ltac takes_with sub := rel_with takes_refl takes_trans ltac:(takes_leaf) ltac:(first [sub | apply takes_updPath]).
Ltac takes0 := takes_with ltac:(fail).

Lemma takes_count set get n : rel takes (count set get n).
Proof. unfold count. takes0. Qed.
Lemma takes_now : rel takes now.
Proof. unfold now. takes0. Qed.
Lemma takes_nowUS : rel takes nowUS.
Proof. unfold nowUS, now. takes0. Qed.
Lemma takes_txTS : rel takes txTS.
Proof. unfold txTS, now. takes0. Qed.
Lemma takes_Put sl : rel takes (Put sl).
Proof. unfold Put. takes0. Qed.
Lemma takes_Get : rel takes Get.
Proof. unfold Get. takes0. Qed.
Lemma takes_Release p : rel takes (Release p).
Proof. unfold Release, Put. takes0. Qed.
Lemma takes_pathAt i : rel takes (pathAt i).
Proof. unfold pathAt. takes0. Qed.
Lemma takes_write i b : rel takes (write i b).
Proof. unfold write. takes_with ltac:(apply takes_pathAt). Qed.
Lemma takes_dial i : rel takes (dial i).
Proof. unfold dial, pathAt. takes0. Qed.
Lemma takes_allPaths : rel takes allPaths.
Proof. unfold allPaths. takes0. Qed.

(** ** Packets on their way *)

Lemma takes_events g es : (forall i p, BRecv i p ∈ es -> rel takes (g p)) ->
  rel takes (forEach (fun e => match e with BRelease i => Release (inPkt i) | BRecv _ p => g p end) es).
Proof.
  induction es as [|e es IH]; intros Hg; cbn [forEach]; [apply (rel_ret _ takes_refl)|].
  apply (rel_bind _ takes_trans).
  - destruct e as [p|i p]; [apply takes_Release|]. apply (Hg i). by left.
  - intros _. apply IH. intros i p Hin. apply (Hg i). by right.
Qed.

Lemma takes_bind_step s ins es b' :
  takes_ok s -> bind_step (bind s) ins es b' -> Forall in_ok ins ->
  takes_ok (set_bind b' s) /\ Forall in_ok (released es).
Proof.
  intros [Hw Hq Hg Hv Hd] Hb Hi. destruct (bind_step_wf _ _ _ _ Hw Hb) as [Hw' Hp].
  assert (Hall : Forall in_ok (released es ++ queued b')).
  { rewrite <- Hp. by apply Forall_app_2. }
  apply Forall_app in Hall as [Hr Hq']. split; [by constructor|done].
Qed.

Lemma takes_deliver pkt ep : pkt_ok pkt -> rel takes (deliver pkt ep).
Proof.
  intros Hp s s' es a E Hc. unfold deliver in E.
  apply bind_inv in E as (s1 & e1 & b & e2 & [= <- <- <-] & E & ->).
  apply bind_inv in E as (s2 & e3 & [[b' bes] r] & e4 & E1 & E & ->).
  apply must_inv in E1 as (E1 & -> & ->). cbv iota in E.
  apply bind_inv in E as (s3 & e5 & [] & e6 & [= <- <-] & E & ->). cbn [app].
  destruct (takes_bind_step _ [mkInbound pkt ep] bes b' Hc) as [Hc' _];
    [by eapply bs_deliver|by apply List.Forall_cons; [|apply List.Forall_nil]|].
  revert Hc'. revert E. generalize (set_bind b' s). intros s0 E Hc'.
  apply bind_inv in E as (s4 & e7 & [] & e8 & E & [= <- <- <-] & ->). rewrite app_nil_r.
  assert (Hnr : forall i p, BRecv i p ∈ bes -> rel takes (mret tt : eng unit)) by (intros; apply (rel_ret _ takes_refl)).
  exact (takes_events (fun _ => mret tt) bes Hnr _ _ _ _ E Hc').
Qed.

Lemma takes_deliverOrCount pkt ep : pkt_ok pkt -> rel takes (deliverOrCount pkt ep).
Proof.
  intros Hp. unfold deliverOrCount. takes_with ltac:(first [by apply takes_deliver | apply takes_count]).
Qed.

Lemma takes_onReorder ep es : Forall pkt_ok (outs es) -> rel takes (forEach (onReorder ep) es).
Proof.
  induction es as [|e es IH]; intros Ho; cbn [forEach]; [apply (rel_ret _ takes_refl)|].
  change (e :: es) with ([e] ++ es) in Ho. rewrite outs_app in Ho. apply Forall_app in Ho as [He Hes].
  apply (rel_bind _ takes_trans); [|intros _; by apply IH].
  destruct e as [p l|p|d|]; cbn [onReorder].
  - apply takes_deliverOrCount. by apply Forall_inv in He.
  - apply takes_Release.
  - apply rel_tell. intros ?. takes_leaf.
  - apply rel_tell. intros ?. takes_leaf.
Qed.

Lemma takes_clientReorder o : op_ok o -> Forall pkt_ok (op_ins o) -> rel takes (clientReorder cfg (exec o)).
Proof.
  intros Ho Hin s s' es a E Hc. unfold clientReorder in E.
  apply bind_inv in E as (s1 & e1 & b0 & e2 & [= <- <- <-] & E & ->).
  destruct (exec o (reorderBuf s)) as [b res] eqn:Ex. destruct Hc as [Hw Hq Hg Hv Hd].
  destruct (exec_run (fun _ => 0) _ _ _ _ Ex Hg Ho) as (Hg' & Hp & _).
  assert (Hall : Forall pkt_ok (outs res ++ vals b)).
  { rewrite <- Hp. by apply Forall_app_2. }
  apply Forall_app in Hall as [Hout Hvals].
  apply bind_inv in E as (s2 & e3 & [] & e4 & [= <- <-] & E & ->). cbn [app].
  refine (takes_onReorder _ res Hout _ _ _ _ E _). by constructor.
Qed.

Lemma takes_clientPush sq pkt : is_u32 sq -> pkt_ok pkt -> rel takes (clientPush cfg sq pkt).
Proof.
  intros Hu Hp. unfold clientPush. apply (rel_bind _ takes_trans); [apply takes_now|]. intros t.
  apply (takes_clientReorder (OpPush t sq pkt)); [exact Hu|]. by apply List.Forall_cons; [|apply List.Forall_nil].
Qed.

Lemma takes_clientTimer : rel takes (clientTimer cfg).
Proof.
  unfold clientTimer. apply (rel_bind _ takes_trans); [apply takes_now|]. intros t.
  apply (takes_clientReorder (OpTimer t)); [done|apply List.Forall_nil].
Qed.

(** ** FEC *)

Lemma takes_recover e : from_book bk e -> rel takes (recover (fun sq pkt => clientPush cfg (u32 sq) pkt) e).
Proof.
  destruct e as [|sq ct]; [intros _; apply (rel_ret _ takes_refl)|]. intros (gid & en & Hb & Hin).
  intros s s' es a E. cbn [recover] in E. apply bind_inv in E as (s1 & e1 & sl & e2 & E1 & E & ->).
  pose proof (Get_shape _ _ _ _ E1) as Hl. apply (takes_trans _ _ s1); [by apply (takes_Get _ _ _ _ E1)|].
  eapply takes_clientPush; [apply u32_range| |exact E].
  destruct (bk_ok _ _ _ Hb Hin) as [Hok Hlen]. cbn [snd] in Hok, Hlen.
  unfold pkt_ok. rewrite Bytes_copied by lia. by intros ? [= <-].
Qed.

Lemma takes_clientDecode f : (forall d, dec_ok bk d -> sound bk (f d)) -> rel takes (clientDecode cfg f).
Proof.
  intros Hf s s' es a E Hc. unfold clientDecode in E.
  apply bind_inv in E as (s1 & e1 & o & e2 & [= <- <- <-] & E & ->). cbn [app].
  destruct (fecDec s) as [dec|] eqn:Ed; [|injection E as <- <- <-; exact (takes_refl s Hc)].
  destruct (Hf dec (tk_dec _ Hc _ Ed)) as [Hd Hall]. destruct (f dec) as [dec' fes]. cbn [fst snd] in Hd, Hall.
  apply bind_inv in E as (s2 & e3 & [] & e4 & [= <- <-] & E & ->). cbn [app].
  assert (Hr : rel takes (forEach (recover (fun sq pkt => clientPush cfg (u32 sq) pkt)) fes)).
  { clear -Hall bk_ok WorldLaws0. induction Hall as [|e fes He _ IH]; cbn [forEach]; [apply (rel_ret _ takes_refl)|].
    apply (rel_bind _ takes_trans); [by apply takes_recover|]. intros _. exact IH. }
  refine (Hr _ _ _ _ E _). destruct Hc. constructor; try done. by intros ? [= <-].
Qed.

(** ** Receiving *)

Lemma takes_onData i sl n d payload t :
  wf_data d -> pkt_ok (mkPacket (Some sl) (Len d) (length payload)) ->
  (hasFEC (dHeader d) = true -> logged bk (DataPkt (dFECGroup d) (dFECIndex d) (dGlobalSeq d, payload))) ->
  rel takes (onData cfg i sl n d payload t).
Proof.
  intros Hwf Hok Hfec. unfold onData. assert (Hseq : is_u32 (dGlobalSeq d)) by apply Hwf.
  do 5 (apply (rel_bind _ takes_trans); [first [apply takes_updPath | apply takes_txTS | apply takes_count]|intros ?]).
  cbv zeta. destruct (_ =? _); [|by apply takes_deliverOrCount].
  apply (rel_bind _ takes_trans); [|intros _; by apply takes_clientPush].
  destruct (hasFEC (dHeader d)); [|apply (rel_ret _ takes_refl)]. cbn [when].
  apply takes_clientDecode. intros dec Hdec. apply (receive_sound bk (DataPkt _ _ (_, _)) t dec Hdec). by apply Hfec.
Qed.

Lemma takes_onFEC i n dgram t : fine (cfgSession cfg) bk ok dgram -> rel takes (onFEC cfg i n dgram t).
Proof.
  intros Hf. unfold onFEC.
  apply rel_try_bind; [intros [f shard] Ep|apply (rel_bind _ takes_trans); [apply (rel_gets _ takes_refl)|intros []; apply (rel_ret _ takes_refl)]].
  pose proof (fine_fec _ _ _ _ Hf _ _ Ep) as Hl.
  apply (rel_bind _ takes_trans); [apply (rel_gets _ takes_refl)|]. intros [dec|]; [|apply (rel_ret _ takes_refl)].
  destruct (Z.eqb_spec (fSession f) (cfgSession cfg)) as [Es|]; [|apply (rel_ret _ takes_refl)]. cbn [when].
  do 3 (apply (rel_bind _ takes_trans); [first [apply takes_updPath | apply takes_count]|intros _]).
  apply takes_clientDecode. intros d Hd. exact (receive_sound bk (ParityPkt _ _ _ _ _) t d Hd (Hl Es)).
Qed.

(** ** Everything else *)

Lemma takes_stripe ix : rel takes (stripe ix).
Proof. unfold stripe. takes_with ltac:(apply takes_pathAt). Qed.

Lemma takes_sendDataOn i class dup session sq tag ct : rel takes (sendDataOn i class dup session sq tag ct).
Proof.
  unfold sendDataOn. takes_with ltac:(first [apply takes_Get | apply takes_pathAt | apply takes_txTS
    | apply takes_write | apply takes_count | apply takes_Put]).
Qed.

Lemma takes_clientEmitParity e : rel takes (clientEmitParity cfg e).
Proof.
  unfold clientEmitParity, sendablePaths. takes_with ltac:(first [apply takes_stripe | apply takes_Get | apply takes_pathAt
    | apply takes_write | apply takes_count | apply takes_Put]).
Qed.

Lemma takes_sendBulk ix ct : rel takes (sendBulk cfg ix ct).
Proof.
  unfold sendBulk, aqm, nextGlobal, fecAdd. takes_with ltac:(first [apply takes_stripe | apply takes_pathAt | apply takes_now
    | apply takes_count | apply takes_clientEmitParity | apply takes_sendDataOn]).
Qed.

Lemma takes_classifyCt ct : rel takes (classifyCt ct).
Proof. unfold classifyCt. takes0. Qed.

Lemma takes_clientSend bufs : rel takes (clientSend cfg bufs).
Proof.
  unfold clientSend, sendOne, sendablePaths, holdPending, nextRt. takes_with ltac:(first [apply takes_classifyCt
    | apply takes_count | apply takes_pathAt | apply takes_sendDataOn | apply takes_sendBulk]).
Qed.

Lemma takes_flushPending : rel takes (flushPending cfg).
Proof. unfold flushPending. takes_with ltac:(apply takes_clientSend). Qed.

Lemma takes_fecFlushTick : rel takes (fecFlushTick cfg).
Proof. unfold fecFlushTick. takes_with ltac:(first [apply takes_now | apply takes_clientEmitParity]). Qed.

Lemma takes_onProbe i dgram : rel takes (onProbe cfg i dgram).
Proof. unfold onProbe. takes_with ltac:(apply takes_write). Qed.

Lemma takes_onProbeAck i dgram t : rel takes (onProbeAck cfg i dgram t).
Proof. unfold onProbeAck. takes_with ltac:(first [apply takes_pathAt | apply takes_nowUS]). Qed.

Lemma takes_onClientCtrl c t : rel takes (onClientCtrl c t).
Proof. unfold onClientCtrl. takes0. Qed.

Lemma takes_onHelloAck i dgram t : rel takes (onHelloAck cfg i dgram t).
Proof. unfold onHelloAck. takes_with ltac:(first [apply takes_pathAt | apply takes_flushPending]). Qed.

Lemma takes_handleClientDatagram i sl n :
  (n <= length (sl_mem sl))%nat -> is_bytes (sl_mem sl) -> fine (cfgSession cfg) bk ok (take n (sl_mem sl)) ->
  rel takes (handleClientDatagram cfg i sl n).
Proof.
  intros Hn Hb Hf. unfold handleClientDatagram. set (dg := take n (sl_mem sl)) in *.
  assert (Hdg : is_bytes dg) by by apply Forall_take.
  apply rel_must_bind. intros dg' Edg. rewrite slice_le, drop_0, Nat.sub_0_r in Edg by lia. injection Edg as <-.
  fold dg. apply rel_try_bind; [intros h _|takes_with ltac:(first [apply takes_count | apply takes_Put])].
  apply (rel_bind _ takes_trans); [apply takes_now|]. intros t. destruct (hType h =? TypeData).
  - apply rel_try_bind; [intros [d payload] Hp|takes_with ltac:(first [apply takes_count | apply takes_Put])].
    destruct (Z.eqb_spec (dSession d) (cfgSession cfg)) as [Es|]; cbn [negb];
      [|takes_with ltac:(first [apply takes_count | apply takes_Put])].
    destruct (fine_data _ _ _ _ Hf _ _ Hp Es) as [Hpay Hfec]. destruct (ParseDataHeader_inv _ _ _ Hdg Hp) as [Hwf E].
    apply takes_onData; [done|unfold pkt_ok; rewrite (payload_bytes sl n) by done; by intros ? [= <-]|done].
  - takes_with ltac:(first [by apply takes_onFEC | apply takes_onProbe | apply takes_onProbeAck
      | apply takes_onClientCtrl | apply takes_onHelloAck | apply takes_Put]).
Qed.

Lemma takes_clientRx i r :
  (forall dgram, r = Some dgram -> is_bytes dgram /\ fine (cfgSession cfg) bk ok (take SlabSize dgram)) ->
  rel takes (clientRx cfg i r).
Proof.
  intros Hr. unfold clientRx. intros s s' es a (s1 & e1 & sl & e2 & E1 & E & ->)%bind_inv.
  apply (takes_trans _ _ s1); [by apply (takes_Get _ _ _ _ E1)|].
  destruct r as [dgram|]; [|by apply (takes_Put _ _ _ _ _ E)].
  destruct (Hr _ eq_refl) as [Hb Hf].
  destruct (readInto_ok sl dgram (Get_shape _ _ _ _ E1) (Get_bytes _ _ _ _ E1) Hb) as (Hn & Hb' & Ht).
  refine (takes_handleClientDatagram i _ _ Hn Hb' _ _ _ _ _ E). by rewrite Ht.
Qed.

Lemma takes_AddPath name : rel takes (AddPath name).
Proof. unfold AddPath. takes_with ltac:(first [apply takes_now | apply takes_dial]). Qed.

Lemma takes_helloTick : rel takes (helloTick cfg).
Proof.
  unfold helloTick, helloPath. takes_with ltac:(first [apply takes_now | apply takes_allPaths | apply takes_pathAt | apply takes_write]).
Qed.

Lemma takes_probeTick k : rel takes (probeTick cfg k).
Proof.
  unfold probeTick, probePath. takes_with ltac:(first [apply takes_now | apply takes_nowUS | apply takes_allPaths
    | apply takes_pathAt | apply takes_write | apply takes_dial]).
Qed.

(** Retuning the hold time moves no packet. *)
Lemma takes_hold h : rel takes (modify (fun s => set_reorderBuf (SetHold h (reorderBuf s)) s)).
Proof.
  apply rel_modify. intros s [Hw Hq Hg Hv Hd]. split; [|apply List.Forall_nil].
  destruct (exec_run (fun _ => 0) (OpSetHold h) _ _ _ eq_refl Hg I) as (Hg' & Hp & _).
  cbn [op_ins exec outs omap list_omap app] in Hp. rewrite app_nil_r in Hp. by constructor.
Qed.

Lemma takes_ctrlTick l : rel takes (ctrlTick cfg l).
Proof.
  unfold ctrlTick, reportPath. takes_with ltac:(first [apply takes_now | apply takes_allPaths | apply takes_pathAt
    | apply takes_write | apply takes_hold]).
Qed.

Lemma takes_closeClient : rel takes (closeClient cfg).
Proof.
  unfold closeClient, sendByes, byePath, closePath. takes_with ltac:(first [apply takes_now | apply takes_allPaths
    | apply takes_pathAt | apply takes_write | apply (takes_clientReorder OpClose); [done|apply List.Forall_nil]]).
Qed.

(** WireGuard receives, opens and closes. *)
Lemma takes_wgRecv i : rel takes (wgRecv i).
Proof.
  intros s s' es a E Hc. unfold wgRecv in E. apply bind_inv in E as (s1 & e1 & b & e2 & [= <- <- <-] & E & ->).
  destruct (recv i (bind s)) as [[[b' bes]| |]|] eqn:Er.
  2,4: injection E as <- <- <-; exact (takes_refl s Hc).
  2: done.
  apply bind_inv in E as (s2 & e3 & [] & e4 & [= <- <-] & E & ->). cbn [app].
  destruct (takes_bind_step _ [] bes b' Hc) as [Hc' Hrel]; [by eapply bs_recv|apply List.Forall_nil|].
  assert (Hin : forall j p, BRecv j p ∈ bes -> in_ok p).
  { unfold recv in Er. destruct (heap (bind s) !! i) as [[[|p rest] cl]|]; [by destruct cl| |done].
    injection Er as <- <-. intros j q Hq. cbn in Hrel. apply Forall_inv in Hrel.
    apply elem_of_cons in Hq as [[= <- <-]|[?|?%elem_of_nil]%elem_of_cons]; done. }
  revert E Hc'. generalize (set_bind b' s). intros s0 E Hc'.
  apply bind_inv in E as (s4 & e7 & [] & e8 & E & [= <- <- <-] & ->). rewrite app_nil_r.
  refine (takes_events (fun p => b ← must (Bytes (inPkt p)); tell (ToWireGuard (inEp p) b)) bes _ _ _ _ _ E Hc').
  intros j p Hjp s3 s3' es3 a3 (s5 & e5 & ct & e6 & (Hb & -> & ->)%must_inv & E5 & ->)%bind_inv.
  revert E5. apply (fun Hm : rel takes (tell (ToWireGuard (inEp p) ct)) => Hm s3 s3' e6 a3). apply rel_tell. intros s5 Hc5. split; [done|]. apply List.Forall_cons; [|apply List.Forall_nil].
  by apply (Hin _ _ Hjp).
Qed.

Lemma takes_bindOpen : rel takes bindOpen.
Proof.
  apply rel_modify. intros s Hc. split; [|apply List.Forall_nil].
  destruct (Open (bind s)) as [b r] eqn:E. by destruct (takes_bind_step s [] [] b Hc (bs_open _ _ _ E) (List.Forall_nil _)).
Qed.

Lemma takes_bindClose : rel takes bindClose.
Proof.
  intros s s' es a (s1 & e1 & b & e2 & [= <- <- <-] & E & ->)%bind_inv Hc.
  apply bind_inv in E as (s2 & e3 & b' & e4 & (E1 & -> & ->)%must_inv & [= <- <-] & ->).
  destruct (takes_bind_step s [] [] b' Hc (bs_close _ _ E1) (List.Forall_nil _)). by split; [|apply List.Forall_nil].
Qed.

Lemma takes_inspect pkt : rel takes (inspect pkt).
Proof. unfold inspect. takes0. Qed.

(** ** Runs *)

Definition rx_fine (o : client_op) : Prop :=
  match o with
  | CRx _ r => forall dgram, r = Some dgram -> is_bytes dgram /\ fine (cfgSession cfg) bk ok (take SlabSize dgram)
  | _ => True
  end.

Lemma takes_client_exec o : rx_fine o -> rel takes (client_exec cfg o).
Proof.
  intros Ho. assert (Hret : forall A (m : eng A), rel takes m -> rel takes (_ ← m; mret tt)).
  { intros A m Hm. apply (rel_bind _ takes_trans); [done|intros _; apply (rel_ret _ takes_refl)]. }
  destruct o as [| |ch|pkt|bufs|name|i r| | | |k|l| |d]; cbn [client_exec].
  - apply takes_bindOpen.
  - apply takes_bindClose.
  - apply Hret, takes_wgRecv.
  - apply takes_inspect.
  - apply takes_clientSend.
  - apply Hret, takes_AddPath.
  - by apply takes_clientRx.
  - apply takes_clientTimer.
  - apply takes_fecFlushTick.
  - apply takes_helloTick.
  - apply takes_probeTick.
  - apply Hret, takes_ctrlTick.
  - apply takes_closeClient.
  - apply Hret. unfold pollReady, activePath. takes_with ltac:(apply takes_now).
Qed.

Lemma takes_New t : takes_ok (NewEngine cfg t).
Proof.
  constructor; cbn; [|apply List.Forall_nil|apply good_New|apply List.Forall_nil|].
  - constructor; cbn; [done|apply List.Forall_nil].
  - intros d. destruct (match cfgMode cfg with ModeClient => _ | ModeServer => _ end); [|done].
    intros [= <-]. apply map_Forall_empty.
Qed.

End Sink.
