(* ===== verification/EndToEnd.v ===== *)
(** * Through the tunnel

    A client and a server, each in a world of its own, with an unreliable
    network between them: what the server hands to WireGuard for the client's
    session is what the client's WireGuard gave it, and the other way round;
    and every datagram of the client is one the parsers accept. *)

From stdpp Require Import strings.
From S2P Require Import Prelude Wire Control Float64 Sched Link PathSelect Fec FecSpec FecSound.
From S2P Require Import Classify Reorder ReorderInv ReorderTrace ReorderSpec Wgbridge Engine.
From S2P Require Import EngineLogic Client ClientSafe ClientSend ClientCarry.
From S2P Require Import Server ServerSafe ServerSpec ServerCarry ServerSource ClientSink.
#[local] Open Scope Z_scope.

(** ** Parsers and other people's datagrams *)

Lemma ParseDataHeader_type h rest :
  0 <= hType h <= maxType -> hType h <> TypeData -> ParseDataHeader (header_bytes h ++ rest) = Err ErrType.
Proof.
  intros Ht Hne. unfold ParseDataHeader. rewrite ParseHeader_typed by done. cbn [mbind outcome_bind].
  by rewrite (proj2 (Z.eqb_neq _ _) Hne).
Qed.

Lemma ParseFEC_type h rest :
  0 <= hType h <= maxType -> hType h <> TypeFEC -> ParseFEC (header_bytes h ++ rest) = Err ErrType.
Proof.
  intros Ht Hne. unfold ParseFEC. rewrite ParseHeader_typed by done. cbn [mbind outcome_bind].
  by rewrite (proj2 (Z.eqb_neq _ _) Hne).
Qed.

(** A datagram that is neither DATA nor parity of session [sid]. *)
Definition foreign (sid : Z) (dgram : list Z) : Prop :=
  (forall d payload, ParseDataHeader dgram = Ret (d, payload) -> dSession d <> sid) /\
  (forall f shard, ParseFEC dgram = Ret (f, shard) -> fSession f <> sid).

Lemma foreign_fine {C : ReedSolomon} sid bk ok dgram : foreign sid dgram -> fine sid bk ok dgram.
Proof.
  intros [Hd Hf]. constructor.
  - intros d payload Hp Hs. by destruct (Hd _ _ Hp).
  - intros f shard Hp Hs. by destruct (Hf _ _ Hp).
Qed.

(** Where the parsers find the session. *)
Lemma ParseDataHeader_session b d payload : ParseDataHeader b = Ret (d, payload) -> @get_be wire_error 4 b 4 = Ret (dSession d).
Proof.
  unfold ParseDataHeader. destruct (ParseHeader b) as [h| |]; cbn [mbind outcome_bind]; [|done..].
  destruct (negb _); [done|]. case_decide; [done|]. destruct (get_be 4 b 4) as [x| |]; cbn [mbind outcome_bind]; [|done..].
  intros E. repeat (case_match || (destruct (get_be _ b _)) || (destruct (idx b _)) || (destruct (slice_from b _))
    || cbn [mbind outcome_bind] in E || simplify_eq); done.
Qed.

Lemma ParseFEC_session b f shard : ParseFEC b = Ret (f, shard) -> @get_be wire_error 4 b 4 = Ret (fSession f).
Proof.
  unfold ParseFEC. destruct (ParseHeader b) as [h| |]; cbn [mbind outcome_bind]; [|done..].
  destruct (negb _); [done|]. case_decide; [done|]. destruct (get_be 4 b 4) as [x| |]; cbn [mbind outcome_bind]; [|done..].
  intros E. repeat (case_match || (destruct (get_be _ b _)) || (destruct (idx b _)) || (destruct (slice_from b _))
    || cbn [mbind outcome_bind] in E || simplify_eq); done.
Qed.

(** A datagram that names another session. *)
Lemma foreign_named sid h id rest : is_u32 id -> id <> sid -> foreign sid (take SlabSize (header_bytes h ++ be 4 id ++ rest)).
Proof.
  intros Hid Hne. rewrite take_app_ge by (by vm_compute; lia). rewrite take_app_ge by (rewrite length_be; by vm_compute; lia).
  set (r := take _ rest). assert (E : @get_be wire_error 4 (header_bytes h ++ be 4 id ++ r) 4 = Ret id).
  { rewrite get_be_ok by (rewrite !length_app, length_be; cbn; lia).
    change 4%nat with (length (header_bytes h)) at 2. rewrite drop_app_length.
    rewrite <- (length_be 4 id) at 1. by rewrite take_app_length, be_val_field. }
  split; [intros d p Hp%ParseDataHeader_session|intros f p Hp%ParseFEC_session]; congruence.
Qed.

(** What a client writes is fine for its session. *)
Lemma legit_fine {C : ReedSolomon} cfg (ok : list Z -> Prop) fs bk b :
  (forall ct, ok ct -> (length ct + DataHeaderFECSize <= SlabSize)%nat) ->
  Forall (logged bk) fs -> legit cfg ok fs b -> fine (cfgSession cfg) bk ok (take SlabSize b).
Proof.
  intros Hlen Hlog Hb. rewrite list.Forall_forall in Hlog.
  destruct Hb as [d ct Hwf Hs Hok Hin|f shard Hwf Hl Hs Hin Hfit|h rest (Ht & Hnd & Hnf)].
  - pose proof (Len_le d). specialize (Hlen _ Hok).
    rewrite take_ge by (rewrite length_app, length_data_bytes; lia). constructor.
    + intros d' p'. rewrite ParseDataHeader_bytes by done. intros [= <- <-] _. split; [done|]. intros Hf. by apply Hlog, Hin.
    + intros f shard. unfold data_bytes. rewrite <- app_assoc. destruct Hwf as (Hh & Ht & _).
      by rewrite ParseFEC_type; [|apply Hh|rewrite Ht].
  - rewrite take_ge by (rewrite length_app, length_fec_bytes; lia). constructor.
    + intros d p. rewrite ParseDataHeader_fec by apply Hwf. done.
    + intros f' s'. rewrite ParseFEC_bytes by done. intros [= <- <-] _. by apply Hlog.
  - rewrite take_app_ge by (by vm_compute; lia). constructor.
    + intros d p. by rewrite ParseDataHeader_type.
    + intros f s. by rewrite ParseFEC_type.
Qed.

(** ** Runs *)

Section Client.
Context `{Rounding} `{Blake2s} {C : ReedSolomon} {CL : ReedSolomonLaws C} `{MapOrder} `{World} `{!WorldLaws _}.
Context (cfg : Config).

(** [client_sent ins es s]: a run of the client to [s] with the effects [es],
    in which WireGuard handed it the ciphertexts [ins]. *)
Inductive client_sent : list (list Z) -> list ev -> Engine -> Prop :=
  | sent_new t : client_sent [] [] (NewEngine cfg t)
  | sent_step ins es s o s' es' :
      client_sent ins es s -> client_op_ok o s -> client_exec cfg o s = Ret (s', es', tt) ->
      client_sent (ins ++ op_sends o) (es ++ es') s'.

Lemma client_sent_run ins es s : client_sent ins es s -> client_run cfg es s.
Proof. induction 1 as [t|ins es s o s' es' _ IH Ho E]; [constructor|by eapply client_step]. Qed.

(** The books of a whole run. *)
Lemma client_sent_src (ok : list Z -> Prop) ins es s :
  (forall ct, ok ct -> (length ct + DataHeaderFECSize <= SlabSize)%nat) ->
  cfg_ok cfg -> is_u32 (cfgSession cfg) -> force_ok (cfgFECForce cfg) ->
  client_sent ins es s -> Forall ok ins -> Z.of_nat (length ins) <= two24 ->
  exists fs, src ok (Z.of_nat (length ins)) fs s /\ Forall (legit cfg ok fs) (written es).
Proof.
  intros Hlen Hc Hses Hf. induction 1 as [t|ins es s o s' es' Hr IH Ho E]; intros Hok Hn.
  { exists []. split; [by apply src_New|apply List.Forall_nil]. }
  apply Forall_app in Hok as [Hok1 Hok2]. rewrite length_app in Hn |- *.
  destruct (IH Hok1 ltac:(lia)) as (fs & Hs & Hl).
  destruct (client_run_inv cfg es s Hc (client_sent_run _ _ _ Hr)) as [Hi _].
  destruct (feeds_exec cfg ok Hlen Hses (Z.of_nat (length ins)) o s s' es' tt fs Hi Hok2 ltac:(lia) Hf E Hs) as (fs' & Hs' & Hsub & Hl').
  exists fs'. rewrite Nat2Z.inj_add. split; [done|]. rewrite written_app. apply Forall_app_2; [|done].
  eapply Forall_impl; [|exact Hl]. intros b. by apply legit_more.
Qed.

End Client.

Section Server.
Context `{Rounding} `{Blake2s} {C : ReedSolomon} {CL : ReedSolomonLaws C} `{MapOrder} `{World} `{!WorldLaws _}.
Context (cfg : Config).

(** [server_fed P es s]: a run of the server in which every datagram that
    arrives satisfies [P]. *)
Inductive server_fed (P : list Z -> Prop) : list ev -> Engine -> Prop :=
  | fed_new t : server_fed P [] (NewEngine cfg t)
  | fed_step es s o s' es' :
      server_fed P es s -> server_op_ok o ->
      (forall dgram from, o = SRx (Some (dgram, from)) -> P dgram) ->
      server_exec cfg o s = Ret (s', es', tt) -> server_fed P (es ++ es') s'.

Lemma server_fed_carry sid bk ok P es s :
  (forall id en p, bk !! id = Some en -> p ∈ en_pkts en -> ok p.2 /\ (length p.2 <= SlabSize)%nat) ->
  (forall dgram, P dgram -> fine sid bk ok (take SlabSize dgram)) ->
  server_fed P es s -> carry sid bk ok s /\ Forall (ev_ok sid ok) es.
Proof.
  intros Hbk HP. induction 1 as [t|es s o s' es' _ [Hc He] Ho Hd E].
  { split; [apply carry_New|apply List.Forall_nil]. }
  assert (Hf : op_fine sid bk ok o).
  { destruct o; try done. intros dgram from ->. split; [by eapply Ho|]. by eapply HP, Hd. }
  destruct (keeps_server_exec cfg sid bk ok Hbk o Hf _ _ _ _ E Hc) as [Hc' He'].
  split; [done|by apply Forall_app_2].
Qed.

(** [server_sent ccfg ins es s]: a run of the server to [s] with the effects
    [es], in which WireGuard handed it the ciphertexts [ins] for the session
    of the client [ccfg], which it never closes once it is open. *)
Inductive server_sent (ccfg : Config) : list (list Z) -> list ev -> Engine -> Prop :=
  | back_new t : server_sent ccfg [] [] (NewEngine cfg t)
  | back_step ins es s o s' es' :
      server_sent ccfg ins es s -> server_op_ok o -> server_exec cfg o s = Ret (s', es', tt) -> kept ccfg s s' ->
      server_sent ccfg (ins ++ op_replies ccfg o) (es ++ es') s'.

Lemma server_sent_run ccfg ins es s : server_sent ccfg ins es s -> server_run cfg es s.
Proof. induction 1 as [t|ins es s o s' es' _ IH Ho E _]; [constructor|by eapply server_step]. Qed.

(** The books of a whole run. *)
Lemma server_sent_src ccfg (ok : list Z -> Prop) ins es s :
  (forall ct, ok ct -> (length ct + DataHeaderFECSize <= SlabSize)%nat) ->
  cfg_ok cfg -> force_ok (cfgFECForce cfg) -> server_sent ccfg ins es s -> Forall ok ins -> Z.of_nat (length ins) <= two24 ->
  exists fs, ssrc ccfg ok (Z.of_nat (length ins)) fs s /\ Forall (emitted ccfg ok fs) (replies es).
Proof.
  intros Hlen Hc Hf. induction 1 as [t|ins es s o s' es' Hr IH Ho E Hk]; intros Hok Hn.
  { exists []. split; [by apply ssrc_New|apply List.Forall_nil]. }
  apply Forall_app in Hok as [Hok1 Hok2]. rewrite length_app in Hn |- *.
  destruct (IH Hok1 ltac:(lia)) as (fs & Hs & Hl).
  destruct (server_run_inv cfg _ s' Hc (server_step cfg es s o s' es' (server_sent_run _ _ _ _ Hr) Ho E)) as [Hi _].
  destruct (src_exec cfg ccfg ok Hlen (Z.of_nat (length ins)) o s s' es' tt fs ltac:(lia) Hf Hi Ho Hok2 ltac:(lia) E Hs Hk)
    as (fs' & Hs' & Hsub & Hl').
  exists fs'. rewrite Nat2Z.inj_add. split; [done|]. rewrite replies_app. apply Forall_app_2; [|done].
  eapply Forall_impl; [|exact Hl]. intros b. by apply emitted_more.
Qed.

End Server.

Section ClientFed.
Context `{Rounding} `{Blake2s} {C : ReedSolomon} {CL : ReedSolomonLaws C} `{MapOrder} `{World} `{!WorldLaws _}.
Context (cfg : Config).

(** [client_fed P es s]: a run of the client in which every datagram that
    arrives satisfies [P]. *)
Inductive client_fed (P : list Z -> Prop) : list ev -> Engine -> Prop :=
  | cfed_new t : client_fed P [] (NewEngine cfg t)
  | cfed_step es s o s' es' :
      client_fed P es s -> client_op_ok o s -> (forall i dgram, o = CRx i (Some dgram) -> P dgram) ->
      client_exec cfg o s = Ret (s', es', tt) -> client_fed P (es ++ es') s'.

Lemma client_fed_takes bk ok P es s :
  (forall id en p, bk !! id = Some en -> p ∈ en_pkts en -> ok p.2 /\ (length p.2 <= SlabSize)%nat) ->
  (forall dgram, P dgram -> fine (cfgSession cfg) bk ok (take SlabSize dgram)) ->
  client_fed P es s -> takes_ok bk ok s /\ Forall (up_ok ok) es.
Proof.
  intros Hbk HP. induction 1 as [t|es s o s' es' _ [Hc He] Ho Hd E].
  { split; [apply takes_New|apply List.Forall_nil]. }
  assert (Hf : rx_fine cfg bk ok o).
  { destruct o; try done. intros dgram ->. destruct Ho as [_ Ho]. split; [by apply Ho|]. by eapply HP, Hd. }
  destruct (takes_client_exec cfg bk ok Hbk o Hf _ _ _ _ E Hc) as [Hc' He'].
  split; [done|by apply Forall_app_2].
Qed.

End ClientFed.

(** The book of a session on the server. *)
Lemma ssrc_book {C : ReedSolomon} ccfg (ok : list Z -> Prop) n fs s : ssrc ccfg ok n fs s ->
  exists bk, Forall (logged bk) fs /\ forall id en p, bk !! id = Some en -> p ∈ en_pkts en -> ok p.2.
Proof.
  intros [_ He Hf].
  assert (Hnone : fs = [] -> exists bk : book, Forall (logged bk) fs /\ forall id en p, bk !! id = Some en -> p ∈ en_pkts en -> ok p.2).
  { intros ->. exists ∅. split; [apply List.Forall_nil|]. intros id en p Hid. by rewrite lookup_empty in Hid. }
  destruct (enc_of ccfg s) as [[e|]|]; [|by apply Hnone..].
  destruct He as (b & Hb & _). exists b. split; [apply Hb|]. intros id en p Hid [n0 Hn]%list_elem_of_lookup.
  eapply Hf, (ek_sent _ _ _ Hb); [exact Hid|exact Hn].
Qed.

(** What the server writes is fine for the client's session. *)
Lemma emitted_fine {C : ReedSolomon} ccfg (ok : list Z -> Prop) fs bk b :
  (forall ct, ok ct -> (length ct + DataHeaderFECSize <= SlabSize)%nat) ->
  Forall (logged bk) fs -> emitted ccfg ok fs b -> fine (cfgSession ccfg) bk ok (take SlabSize b).
Proof.
  intros Hlen Hlog [Hl|h id rest -> Hid Hne]; [by eapply legit_fine|]. by apply foreign_fine, foreign_named.
Qed.

(** The book of a client. *)
Lemma src_book {C : ReedSolomon} (ok : list Z -> Prop) n fs s : src ok n fs s ->
  exists bk, Forall (logged bk) fs /\ forall id en p, bk !! id = Some en -> p ∈ en_pkts en -> ok p.2.
Proof.
  intros [_ _ He Hf]. destruct (fecEnc s) as [e|].
  - destruct He as (b & Hb & _). exists b. split; [apply Hb|]. intros id en p Hid [n0 Hn]%list_elem_of_lookup.
    eapply Hf, (ek_sent _ _ _ Hb); [exact Hid|exact Hn].
  - subst fs. exists ∅. split; [apply List.Forall_nil|]. intros id en p Hid. by rewrite lookup_empty in Hid.
Qed.

Section Tunnel.
Context `{Rounding} `{Blake2s} {C : ReedSolomon} {CL : ReedSolomonLaws C} `{MapOrder}.




(** C1: The tunnel delivers what it was given. A client runs for as long as
    WireGuard hands it at most 2^24 ciphertexts that fit a datagram. The
    network may lose, repeat, delay and reorder the datagrams the client
    writes, from any source address, and may mix in any datagrams that are
    not DATA or parity of the client's session: other clients, control
    messages, garbage. Then every ciphertext the server ever hands to its
    WireGuard for that session, whether it came straight through, was put in
    order or was rebuilt from parity, is one of the ciphertexts the client
    was given, byte for byte. *)
Theorem tunnel_integrity {WC WS : World} `{!WorldLaws WC} `{!WorldLaws WS} ccfg scfg ins ces cs ses ss ct :
  cfg_ok ccfg -> is_u32 (cfgSession ccfg) -> force_ok (cfgFECForce ccfg) ->
  Forall (fun ct => length ct + DataHeaderFECSize <= SlabSize)%nat ins -> Z.of_nat (length ins) <= two24 ->
  client_sent (H2 := WC) ccfg ins ces cs ->
  server_fed (H2 := WS) scfg
    (fun dgram => dgram ∈ written ces \/ foreign (cfgSession ccfg) (take SlabSize dgram)) ses ss ->
  ToWireGuard (cfgSession ccfg) ct ∈ ses -> ct ∈ ins.
Proof.
  intros Hc Hses Hf Hins Hn Hclient Hserver Hct. rewrite list.Forall_forall in Hins.
  set (ok := fun ct => ct ∈ ins). assert (Hall : Forall ok ins) by (by apply list.Forall_forall).
  destruct (client_sent_src ccfg ok ins ces cs Hins Hc Hses Hf Hclient Hall Hn) as (fs & Hsrc & Hlegit).
  destruct (src_book _ _ _ _ Hsrc) as (bk & Hlog & Hbk).
  assert (Hbook : forall id en p, bk !! id = Some en -> p ∈ en_pkts en -> ok p.2 /\ (length p.2 <= SlabSize)%nat).
  { intros id en p Hid Hp. pose proof (Hbk _ _ _ Hid Hp) as Hin. split; [done|]. specialize (Hins _ Hin). lia. }
  assert (Hfine : forall dgram, dgram ∈ written ces \/ foreign (cfgSession ccfg) (take SlabSize dgram) ->
    fine (cfgSession ccfg) bk ok (take SlabSize dgram)).
  { intros dgram [Hw|Hfor]; [|by apply foreign_fine]. rewrite list.Forall_forall in Hlegit.
    eapply legit_fine; [exact Hins|exact Hlog|by apply Hlegit]. }
  destruct (server_fed_carry scfg _ bk ok _ ses ss Hbook Hfine Hserver) as [_ Hev].
  rewrite list.Forall_forall in Hev. by apply (Hev _ Hct).
Qed.

(** C2: The way back delivers what it was given. A server runs, with any
    number of sessions, for as long as it keeps the session of one client and
    WireGuard hands it at most 2^24 ciphertexts for that session that fit a
    datagram. The network may lose, repeat, delay and reorder everything the
    server writes, to whatever address, and may mix in any datagrams that are
    not DATA or parity of the client's session. Then every ciphertext the
    client ever hands to its WireGuard is one of those, byte for byte. *)
Theorem downlink_integrity {WC WS : World} `{!WorldLaws WC} `{!WorldLaws WS} ccfg scfg ins ses ss ces cs ep ct :
  cfg_ok scfg -> force_ok (cfgFECForce scfg) ->
  Forall (fun ct => length ct + DataHeaderFECSize <= SlabSize)%nat ins -> Z.of_nat (length ins) <= two24 ->
  server_sent (H2 := WS) scfg ccfg ins ses ss ->
  client_fed (H2 := WC) ccfg
    (fun dgram => dgram ∈ replies ses \/ foreign (cfgSession ccfg) (take SlabSize dgram)) ces cs ->
  ToWireGuard ep ct ∈ ces -> ct ∈ ins.
Proof.
  intros Hc Hf Hins Hn Hserver Hclient Hct. rewrite list.Forall_forall in Hins.
  set (ok := fun ct => ct ∈ ins). assert (Hall : Forall ok ins) by (by apply list.Forall_forall).
  destruct (server_sent_src scfg ccfg ok ins ses ss Hins Hc Hf Hserver Hall Hn) as (fs & Hsrc & Hem).
  destruct (ssrc_book _ _ _ _ _ Hsrc) as (bk & Hlog & Hbk).
  assert (Hbook : forall id en p, bk !! id = Some en -> p ∈ en_pkts en -> ok p.2 /\ (length p.2 <= SlabSize)%nat).
  { intros id en p Hid Hp. pose proof (Hbk _ _ _ Hid Hp) as Hin. split; [done|]. specialize (Hins _ Hin). lia. }
  assert (Hfine : forall dgram, dgram ∈ replies ses \/ foreign (cfgSession ccfg) (take SlabSize dgram) ->
    fine (cfgSession ccfg) bk ok (take SlabSize dgram)).
  { intros dgram [Hw|Hfor]; [|by apply foreign_fine]. rewrite list.Forall_forall in Hem.
    eapply emitted_fine; [exact Hins|exact Hlog|by apply Hem]. }
  destruct (client_fed_takes ccfg bk ok _ ces cs Hbook Hfine Hclient) as [_ Hev].
  rewrite list.Forall_forall in Hev. exact (Hev _ Hct).
Qed.

End Tunnel.
