(* ===== verification/Text.v ===== *)
(** * Text: the parts of Go's fmt, strconv and net/netip the daemons use

    A string is its list of bytes. Decimal numbers and [fmt.Sscanf]'s [%d],
    and the syntax of IP addresses and prefixes as [netip.ParseAddr] and
    [netip.ParsePrefix] accept it. *)

From Stdlib Require Import String Ascii.
From S2P Require Import Prelude Control.
#[local] Open Scope Z_scope.

Definition ascii_of_byte (x : Z) : ascii := ascii_of_N (Z.to_N x).
Definition string_of_bytes (b : list Z) : string := string_of_list_ascii (ascii_of_byte <$> b).

(** ** Decimal numbers *)

Definition digit (c : Z) : bool := (48 <=? c) && (c <=? 57).

(** [%d] of a non-negative number; twenty digits hold any 64-bit one. *)
Fixpoint decimal (fuel : nat) (n : Z) : list Z :=
  match fuel with
  | O => []
  | S fuel => if n <? 10 then [48 + n] else decimal fuel (n / 10) ++ [48 + n mod 10]
  end.

Definition itoa (n : Z) : list Z := if n <? 0 then 45 :: decimal 20 (- n) else decimal 20 n.

(** The value of a run of digits. *)
Definition digits_val (ds : list Z) : Z := foldl (fun acc c => acc * 10 + (c - 48)) 0 ds.

Lemma digits_val_snoc ds c : digits_val (ds ++ [c]) = digits_val ds * 10 + (c - 48).
Proof. unfold digits_val. by rewrite foldl_app. Qed.

Lemma digit_in d : 0 <= d < 10 -> digit (48 + d) = true.
Proof. intros Hd. unfold digit. apply andb_true_intro; split; apply Z.leb_le; lia. Qed.

Lemma decimal_spec fuel : forall n, 0 <= n < 10 ^ Z.of_nat fuel ->
  digits_val (decimal fuel n) = n /\ forallb digit (decimal fuel n) = true.
Proof.
  induction fuel as [|fuel IH]; intros n Hn; [cbn in Hn |- *; split; [unfold digits_val; cbn; lia|done]|].
  cbn [decimal]. rewrite Nat2Z.inj_succ, Z.pow_succ_r in Hn by lia.
  destruct (Z.ltb_spec n 10) as [Hl|Hl].
  - split; [unfold digits_val; cbn [foldl]; lia|]. cbn [forallb]. rewrite digit_in by lia. done.
  - destruct (IH (n / 10)) as (Hv & Hd); [lia|]. split; [rewrite digits_val_snoc, Hv; lia|].
    rewrite forallb_app, Hd. cbn [forallb]. rewrite digit_in by lia. done.
Qed.

Lemma decimal_nonempty fuel n : (0 < fuel)%nat -> decimal fuel n <> [].
Proof. destruct fuel; [lia|]. cbn. destruct (_ <? _); [done|]. intros _ E. by apply app_nil in E as [_ ?]. Qed.

(** ** fmt.Sscanf *)

(** The runes [fmt] skips as space, apart from the newline. *)
Fixpoint skipSpace (s : list Z) : option (list Z) :=
  match s with
  | 10 :: _ => None
  | 194 :: 133 :: r | 194 :: 160 :: r => skipSpace r
  | 225 :: 154 :: 128 :: r => skipSpace r
  | 226 :: 128 :: x :: r =>
      if ((128 <=? x) && (x <=? 138)) || (x =? 168) || (x =? 169) || (x =? 175) then skipSpace r else Some s
  | 226 :: 129 :: 159 :: r => skipSpace r
  | 227 :: 128 :: 128 :: r => skipSpace r
  | c :: r => if ((9 <=? c) && (c <=? 13)) || (c =? 32) then skipSpace r else Some s
  | [] => Some s
  end.

(** The longest run of digits, and what follows. *)
Fixpoint digitRun (s : list Z) : list Z * list Z :=
  match s with
  | c :: r => if digit c then let '(ds, r) := digitRun r in (c :: ds, r) else ([], s)
  | [] => ([], [])
  end.

(** [%d] into an [int]: space, an optional sign, digits; the value must fit. *)
Definition scanInt (s : list Z) : option (Z * list Z) :=
  s ← skipSpace s;
  let '(neg, s) := match s with 43 :: r => (false, r) | 45 :: r => (true, r) | _ => (false, s) end in
  let '(ds, r) := digitRun s in
  if decide (ds = []) then None else
  let v := if neg : bool then - digits_val ds else digits_val ds in
  if (- two63 <=? v) && (v <? two63) then Some (v, r) else None.

Lemma digitRun_digits ds r :
  forallb digit ds = true -> match r with c :: _ => digit c = false | [] => True end ->
  digitRun (ds ++ r) = (ds, r).
Proof.
  induction ds as [|d ds IH]; cbn; intros Hd Hr.
  - destruct r as [|c r]; [done|]. cbn. by rewrite Hr.
  - apply andb_prop in Hd as [-> Hd]. by rewrite IH.
Qed.

Lemma skipSpace_digit c r : digit c = true -> skipSpace (c :: r) = Some (c :: r).
Proof.
  unfold digit. intros [Ha%Z.leb_le Hb%Z.leb_le]%andb_prop.
  assert (Hc : c = 48 \/ c = 49 \/ c = 50 \/ c = 51 \/ c = 52 \/ c = 53 \/ c = 54 \/ c = 55 \/ c = 56 \/ c = 57)
    by lia.
  repeat (destruct Hc as [->|Hc]; [done|]). by subst.
Qed.

(** Scanning what [%d] printed. *)
Lemma scanInt_itoa n r :
  0 <= n < two63 -> match r with c :: _ => digit c = false | [] => True end ->
  scanInt (itoa n ++ r) = Some (n, r).
Proof.
  intros Hn Hr. unfold scanInt, itoa. destruct (Z.ltb_spec n 0); [lia|].
  destruct (decimal_spec 20 n) as (Hv & Hd); [lia|].
  destruct (decimal 20 n) as [|d ds] eqn:E; [by apply decimal_nonempty in E; [|lia]|].
  change ((d :: ds) ++ r) with (d :: (ds ++ r)).
  cbn in Hd. apply andb_prop in Hd as [Hd Hds]. rewrite skipSpace_digit by done. cbn [mbind option_bind].
  assert (Hs : match d :: ds ++ r with 43 :: r => (false, r) | 45 :: r => (true, r) | _ => (false, d :: ds ++ r) end
     = (false, d :: ds ++ r)).
  { unfold digit in Hd. apply andb_prop in Hd as [Ha%Z.leb_le Hb%Z.leb_le].
    destruct d as [|p|p]; [lia| |lia]. do 6 (destruct p as [p|p|]; try done; try lia). }
  rewrite Hs. change (d :: ds ++ r) with ((d :: ds) ++ r). rewrite digitRun_digits by (cbn; rewrite ?Hd; done).
  rewrite decide_False by done. rewrite Hv.
  destruct (Z.leb_spec (- two63) n); [|lia]. destruct (Z.ltb_spec n two63); [done|lia].
Qed.

(** ** netip *)

(** [Addr]: its 4 or 16 bytes and, for IPv6, the zone. *)
Inductive Addr := V4 (b : list Z) | V6 (b zone : list Z).

(** [parseIPv4Fields]: [first] and [dot] are the tests on the neighbours of a
    dot. *)
Fixpoint v4Fields (s : list Z) (first dot : bool) (fields : list Z) (val digLen : Z) : option (list Z) :=
  match s with
  | [] => if decide (length fields < 3)%nat then None else Some (fields ++ [val])
  | c :: r =>
      if digit c then
        if (digLen =? 1) && (val =? 0) then None else
        let val := val * 10 + (c - 48) in
        if 255 <? val then None else v4Fields r false false fields val (digLen + 1)
      else if c =? 46 then
        if first || bool_decide (r = []) || dot then None else
        if decide (length fields = 3)%nat then None else
        v4Fields r false true (fields ++ [val]) 0 0
      else None
  end.

Definition parseIPv4 (s : list Z) : option (list Z) := v4Fields s true false [] 0 0.

Definition hexVal (c : Z) : option Z :=
  if digit c then Some (c - 48)
  else if (97 <=? c) && (c <=? 102) then Some (c - 87)
  else if (65 <=? c) && (c <=? 70) then Some (c - 55)
  else None.

(** A group of at most four hexadecimal digits. *)
Fixpoint hexGroup (s : list Z) (off : nat) (acc : Z) : option (nat * Z * list Z) :=
  match s with
  | [] => Some (off, acc, s)
  | c :: r =>
      match hexVal c with
      | None => Some (off, acc, s)
      | Some d =>
          let acc := acc * 16 + d in
          if decide (3 < off)%nat then None else if 65535 <? acc then None else hexGroup r (S off) acc
      end
  end.

(** The groups of an IPv6 address; each round consumes a character, so the
    length of [s] is fuel enough. [ell] is the position of [::]. *)
Fixpoint v6Groups (fuel : nat) (s ip : list Z) (ell : option nat) : option (list Z * list Z * option nat) :=
  match fuel with
  | O => Some (s, ip, ell)
  | S fuel =>
      if decide (16 <= length ip)%nat then Some (s, ip, ell) else
      '(off, acc, r) ← hexGroup s 0 0;
      if decide (off = 0)%nat then None else
      match r with
      | 46 :: _ =>
          if bool_decide (ell = None) && negb (bool_decide (length ip = 12)%nat) then None else
          if decide (16 < length ip + 4)%nat then None else
          f ← parseIPv4 s; Some ([], ip ++ f, ell)
      | _ =>
          let ip := ip ++ [acc / 256; acc mod 256] in
          match r with
          | [] => Some ([], ip, ell)
          | [58] => None
          | 58 :: 58 :: r =>
              match ell with
              | Some _ => None
              | None => if decide (r = []) then Some ([], ip, Some (length ip))
                        else v6Groups fuel r ip (Some (length ip))
              end
          | 58 :: r => v6Groups fuel r ip ell
          | _ => None
          end
      end
  end.

(** Split at the first occurrence of [c]. *)
Fixpoint cutAt (c : Z) (s : list Z) : option (list Z * list Z) :=
  match s with
  | [] => None
  | x :: r => if x =? c then Some ([], r) else '(a, b) ← cutAt c r; Some (x :: a, b)
  end.

Definition parseIPv6 (s : list Z) : option (list Z * list Z) :=
  '(s, zone) ← match cutAt 37 s with
               | Some (s, zone) => if decide (zone = []) then None else Some (s, zone)
               | None => Some (s, [])
               end;
  let '(s, ell) := match s with 58 :: 58 :: r => (r, Some 0%nat) | _ => (s, None) end in
  if bool_decide (ell = Some 0%nat) && bool_decide (s = []) then Some (replicate 16 0, zone) else
  '(r, ip, ell) ← v6Groups (S (length s)) s [] ell;
  if decide (r <> []) then None else
  if decide (length ip < 16)%nat then
    match ell with
    | None => None
    | Some e => Some (take e ip ++ replicate (16 - length ip) 0 ++ drop e ip, zone)
    end
  else if decide (ell = None) then Some (ip, zone) else None.

(** The first dot, colon or percent sign decides. *)
Fixpoint addrKind (s : list Z) : option Z :=
  match s with
  | [] => None
  | c :: r => if (c =? 46) || (c =? 58) || (c =? 37) then Some c else addrKind r
  end.

Definition ParseAddr (s : list Z) : option Addr :=
  match addrKind s with
  | Some 46 => V4 <$> parseIPv4 s
  | Some 58 => (fun x => V6 x.1 x.2) <$> parseIPv6 s
  | _ => None
  end.

(** Split at the last occurrence of [c]. *)
Fixpoint cutLast (c : Z) (s : list Z) : option (list Z * list Z) :=
  match s with
  | [] => None
  | x :: r =>
      match cutLast c r with
      | Some (a, b) => Some (x :: a, b)
      | None => if x =? c then Some ([], r) else None
      end
  end.

(** [strconv.Atoi] of unsigned text. *)
Definition atoi (s : list Z) : option Z :=
  if bool_decide (s = []) || negb (forallb digit s) then None
  else if digits_val s <? two63 then Some (digits_val s) else None.

(** The address and the length of a prefix. *)
Definition ParsePrefix (s : list Z) : option (Addr * Z) :=
  '(a, bits) ← cutLast 47 s;
  ip ← ParseAddr a;
  match ip with
  | V6 _ (_ :: _) => None
  | _ =>
      if bool_decide (1 < length bits)%nat && negb (match bits with c :: _ => (49 <=? c) && (c <=? 57) | [] => false end)
      then None else
      n ← atoi bits;
      if (match ip with V4 _ => 32 | V6 _ _ => 128 end) <? n then None else Some (ip, n)
  end.

(** Addresses and prefixes that are accepted and that are not. *)
Example addr_examples :
  ParseAddr (bytes_of_string "192.0.2.7") = Some (V4 [192; 0; 2; 7]) /\
  ParseAddr (bytes_of_string "192.0.02.7") = None /\
  ParseAddr (bytes_of_string "192.0.2") = None /\
  ParseAddr (bytes_of_string "fe80::1%eth0") =
    Some (V6 [254; 128; 0; 0; 0; 0; 0; 0; 0; 0; 0; 0; 0; 0; 0; 1] (bytes_of_string "eth0")) /\
  ParseAddr (bytes_of_string "::ffff:10.0.0.1") =
    Some (V6 [0; 0; 0; 0; 0; 0; 0; 0; 0; 0; 255; 255; 10; 0; 0; 1] []) /\
  ParseAddr (bytes_of_string "1:2:3") = None /\
  ParsePrefix (bytes_of_string "10.200.0.2/24") = Some (V4 [10; 200; 0; 2], 24) /\
  ParsePrefix (bytes_of_string "10.200.0.2/33") = None /\
  ParsePrefix (bytes_of_string "10.200.0.2/024") = None /\
  ParsePrefix (bytes_of_string "10.200.0.2") = None.
Proof. vm_compute. repeat split. Qed.
