(* ===== verification/Endpoint.v ===== *)
(** * Endpoints: the conn.Endpoint of internal/wgbridge/bind.go

    WireGuard addresses its peers through [SessionEndpoint]s, which name an
    engine session instead of a network address, and sends through the bind's
    [Send]. What an endpoint shows of its session, and what a send to one
    session does to the others. *)

From stdpp Require Import strings.
From S2P Require Import Prelude Wire Control Float64 Sched Link PathSelect Fec Classify.
From S2P Require Import Reorder Wgbridge Engine EngineLogic Client Server ServerSafe Text.
#[local] Open Scope Z_scope.

(** ** SessionEndpoint *)

Record SessionEndpoint := mkSessionEndpoint { epSession : Z }.

Definition DstToString (e : SessionEndpoint) : list Z := bytes_of_string "session:" ++ itoa (epSession e).
Definition DstToBytes (e : SessionEndpoint) : list Z := be 4 (epSession e).

(** The zero value: the client's placeholder. *)
Definition ParseEndpoint (_ : string) : SessionEndpoint := mkSessionEndpoint 0.

(** The digits of a 32-bit number give it back. *)
Lemma itoa_val n : is_u32 n -> digits_val (itoa n) = n.
Proof.
  intros Hn. unfold itoa. destruct (Z.ltb_spec n 0); [mlia|].
  apply decimal_spec. change (10 ^ Z.of_nat 20) with 100000000000000000000. mlia.
Qed.

(** An endpoint identifies its session. Both the text WireGuard prints
    and compares and the four bytes that enter its cookie MAC determine the
    session id, so two endpoints show the same only if they are the same. *)
Theorem endpoint_identifies a b :
  is_u32 (epSession a) -> is_u32 (epSession b) ->
  be_val (DstToBytes a) = epSession a /\ length (DstToBytes a) = 4%nat /\ is_bytes (DstToBytes a) /\
  (DstToBytes a = DstToBytes b <-> a = b) /\ (DstToString a = DstToString b <-> a = b).
Proof.
  intros Ha Hb.
  assert (Hv : forall e, is_u32 (epSession e) -> be_val (DstToBytes e) = epSession e).
  { intros e He. unfold DstToBytes. rewrite be_val_be. apply Z.mod_small. change (256 ^ Z.of_nat 4) with two32. mlia. }
  assert (Heq : epSession a = epSession b -> a = b) by (destruct a, b; cbn; by intros ->).
  split_and!; [by apply Hv|apply length_be|apply be_is_bytes| |]; (split; [intros E; apply Heq|by intros ->]).
  - by rewrite <- (Hv a Ha), <- (Hv b Hb), E.
  - apply app_inv_head in E. by rewrite <- (itoa_val _ Ha), <- (itoa_val _ Hb), E.
Qed.

Lemma endpoint_identifies_witness :
  be_val (DstToBytes (mkSessionEndpoint 7)) = 7 /\ DstToString (mkSessionEndpoint 7) <> DstToString (mkSessionEndpoint 70).
Proof.
  destruct (endpoint_identifies (mkSessionEndpoint 7) (mkSessionEndpoint 70)) as (Hv & _ & _ & _ & Hs);
    [by vm_compute|by vm_compute|]. split; [exact Hv|]. intros E. by apply Hs in E.
Defined.

(** ** Send *)

(** A value of the interface type: ours, or one of another dynamic type. *)
Inductive Endpoint := SessionEp (e : SessionEndpoint) | OtherEp (type : string).

Inductive send_error := UnexpectedEndpoint (type : string).

Section Send.
Context `{Rounding} `{Blake2s} `{ReedSolomon} `{MapOrder} `{World}.
Context (cfg : Config).

(** The function [New] gives the bind. *)
Definition engineSend (bufs : list (list Z)) (e : SessionEndpoint) : eng unit :=
  match cfgMode cfg with
  | ModeClient => clientSend cfg bufs
  | ModeServer => serverSend bufs (epSession e)
  end.

Definition bindSend (bufs : list (list Z)) (ep : Endpoint) : eng (option send_error) :=
  match ep with
  | SessionEp e => _ ← engineSend bufs e; mret None
  | OtherEp ty => mret (Some (UnexpectedEndpoint ty))
  end.

(** ** One session's traffic stays its own *)

(** The addresses of a session's paths. *)
Definition addrs (id : Z) (s : Engine) : option (gmap Z AddrPort) := (fun x => psAddr <$> sPaths x) <$> sessions s !! id.

Section Home.
Context (id : Z) (A : option (gmap Z AddrPort)).

(** Where a datagram for the session may go. *)
Definition homeward (e : ev) : Prop :=
  match e with Sent dst _ _ => exists m pid a, A = Some m /\ m !! pid = Some a /\ dst = ToAddr a | _ => True end.

(** [home s es s']: given that the session's addresses are [A], they stay so,
    the other sessions are as they were, and what is written goes to [A]. *)
Definition home (s : Engine) (es : list ev) (s' : Engine) : Prop :=
  addrs id s = A -> addrs id s' = A /\ delete id (sessions s') = delete id (sessions s) /\ Forall homeward es.

Lemma home_refl s : home s [] s.
Proof. intros HA. by split_and!; [| |apply List.Forall_nil]. Qed.
Lemma home_trans s e1 s1 e2 s2 : home s e1 s1 -> home s1 e2 s2 -> home s (e1 ++ e2) s2.
Proof.
  intros Ha Hb HA. destruct (Ha HA) as (HA1 & E1 & F1). destruct (Hb HA1) as (HA2 & E2 & F2).
  split_and!; [done|congruence|by apply Forall_app_2].
Qed.

Ltac home_leaf := intros ?; split_and!; [done|done|first [apply List.Forall_nil | apply List.Forall_cons; [exact I|apply List.Forall_nil]]].
Ltac home_with sub := rel_with home_refl home_trans ltac:(home_leaf) ltac:(sub).
Ltac home0 := home_with ltac:(fail).

Lemma home_updSess f : (forall x, psAddr <$> sPaths (f x) = psAddr <$> sPaths x) -> rel home (updSess id f).
Proof.
  intros Hf. apply rel_updSess. intros s HA. unfold addrs in *. cbn [sessions set_sessions].
  split_and!; [|by rewrite delete_alter_eq|apply List.Forall_nil].
  rewrite lookup_alter_eq. destruct (sessions s !! id); [|done]. cbn in *. by rewrite Hf.
Qed.

Lemma home_sessAt : rel home (sessAt id).
Proof. unfold sessAt, lookupSession. home0. Qed.
Lemma home_psAt pid : rel home (psAt id pid).
Proof. unfold psAt. home_with ltac:(apply home_sessAt). Qed.
Lemma home_alivePaths t : rel home (alivePaths id t).
Proof. unfold alivePaths. home_with ltac:(apply home_sessAt). Qed.
Lemma home_count set get n : rel home (count set get n).
Proof. unfold count. home0. Qed.
Lemma home_classifyCt ct : rel home (classifyCt ct).
Proof. unfold classifyCt. home0. Qed.
Lemma home_stripeTo pids : rel home (stripeTo id pids).
Proof. unfold stripeTo. home_with ltac:(first [apply home_psAt | apply home_sessAt | by apply home_updSess]). Qed.

(** A path of the session has one of its addresses. *)
Lemma psAt_home pid s s' es p : addrs id s = A -> psAt id pid s = Ret (s', es, p) ->
  exists m, A = Some m /\ m !! pid = Some (psAddr p).
Proof.
  intros <- (s1 & e1 & x & e2 & (-> & -> & Hx)%sessAt_inv & E & _)%bind_inv.
  destruct (sPaths x !! pid) as [q|] eqn:Hq; [|done]. injection E as _ _ <-.
  unfold addrs. rewrite Hx. eexists. split; [done|]. by rewrite lookup_fmap, Hq.
Qed.

(** Reading a path, then going on knowing where it leads. *)
Lemma home_psAt_bind {B} pid (f : pathState -> eng B) :
  (forall p, (exists m, A = Some m /\ m !! pid = Some (psAddr p)) -> rel home (f p)) -> rel home (psAt id pid ≫= f).
Proof.
  intros Hf s s' es b (s1 & e1 & p & e2 & E1 & E2 & ->)%bind_inv HA.
  exact (home_trans _ _ _ _ _ (home_psAt _ _ _ _ _ E1) (Hf p (psAt_home _ _ _ _ _ HA E1) _ _ _ _ E2) HA).
Qed.

Lemma home_writeTo pid a b : (exists m, A = Some m /\ m !! pid = Some a) -> rel home (writeTo a b).
Proof.
  intros (m & HA & Hm). unfold writeTo. apply (rel_bind _ home_trans); [home0|]. intros ok.
  apply (rel_bind _ home_trans); [|intros _; home0]. apply rel_tell. intros s ?. split_and!; [done|done|].
  apply List.Forall_cons; [|apply List.Forall_nil]. by exists m, pid, a.
Qed.

Lemma home_serverSendData pid class dup sq tag ct : rel home (serverSendData id pid class dup sq tag ct).
Proof.
  unfold serverSendData, Get, Put, txTS, now. apply (rel_bind _ home_trans); [home0|]. intros sl.
  apply home_psAt_bind. intros p Hp.
  home_with ltac:(first [apply home_sessAt | by apply home_updSess | by eapply home_writeTo | apply home_count]).
Qed.

Lemma home_serverEmitParity e : rel home (serverEmitParity id e).
Proof.
  destruct e as [grp index k m shard|]; unfold serverEmitParity, Get, Put, now; [|home0].
  apply (rel_bind _ home_trans); [home0|]. intros t. apply (rel_bind _ home_trans); [apply home_alivePaths|]. intros al.
  case_decide; [home0|]. apply (rel_bind _ home_trans); [apply home_stripeTo|]. intros pid.
  apply (rel_bind _ home_trans); [home0|]. intros sl. apply home_psAt_bind. intros p Hp.
  home_with ltac:(first [apply home_sessAt | by eapply home_writeTo | apply home_count]).
Qed.

Lemma home_serverBulk usable ct : rel home (serverBulk id usable ct).
Proof.
  unfold serverBulk, sAqm, sNextGlobal, sFecAdd, now. home_with ltac:(first [apply home_stripeTo | apply home_psAt
    | apply home_count | by apply home_updSess | apply home_sessAt | apply home_serverEmitParity | apply home_serverSendData]).
Qed.

Lemma home_serverSend bufs : rel home (serverSend bufs id).
Proof.
  unfold serverSend, lookupSession, serverSendOne, sNextRt, now. home_with ltac:(first [apply home_alivePaths
    | apply home_psAt | apply home_count | apply home_classifyCt | by apply home_updSess | apply home_sessAt
    | apply home_serverSendData | apply home_serverBulk]).
Qed.

End Home.

(** C16: A session's traffic stays its own. When the server's WireGuard sends
    to the endpoint of a session, every datagram that leaves, parity
    included, goes to an address registered for one of that session's own
    paths, those addresses do not change, and every other session is left
    exactly as it was. An endpoint that is not a session endpoint is refused
    and nothing happens. *)
Theorem send_isolated bufs ep s s' es err :
  cfgMode cfg = ModeServer -> bindSend bufs ep s = Ret (s', es, err) ->
  match ep with
  | SessionEp e =>
      err = None /\ addrs (epSession e) s' = addrs (epSession e) s /\
      (forall j, j <> epSession e -> sessions s' !! j = sessions s !! j) /\
      forall dst b ok, Sent dst b ok ∈ es ->
        exists m pid a, addrs (epSession e) s = Some m /\ m !! pid = Some a /\ dst = ToAddr a
  | OtherEp ty => err = Some (UnexpectedEndpoint ty) /\ s' = s /\ es = []
  end.
Proof.
  intros Hm E. destruct ep as [e|ty]; cbn [bindSend] in E; [|injection E as <- <- <-; done].
  apply bind_inv in E as (s1 & e1 & [] & e2 & E & [= <- <- <-] & ->). rewrite app_nil_r.
  unfold engineSend in E. rewrite Hm in E.
  destruct (home_serverSend (epSession e) _ bufs _ _ _ _ E eq_refl) as (HA & Hd & Hs).
  split_and!; [done|done| |].
  - intros j Hj. by rewrite <- (lookup_delete_ne (sessions s1) (epSession e) j), Hd, lookup_delete_ne by done.
  - intros dst b ok Hin. rewrite list.Forall_forall in Hs. exact (Hs _ Hin).
Qed.

End Send.
