(* ===== verification/Configuration.v ===== *)
(** * Configuration: internal/config/config.go, and fec.ParseForce

    Loading and validating the configuration of the two daemons. The YAML
    decoder and the file system are parameters; the validation is the code. *)

From stdpp Require Import strings.
From S2P Require Import Prelude Wire Control Fec Classify Wgbridge Engine Text.
#[local] Open Scope Z_scope.

(** The error messages, one constructor each; [i] is the index they print. *)
Inductive cfg_error :=
  | ERead | EDecode
  | EPrivateKey | EPeerKey | EAddress | ERoute (r : string) | EMTU (n : Z)
  | EServerAddr | EControlPSK | ENoPaths | ETooManyPaths
  | ERuleClass (i : nat) | ERulePort (i : nat) | ERuleProto (i : nat)
  | EForceSyntax | EForceRange
  | EDuplicate (name : string) | EBind (i : nat).

(** ** fec.Params as text *)

Definition ParamsString (p : Params) : list Z :=
  if pK p =? 0 then bytes_of_string "off" else itoa (pK p) ++ 58 :: itoa (pM p).

(** [fmt.Sscanf(s, "%d:%d", ...)]: what follows the second number is not
    looked at. *)
Definition ParseForce (s : list Z) : outcome cfg_error Params :=
  match scanInt s with
  | Some (k, 58 :: r) =>
      match scanInt r with
      | Some (m, _) =>
          if (k <? 1) || (64 <? k) || (m <? 1) || (16 <? m) then Err EForceRange
          else Ret (mkParams k m)
      | None => Err EForceSyntax
      end
  | _ => Err EForceSyntax
  end.

(** A geometry the forced override can have. *)
Definition wf_force (p : Params) : Prop := 1 <= pK p <= 64 /\ 1 <= pM p <= 16.

Lemma ParseForce_wf s p : ParseForce s = Ret p -> wf_force p.
Proof.
  unfold ParseForce, wf_force. destruct (scanInt s) as [[k r]|]; [|done].
  destruct r as [|c r]; [done|]. destruct (decide (c = 58)) as [->|Hc].
  - destruct (scanInt r) as [[m t]|]; [|done]. destruct (_ || _) eqn:E; [done|]. intros [= <-]. cbn.
    apply orb_false_iff in E as [[[?%Z.ltb_ge ?%Z.ltb_ge]%orb_false_iff ?%Z.ltb_ge]%orb_false_iff ?%Z.ltb_ge]. lia.
  - destruct c as [|p0|p0]; try done. do 6 (destruct p0 as [p0|p0|]; try done).
Qed.

Lemma ParseForce_String p : wf_force p -> ParseForce (ParamsString p) = Ret p.
Proof.
  intros [HK HM]. unfold ParamsString, ParseForce. destruct (Z.eqb_spec (pK p) 0); [lia|].
  rewrite (scanInt_itoa (pK p) (58 :: itoa (pM p))) by (done || lia).
  pose proof (scanInt_itoa (pM p) []) as Hm. rewrite app_nil_r in Hm. rewrite Hm by (done || lia).
  destruct (Z.ltb_spec (pK p) 1); [lia|]. destruct (Z.ltb_spec 64 (pK p)); [lia|].
  destruct (Z.ltb_spec (pM p) 1); [lia|]. destruct (Z.ltb_spec 16 (pM p)); [lia|]. by destruct p.
Qed.

(** ** The configuration *)

Definition DefaultMTU : Z := 1344.

Record Tunnel := mkTunnel {
  tInterface : string;
  tMTU : Z;
  tAddress : string;
  tPrivateKey : string;
  tPeerPublicKey : string;
  tRoutes : list string;
}.

(** One WAN uplink. *)
Record WanPath := mkWanPath { wpName : string; wpBind : string; wpServer : string }.

Record Dashboard := mkDashboard { dbListen : string; dbToken : string }.

Record FECConfig := mkFEC { fDisabled : bool; fForce : string }.

Definition FECParams (f : FECConfig) : outcome cfg_error Params :=
  if String.eqb (fForce f) "" then Ret (mkParams 0 0) else ParseForce (bytes_of_string (fForce f)).

Record ClassifyConfig := mkClassify { clDisabled : bool; clRules : list Rule }.

Definition isEmpty (s : string) : bool := String.eqb s "".

Fixpoint validateRules (i : nat) (rs : list Rule) : outcome cfg_error unit :=
  match rs with
  | [] => Ret tt
  | r :: rs =>
      match ParseClass (rClass r) with
      | None => Err (ERuleClass i)
      | Some _ =>
          if rPort r =? 0 then Err (ERulePort i) else
          if String.eqb (rProto r) "tcp" || String.eqb (rProto r) "udp" || String.eqb (rProto r) "any"
             || isEmpty (rProto r)
          then validateRules (S i) rs
          else Err (ERuleProto i)
      end
  end.

Definition validateClassify (c : ClassifyConfig) : outcome cfg_error unit := validateRules 0 (clRules c).

Record Client := mkClient {
  cTunnel : Tunnel;
  cServerAddr : string;
  cControlPSK : string;
  cPaths : list WanPath;
  cClassify : ClassifyConfig;
  cFEC : FECConfig;
  cDashboard : Dashboard;
}.

Record Server := mkServer {
  sTunnel : Tunnel;
  sListen : string;
  sControlPSK : string;
  sClassify : ClassifyConfig;
  sFEC : FECConfig;
  sDashboard : Dashboard;
}.

Definition applyDefaults (iface : string) (t : Tunnel) : Tunnel :=
  mkTunnel (if isEmpty (tInterface t) then iface else tInterface t)
    (if tMTU t =? 0 then DefaultMTU else tMTU t)
    (tAddress t) (tPrivateKey t) (tPeerPublicKey t) (tRoutes t).

Definition goodPrefix (s : string) : bool :=
  match ParsePrefix (bytes_of_string s) with Some _ => true | None => false end.
Definition goodAddr (s : string) : bool :=
  match ParseAddr (bytes_of_string s) with Some _ => true | None => false end.

Fixpoint validateRoutes (rs : list string) : outcome cfg_error unit :=
  match rs with
  | [] => Ret tt
  | r :: rs => if goodPrefix r then validateRoutes rs else Err (ERoute r)
  end.

Definition validateTunnel (t : Tunnel) : outcome cfg_error unit :=
  if isEmpty (tPrivateKey t) then Err EPrivateKey else
  if isEmpty (tPeerPublicKey t) then Err EPeerKey else
  if negb (goodPrefix (tAddress t)) then Err EAddress else
  _ ← validateRoutes (tRoutes t);
  if (tMTU t <? 576) || (1420 <? tMTU t) then Err (EMTU (tMTU t)) else Ret tt.

(** The loop over [c.Paths]: names that are missing are filled in, and no
    two may be the same. *)
Definition pathName (i : nat) (p : WanPath) : string :=
  if isEmpty (wpName p)
  then ("path" +:+ string_of_bytes (itoa (Z.of_nat i)))%string else wpName p.

Fixpoint checkPaths (i : nat) (seen : gset string) (ps : list WanPath) : outcome cfg_error (list WanPath) :=
  match ps with
  | [] => Ret []
  | p :: ps =>
      let p := mkWanPath (pathName i p) (wpBind p) (wpServer p) in
      if decide (wpName p ∈ seen) then Err (EDuplicate (wpName p)) else
      if negb (isEmpty (wpBind p)) && negb (goodAddr (wpBind p)) then Err (EBind i) else
      ps ← checkPaths (S i) ({[wpName p]} ∪ seen) ps;
      Ret (p :: ps)
  end.

(** [os.ReadFile] and the YAML decoder. *)
Class Loader := {
  ReadFile : string -> option string;
  DecodeClient : string -> option Client;
  DecodeServer : string -> option Server;
}.

Section Load.
Context `{Loader}.

Definition load {A} (decode : string -> option A) (path : string) : outcome cfg_error A :=
  match ReadFile path with
  | None => Err ERead
  | Some data => match decode data with Some v => Ret v | None => Err EDecode end
  end.

Definition LoadClient (path : string) : outcome cfg_error Client :=
  c ← load DecodeClient path;
  let t := applyDefaults "treccia0" (cTunnel c) in
  _ ← validateTunnel t;
  if isEmpty (cServerAddr c) then Err EServerAddr else
  if isEmpty (cControlPSK c) then Err EControlPSK else
  if decide (length (cPaths c) = 0)%nat then Err ENoPaths else
  if decide (250 < length (cPaths c))%nat then Err ETooManyPaths else
  _ ← validateClassify (cClassify c);
  _ ← FECParams (cFEC c);
  ps ← checkPaths 0 ∅ (cPaths c);
  Ret (mkClient t (cServerAddr c) (cControlPSK c) ps (cClassify c) (cFEC c) (cDashboard c)).

Definition LoadServer (path : string) : outcome cfg_error Server :=
  s ← load DecodeServer path;
  let t := applyDefaults "treccia0" (sTunnel s) in
  _ ← validateTunnel t;
  let listen := if isEmpty (sListen s) then ":51820" else sListen s in
  if isEmpty (sControlPSK s) then Err EControlPSK else
  _ ← validateClassify (sClassify s);
  _ ← FECParams (sFEC s);
  Ret (mkServer t listen (sControlPSK s) (sClassify s) (sFEC s) (sDashboard s)).

End Load.

(** ** What a valid configuration is *)

Definition nonempty (s : string) : Prop := s <> "".

Definition rule_ok (r : Rule) : Prop :=
  is_Some (ParseClass (rClass r)) /\ rPort r <> 0 /\ rProto r ∈ ["tcp"; "udp"; "any"; ""].

Record tunnel_ok (t : Tunnel) : Prop := {
  to_key : nonempty (tPrivateKey t);
  to_peer : nonempty (tPeerPublicKey t);
  to_address : is_Some (ParsePrefix (bytes_of_string (tAddress t)));
  to_routes : Forall (fun r => is_Some (ParsePrefix (bytes_of_string r))) (tRoutes t);
  to_mtu : 576 <= tMTU t <= 1420;
}.

Definition fec_ok (f : FECConfig) : Prop :=
  fForce f = "" \/ exists p, ParseForce (bytes_of_string (fForce f)) = Ret p.

Definition bind_ok (p : WanPath) : Prop :=
  wpBind p = "" \/ is_Some (ParseAddr (bytes_of_string (wpBind p))).

Record client_ok (c : Client) : Prop := {
  co_tunnel : tunnel_ok (cTunnel c);
  co_server : nonempty (cServerAddr c);
  co_psk : nonempty (cControlPSK c);
  co_count : (1 <= length (cPaths c) <= 250)%nat;
  co_rules : Forall rule_ok (clRules (cClassify c));
  co_fec : fec_ok (cFEC c);
  co_names : NoDup (wpName <$> cPaths c);
  co_binds : Forall bind_ok (cPaths c);
}.

Record server_ok (s : Server) : Prop := {
  sv_tunnel : tunnel_ok (sTunnel s);
  sv_psk : nonempty (sControlPSK s);
  sv_rules : Forall rule_ok (clRules (sClassify s));
  sv_fec : fec_ok (sFEC s);
}.

(** The configuration with its defaults filled in. *)
Definition namePath (i : nat) (p : WanPath) : WanPath := mkWanPath (pathName i p) (wpBind p) (wpServer p).

Definition completeClient (c : Client) : Client :=
  mkClient (applyDefaults "treccia0" (cTunnel c)) (cServerAddr c) (cControlPSK c)
    (imap namePath (cPaths c)) (cClassify c) (cFEC c) (cDashboard c).

Definition completeServer (s : Server) : Server :=
  mkServer (applyDefaults "treccia0" (sTunnel s)) (if isEmpty (sListen s) then ":51820" else sListen s)
    (sControlPSK s) (sClassify s) (sFEC s) (sDashboard s).

(** [decides o P]: [o] returns exactly when [P] holds, and never panics. *)
Definition decides {A} (o : outcome cfg_error A) (P : Prop) : Prop :=
  match o with Ret _ => P | Err _ => ~ P | Panic => False end.

Lemma isEmpty_spec s : reflect (s = "") (isEmpty s).
Proof. apply String.eqb_spec. Qed.

Lemma goodPrefix_spec s : reflect (is_Some (ParsePrefix (bytes_of_string s))) (goodPrefix s).
Proof. unfold goodPrefix. destruct (ParsePrefix _); constructor; [by eexists|by intros [? ?]]. Qed.

Lemma goodAddr_spec s : reflect (is_Some (ParseAddr (bytes_of_string s))) (goodAddr s).
Proof. unfold goodAddr. destruct (ParseAddr _); constructor; [by eexists|by intros [? ?]]. Qed.

Lemma validateRules_ok rs : forall i, decides (validateRules i rs) (Forall rule_ok rs).
Proof.
  induction rs as [|r rs IH]; intros i; cbn [validateRules]; [by constructor|].
  destruct (ParseClass (rClass r)) as [x|] eqn:Hc.
  2:{ cbn. intros [(Hr & _) _]%Forall_cons_1. rewrite Hc in Hr. by destruct Hr. }
  destruct (Z.eqb_spec (rPort r) 0) as [Hp|Hp]; [cbn; by intros [(_ & ? & _) _]%Forall_cons_1|].
  assert (Hproto : (String.eqb (rProto r) "tcp" || String.eqb (rProto r) "udp" || String.eqb (rProto r) "any"
             || isEmpty (rProto r)) = true <-> rProto r ∈ ["tcp"; "udp"; "any"; ""]).
  { unfold isEmpty. rewrite !orb_true_iff, !String.eqb_eq. set_solver. }
  destruct (_ || _).
  - specialize (IH (S i)). destruct (validateRules (S i) rs); cbn in *; [|by intros [_ ?]%Forall_cons_1|done].
    constructor; [|done]. split_and!; [by rewrite Hc; eexists|done|by apply Hproto].
  - cbn. intros [(_ & _ & Hin) _]%Forall_cons_1. by apply Hproto in Hin.
Qed.

Lemma validateRoutes_ok rs :
  decides (validateRoutes rs) (Forall (fun r => is_Some (ParsePrefix (bytes_of_string r))) rs).
Proof.
  induction rs as [|r rs IH]; cbn [validateRoutes]; [by constructor|].
  destruct (goodPrefix_spec r) as [Hr|Hr].
  - destruct (validateRoutes rs); cbn in *; [by constructor|by intros [_ ?]%Forall_cons_1|done].
  - cbn. by intros [? _]%Forall_cons_1.
Qed.

Lemma validateTunnel_ok t : decides (validateTunnel t) (tunnel_ok t).
Proof.
  unfold validateTunnel. destruct (isEmpty_spec (tPrivateKey t)); [cbn; by intros []|].
  destruct (isEmpty_spec (tPeerPublicKey t)); [cbn; by intros []|].
  destruct (goodPrefix_spec (tAddress t)); cbn [negb]; [|cbn; by intros []].
  pose proof (validateRoutes_ok (tRoutes t)) as Hr.
  destruct (validateRoutes (tRoutes t)); cbn in *; [|by intros []|done].
  destruct (Z.ltb_spec (tMTU t) 576); cbn; [intros []; lia|].
  destruct (Z.ltb_spec 1420 (tMTU t)); cbn; [intros []; lia|]. by constructor.
Qed.

Lemma FECParams_ok f : decides (FECParams f) (fec_ok f).
Proof.
  unfold FECParams, fec_ok. destruct (String.eqb_spec (fForce f) ""); [by left|].
  destruct (ParseForce _) as [p|e|] eqn:E; cbn.
  - right. by exists p.
  - intros [?|[p ?]]; done.
  - unfold ParseForce in E. by repeat case_match.
Qed.

Lemma checkPaths_ok ps : forall i seen,
  match checkPaths i seen ps with
  | Ret ps' => ps' = imap (fun j => namePath (i + j)) ps /\
      NoDup (wpName <$> ps') /\ Forall bind_ok ps' /\ Forall (fun p => wpName p ∉ seen) ps'
  | Err _ =>
      let ps' := imap (fun j => namePath (i + j)) ps in
      ~ (NoDup (wpName <$> ps') /\ Forall bind_ok ps' /\ Forall (fun p => wpName p ∉ seen) ps')
  | Panic => False
  end.
Proof.
  induction ps as [|p ps IH]; intros i seen; cbn [checkPaths].
  { cbn. split_and!; [done|constructor..]. }
  fold (namePath i p). set (q := namePath i p). rewrite imap_cons, Nat.add_0_r. fold q.
  assert (Hext : imap ((fun j => namePath (i + j)) ∘ S) ps = imap (fun j => namePath (S i + j)) ps)
    by (apply imap_ext; intros j x _; cbn; by rewrite Nat.add_succ_r).
  rewrite Hext. case_decide as Hin; [intros (_ & _ & [? _]%Forall_cons_1); done|].
  assert (Hb : negb (isEmpty (wpBind q)) && negb (goodAddr (wpBind q)) = false <-> bind_ok q).
  { unfold bind_ok. destruct (isEmpty_spec (wpBind q)); cbn [negb andb]; [naive_solver|].
    destruct (goodAddr_spec (wpBind q)); cbn [negb]; naive_solver. }
  destruct (negb _ && negb _).
  { intros (_ & [Hq _]%Forall_cons_1 & _). by apply Hb in Hq. }
  specialize (IH (S i) ({[wpName q]} ∪ seen)).
  assert (Hsplit : forall l : list WanPath,
    (NoDup (wpName <$> l) /\ Forall bind_ok l /\ Forall (fun p => wpName p ∉ {[wpName q]} ∪ seen) l) <->
    (NoDup (wpName <$> q :: l) /\ Forall bind_ok (q :: l) /\ Forall (fun p => wpName p ∉ seen) (q :: l))).
  { intros l. rewrite fmap_cons, list.NoDup_cons, !Forall_cons_iff, !list.Forall_forall.
    setoid_rewrite not_elem_of_union. setoid_rewrite not_elem_of_singleton.
    split.
    - intros (Hnd & Hbd & Hse). split_and!; [|done|by apply Hb|done|done|by apply Hse].
      intros (p' & E & Hp')%list_elem_of_fmap. destruct (Hse p' Hp') as [Hne _]. congruence.
    - intros ((Hq & Hnd) & (_ & Hbd) & (_ & Hse)). split_and!; [done|done|]. intros p' Hp'. split; [|by apply Hse].
      intros E. apply Hq, list_elem_of_fmap. by exists p'. }
  destruct (checkPaths _ _ ps) as [ps'|e|]; cbn [mbind outcome_bind].
  - destruct IH as [-> IH]. split; [done|]. by apply Hsplit.
  - by rewrite <- Hsplit.
  - done.
Qed.

Section Spec.
Context `{Loader}.

Lemma LoadClient_ok path :
  match LoadClient path with
  | Ret c' => exists c, load DecodeClient path = Ret c /\ c' = completeClient c /\ client_ok c'
  | Err _ => forall c, load DecodeClient path = Ret c -> ~ client_ok (completeClient c)
  | Panic => False
  end.
Proof.
  unfold LoadClient. destruct (load DecodeClient path) as [c|e|] eqn:E; cbn [mbind outcome_bind].
  2: done.
  2:{ unfold load in E. by repeat case_match. }
  assert (Hw : forall P : Prop, (client_ok (completeClient c) -> P) -> ~ P ->
    forall c0, @Ret cfg_error _ c = Ret c0 -> ~ client_ok (completeClient c0)).
  { intros P HP Hn c0 [= <-] Hc. by apply Hn, HP. }
  pose proof (validateTunnel_ok (applyDefaults "treccia0" (cTunnel c))) as Ht.
  destruct (validateTunnel _); cbn [mbind outcome_bind decides] in *; [|exact (Hw _ (co_tunnel _) Ht)|done].
  destruct (isEmpty_spec (cServerAddr c)) as [Hs|Hs]; [exact (Hw _ (co_server _) (fun Hn => Hn Hs))|].
  destruct (isEmpty_spec (cControlPSK c)) as [Hk|Hk]; [exact (Hw _ (co_psk _) (fun Hn => Hn Hk))|].
  case_decide as H0; [eapply (Hw (1 <= length (cPaths c))%nat); [intros []; cbn in *; rewrite length_imap in *; lia|lia]|].
  case_decide as H250; [eapply (Hw (length (cPaths c) <= 250)%nat); [intros []; cbn in *; rewrite length_imap in *; lia|lia]|].
  pose proof (validateRules_ok (clRules (cClassify c)) 0) as Hr. unfold validateClassify.
  destruct (validateRules _ _); cbn [mbind outcome_bind decides] in *; [|exact (Hw _ (co_rules _) Hr)|done].
  pose proof (FECParams_ok (cFEC c)) as Hf.
  destruct (FECParams _); cbn [mbind outcome_bind decides] in *; [|exact (Hw _ (co_fec _) Hf)|done].
  pose proof (checkPaths_ok (cPaths c) 0 ∅) as Hp. change (fun j => namePath (0 + j)) with namePath in Hp.
  destruct (checkPaths _ _ _); cbn [mbind outcome_bind]; [| |done].
  - destruct Hp as (-> & Hn & Hbd & _). exists c. split_and!; [done|done|].
    constructor; cbn; try done. rewrite length_imap. lia.
  - intros c0 [= <-] []. apply Hp. split_and!; [done|done|]. apply Forall_true. set_solver.
Qed.

(** C20: Loading a client configuration accepts exactly the valid ones. When
    the file can be read and decoded, [LoadClient] returns the configuration
    with its defaults filled in (interface, MTU, path names) if that is valid:
    keys, server address and secret present, tunnel address and routes CIDR
    prefixes, an MTU from 576 to 1420, 1 to 250 paths with distinct names and
    parseable bind addresses, valid classification rules and FEC override. In
    every other case it returns an error, and it never panics. *)
Theorem LoadClient_exact path :
  match LoadClient path with
  | Ret c' => exists c, load DecodeClient path = Ret c /\ c' = completeClient c /\ client_ok c'
  | Err _ => forall c, load DecodeClient path = Ret c -> ~ client_ok (completeClient c)
  | Panic => False
  end.
Proof. apply LoadClient_ok. Qed.

(** Loading a server configuration accepts exactly the valid ones, with
    interface, MTU and listening address filled in, returns an error in every
    other case, and never panics. *)
Theorem LoadServer_exact path :
  match LoadServer path with
  | Ret s' => exists s, load DecodeServer path = Ret s /\ s' = completeServer s /\ server_ok s'
  | Err _ => forall s, load DecodeServer path = Ret s -> ~ server_ok (completeServer s)
  | Panic => False
  end.
Proof.
  unfold LoadServer. destruct (load DecodeServer path) as [s|e|] eqn:E; cbn [mbind outcome_bind].
  2: done.
  2:{ unfold load in E. by repeat case_match. }
  assert (Hw : forall P : Prop, (server_ok (completeServer s) -> P) -> ~ P ->
    forall s0, @Ret cfg_error _ s = Ret s0 -> ~ server_ok (completeServer s0)).
  { intros P HP Hn s0 [= <-] Hc. by apply Hn, HP. }
  pose proof (validateTunnel_ok (applyDefaults "treccia0" (sTunnel s))) as Ht.
  destruct (validateTunnel _); cbn [mbind outcome_bind decides] in *; [|exact (Hw _ (sv_tunnel _) Ht)|done].
  destruct (isEmpty_spec (sControlPSK s)) as [Hk|Hk]; [exact (Hw _ (sv_psk _) (fun Hn => Hn Hk))|].
  pose proof (validateRules_ok (clRules (sClassify s)) 0) as Hr. unfold validateClassify.
  destruct (validateRules _ _); cbn [mbind outcome_bind decides] in *; [|exact (Hw _ (sv_rules _) Hr)|done].
  pose proof (FECParams_ok (sFEC s)) as Hf.
  destruct (FECParams _); cbn [mbind outcome_bind decides] in *; [|exact (Hw _ (sv_fec _) Hf)|done].
  exists s. split_and!; [done|done|]. by constructor.
Qed.

End Spec.

(** The forced FEC geometry as text: [ParseForce] reads back what
    [Params.String] prints for every geometry it admits, and whatever it
    accepts has 1 to 64 data and 1 to 16 parity shards, so the numbers fit
    the bytes of the FEC header and a group has at most 80 shards. *)
Theorem ParseForce_exact s p :
  (wf_force p -> ParseForce (ParamsString p) = Ret p) /\
  (ParseForce s = Ret p -> wf_force p /\ is_u8 (pK p) /\ is_u8 (pM p) /\ pK p + pM p <= 80).
Proof.
  split; [apply ParseForce_String|]. intros Hp%ParseForce_wf. destruct Hp. split_and!; [done|mlia..|lia].
Qed.

(** Text behind the second number is ignored. *)
Example ParseForce_trailing : ParseForce (bytes_of_string "10:2abc") = Ret (mkParams 10 2).
Proof. by vm_compute. Qed.

Lemma ParseForce_exact_witness :
  ParseForce (bytes_of_string "10:2") = Ret (mkParams 10 2) /\ wf_force (mkParams 10 2).
Proof.
  assert (E : ParseForce (bytes_of_string "10:2") = Ret (mkParams 10 2)) by by vm_compute.
  split; [exact E|]. exact (proj1 (proj2 (ParseForce_exact _ _) E)).
Defined.
