(* ===== verification/Keys.v ===== *)
(** * WireGuard keys and device setup: internal/wgbridge/keys.go, wg.go

    Keys as 32 bytes, their base64 and hexadecimal forms, and the
    configuration the embedded WireGuard device is given. The scalar
    multiplication of Curve25519 and wireguard-go are parameters. *)

From stdpp Require Import strings.
From S2P Require Import Prelude Wire Control Text Fec Classify Wgbridge Engine Configuration.
#[local] Open Scope Z_scope.

(** ** encoding/base64 and encoding/hex *)

(** The character of a 6-bit value in the standard alphabet, and back. *)
Definition b64Char (x : Z) : Z :=
  if x <? 26 then 65 + x else if x <? 52 then 71 + x else if x <? 62 then x - 4
  else if x =? 62 then 43 else 47.

Definition b64Val (c : Z) : option Z :=
  if (65 <=? c) && (c <=? 90) then Some (c - 65)
  else if (97 <=? c) && (c <=? 122) then Some (c - 71)
  else if (48 <=? c) && (c <=? 57) then Some (c + 4)
  else if c =? 43 then Some 62 else if c =? 47 then Some 63 else None.

Definition pad : Z := 61.

Fixpoint b64Encode (b : list Z) : list Z :=
  match b with
  | x :: y :: z :: r =>
      b64Char (x / 4) :: b64Char (x mod 4 * 16 + y / 16) :: b64Char (y mod 16 * 4 + z / 64)
        :: b64Char (z mod 64) :: b64Encode r
  | [x; y] => [b64Char (x / 4); b64Char (x mod 4 * 16 + y / 16); b64Char (y mod 16 * 4); pad]
  | [x] => [b64Char (x / 4); b64Char (x mod 4 * 16); pad; pad]
  | [] => []
  end.

(** Line breaks are skipped; unused trailing bits are not looked at. *)
Fixpoint b64Chunks (s : list Z) : option (list Z) :=
  match s with
  | [] => Some []
  | a :: b :: c :: d :: r =>
      va ← b64Val a; vb ← b64Val b;
      if c =? pad then
        if (d =? pad) && bool_decide (r = []) then Some [va * 4 + vb / 16] else None
      else
        vc ← b64Val c;
        if d =? pad then
          if bool_decide (r = []) then Some [va * 4 + vb / 16; vb mod 16 * 16 + vc / 4] else None
        else
          vd ← b64Val d;
          bs ← b64Chunks r;
          Some (va * 4 + vb / 16 :: vb mod 16 * 16 + vc / 4 :: vc mod 4 * 64 + vd :: bs)
  | _ => None
  end.

Definition b64Decode (s : list Z) : option (list Z) :=
  b64Chunks (filter (fun c => c <> 10 /\ c <> 13) s).

Definition hexChar (x : Z) : Z := if x <? 10 then 48 + x else 87 + x.
Definition hexEncode (b : list Z) : list Z := b ≫= fun x => [hexChar (x / 16); hexChar (x mod 16)].

(** ** keys.go *)

Inductive key_error := EEntropy | ECurve | EEncoding | EKeyLength (n : nat).

Abbreviation Key := (list Z) (only parsing).

(** [rnd] is what [rand.Read] filled the key with. *)
Definition GeneratePrivateKey (rnd : option (list Z)) : outcome key_error Key :=
  match rnd with
  | None => Err EEntropy
  | Some k =>
      k0 ← idx k 0; k31 ← idx k 31;
      let k := <[0%nat := Z.land k0 248]> k in
      Ret (<[31%nat := Z.lor (Z.land k31 127) 64]> k)
  end.

(** golang.org/x/crypto/curve25519: [X25519 scalar Basepoint]. *)
Class Curve := { X25519 : list Z -> option (list Z) }.

Definition PublicKey `{Curve} (k : Key) : outcome key_error Key :=
  match X25519 k with
  | None => Err ECurve
  | Some pub => Ret (take 32 (pub ++ replicate 32 0))
  end.

Definition ParseKey (s : list Z) : outcome key_error Key :=
  match b64Decode s with
  | None => Err EEncoding
  | Some raw => if decide (length raw = 32)%nat then Ret raw else Err (EKeyLength (length raw))
  end.

Definition KeyString (k : Key) : list Z := b64Encode k.
Definition KeyHex (k : Key) : list Z := hexEncode k.

(** ** wg.go *)

(** The text [NewWG] configures the device with. *)
Definition uapi (priv peer : Key) (isClient : bool) : list Z :=
  bytes_of_string "private_key=" ++ KeyHex priv ++ [10] ++
  bytes_of_string "public_key=" ++ KeyHex peer ++ [10] ++
  bytes_of_string "allowed_ip=0.0.0.0/0" ++ [10] ++
  bytes_of_string "allowed_ip=::/0" ++ [10] ++
  (if isClient then bytes_of_string "endpoint=treccia" ++ [10] else []).

Inductive wg_error := EPrivate (e : key_error) | EPeer (e : key_error) | ETun | EIpc.

(** What [NewWG] asks of the kernel and of wireguard-go. *)
Class WireGuard := { CreateTUN : string -> Z -> bool; IpcSet : list Z -> bool }.

Inductive wg_event := TunCreated (name : string) (mtu : Z) | Configured (text : list Z) | DevClosed.

(** The events, and how it ends. *)
Definition NewWG `{WireGuard} (cfg : Tunnel) (isClient : bool) : list wg_event * outcome wg_error unit :=
  match ParseKey (bytes_of_string (tPrivateKey cfg)) with
  | Ret priv =>
      match ParseKey (bytes_of_string (tPeerPublicKey cfg)) with
      | Ret peer =>
          if negb (CreateTUN (tInterface cfg) (tMTU cfg)) then ([], Err ETun)
          else
            let made := TunCreated (tInterface cfg) (tMTU cfg) in
            if IpcSet (uapi priv peer isClient) then ([made; Configured (uapi priv peer isClient)], Ret tt)
            else ([made; DevClosed], Err EIpc)
      | Err e => ([], Err (EPeer e))
      | Panic => ([], Panic)
      end
  | Err e => ([], Err (EPrivate e))
  | Panic => ([], Panic)
  end.

(** ** Round trips *)

Lemma b64_char_val x : 0 <= x < 64 ->
  b64Val (b64Char x) = Some x /\ b64Char x <> pad /\ b64Char x <> 10 /\ b64Char x <> 13.
Proof.
  intros Hx. unfold b64Char, b64Val, pad. zcase; cbn; zcase; split_and!; (lia || (f_equal; lia) || done).
Qed.

(** The properties of the character of [x], as [E] and [N]. *)
Ltac b64 x E N :=
  destruct (b64_char_val x) as (E & N%Z.eqb_neq & _); [lia|].

Lemma b64_chunks n : forall b, (length b <= n)%nat -> is_bytes b -> b64Chunks (b64Encode b) = Some b.
Proof.
  induction n as [|n IH]; intros b Hl Hb; [destruct b; [done|cbn in Hl; lia]|].
  destruct b as [|x [|y [|z r]]]; [done| | |]; cbn [b64Encode b64Chunks]; bytes_inv; ints.
  - b64 (x / 4) E1 N1. b64 (x mod 4 * 16) E2 N2. rewrite E1, E2. cbn. do 2 f_equal. lia.
  - b64 (x / 4) E1 N1. b64 (x mod 4 * 16 + y / 16) E2 N2. b64 (y mod 16 * 4) E3 N3.
    rewrite E1, E2. cbn [mbind option_bind]. rewrite N3, E3. cbn. do 2 f_equal; [lia|]. f_equal. lia.
  - b64 (x / 4) E1 N1. b64 (x mod 4 * 16 + y / 16) E2 N2. b64 (y mod 16 * 4 + z / 64) E3 N3. b64 (z mod 64) E4 N4.
    rewrite E1, E2. cbn [mbind option_bind]. rewrite N3, E3. cbn [mbind option_bind]. rewrite N4, E4.
    cbn [mbind option_bind]. rewrite IH; [|cbn in Hl; lia|done]. cbn [mbind option_bind]. f_equal.
    f_equal; [lia|]. f_equal; [lia|]. f_equal. lia.
Qed.

(** No line break or white space is ever written. *)
Lemma b64_printable n : forall b, (length b <= n)%nat -> is_bytes b ->
  Forall (fun c => 43 <= c <= 122) (b64Encode b).
Proof.
  assert (Hc : forall x, 0 <= x < 64 -> 43 <= b64Char x <= 122) by (intros x Hx; unfold b64Char; zcase; lia).
  induction n as [|n IH]; intros b Hl Hb; [destruct b; [constructor|cbn in Hl; lia]|].
  destruct b as [|x [|y [|z r]]]; cbn [b64Encode]; bytes_inv; ints;
    repeat (apply List.Forall_cons; [first [apply Hc; lia|done]|]); try apply List.Forall_nil.
  apply IH; [cbn in Hl; lia|done].
Qed.

Lemma b64_roundtrip b : is_bytes b -> b64Decode (b64Encode b) = Some b.
Proof.
  intros Hb. unfold b64Decode. rewrite filter_all; [by eapply b64_chunks|].
  apply (list.Forall_impl _ _ _ (b64_printable _ b (le_n _) Hb)). cbn. lia.
Qed.

Lemma ParseKey_String k : is_bytes k -> length k = 32%nat -> ParseKey (KeyString k) = Ret k.
Proof.
  intros Hb Hl. unfold ParseKey, KeyString. rewrite b64_roundtrip by done. by rewrite decide_True.
Qed.

Lemma land_ones_byte x : is_u8 x -> Z.land x 248 mod 8 = 0 /\ is_u8 (Z.land x 248) /\
  64 <= Z.lor (Z.land x 127) 64 < 128.
Proof.
  intros Hx. assert (Hall : Forall (fun x => Z.land x 248 mod 8 = 0 /\ 0 <= Z.land x 248 < 256 /\
     64 <= Z.lor (Z.land x 127) 64 < 128) (seqZ 0 256)).
  { apply (bool_decide_unpack _). by vm_compute. }
  rewrite list.Forall_forall in Hall. apply Hall, elem_of_seqZ. ints. lia.
Qed.

Lemma split_key {A} (k : list A) : length k = 32%nat -> exists x mid y, k = x :: mid ++ [y] /\ length mid = 30%nat.
Proof.
  intros Hl. destruct k as [|x k]; [done|]. cbn in Hl.
  destruct (exists_last (l := k)) as (mid & y & ->); [by destruct k|].
  exists x, mid, y. rewrite length_app in Hl. cbn in Hl. split; [done|lia].
Qed.

(** A generated key is the random one with five bits set as the curve wants. *)
Lemma GeneratePrivateKey_ok rnd : is_bytes rnd -> length rnd = 32%nat ->
  exists x mid y, GeneratePrivateKey (Some rnd) = Ret (x :: mid ++ [y]) /\
    is_bytes (x :: mid ++ [y]) /\ length (x :: mid ++ [y]) = 32%nat /\
    mid = take 30 (drop 1 rnd) /\ x mod 8 = 0 /\ 64 <= y < 128.
Proof.
  intros Hb Hl. destruct (split_key _ Hl) as (x & mid & y & -> & Hm).
  apply Forall_cons_1 in Hb as [Hx [Hmid [Hy _]%Forall_cons_1]%Forall_app].
  destruct (land_ones_byte x Hx) as (Hx8 & Hxb & _). destruct (land_ones_byte y Hy) as (_ & _ & Hy64).
  exists (Z.land x 248), mid, (Z.lor (Z.land y 127) 64). split_and!; [| |by rewrite <- Hl; cbn; rewrite !length_app| |done|lia|lia].
  - assert (H31 : (x :: mid ++ [y]) !! 31%nat = Some y).
    { change ((mid ++ [y]) !! 30%nat = Some y). rewrite lookup_app_r, Hm by lia. done. }
    unfold GeneratePrivateKey, idx. rewrite H31. cbn [lookup list_lookup mbind outcome_bind]. f_equal.
    change (Z.land x 248 :: <[30%nat := Z.lor (Z.land y 127) 64]> (mid ++ [y])
      = Z.land x 248 :: mid ++ [Z.lor (Z.land y 127) 64]).
    f_equal. rewrite insert_app_r_alt, Hm by lia. done.
  - apply List.Forall_cons; [done|]. apply Forall_app_2; [done|].
    apply List.Forall_cons; [ints; lia|apply List.Forall_nil].
  - change (mid = take 30 (mid ++ [y])). by rewrite <- Hm, take_app_length.
Qed.

(** Keys survive their text form and are well formed: a 32-byte key
    parses back from the base64 it prints as; whatever parses is 32 bytes
    long; and a generated private key is the random key with the three lowest
    bits and the highest bit cleared and the second highest set, as Curve25519
    wants it, so it parses back as well. *)
Theorem keys_exact k s rnd :
  (is_bytes k -> length k = 32%nat -> ParseKey (KeyString k) = Ret k) /\
  (ParseKey s = Ret k -> length k = 32%nat) /\
  (is_bytes rnd -> length rnd = 32%nat ->
   exists x mid y, GeneratePrivateKey (Some rnd) = Ret (x :: mid ++ [y]) /\
     ParseKey (KeyString (x :: mid ++ [y])) = Ret (x :: mid ++ [y]) /\
     mid = take 30 (drop 1 rnd) /\ x mod 8 = 0 /\ 64 <= y < 128).
Proof.
  split_and!; [apply ParseKey_String| |].
  - unfold ParseKey. destruct (b64Decode s); [|done]. case_decide; [|done]. by intros [= <-].
  - intros Hb Hl. destruct (GeneratePrivateKey_ok rnd Hb Hl) as (x & mid & y & E & Hkb & Hkl & Hmid & Hx & Hy).
    exists x, mid, y. split_and!; [done|by apply ParseKey_String|done|done|lia|lia].
Qed.

Lemma keys_exact_witness :
  ParseKey (KeyString (replicate 32 200)) = Ret (replicate 32 200) /\
  ParseKey (bytes_of_string "yMjIyMjIyMjIyMjIyMjIyMjIyMjIyMjIyMjIyMjIyMg=") = Ret (replicate 32 200).
Proof.
  split; [|by vm_compute].
  refine (proj1 (keys_exact (replicate 32 200) [] []) _ _); [|done].
  apply Forall_replicate. by vm_compute.
Defined.
