(* ===== verification/Boot.v ===== *)
(** * From the configuration to a running engine: cmd/treccia-client,
    cmd/treccia-server, internal/wgbridge/tunshim.go

    What the two commands make of a loaded configuration: the engine's
    parameters, the paths of the client, and the hook on the TUN device. *)

From stdpp Require Import strings.
From S2P Require Import Prelude Wire Control Float64 Sched Link PathSelect Fec Classify.
From S2P Require Import Reorder ReorderInv ReorderTrace ReorderSpec Wgbridge Engine.
From S2P Require Import EngineLogic Client ClientSafe Text Configuration.
#[local] Open Scope Z_scope.

Section Boot.
Context `{Rounding} `{Blake2s} `{ReedSolomon} `{MapOrder} `{World} `{!WorldLaws _}.

(** ** main.go *)

(** The session and client ids from twelve random bytes; never zero. *)
Definition bootSession (rnd : list Z) : Z := Z.lor (be_val (take 4 rnd)) 1.
Definition bootClientID (rnd : list Z) : Z := be_val (take 8 (drop 4 rnd)).

Definition engineConfig (mode : Mode) (psk : string) (session clientID : Z) (cl : ClassifyConfig)
    (fec : FECConfig) : outcome cfg_error Config :=
  let classifier := if clDisabled cl then None else Some (Classify.New (clRules cl)) in
  force ← FECParams fec;
  Ret (mkConfig mode (NewMAC (DeriveKey (bytes_of_string psk))) session clientID classifier
         (fDisabled fec) force).

Definition clientConfig (c : Configuration.Client) (rnd : list Z) : outcome cfg_error Config :=
  engineConfig ModeClient (cControlPSK c) (bootSession rnd) (bootClientID rnd) (cClassify c) (cFEC c).

Definition serverConfig (s : Configuration.Server) : outcome cfg_error Config :=
  engineConfig ModeServer (sControlPSK s) 0 0 (sClassify s) (sFEC s).

(** A path's own server address wins over the common one. *)
Definition pathServer (c : Configuration.Client) (p : WanPath) : string :=
  if isEmpty (wpServer p) then cServerAddr c else wpServer p.

(** The loop over [cfg.Paths]: the first failure ends the program. *)
Fixpoint addPaths (ps : list WanPath) : eng bool :=
  match ps with
  | [] => mret true
  | p :: ps => ok ← AddPath (wpName p); if ok : bool then addPaths ps else mret false
  end.

(** ** tunshim.go *)

(** [Read], after the device has filled [n] of [bufs] behind [offset]: the
    hook, if there is one, sees each packet in turn. *)
Definition tunRead (n : nat) (bufs : list (list Z)) (sizes : list nat) (offset : nat) : eng unit :=
  cl ← gets classifier;
  match cl with
  | None => mret tt
  | Some _ =>
      forEach (fun i =>
        buf ← at_ bufs (Z.of_nat i);
        size ← at_ sizes (Z.of_nat i);
        pkt ← must (@slice Empty_set _ buf offset (offset + size));
        inspect pkt) (seq 0 n)
  end.

(** ** Paths are added as configured *)

Definition names (s : Engine) : list string := pName <$> paths s.

Definition keeps_names (s : Engine) (_ : list ev) (s' : Engine) : Prop := names s' = names s.

Lemma names_refl s : keeps_names s [] s.
Proof. done. Qed.
Lemma names_trans s e1 s1 e2 s2 : keeps_names s e1 s1 -> keeps_names s1 e2 s2 -> keeps_names s (e1 ++ e2) s2.
Proof. unfold keeps_names. congruence. Qed.

Lemma names_updPath i f : (forall p, pName (f p) = pName p) -> rel keeps_names (updPath i f).
Proof.
  intros Hf. apply rel_updPath. intros s. unfold keeps_names, names. cbn.
  apply list_eq. intros j. rewrite !list_lookup_fmap. destruct (decide (j = i)) as [->|Hne].
  - rewrite list_lookup_alter_eq. destruct (paths s !! i); [|done]. cbn. by rewrite Hf.
  - by rewrite list_lookup_alter_ne.
Qed.

Lemma names_dial i : rel keeps_names (dial i).
Proof.
  unfold dial, pathAt.
  rel_with names_refl names_trans ltac:(done) ltac:(by apply names_updPath).
Qed.

Lemma AddPath_names name s s' es ok :
  AddPath name s = Ret (s', es, ok) -> names s' = names s ++ [name].
Proof.
  unfold AddPath. intros (s1 & e1 & t & e2 & E1 & E2 & _)%bind_inv. injection E1 as <- <- <-.
  apply bind_inv in E2 as (s2 & e3 & i & e4 & E3 & E4 & _). injection E3 as <- <- <-.
  apply bind_inv in E4 as (s3 & e5 & [] & e6 & E5 & E6 & _). injection E5 as <- <-.
  apply names_dial in E6. rewrite E6. unfold names. cbn. by rewrite fmap_app.
Qed.

Lemma ids_view s : pID <$> paths s = fst <$> (view s).1.
Proof. unfold view. cbn. rewrite <- list_fmap_compose. done. Qed.

(** Adding [ps] is a run of the client. *)
Lemma addPaths_run cfg ps : forall es s, cfg_ok cfg -> client_run cfg es s ->
  exists s' es' ok, addPaths ps s = Ret (s', es', ok) /\ client_run cfg (es ++ es') s' /\
    (ok = true -> names s' = names s ++ (wpName <$> ps) /\
       pID <$> paths s' = (pID <$> paths s) ++ ((fun i => u8 (Z.of_nat i)) <$> seq (np s) (length ps))).
Proof.
  induction ps as [|p ps IH]; intros es s Hc Hr; cbn [addPaths].
  { exists s, [], true. split; [done|]. rewrite app_nil_r. split; [done|]. cbn. by rewrite !app_nil_r. }
  destruct (client_run_inv _ _ _ Hc Hr) as [Hi _].
  pose proof (trip_AddPath s (wpName p) Hi) as Hw. unfold wp in Hw.
  destruct (AddPath (wpName p) s) as [[[s1 e1] ok]| |] eqn:E; [|done..].
  destruct Hw as (_ & _ & Hv1).
  assert (Hr1 : client_run cfg (es ++ e1) s1).
  { eapply (client_step cfg es s (CAddPath (wpName p))); [done|exact I|]. cbn.
    unfold mbind, eng_bind. rewrite E. cbn. by rewrite app_nil_r. }
  pose proof (AddPath_names _ _ _ _ _ E) as Hn1.
  assert (Hid1 : pID <$> paths s1 = (pID <$> paths s) ++ [u8 (Z.of_nat (np s))])
    by (rewrite !ids_view, Hv1; cbn [fst]; by rewrite fmap_app).
  assert (Hnp1 : np s1 = S (np s)).
  { unfold np. rewrite <- (length_fmap pID), Hid1, length_app, length_fmap. cbn. lia. }
  cbn [mbind eng_bind]. unfold mbind, eng_bind. rewrite E. destruct ok.
  - destruct (IH _ _ Hc Hr1) as (s2 & e2 & ok2 & -> & Hr2 & Hok). exists s2, (e1 ++ e2), ok2.
    split; [done|]. split; [by rewrite app_assoc|]. intros Ht. destruct (Hok Ht) as [Hn Hid].
    rewrite Hn, Hid, Hn1, Hid1, Hnp1. cbn. by rewrite <- !app_assoc.
  - exists s1, (e1 ++ []), false. split; [done|]. rewrite app_nil_r. done.
Qed.

Lemma seq_u8 n : (n <= 256)%nat -> (fun i => u8 (Z.of_nat i)) <$> seq 0 n = seqZ 0 (Z.of_nat n).
Proof.
  intros Hn. apply list_eq. intros i. rewrite list_lookup_fmap. destruct (decide (i < n)%nat) as [Hl|Hl].
  - rewrite lookup_seq_lt by done. cbn. rewrite lookup_seqZ_lt by lia. f_equal. rewrite u8_id; mlia.
  - rewrite !lookup_ge_None_2; [done|rewrite length_seqZ; lia|rewrite length_seq; lia].
Qed.

Lemma bootSession_ok rnd : is_bytes rnd -> (4 <= length rnd)%nat ->
  is_u32 (bootSession rnd) /\ bootSession rnd <> 0.
Proof.
  intros Hb Hl. unfold bootSession.
  pose proof (be_val_range (take 4 rnd) (Forall_take _ _ _ Hb)) as Hr.
  rewrite length_take, Nat.min_l in Hr by lia. change (256 ^ Z.of_nat 4) with two32 in Hr.
  set (x := be_val _) in *. clearbody x.
  pose proof (Z.add_lor_land x 1) as Ha. change (Z.land x 1) with (Z.land x (Z.ones 1)) in Ha.
  rewrite Z.land_ones in Ha by lia. change (2 ^ 1) with 2 in Ha. mlia.
Qed.

Lemma engineConfig_ok mode psk session cid cl fec :
  fec_ok fec -> exists cfg, engineConfig mode psk session cid cl fec = Ret cfg /\ cfg_ok cfg /\
    cfgSession cfg = session /\ (cfgFECForce cfg = mkParams 0 0 \/ wf_force (cfgFECForce cfg)).
Proof.
  intros Hf. unfold engineConfig.
  assert (exists p, FECParams fec = Ret p /\ (p = mkParams 0 0 \/ wf_force p)) as (p & -> & Hp).
  { unfold FECParams. destruct (String.eqb_spec (fForce fec) "") as [|Hne]; [by eauto|].
    destruct Hf as [?|[p Hp]]; [done|]. exists p. split; [done|]. right. by eapply ParseForce_wf. }
  cbn [mbind outcome_bind]. eexists. split; [done|]. split_and!; [|done|done].
  intros c Hc. cbn in Hc. destruct (clDisabled cl); [done|]. injection Hc as <-. apply New_wf.
Qed.

(** A packet of at most [mtu] bytes, encrypted, framed and protected, fits a
    slab. *)
Definition mtu_fits (mtu : Z) : Prop := forall n, 0 <= n <= mtu ->
  Z.of_nat DataHeaderFECSize + ExpectedCtLen n <= Z.of_nat SlabSize /\
  Z.of_nat FECHeaderSize + Z.of_nat shardHeader + ExpectedCtLen n <= Z.of_nat SlabSize.

Lemma mtu_fits_ok mtu : mtu <= 1420 -> mtu_fits mtu.
Proof.
  intros Hm n Hn. destruct (ExpectedCtLen_spec n) as (p & -> & Hp & _); [lia|].
  change (Z.of_nat DataHeaderFECSize) with 24. change (Z.of_nat FECHeaderSize) with 16.
  change (Z.of_nat shardHeader) with 6. change (Z.of_nat SlabSize) with 2048. lia.
Qed.

(** C19: A client that starts from a loaded configuration starts well: its
    engine parameters satisfy what the engine theorems ask for, with a 32-bit
    session id that is not zero and a forced FEC geometry that is off or
    valid; adding the configured paths never panics and is a run of the
    client; when every socket could be opened, the paths are the configured
    ones, in order, with distinct names and the ids 0, 1, 2, ...; and every
    packet the tunnel's MTU admits fits a slab once encrypted and framed, as
    DATA and as a FEC shard. *)
Theorem client_boot `{Loader} path c rnd :
  LoadClient path = Ret c -> is_bytes rnd -> length rnd = 12%nat ->
  exists cfg, clientConfig c rnd = Ret cfg /\ cfg_ok cfg /\
    is_u32 (cfgSession cfg) /\ cfgSession cfg <> 0 /\
    (cfgFECForce cfg = mkParams 0 0 \/ wf_force (cfgFECForce cfg)) /\
    mtu_fits (tMTU (cTunnel c)) /\
    forall t, exists s es ok, addPaths (cPaths c) (NewEngine cfg t) = Ret (s, es, ok) /\
      client_run cfg es s /\
      (ok = true -> names s = wpName <$> cPaths c /\ NoDup (names s) /\
         pID <$> paths s = seqZ 0 (Z.of_nat (length (cPaths c)))).
Proof.
  intros Hl Hb Hr. pose proof (LoadClient_ok path) as Hok. rewrite Hl in Hok.
  destruct Hok as (c0 & _ & _ & Hc).
  destruct (bootSession_ok rnd) as [Hs Hs0]; [done|lia|].
  destruct (engineConfig_ok ModeClient (cControlPSK c) (bootSession rnd) (bootClientID rnd) (cClassify c) (cFEC c)
    (co_fec _ Hc)) as (cfg & E & Hcfg & Hse & Hf).
  exists cfg. split_and!; [done|done|by rewrite Hse..|done|apply mtu_fits_ok, (to_mtu _ (co_tunnel _ Hc))|].
  intros t. destruct (addPaths_run cfg (cPaths c) [] (NewEngine cfg t) Hcfg (client_new cfg t))
    as (s & es & ok & Ha & Hrun & Hok). exists s, es, ok. split_and!; [done|done|].
  intros Ht. destruct (Hok Ht) as [Hn Hid]. change (names (NewEngine cfg t)) with (@nil string) in Hn.
  cbn [app] in Hn. split_and!; [done|rewrite Hn; apply Hc|].
  rewrite Hid. apply seq_u8. destruct (co_count _ Hc). lia.
Qed.

(** The default MTU is what the outer headers leave of a 1428-byte link. *)
Example DefaultMTU_exact :
  20 + 8 + Z.of_nat DataHeaderFECSize + ExpectedCtLen DefaultMTU = 1428 /\ DefaultMTU mod 16 = 0.
Proof. by vm_compute. Qed.

(** ** The hook on the TUN device *)

(** What [tun.Device.Read] promises: it filled [n] of the buffers it was
    given, and each packet lies inside its buffer. *)
Definition tun_contract (n : nat) (bufs : list (list Z)) (sizes : list nat) (offset : nat) : Prop :=
  forall i, (i < n)%nat -> exists buf size, bufs !! i = Some buf /\ sizes !! i = Some size /\
    (offset + size <= length buf)%nat.

Lemma same_tunRead s n bufs sizes offset :
  tun_contract n bufs sizes offset -> Z.of_nat n < two64 -> room (Z.of_nat n) s ->
  same s (tunRead n bufs sizes offset) (fun _ => True).
Proof.
  intros Hc Hn Hr. unfold tunRead. apply same_gets_bind. destruct (classifier s); [|by apply same_ret].
  assert (Hgen : forall l s1, (forall i, i ∈ l -> (i < n)%nat) -> Z.of_nat (length l) < two64 ->
    view s1 = view s -> room (Z.of_nat (length l)) s1 ->
    trip s1 [] (forEach (fun i => buf ← at_ bufs (Z.of_nat i); size ← at_ sizes (Z.of_nat i);
      pkt ← must (@slice Empty_set _ buf offset (offset + size)); inspect pkt) l)
      (fun _ => []) (fun s' _ => view s' = view s /\ True)).
  { induction l as [|i l IH]; intros s1 Hl Hlen Hv Hr1; cbn [forEach length] in *; [by apply trip_ret|].
    destruct (Hc i) as (buf & size & Hb & Hs & Hle); [apply Hl; by left|].
    eapply trip_bind.
    - eapply trip_at_bind; [exact Hb|]. eapply trip_at_bind; [exact Hs|].
      eapply trip_must_bind; [apply slice_le; lia|]. apply (trip_inspect s1 _ (Z.of_nat (length l))); [lia|].
      by replace (Z.of_nat (length l) + 1) with (Z.of_nat (S (length l))) by lia.
    - intros s2 [] [Hv2 Hr2]. apply IH; [|lia|congruence|done]. intros k Hk. apply Hl. by right. }
  apply Hgen; rewrite ?length_seq; [|done..]. by intros i [_ Hi]%elem_of_seq.
Qed.

End Boot.
