(* ===== verification/Netdev.v ===== *)
(** * The tunnel interface: internal/wgbridge/netdev.go

    [SetupNetdev] as the sequence of netlink requests it makes. The kernel's
    answers are a parameter; [net.ParseCIDR] is written out. *)

From stdpp Require Import strings.
From S2P Require Import Prelude Wire Control Text Fec Classify Wgbridge Engine Configuration.
#[local] Open Scope Z_scope.

(** ** net.ParseCIDR *)

Record IPNet := mkIPNet { netIP : list Z; netMask : list Z }.

(** [dtoi]: the number, or nothing when there is no digit, something else
    follows or it is too big. *)
Fixpoint dtoiLoop (s : list Z) (n : Z) : option Z :=
  match s with
  | [] => Some n
  | c :: r =>
      if digit c then
        let n := n * 10 + (c - 48) in if 16777215 <=? n then None else dtoiLoop r n
      else None
  end.
Definition dtoi (s : list Z) : option Z := if bool_decide (s = []) then None else dtoiLoop s 0.

(** [CIDRMask ones] over [len] bytes. *)
Fixpoint CIDRMask (len : nat) (n : Z) : list Z :=
  match len with
  | O => []
  | S len => if 8 <=? n then 255 :: CIDRMask len (n - 8) else 255 - Z.shiftr 255 n :: CIDRMask len 0
  end.

Definition maskIP (ip mask : list Z) : list Z := zip_with Z.land ip mask.

(** An address without a zone. *)
Definition plain (a : Addr) : option (list Z) :=
  match a with V4 b | V6 b [] => Some b | V6 _ (_ :: _) => None end.

(** [BitLen], in bytes. *)
Definition addrLen (a : Addr) : nat := match a with V4 _ => 4 | V6 _ _ => 16 end.

Definition ParseCIDR (s : list Z) : option IPNet :=
  '(addr, mask) ← cutAt 47 s;
  a ← ParseAddr addr;
  ip ← plain a;
  n ← dtoi mask;
  if 8 * Z.of_nat (addrLen a) <? n then None else
  let m := CIDRMask (addrLen a) n in
  Some (mkIPNet (maskIP ip m) m).

(** ** netlink *)

(** The requests that change the system. *)
Inductive nl_call :=
  | AddrAdd (link : Z) (addr : string)
  | LinkSetUp (link : Z)
  | RouteAdd (link : Z) (dst : IPNet).

(** The index of an interface, the syntax of [netlink.ParseAddr], and the
    kernel's answer to a request after the requests before it. *)
Class Netlink := {
  LinkByName : string -> option Z;
  nlParseAddr : string -> bool;
  accepts : list nl_call -> nl_call -> bool;
}.

Inductive nd_error := ENoLink | EBadAddress | EAddAddress | ELinkUp | EBadRoute (r : string) | EAddRoute (r : string).

Section Netdev.
Context `{Netlink}.

(** The loop over the routes, after the requests [made]. *)
Fixpoint addRoutes (link : Z) (made : list nl_call) (routes : list string) : list nl_call * option nd_error :=
  match routes with
  | [] => (made, None)
  | r :: rs =>
      match ParseCIDR (bytes_of_string r) with
      | None => (made, Some (EBadRoute r))
      | Some dst =>
          let c := RouteAdd link dst in
          if accepts made c then addRoutes link (made ++ [c]) rs else (made ++ [c], Some (EAddRoute r))
      end
  end.

(** The requests made, in order, and the error if there is one. *)
Definition SetupNetdev (iface addrCIDR : string) (routes : list string) : list nl_call * option nd_error :=
  match LinkByName iface with
  | None => ([], Some ENoLink)
  | Some link =>
      if negb (nlParseAddr addrCIDR) then ([], Some EBadAddress) else
      let a := AddrAdd link addrCIDR in
      if negb (accepts [] a) then ([a], Some EAddAddress) else
      let u := LinkSetUp link in
      if negb (accepts [a] u) then ([a; u], Some ELinkUp) else
      addRoutes link [a; u] routes
  end.

End Netdev.

(** ** The two parsers of prefixes *)

(** Characters of an address: nothing that is accepted contains a slash. *)
Lemma v4Fields_chars s : forall first dot fields val dl f,
  v4Fields s first dot fields val dl = Some f -> 47 ∉ s.
Proof.
  induction s as [|c s IH]; intros first dot fields val dl f; cbn [v4Fields]; [set_solver|].
  destruct (digit c) eqn:Hd.
  - destruct (_ && _); [done|]. destruct (_ <? _); [done|]. intros ?%IH. apply not_elem_of_cons. split; [|done].
    unfold digit in Hd. lia.
  - destruct (Z.eqb_spec c 46) as [->|]; [|done]. destruct (_ || _); [done|]. case_decide; [done|].
    intros ?%IH. apply not_elem_of_cons. by split.
Qed.

Lemma hexVal_slash : hexVal 47 = None.
Proof. done. Qed.

Lemma hexGroup_chars s : forall off acc off' acc' r,
  hexGroup s off acc = Some (off', acc', r) -> exists p, s = p ++ r /\ 47 ∉ p.
Proof.
  induction s as [|c s IH]; intros off acc off' acc' r; cbn [hexGroup].
  { intros [= _ _ <-]. exists []. split; [done|set_solver]. }
  destruct (hexVal c) as [d|] eqn:Hc.
  - case_decide; [done|]. destruct (_ <? _); [done|]. intros (p & -> & Hp)%IH. exists (c :: p). split; [done|].
    apply not_elem_of_cons. split; [|done]. intros <-. by rewrite hexVal_slash in Hc.
  - intros [= _ _ <-]. exists []. split; [done|set_solver].
Qed.

Lemma v6Groups_chars fuel : forall s ip ell ip' ell',
  v6Groups fuel s ip ell = Some ([], ip', ell') -> 47 ∉ s.
Proof.
  induction fuel as [|fuel IH]; intros s ip ell ip' ell'; cbn [v6Groups].
  { intros [= -> _ _]. set_solver. }
  case_decide. { intros [= -> _ _]. set_solver. }
  destruct (hexGroup s 0 0) as [[[off acc] r]|] eqn:Hg; cbn [mbind option_bind]; [|done].
  apply hexGroup_chars in Hg as (p & -> & Hp). case_decide; [done|].
  intros E. enough (47 ∉ r) by set_solver. revert E.
  destruct r as [|c r]; [set_solver|]. destruct (decide (c = 46)) as [->|H46].
  { destruct (_ && _); [done|]. case_decide; [done|]. destruct (parseIPv4 _) eqn:E4; [|done].
    intros _. apply v4Fields_chars in E4. set_solver. }
  destruct (decide (c = 58)) as [->|H58].
  2:{ intros E. exfalso. repeat case_match; simplify_eq. }
  destruct r as [|c r]; [done|]. destruct (decide (c = 58)) as [->|Hc].
  - destruct ell; [done|]. case_decide as Hr; [set_solver|]. intros ?%IH. set_solver.
  - intros E. enough (47 ∉ c :: r) by set_solver. repeat case_match; simplify_eq; by eapply IH.
Qed.

(** The address text of [parseIPv6] after the zone is cut off. *)
Definition v6Rest (s zone : list Z) : option (list Z * list Z) :=
  let '(s, ell) := match s with 58 :: 58 :: r => (r, Some 0%nat) | _ => (s, None) end in
  if bool_decide (ell = Some 0%nat) && bool_decide (s = []) then Some (replicate 16 0, zone) else
  '(r, ip, ell) ← v6Groups (S (length s)) s [] ell;
  if decide (r <> []) then None else
  if decide (length ip < 16)%nat then
    match ell with
    | None => None
    | Some e => Some (take e ip ++ replicate (16 - length ip) 0 ++ drop e ip, zone)
    end
  else if decide (ell = None) then Some (ip, zone) else None.

Lemma v6Rest_chars s zone b z : v6Rest s zone = Some (b, z) -> z = zone /\ 47 ∉ s.
Proof.
  unfold v6Rest. set (p := match s with 58 :: 58 :: r => (r, Some 0%nat) | _ => (s, None) end).
  assert (Hp : 47 ∉ p.1 -> 47 ∉ s) by (unfold p; repeat case_match; cbn [fst]; set_solver). clearbody p.
  destruct p as [s1 ell]. cbn [fst] in Hp. destruct (bool_decide _ && bool_decide (s1 = [])) eqn:E1.
  { intros [= _ ->]. split; [done|]. apply Hp. apply andb_prop in E1 as [_ ->%bool_decide_eq_true]. set_solver. }
  destruct (v6Groups _ s1 [] ell) as [[[r ip] ell']|] eqn:Eg; cbn [mbind option_bind]; [|done].
  destruct (decide (r <> [])) as [?|Hr]; [done|]. apply dec_stable in Hr as ->. intros E. split; [|by eapply Hp, v6Groups_chars].
  case_decide; [destruct ell' as [e|]|case_decide]; congruence.
Qed.

Lemma parseIPv6_chars s b : parseIPv6 s = Some (b, []) -> 47 ∉ s.
Proof.
  unfold parseIPv6. destruct (cutAt 37 s) as [[s0 z]|].
  - case_decide as Hz; cbn [mbind option_bind]; [discriminate|]. intros [? _]%(v6Rest_chars s0 z b []). by destruct Hz.
  - cbn [mbind option_bind]. by intros [_ ?]%(v6Rest_chars s [] b []).
Qed.

Lemma ParseAddr_cases s a : ParseAddr s = Some a ->
  (exists b, a = V4 b /\ parseIPv4 s = Some b) \/ (exists b z, a = V6 b z /\ parseIPv6 s = Some (b, z)).
Proof.
  unfold ParseAddr. destruct (addrKind s) as [c|]; [|done]. destruct (decide (c = 46)) as [->|H46].
  { intros (b & Hb & ->)%fmap_Some. left. eauto. }
  destruct (decide (c = 58)) as [->|H58].
  { intros ([b z] & Hb & ->)%fmap_Some. right. eauto. }
  intros E. exfalso. repeat case_match; simplify_eq.
Qed.

Lemma ParseAddr_chars s a ip : ParseAddr s = Some a -> plain a = Some ip -> 47 ∉ s.
Proof.
  intros [(b & -> & E)|(b & z & -> & E)]%ParseAddr_cases Hp.
  - by eapply v4Fields_chars.
  - destruct z; [|done]. by eapply parseIPv6_chars.
Qed.

Lemma cutLast_app c s a b : cutLast c s = Some (a, b) -> s = a ++ c :: b.
Proof.
  revert a b. induction s as [|x s IH]; intros a b; cbn [cutLast]; [done|].
  destruct (cutLast c s) as [[a' b']|].
  - intros [= <- <-]. by rewrite (IH a' b').
  - destruct (Z.eqb_spec x c) as [->|]; [|done]. by intros [= <- <-].
Qed.

Lemma cutAt_app c a b : c ∉ a -> cutAt c (a ++ c :: b) = Some (a, b).
Proof.
  induction a as [|x a IH]; cbn; [by rewrite Z.eqb_refl|]. intros [Hx Ha]%not_elem_of_cons.
  rewrite (proj2 (Z.eqb_neq _ _)) by done. by rewrite IH.
Qed.

Lemma dtoiLoop_val s : forall n, 0 <= n -> forallb digit s = true ->
  foldl (fun acc c => acc * 10 + (c - 48)) n s < 16777215 ->
  n <= foldl (fun acc c => acc * 10 + (c - 48)) n s /\
  dtoiLoop s n = Some (foldl (fun acc c => acc * 10 + (c - 48)) n s).
Proof.
  induction s as [|c s IH]; intros n Hn; cbn [forallb foldl dtoiLoop]; [by split|].
  intros [Hc Hs]%andb_prop Hv. rewrite Hc. assert (0 <= c - 48) by (unfold digit in Hc; lia).
  destruct (IH (n * 10 + (c - 48))) as [Hle ->]; [lia|done|done|].
  destruct (Z.leb_spec 16777215 (n * 10 + (c - 48))); [lia|]. split; [lia|done].
Qed.

Lemma atoi_dtoi s n : atoi s = Some n -> n < 16777215 -> dtoi s = Some n /\ 0 <= n.
Proof.
  unfold atoi, dtoi. case_bool_decide as Hs; [done|]. cbn [orb]. destruct (forallb digit s) eqn:Hd; cbn [negb]; [|done].
  destruct (_ <? _); [|done]. intros [= <-] Hn. unfold digits_val in *.
  destruct (dtoiLoop_val s 0) as [Hle ->]; [lia|done..].
Qed.

(** What [netip] accepts as a prefix, [net] accepts, with the same address
    and length. *)
Lemma ParsePrefix_CIDR s a n : ParsePrefix s = Some (a, n) ->
  exists t ip, ParseAddr t = Some a /\ plain a = Some ip /\ 0 <= n <= 8 * Z.of_nat (addrLen a) /\
    ParseCIDR s = Some (mkIPNet (maskIP ip (CIDRMask (addrLen a) n)) (CIDRMask (addrLen a) n)).
Proof.
  unfold ParsePrefix, ParseCIDR. destruct (cutLast 47 s) as [[t bits]|] eqn:Ec; cbn [mbind option_bind]; [|done].
  apply cutLast_app in Ec as ->. destruct (ParseAddr t) as [a'|] eqn:Ea; cbn [mbind option_bind]; [|done]. intros E.
  assert (exists ip, plain a' = Some ip /\ a = a' /\ atoi bits = Some n /\ n <= 8 * Z.of_nat (addrLen a')) as
    (ip & Hip & -> & Ht & Hn).
  { destruct a' as [b|b [|]]; [| |done]; cbn [plain addrLen]; exists b;
      (destruct (_ && _); [done|]); (destruct (atoi bits) as [m|]; [|done]); cbn [mbind option_bind] in E;
      match type of E with context [?k <? m] => destruct (Z.ltb_spec k m) end; simplify_eq; split_and!; try done; lia. }
  exists t, ip. destruct (atoi_dtoi _ _ Ht) as [Hd H0]; [destruct a'; cbn in *; lia|].
  split_and!; [done..|]. rewrite cutAt_app by (by eapply ParseAddr_chars). cbn [mbind option_bind].
  rewrite Ea. cbn [mbind option_bind]. rewrite Hip. cbn [mbind option_bind]. rewrite Hd. cbn [mbind option_bind].
  destruct (Z.ltb_spec (8 * Z.of_nat (addrLen a')) n); [lia|done].
Qed.

(** ** The bytes of an address *)

Lemma v4Fields_bytes s : forall first dot fields val dl f,
  is_bytes fields -> (length fields <= 3)%nat -> 0 <= val <= 255 ->
  v4Fields s first dot fields val dl = Some f -> is_bytes f /\ length f = 4%nat.
Proof.
  induction s as [|c s IH]; intros first dot fields val dl f Hb Hl Hv; cbn [v4Fields].
  { case_decide; [done|]. intros [= <-]. rewrite length_app. cbn. split; [|lia].
    apply Forall_app_2; [done|]. repeat constructor; mlia. }
  destruct (digit c) eqn:Hd.
  - destruct (_ && _); [done|]. destruct (Z.ltb_spec 255 (val * 10 + (c - 48))); [done|].
    apply IH; [done..|]. unfold digit in Hd. lia.
  - destruct (c =? 46); [|done]. destruct (_ || _); [done|]. case_decide; [done|]. apply IH; [| |lia].
    + apply Forall_app_2; [done|]. repeat constructor; mlia.
    + rewrite length_app. cbn. lia.
Qed.

Lemma hexVal_range c d : hexVal c = Some d -> 0 <= d < 16.
Proof. unfold hexVal, digit. zcase; cbn; zcase; intros [= <-]; lia. Qed.

Lemma hexGroup_range s : forall off acc off' acc' r,
  0 <= acc <= 65535 -> hexGroup s off acc = Some (off', acc', r) -> 0 <= acc' <= 65535.
Proof.
  induction s as [|c s IH]; intros off acc off' acc' r Ha; cbn [hexGroup]; [by intros [= _ <- _]|].
  destruct (hexVal c) as [d|] eqn:Hc; [|by intros [= _ <- _]]. apply hexVal_range in Hc.
  case_decide; [done|]. destruct (Z.ltb_spec 65535 (acc * 16 + d)); [done|]. apply IH. lia.
Qed.

(** Whole groups, of two bytes each. *)
Definition v6_ok (ip : list Z) : Prop := is_bytes ip /\ exists h, length ip = (2 * h)%nat /\ (h <= 8)%nat.

Lemma v6_group ip acc : v6_ok ip -> (length ip < 16)%nat -> 0 <= acc <= 65535 ->
  v6_ok (ip ++ [acc / 256; acc mod 256]).
Proof.
  intros (Hb & h & Hl & Hh) Hlt Ha. split.
  - apply Forall_app_2; [done|]. repeat constructor; mlia.
  - exists (S h). rewrite length_app. cbn. lia.
Qed.

Lemma v6Groups_bytes fuel : forall s ip ell r ip' ell',
  v6_ok ip -> v6Groups fuel s ip ell = Some (r, ip', ell') -> v6_ok ip'.
Proof.
  induction fuel as [|fuel IH]; intros s ip ell r ip' ell' Hip; cbn [v6Groups]; [by intros [= _ <- _]|].
  destruct (decide (16 <= length ip)%nat) as [|Hlt]; [by intros [= _ <- _]|].
  destruct (hexGroup s 0 0) as [[[off acc] r1]|] eqn:Hg; cbn [mbind option_bind]; [|done].
  apply hexGroup_range in Hg; [|lia]. case_decide; [done|].
  pose proof (v6_group ip acc Hip ltac:(lia) Hg) as Hip2.
  destruct r1 as [|c r1]; [by intros [= _ <- _]|]. destruct (decide (c = 46)) as [->|H46].
  { destruct (_ && _); [done|]. case_decide as H16; [done|]. destruct (parseIPv4 s) as [f|] eqn:E4; [|done].
    apply v4Fields_bytes in E4 as [Hf Hl4]; [|apply List.Forall_nil|cbn; lia|lia].
    intros [= _ <- _]. destruct Hip as (Hb & h & Hl & Hh). split; [by apply Forall_app_2|].
    exists (h + 2)%nat. rewrite length_app. lia. }
  destruct (decide (c = 58)) as [->|H58].
  2:{ intros E. exfalso. repeat case_match; simplify_eq. }
  destruct r1 as [|c r1]; [done|]. destruct (decide (c = 58)) as [->|Hc].
  - destruct ell; [done|]. case_decide; [by intros [= _ <- _]|]. by apply IH.
  - intros E. repeat case_match; simplify_eq; by eapply IH.
Qed.

Lemma v6Rest_bytes s zone b z : v6Rest s zone = Some (b, z) -> is_bytes b /\ length b = 16%nat.
Proof.
  unfold v6Rest. destruct (match s with 58 :: 58 :: r => (r, Some 0%nat) | _ => (s, None) end) as [s1 ell].
  destruct (_ && _).
  { intros [= <- _]. split; [|done]. apply is_bytesb_spec. by vm_compute. }
  destruct (v6Groups _ s1 [] ell) as [[[r ip] ell']|] eqn:Eg; cbn [mbind option_bind]; [|done].
  apply v6Groups_bytes in Eg as (Hb & h & Hl & Hh); [|split; [apply List.Forall_nil|exists 0%nat; cbn; lia]].
  destruct (decide (r <> [])) as [?|Hr]; [done|]. destruct (decide (length ip < 16)%nat) as [Hlt|Hge].
  - destruct ell' as [e|]; [|done]. intros [= <- _]. split.
    + apply Forall_app_2; [by apply Forall_take|]. apply Forall_app_2; [|by apply Forall_drop].
      apply Forall_replicate. by vm_compute.
    + rewrite !length_app, length_take, length_drop, length_replicate. lia.
  - case_decide; [|done]. intros [= <- _]. split; [done|lia].
Qed.

Lemma ParseAddr_bytes s a ip : ParseAddr s = Some a -> plain a = Some ip -> is_bytes ip /\ length ip = addrLen a.
Proof.
  intros [(b & -> & E)|(b & z & -> & E)]%ParseAddr_cases Hp.
  - injection Hp as ->. apply v4Fields_bytes in E; [done|apply List.Forall_nil|cbn; lia|lia].
  - destruct z; [|done]. injection Hp as ->. cbn [addrLen]. revert E. unfold parseIPv6. destruct (cutAt 37 s) as [[s0 z]|].
    + case_decide; cbn [mbind option_bind]; [done|]. apply (v6Rest_bytes s0 z ip []).
    + cbn [mbind option_bind]. apply (v6Rest_bytes s [] ip []).
Qed.

(** ** The network of a prefix *)

(** [x] with its low [k] bits cleared. *)
Definition clear_low (k x : Z) : Z := x / 2 ^ k * 2 ^ k.

Lemma mask_byte b n : is_u8 b -> 0 <= n < 8 -> Z.land b (255 - Z.shiftr 255 n) = clear_low (8 - n) b.
Proof.
  intros Hb Hn.
  assert (Hall : forallb (fun b => forallb (fun n => Z.land b (255 - Z.shiftr 255 n) =? clear_low (8 - n) b) (seqZ 0 8))
    (seqZ 0 256) = true) by (vm_compute; reflexivity).
  assert (In b (seqZ 0 256)) as Hib by (apply list_elem_of_In, elem_of_seqZ; mlia).
  assert (In n (seqZ 0 8)) as Hin by (apply list_elem_of_In, elem_of_seqZ; lia).
  rewrite forallb_forall in Hall. specialize (Hall b Hib). rewrite forallb_forall in Hall. specialize (Hall n Hin).
  by apply Z.eqb_eq.
Qed.

Lemma CIDRMask_length len : forall n, length (CIDRMask len n) = len.
Proof. induction len as [|len IH]; intros n; cbn; [done|]. destruct (_ <=? _); cbn; by rewrite IH. Qed.

Lemma clear_low_head k m b v : 0 <= k <= m -> 0 <= v ->
  clear_low k (b * 2 ^ m + v) = b * 2 ^ m + clear_low k v.
Proof.
  intros Hk Hv. unfold clear_low. replace (2 ^ m) with (2 ^ (m - k) * 2 ^ k) by (rewrite <- Z.pow_add_r by lia; f_equal; lia).
  rewrite Z.mul_assoc, Z.div_add_l by lia. lia.
Qed.

Lemma clear_low_range k x : 0 <= k -> 0 <= x -> 0 <= clear_low k x <= x.
Proof.
  intros Hk Hx. unfold clear_low. pose proof (Z.mul_div_le x (2 ^ k)). pose proof (Z.div_pos x (2 ^ k)).
  pose proof (Z.pow_pos_nonneg 2 k). nia.
Qed.

Lemma clear_low_all k v : 0 <= v < 2 ^ k -> clear_low k v = 0.
Proof. intros Hv. unfold clear_low. by rewrite Z.div_small. Qed.

Lemma clear_low_shift k m b v : 0 <= k -> 0 <= m -> 0 <= v < 2 ^ m ->
  clear_low (k + m) (b * 2 ^ m + v) = clear_low k b * 2 ^ m.
Proof.
  intros Hk Hm Hv. unfold clear_low. rewrite Z.pow_add_r, (Z.mul_comm (2 ^ k)), <- Z.div_div by lia.
  rewrite Z.div_add_l, (Z.div_small v) by lia. rewrite Z.add_0_r. lia.
Qed.

Lemma maskIP_val ip : forall n, is_bytes ip -> 0 <= n <= 8 * Z.of_nat (length ip) ->
  is_bytes (maskIP ip (CIDRMask (length ip) n)) /\
  be_val (maskIP ip (CIDRMask (length ip) n)) = clear_low (8 * Z.of_nat (length ip) - n) (be_val ip).
Proof.
  induction ip as [|b ip IH]; intros n; cbn [length CIDRMask].
  { intros _ Hn. replace n with 0 by lia. split; [apply List.Forall_nil|done]. }
  intros [Hb Hip]%is_bytes_cons Hn. pose proof (be_val_range ip Hip) as Hr.
  set (L := length ip) in *. replace (256 ^ Z.of_nat L) with (2 ^ (8 * Z.of_nat L)) in Hr by (by rewrite Z.pow_mul_r by lia).
  assert (Hcons : forall x m, is_u8 x -> is_bytes (maskIP ip m) -> length m = L ->
    be_val (x :: maskIP ip m) = x * 2 ^ (8 * Z.of_nat L) + be_val (maskIP ip m)).
  { intros x m Hx Hm Hl. rewrite be_val_cons by done. unfold maskIP. rewrite length_zip_with, Hl.
    fold L. rewrite Nat.min_id, Z.pow_mul_r by lia. done. }
  rewrite (be_val_cons b ip) by done. fold L. replace (256 ^ Z.of_nat L) with (2 ^ (8 * Z.of_nat L)) by (by rewrite Z.pow_mul_r by lia).
  destruct (Z.leb_spec 8 n) as [H8|H8]; cbn [maskIP zip_with].
  - destruct (IH (n - 8)) as [Hbs Hv]; [done|lia|]. fold (maskIP ip (CIDRMask L (n - 8))).
    assert (Hb' : Z.land b 255 = b).
    { change 255 with (Z.ones 8). rewrite Z.land_ones, Z.mod_small; mlia. }
    rewrite Hb'. split; [by apply is_bytes_cons|]. rewrite Hcons by (exact Hbs || apply CIDRMask_length || assumption). rewrite Hv.
    rewrite clear_low_head by lia. do 2 f_equal. lia.
  - destruct (IH 0) as [Hbs Hv]; [done|lia|]. fold (maskIP ip (CIDRMask L 0)).
    rewrite mask_byte by (done || lia).
    assert (Hx : is_u8 (clear_low (8 - n) b)).
    { pose proof (clear_low_range (8 - n) b ltac:(lia) ltac:(mlia)). mlia. }
    split; [by apply is_bytes_cons|]. rewrite Hcons by (exact Hbs || apply CIDRMask_length || assumption). rewrite Hv.
    rewrite Z.sub_0_r, (clear_low_all (8 * Z.of_nat L)) by lia. rewrite Z.add_0_r, <- (clear_low_shift (8 - n) (8 * Z.of_nat L) b (be_val ip)) by lia. f_equal. lia.
Qed.

(** The network a prefix denotes: the bytes of its address with the bits
    after the prefix length cleared. *)
Definition network_of (r : string) (net : IPNet) : Prop :=
  exists a n ip, ParsePrefix (bytes_of_string r) = Some (a, n) /\ plain a = Some ip /\
    length (netIP net) = length ip /\ is_bytes (netIP net) /\
    be_val (netIP net) = clear_low (8 * Z.of_nat (length ip) - n) (be_val ip) /\
    netMask net = CIDRMask (length ip) n.

Lemma ParseCIDR_network r : is_Some (ParsePrefix (bytes_of_string r)) ->
  exists net, ParseCIDR (bytes_of_string r) = Some net /\ network_of r net.
Proof.
  intros [[a n] E]. destruct (ParsePrefix_CIDR _ _ _ E) as (t & ip & Ha & Hp & Hn & Hc).
  destruct (ParseAddr_bytes _ _ _ Ha Hp) as [Hb Hl]. rewrite <- Hl in *.
  destruct (maskIP_val ip n Hb Hn) as [Hm Hv]. eexists. split; [exact Hc|]. exists a, n, ip. cbn [netIP netMask].
  split_and!; [done..| |done|done|done]. unfold maskIP. rewrite length_zip_with, CIDRMask_length. lia.
Qed.

(** ** The requests *)

Section Requests.
Context `{Netlink}.

(** Requests made one after another until one is refused, each with the error
    that reports it. *)
Fixpoint attempt (made : list nl_call) (plan : list (nl_call * nd_error)) : list nl_call * option nd_error :=
  match plan with
  | [] => (made, None)
  | (c, e) :: plan => if accepts made c then attempt (made ++ [c]) plan else (made ++ [c], Some e)
  end.

Definition routePlan (link : Z) (routes : list string) (nets : list IPNet) : list (nl_call * nd_error) :=
  zip_with (fun r net => (RouteAdd link net, EAddRoute r)) routes nets.

Definition netdevPlan (link : Z) (addr : string) (routes : list string) (nets : list IPNet) : list (nl_call * nd_error) :=
  (AddrAdd link addr, EAddAddress) :: (LinkSetUp link, ELinkUp) :: routePlan link routes nets.

Lemma addRoutes_plan link routes nets :
  Forall2 (fun r net => ParseCIDR (bytes_of_string r) = Some net) routes nets ->
  forall made, addRoutes link made routes = attempt made (routePlan link routes nets).
Proof.
  induction 1 as [|r net routes nets Hr _ IH]; intros made; cbn [addRoutes attempt routePlan zip_with]; [done|].
  rewrite Hr. destruct (accepts made _); [|done]. apply IH.
Qed.

(** C25: The interface is set up as configured. For a tunnel whose
    configuration was accepted, with netlink accepting the syntax of every
    prefix that netip accepts, [SetupNetdev] fails without a request when the
    interface does not exist; otherwise it asks, in this order, for the
    address, for the link to go up, and for one route per configured prefix,
    to the network of that prefix, all on that interface, until the kernel
    refuses a request, whose error it returns. It never fails over the text
    of an address or a route. *)
Theorem netdev_configured t iface :
  tunnel_ok t ->
  (forall s, is_Some (ParsePrefix (bytes_of_string s)) -> nlParseAddr s = true) ->
  exists nets, Forall2 network_of (tRoutes t) nets /\
    SetupNetdev iface (tAddress t) (tRoutes t) =
      match LinkByName iface with
      | None => ([], Some ENoLink)
      | Some link => attempt [] (netdevPlan link (tAddress t) (tRoutes t) nets)
      end.
Proof.
  intros Ht Hnl.
  assert (exists nets, Forall2 (fun r net => ParseCIDR (bytes_of_string r) = Some net /\ network_of r net) (tRoutes t) nets)
    as [nets Hnets].
  { pose proof (to_routes _ Ht) as Hr. induction Hr as [|r rs Hr _ [nets IH]]; [by exists []|].
    destruct (ParseCIDR_network r Hr) as (net & ?). exists (net :: nets). by constructor. }
  exists nets. split; [by apply (list.Forall2_impl _ _ _ _ Hnets); intros ? ? []|].
  unfold SetupNetdev. destruct (LinkByName iface) as [link|]; [|done].
  rewrite (Hnl _ (to_address _ Ht)). cbn [negb attempt netdevPlan app].
  destruct (accepts [] _); cbn [negb]; [|done]. destruct (accepts [_] _); cbn [negb]; [|done].
  apply addRoutes_plan. by apply (list.Forall2_impl _ _ _ _ Hnets); intros ? ? [].
Qed.

End Requests.

(** A kernel that refuses the second route. *)
#[local] Instance toy_netlink : Netlink := {|
  LinkByName name := if String.eqb name "treccia0" then Some 5 else None;
  nlParseAddr s := goodPrefix s;
  accepts made c := bool_decide (length made <> 3)%nat;
|}.

Definition toy_tunnel : Tunnel :=
  mkTunnel "treccia0" 1344 "10.200.0.2/24" "cHJpdg==" "cGVlcg==" ["192.168.50.77/20"; "fd00::1/8"].

Lemma netdev_configured_witness :
  SetupNetdev "treccia0" "10.200.0.2/24" ["192.168.50.77/20"; "fd00::1/8"] =
    ([AddrAdd 5 "10.200.0.2/24"; LinkSetUp 5; RouteAdd 5 (mkIPNet [192; 168; 48; 0] [255; 255; 240; 0]);
      RouteAdd 5 (mkIPNet (253 :: replicate 15 0) (255 :: replicate 15 0))], Some (EAddRoute "fd00::1/8")) /\
  exists nets, Forall2 network_of (tRoutes toy_tunnel) nets /\
    SetupNetdev "treccia0" (tAddress toy_tunnel) (tRoutes toy_tunnel) =
      attempt [] (netdevPlan 5 (tAddress toy_tunnel) (tRoutes toy_tunnel) nets).
Proof.
  split; [vm_compute; reflexivity|]. refine (netdev_configured toy_tunnel "treccia0" _ _).
  - assert (Hg : forall r, goodPrefix r = true -> is_Some (ParsePrefix (bytes_of_string r))).
    { intros r. unfold goodPrefix. destruct (ParsePrefix _); [by eexists|done]. }
    constructor; cbn [tPrivateKey tPeerPublicKey tAddress tRoutes tMTU toy_tunnel]; [done|done| | |lia].
    + apply Hg. vm_compute; reflexivity.
    + apply List.Forall_cons; [|apply List.Forall_cons; [|apply List.Forall_nil]]; apply Hg; vm_compute; reflexivity.
  - intros s [x E]. cbn [nlParseAddr toy_netlink]. unfold goodPrefix. by rewrite E.
Defined.
