(* ===== verification/Commands.v ===== *)
(** * The commands: cmd/treccia-client, cmd/treccia-server, internal/cli

    The key subcommands, the flags, and the order in which a daemon starts:
    what it does up to the point where it serves, or the status it exits
    with. *)

From stdpp Require Import strings.
From S2P Require Import Prelude Wire Control Float64 Sched Link PathSelect Fec Classify.
From S2P Require Import Reorder ReorderInv ReorderTrace ReorderSpec Wgbridge Engine.
From S2P Require Import EngineLogic Client ClientSafe Lifecycle Server Text Configuration Keys Boot Netdev.
#[local] Open Scope Z_scope.

(** ** strings.TrimSpace *)

(** The white space of Unicode, in UTF-8. *)
Definition spaces : list (list Z) :=
  [[9]; [10]; [11]; [12]; [13]; [32]; [194; 133]; [194; 160]; [225; 154; 128]]
  ++ ((fun i => [226; 128; 128 + i]) <$> seqZ 0 11)
  ++ [[226; 128; 168]; [226; 128; 169]; [226; 128; 175]; [226; 129; 159]; [227; 128; 128]].

(** The first of [ps] that [s] starts with, cut off. *)
Fixpoint stripOne (ps : list (list Z)) (s : list Z) : option (list Z) :=
  match ps with
  | [] => None
  | p :: ps => if bool_decide (take (length p) s = p) then Some (drop (length p) s) else stripOne ps s
  end.

(** Each round removes at least a byte. *)
Fixpoint stripAll (fuel : nat) (ps : list (list Z)) (s : list Z) : list Z :=
  match fuel with
  | O => s
  | S fuel => match stripOne ps s with Some r => stripAll fuel ps r | None => s end
  end.

Definition TrimSpace (s : list Z) : list Z :=
  let s := stripAll (length s) spaces s in
  reverse (stripAll (length s) (reverse <$> spaces) (reverse s)).

(** ** bufio.Scanner *)

Definition MaxScanTokenSize : nat := Z.to_nat 65536.

Definition dropCR (s : list Z) : list Z := if last s 0 =? 13 then take (length s - 1) s else s.

(** The first line of standard input; [None] when there is none, or it does
    not fit the buffer. *)
Definition scanLine (stdin : list Z) : option (list Z) :=
  let buf := take MaxScanTokenSize stdin in
  match cutAt 10 buf with
  | Some (line, _) => Some (dropCR line)
  | None =>
      if decide (length buf = 0)%nat then None
      else if decide (length buf = MaxScanTokenSize)%nat then None
      else Some (dropCR buf)
  end.

(** ** cli.go *)

(** What a subcommand did: nothing, one line on standard output, or a failure
    with status 1. *)
Inductive handled := NotHandled | Printed (line : list Z) | Failed.

(** [crypto/rand.Read] into a buffer of the given length. *)
Class Entropy := { entropy : nat -> option (list Z) }.

Definition printKey (o : outcome key_error (list Z)) : handled :=
  match o with Ret k => Printed (KeyString k) | _ => Failed end.

Definition KeySubcommand `{Curve} `{Entropy} (args : list string) (stdin : list Z) : handled :=
  match args with
  | [] => NotHandled
  | a :: _ =>
      if String.eqb a "genkey" then printKey (GeneratePrivateKey (entropy 32))
      else if String.eqb a "pubkey" then
        match scanLine stdin with
        | None => Failed
        | Some line => printKey (k ← ParseKey (TrimSpace line); PublicKey k)
        end
      else NotHandled
  end.

(** ** flag *)

Record Flags := mkFlags { flConfig : string; flVerbose : bool; flVersion : bool }.

Inductive parsed := Parsed (f : Flags) | Help | BadFlag.

Definition ParseBool (s : string) : option bool :=
  if bool_decide (s ∈ ["1"; "t"; "T"; "TRUE"; "true"; "True"]) then Some true
  else if bool_decide (s ∈ ["0"; "f"; "F"; "FALSE"; "false"; "False"]) then Some false
  else None.

(** The text of a flag after its dashes: [None] when it is not a flag, and
    [Some None] for the terminator ["--"]. *)
Definition flagText (s : list Z) : option (option (list Z)) :=
  match s with
  | 45 :: 45 :: [] => Some None
  | 45 :: 45 :: r => Some (Some r)
  | 45 :: x :: r => Some (Some (x :: r))
  | _ => None
  end.

(** Name and value: the first equals sign that is not at the front. *)
Definition flagValue (t : list Z) : string * option string :=
  match t with
  | [] => ("", None)
  | x :: r =>
      match cutAt 61 r with
      | Some (n, v) => (string_of_bytes (x :: n), Some (string_of_bytes v))
      | None => (string_of_bytes t, None)
      end
  end.

Definition setBool (set : bool -> Flags) (v : option string) : option Flags :=
  match v with
  | None => Some (set true)
  | Some v => set <$> ParseBool v
  end.

(** [fs.Parse] for the three flags both commands have. *)
Fixpoint parseFlags (f : Flags) (args : list string) : parsed :=
  match args with
  | [] => Parsed f
  | a :: rest =>
      match flagText (bytes_of_string a) with
      | None | Some None => Parsed f
      | Some (Some t) =>
          if match t with [] => true | c :: _ => (c =? 45) || (c =? 61) end then BadFlag else
          let '(name, value) := flagValue t in
          if String.eqb name "config" then
            match value, rest with
            | Some v, _ => parseFlags (mkFlags v (flVerbose f) (flVersion f)) rest
            | None, v :: rest => parseFlags (mkFlags v (flVerbose f) (flVersion f)) rest
            | None, [] => BadFlag
            end
          else if String.eqb name "verbose" then
            match setBool (fun b => mkFlags (flConfig f) b (flVersion f)) value with
            | Some f => parseFlags f rest
            | None => BadFlag
            end
          else if String.eqb name "version" then
            match setBool (fun b => mkFlags (flConfig f) (flVerbose f) b) value with
            | Some f => parseFlags f rest
            | None => BadFlag
            end
          else if String.eqb name "help" || String.eqb name "h" then Help
          else BadFlag
      end
  end.

(** ** Keys from one command to the other *)

Definition printable (c : Z) : Prop := 33 <= c <= 126.

Lemma stripOne_printable ps s :
  Forall (fun p => match p with [] => False | c :: _ => ~ printable c end) ps ->
  Forall printable s -> stripOne ps s = None.
Proof.
  intros Hps Hs. induction Hps as [|p ps Hp _ IH]; cbn [stripOne]; [done|].
  rewrite bool_decide_false; [done|]. destruct p as [|c p]; [done|]. intros E.
  destruct s as [|x s]; [done|]. injection E as -> _. by apply Forall_cons_1 in Hs as [? _].
Qed.

Lemma stripAll_printable fuel ps s :
  Forall (fun p => match p with [] => False | c :: _ => ~ printable c end) ps ->
  Forall printable s -> stripAll fuel ps s = s.
Proof. intros Hps Hs. destruct fuel; cbn; [done|]. by rewrite stripOne_printable. Qed.

Lemma TrimSpace_printable s : Forall printable s -> TrimSpace s = s.
Proof.
  intros Hs. unfold TrimSpace.
  assert (Hsp : Forall (fun p => match p with [] => False | c :: _ => ~ printable c end) (spaces ++ (reverse <$> spaces))).
  { apply list.Forall_forall. intros p Hp. assert (Hall : forallb (fun p => match p with [] => false | c :: _ =>
      (c <? 33) || (126 <? c) end) (spaces ++ (reverse <$> spaces)) = true) by (vm_compute; reflexivity).
    rewrite forallb_forall in Hall. apply list_elem_of_In, Hall in Hp. destruct p; [done|]. unfold printable. lia. }
  apply Forall_app in Hsp as [H1 H2].
  rewrite (stripAll_printable _ spaces s H1 Hs).
  rewrite (stripAll_printable _ (reverse <$> spaces) (reverse s) H2 (proj2 (Forall_reverse _ _) Hs)).
  apply reverse_involutive.
Qed.

Lemma scanLine_line s rest :
  Forall printable s -> (length s < MaxScanTokenSize)%nat -> scanLine (s ++ 10 :: rest) = Some s.
Proof.
  unfold scanLine. generalize MaxScanTokenSize. intros m Hs Hl.
  assert (H10 : 10 ∉ s).
  { intros Hin. pose proof (proj1 (list.Forall_forall _ _) Hs _ Hin) as Hp. unfold printable in Hp. lia. }
  replace (take m (s ++ 10 :: rest)) with (s ++ 10 :: take (m - length s - 1) rest).
  2:{ rewrite take_app, (take_ge s) by lia. destruct (m - length s)%nat as [|n] eqn:En; [lia|].
      cbn [take]. by replace (S n - 1)%nat with n by lia. }
  rewrite cutAt_app by done. f_equal. unfold dropCR. destruct (Z.eqb_spec (last s 0) 13) as [E|]; [|done].
  destruct (decide (s = [])) as [->|Hne]; [done|].
  assert (Hin : 13 ∈ s). { rewrite <- E. rewrite (app_removelast_last 0 Hne) at 2. apply elem_of_app. right. set_solver. }
  pose proof (proj1 (list.Forall_forall _ _) Hs _ Hin) as Hp. unfold printable in Hp. lia.
Qed.

(** The length of a key's text. *)
Lemma b64_length b : forall n, (length b <= n)%nat -> (length (b64Encode b) <= 4 * length b)%nat.
Proof.
  intros n. revert b. induction n as [|n IH]; intros [|x [|y [|z r]]] Hl; cbn in Hl |- *; try lia.
  specialize (IH r ltac:(lia)). lia.
Qed.

Lemma KeyString_line k rest : is_bytes k -> length k = 32%nat -> exists line,
  scanLine (KeyString k ++ 10 :: rest) = Some line /\ TrimSpace line = KeyString k.
Proof.
  intros Hb Hl. exists (KeyString k).
  assert (Hp : Forall printable (KeyString k)).
  { apply (list.Forall_impl _ _ _ (b64_printable _ k (le_n _) Hb)). unfold printable. lia. }
  split; [|by apply TrimSpace_printable]. apply scanLine_line; [done|].
  pose proof (b64_length k _ (le_n _)) as Hlen. rewrite Hl in Hlen. unfold KeyString, MaxScanTokenSize. lia.
Qed.

(** C27: [genkey | pubkey] gives the public key of the generated key. With 32
    random bytes, [genkey] prints the text of a well-formed private key on
    one line; [pubkey], reading that line, prints the public key of exactly
    that private key, or fails only when the curve refuses it. *)
Theorem genkey_pubkey `{Curve} `{Entropy} rnd args :
  entropy 32 = Some rnd -> is_bytes rnd -> length rnd = 32%nat ->
  exists k, GeneratePrivateKey (Some rnd) = Ret k /\ length k = 32%nat /\
    KeySubcommand ("genkey" :: args) [] = Printed (KeyString k) /\
    forall rest, KeySubcommand ("pubkey" :: args) (KeyString k ++ 10 :: rest) = printKey (PublicKey k).
Proof.
  intros He Hb Hl. destruct (GeneratePrivateKey_ok rnd Hb Hl) as (x & mid & y & E & Hkb & Hkl & _).
  exists (x :: mid ++ [y]). split_and!; [done|done| |].
  - unfold KeySubcommand. by rewrite He, E.
  - intros rest. unfold KeySubcommand. destruct (KeyString_line _ rest Hkb Hkl) as (line & -> & ->).
    change (printKey (k ← ParseKey (KeyString (x :: mid ++ [y])); PublicKey k) = printKey (PublicKey (x :: mid ++ [y]))).
    by rewrite ParseKey_String.
Qed.

(** ** main.go *)

Section Main.
Context `{Rounding} `{Blake2s} `{ReedSolomon} `{MapOrder} `{World} `{!WorldLaws _}.
Context `{Loader} `{Curve} `{Entropy} `{WireGuard} `{Netlink}.

(** The goroutines of a server engine, which [Listen] starts. *)
Inductive server_loop := serverRxLoop | serverControlLoop | sessionReaper | serverFecFlushLoop.

(** What a starting daemon does that can be seen from outside. *)
Inductive cmd_event :=
  | Line (text : list Z)
  | Dev (e : wg_event)
  | Eng (e : ev)
  | Net (c : nl_call)
  | Running (loops : list loop)
  | Listening (addr : string) (loops : list server_loop)
  | DevUp
  | Serving (listen token : string).

(** A daemon exits with a status, serves with the engine in some state, is
    still waiting for a path, or panics. *)
Inductive ending := Exit (status : Z) | Serve (s : Engine) | Waiting | Crash.

(** What else the machine decides: the name of the TUN device if it has one,
    whether [ResolveUDPAddr] and [ListenUDP] succeed on an address, whether the device comes
    up, and the clock when the engine is made. *)
Record Host := mkHost {
  tunName : option string; resolveOK : string -> bool; listenOK : string -> bool; upOK : bool; bootTime : Z;
}.

(** Subcommands and flags, in front of [start]. *)
Definition command (name config : string) (args : list string) (stdin : list Z)
    (start : string -> list cmd_event * ending) : list cmd_event * ending :=
  match KeySubcommand args stdin with
  | Printed line => ([Line line], Exit 0)
  | Failed => ([], Exit 1)
  | NotHandled =>
      match parseFlags (mkFlags config false false) args with
      | Help => ([], Exit 0)
      | BadFlag => ([], Exit 2)
      | Parsed f =>
          if flVersion f then ([Line (bytes_of_string (name +:+ " dev")%string)], Exit 0)
          else start (flConfig f)
      end
  end.

(** Events first, then the rest. *)
Definition after (es : list cmd_event) (r : list cmd_event * ending) : list cmd_event * ending := (es ++ r.1, r.2).

(** The network interface, the device and the dashboard: the last steps of
    both commands, with what the server does in between. *)
Definition dashboardStarted (d : Configuration.Dashboard) : list cmd_event :=
  if isEmpty (dbListen d) then [] else [Serving (dbListen d) (dbToken d)].

(** [wg.Up] and [wg.Close] are the device's own. *)
Definition wgUp (h : Host) : bool := upOK h.
Definition wgClose : list wg_event := [DevClosed].

Definition bringUp (h : Host) (d : Configuration.Dashboard) (s : Engine) : list cmd_event * ending :=
  if wgUp h then (DevUp :: dashboardStarted d, Serve s) else ([], Exit 1).

Definition setupTun (h : Host) (t : Tunnel) (next : list cmd_event * ending) : list cmd_event * ending :=
  let name := default (tInterface t) (tunName h) in
  match SetupNetdev name (tAddress t) (tRoutes t) with
  | (calls, None) => after (Net <$> calls) next
  | (calls, Some _) => (Net <$> calls, Exit 1)
  end.

(** [NewWG], and what follows when it succeeds. *)
Definition withDevice (t : Tunnel) (isClient : bool) (next : list cmd_event * ending) : list cmd_event * ending :=
  match NewWG t isClient with
  | (es, Ret _) => after (Dev <$> es) next
  | (es, Err _) => (Dev <$> es, Exit 1)
  | (es, Panic) => (Dev <$> es, Crash)
  end.




Inductive listen_error := BadListenAddress | ListenFailed.

(** [e.Listen]: the socket, then the loops. *)
Definition Listen (h : Host) (cfg : Config) (addr : string) : outcome listen_error (list server_loop) :=
  if negb (resolveOK h addr) then Err BadListenAddress
  else if negb (listenOK h addr) then Err ListenFailed
  else Ret ([serverRxLoop; serverControlLoop; sessionReaper] ++ (if cfgFECDisabled cfg then [] else [serverFecFlushLoop])).

Definition startServer (h : Host) (path : string) : list cmd_event * ending :=
  match LoadServer path with
  | Ret c =>
      match serverConfig c with
      | Ret cfg =>
          withDevice (sTunnel c) false
            (setupTun h (sTunnel c)
               match Listen h cfg (sListen c) with
               | Ret loops => after [Listening (sListen c) loops] (bringUp h (sDashboard c) (NewEngine cfg (bootTime h)))
               | Err _ => ([], Exit 1)
               | Panic => ([], Crash)
               end)
      | Err _ => ([], Exit 1)
      | Panic => ([], Crash)
      end
  | Err _ => ([], Exit 1)
  | Panic => ([], Crash)
  end.

Definition serverMain (h : Host) (args : list string) (stdin : list Z) : list cmd_event * ending :=
  command "treccia-server" "/etc/treccia/server.yaml" args stdin (startServer h).

(** After the signal: the deferred calls, the engine's before the device's. *)
Definition stopDaemon (close : eng unit) (s : Engine) : list cmd_event * ending :=
  match close s with
  | Ret (_, es, _) => ((Eng <$> es) ++ (Dev <$> wgClose), Exit 0)
  | _ => ([], Crash)
  end.
Definition clientStop (cfg : Config) : Engine -> list cmd_event * ending := stopDaemon (closeClient cfg).
Definition serverStop : Engine -> list cmd_event * ending := stopDaemon closeServer.

(** ** Starting *)

(** [wg.Up] was not called and no dashboard was started. *)
Definition quiet (es : list cmd_event) : Prop := DevUp ∉ es /\ forall l t, Serving l t ∉ es.

(** The interface was asked to come up, which lets wireguard-go activate
    itself. *)
Definition raised (es : list cmd_event) : Prop := exists link, Net (LinkSetUp link) ∈ es.

(** [ends P Q r]: [r] serves as [Q] says; or it exits with a proper status,
    not having called [wg.Up] nor started the dashboard, and the interface
    was raised only if [P] holds; or it is still waiting, and nothing is
    activated; it does not crash. *)
Definition ends (P : list cmd_event -> Prop) (Q : list cmd_event -> Engine -> Prop)
    (r : list cmd_event * ending) : Prop :=
  match r.2 with
  | Serve s => Q r.1 s
  | Exit st => st ∈ [0; 1; 2] /\ quiet r.1 /\ (raised r.1 -> P r.1)
  | Waiting => quiet r.1 /\ ~ raised r.1
  | Crash => False
  end.

(** Events of the device and of the engine activate nothing. *)
Definition passive (es : list cmd_event) : Prop := quiet es /\ ~ raised es.

Lemma quiet_app e1 e2 : quiet (e1 ++ e2) <-> quiet e1 /\ quiet e2.
Proof. unfold quiet. set_solver. Qed.
Lemma raised_app e1 e2 : raised (e1 ++ e2) <-> raised e1 \/ raised e2.
Proof. unfold raised. set_solver. Qed.
Lemma passive_app e1 e2 : passive e1 -> passive e2 -> passive (e1 ++ e2).
Proof. unfold passive. rewrite quiet_app, raised_app. tauto. Qed.
Lemma passive_nil : passive [].
Proof. unfold passive, quiet, raised. set_solver. Qed.
Lemma passive_cons e : (forall l t, e <> Serving l t) -> e <> DevUp -> (forall l, e <> Net (LinkSetUp l)) -> passive [e].
Proof. unfold passive, quiet, raised. set_solver. Qed.
Lemma passive_fmap {A} (f : A -> cmd_event) es : (forall x, passive [f x]) -> passive (f <$> es).
Proof.
  intros Hf. induction es as [|x es IH]; [apply passive_nil|]. exact (passive_app [f x] _ (Hf x) IH).
Qed.
Lemma passive_dev es : passive (Dev <$> es).
Proof. apply passive_fmap. intros x. by apply passive_cons. Qed.
Lemma quiet_net es : quiet (Net <$> es).
Proof. split; [|intros l t]; intros (? & ? & ?)%list_elem_of_fmap; done. Qed.

Lemma ends_exit P Q es st : st ∈ [0; 1; 2] -> passive es -> ends P Q (es, Exit st).
Proof. intros Hst [Hq Hr]. by split_and!. Qed.

Lemma ends_after P Q es r :
  passive es -> ends (fun es' => P (es ++ es')) (fun es' => Q (es ++ es')) r -> ends P Q (after es r).
Proof.
  intros [He Hn]. destruct r as [es' [st|s| |]]; unfold ends, after; cbn [fst snd]; [|done| |done].
  - intros (Hst & Hq & HP). split_and!; [done|by apply quiet_app|]. intros [?|?]%raised_app; [done|by apply HP].
  - intros [Hq Hr]. split; [by apply quiet_app|]. by intros [?|?]%raised_app.
Qed.

(** From here on the interface may be raised. *)
Lemma ends_bringUp (P : list cmd_event -> Prop) (Q : list cmd_event -> Engine -> Prop) h d s :
  Q (DevUp :: dashboardStarted d) s -> ends P Q (bringUp h d s).
Proof. intros HQ. unfold bringUp. destruct (wgUp h); [done|]. apply ends_exit; [set_solver|apply passive_nil]. Qed.

(** The steps from the interface on end in serving or in an exit. *)
Definition final (r : list cmd_event * ending) : Prop := match r.2 with Waiting => False | _ => True end.

Lemma final_bringUp h d s : final (bringUp h d s).
Proof. unfold bringUp. by destruct (wgUp h). Qed.

Lemma ends_setupTun (P : list cmd_event -> Prop) (Q : list cmd_event -> Engine -> Prop) h t r :
  (forall calls res rest, SetupNetdev (default (tInterface t) (tunName h)) (tAddress t) (tRoutes t) = (calls, res) ->
     P ((Net <$> calls) ++ rest)) ->
  final r ->
  (forall calls, SetupNetdev (default (tInterface t) (tunName h)) (tAddress t) (tRoutes t) = (calls, None) ->
     ends (fun _ => True) (fun es => Q ((Net <$> calls) ++ es)) r) ->
  ends P Q (setupTun h t r).
Proof.
  intros HP Hf Hr. unfold setupTun. destruct (SetupNetdev _ _ _) as [calls [e|]].
  - split_and!; [set_solver|apply quiet_net|]. intros _. cbn [fst]. rewrite <- (app_nil_r (Net <$> calls)). by eapply HP.
  - specialize (Hr calls eq_refl). destruct r as [es' [st|s| |]]; unfold ends, after in *; cbn [fst snd] in *; try done.
    destruct Hr as (Hst & Hq & _). split_and!; [done|apply quiet_app; split; [apply quiet_net|done]|].
    intros _. by eapply HP.
Qed.

(** What [NewWG] does when it succeeds. *)
Definition device (t : Tunnel) (isClient : bool) (es : list wg_event) : Prop :=
  exists priv peer, ParseKey (bytes_of_string (tPrivateKey t)) = Ret priv /\
    ParseKey (bytes_of_string (tPeerPublicKey t)) = Ret peer /\
    es = [TunCreated (tInterface t) (tMTU t); Configured (uapi priv peer isClient)].

Lemma ParseKey_total s : ParseKey s <> Panic.
Proof. unfold ParseKey. destruct (b64Decode s); [case_decide|]; done. Qed.

Lemma ends_withDevice (P : list cmd_event -> Prop) (Q : list cmd_event -> Engine -> Prop) t b r :
  (forall es, device t b es ->
     ends (fun es' => P ((Dev <$> es) ++ es')) (fun es' => Q ((Dev <$> es) ++ es')) r) ->
  ends P Q (withDevice t b r).
Proof.
  intros Hr. unfold withDevice. pose proof (ParseKey_total (bytes_of_string (tPrivateKey t))) as H1k.
  pose proof (ParseKey_total (bytes_of_string (tPeerPublicKey t))) as H2k. unfold NewWG, device in *.
  destruct (ParseKey (bytes_of_string (tPrivateKey t))) as [priv|e|];
    [|apply ends_exit; [set_solver|apply passive_dev]|done].
  destruct (ParseKey (bytes_of_string (tPeerPublicKey t))) as [peer|e|];
    [|apply ends_exit; [set_solver|apply passive_dev]|done].
  destruct (CreateTUN _ _); cbn [negb]; [|apply ends_exit; [set_solver|apply passive_dev]].
  destruct (IpcSet _); [|apply ends_exit; [set_solver|apply passive_dev]].
  apply ends_after; [apply passive_dev|]. apply Hr. eauto.
Qed.

Lemma ends_command P Q name config args stdin start :
  (forall path, ends P Q (start path)) -> ends P Q (command name config args stdin start).
Proof.
  intros Hs. unfold command.
  destruct (KeySubcommand args stdin) as [|line|];
    [|apply ends_exit; [set_solver|by apply passive_cons]|apply ends_exit; [set_solver|apply passive_nil]].
  destruct (parseFlags _ _) as [f| |]; [|apply ends_exit; [set_solver|apply passive_nil]..].
  destruct (flVersion f); [apply ends_exit; [set_solver|by apply passive_cons]|apply Hs].
Qed.





(** A client that is told to stop, at any point of a run, stops: the engine
    closes, then the device, and the status is 0. *)
Theorem client_stops cfg es s :
  cfg_ok cfg -> client_run cfg es s ->
  exists s' es', client_run cfg (es ++ es') s' /\ clientStop cfg s = ((Eng <$> es') ++ [Dev DevClosed], Exit 0).
Proof.
  intros Hc Hr. destruct (clientRuns_run cfg [CClose] es s Hc Hr) as (s' & es' & E & Hr'); [by split_and!|].
  exists s', es'. split; [done|]. unfold clientStop, stopDaemon. cbn [clientRuns client_exec] in E.
  apply bind_inv in E as (s1 & e1 & [] & e2 & E1 & [= -> <-] & ->). rewrite E1. by rewrite app_nil_r.
Qed.

(** A server that serves: the interface is set up before the socket is
    opened, and the device comes up last. *)
Definition server_served (h : Host) (es : list cmd_event) (s : Engine) : Prop :=
  exists path c cfg devs calls loops,
    LoadServer path = Ret c /\ server_ok c /\ serverConfig c = Ret cfg /\ cfg_ok cfg /\
    s = NewEngine cfg (bootTime h) /\ device (sTunnel c) false devs /\
    SetupNetdev (default (tInterface (sTunnel c)) (tunName h)) (tAddress (sTunnel c)) (tRoutes (sTunnel c)) = (calls, None) /\
    Listen h cfg (sListen c) = Ret loops /\
    es = (Dev <$> devs) ++ (Net <$> calls) ++ Listening (sListen c) loops :: DevUp :: dashboardStarted (sDashboard c).

(** How a server starts, in the same way; it does not wait for anything before
    it raises the interface. *)
Theorem server_starts h args stdin : ends (fun _ => True) (server_served h) (serverMain h args stdin).
Proof.
  apply ends_command. intros path. unfold startServer. pose proof (LoadServer_exact path) as Hok.
  destruct (LoadServer path) as [c| |] eqn:El; [|apply ends_exit; [set_solver|apply passive_nil]|done].
  destruct Hok as (c0 & _ & _ & Hc).
  destruct (engineConfig_ok ModeServer (sControlPSK c) 0 0 (sClassify c) (sFEC c) (sv_fec _ Hc)) as (cfg & Ec & Hcfg & _).
  assert (Es : serverConfig c = Ret cfg) by exact Ec. rewrite Es.
  apply ends_withDevice. intros devs Hdev. apply ends_setupTun; [done| |].
  { unfold Listen. destruct (negb _); [done|]. destruct (negb _); [done|]. exact (final_bringUp h _ _). }
  intros calls Hcalls.
  destruct (Listen h cfg (sListen c)) as [loops|e|] eqn:Els; [|apply ends_exit; [set_solver|apply passive_nil]|].
  2:{ exfalso. revert Els. unfold Listen. by repeat destruct (negb _). }
  apply ends_after; [by apply passive_cons|]. apply ends_bringUp.
  by exists path, c, cfg, devs, calls, loops.
Qed.

End Main.
