(* ===== verification/Dashboard.v ===== *)
(** * The dashboard: internal/dashboard/dashboard.go

    The three routes of the embedded HTTP server, the token in front of
    them, and the event stream. What net/http, net/url and crypto/subtle do
    with a request is written out; the JSON encoder and the metrics snapshot
    are parameters. *)

From stdpp Require Import strings.
From S2P Require Import Prelude Control Text.
#[local] Open Scope Z_scope.

(** ** crypto/subtle *)

(** [ConstantTimeCompare] folds the differences of the two texts into one
    byte; texts of different lengths differ. *)
Definition ctDiff (x y : list Z) : Z := foldl (fun v p => Z.lor v (Z.lxor p.1 p.2)) 0 (zip x y).

Definition ConstantTimeCompare (x y : list Z) : bool :=
  bool_decide (length x = length y) && (ctDiff x y =? 0).

(** ** net/url *)

(** [%XX] and [+] of a query component. *)
Fixpoint QueryUnescape (s : list Z) : option (list Z) :=
  match s with
  | [] => Some []
  | 37 :: h :: l :: r => a ← hexVal h; b ← hexVal l; rest ← QueryUnescape r; Some (a * 16 + b :: rest)
  | 37 :: _ => None
  | 43 :: r => rest ← QueryUnescape r; Some (32 :: rest)
  | c :: r => rest ← QueryUnescape r; Some (c :: rest)
  end.

(** [strings.Cut]. *)
Definition cut (c : Z) (s : list Z) : list Z * list Z := default (s, []) (cutAt c s).

(** The text between the occurrences of [c]. *)
Fixpoint splitOn (c : Z) (s : list Z) : list (list Z) :=
  match s with
  | [] => [[]]
  | x :: r =>
      if x =? c then [] :: splitOn c r
      else match splitOn c r with [] => [[x]] | w :: ws => (x :: w) :: ws end
  end.

(** One setting of a query; [None] when [ParseQuery] skips it. *)
Definition querySetting (w : list Z) : option (list Z * list Z) :=
  if existsb (Z.eqb 59) w then None else
  if bool_decide (w = []) then None else
  let '(k, v) := cut 61 w in
  k ← QueryUnescape k; v ← QueryUnescape v; Some (k, v).

Definition ParseQuery (q : list Z) : list (list Z * list Z) := omap querySetting (splitOn 38 q).

(** [Values.Get]: the first value of the key, or the empty text. *)
Definition Get (k : list Z) (vs : list (list Z * list Z)) : list Z :=
  default [] (snd <$> head (filter (fun p => p.1 = k) vs)).

(** ** The request and the response *)

Record Request := mkRequest {
  rMethod : string;
  rEscapedPath : list Z;   (** [r.URL.EscapedPath()] *)
  rPath : list Z;          (** [r.URL.Path] *)
  rRawQuery : list Z;
  rAuthorization : list Z; (** the header, empty when absent *)
  rFlusher : bool;         (** the writer can flush *)
}.

(** What the handler of an event stream waits for. A write can fail once the
    peer is gone. *)
Inductive stream_event := RequestDone | ServerDone | Tick (write_ok : bool).

(** What a handler has done to the response: header fields, and the bytes
    written, a [Flush] between the chunks. *)
Record Response := mkResponse {
  rsStatus : Z;
  rsHeader : list (string * string);
  rsChunks : list (list Z);
}.

(** [http.Error]. *)
Definition httpError (msg : string) (status : Z) : Response :=
  mkResponse status [("Content-Type", "text/plain; charset=utf-8"); ("X-Content-Type-Options", "nosniff")]
    [bytes_of_string msg ++ [10]].

(** ** net/http: the router *)

(** [path.Clean] on the elements of a rooted path. *)
Fixpoint cleanElems (acc : list (list Z)) (es : list (list Z)) : list (list Z) :=
  match es with
  | [] => rev acc
  | e :: es =>
      if bool_decide (e = []) || bool_decide (e = [46]) then cleanElems acc es
      else if bool_decide (e = [46; 46]) then cleanElems (tail acc) es
      else cleanElems (e :: acc) es
  end.

Definition joinElems (es : list (list Z)) : list Z := es ≫= fun e => 47 :: e.

(** [cleanPath]: rooted, without dots, the final slash kept. *)
Definition cleanPath (p : list Z) : list Z :=
  let es := cleanElems [] (splitOn 47 p) in
  if bool_decide (es = []) then [47]
  else if last p 0 =? 47 then joinElems es ++ [47]
  else joinElems es.

(** [pathUnescape] of a segment: itself when it does not decode. *)
Fixpoint PathUnescape (s : list Z) : option (list Z) :=
  match s with
  | [] => Some []
  | 37 :: h :: l :: r => a ← hexVal h; b ← hexVal l; rest ← PathUnescape r; Some (a * 16 + b :: rest)
  | 37 :: _ => None
  | c :: r => rest ← PathUnescape r; Some (c :: rest)
  end.
Definition segments (p : list Z) : list (list Z) :=
  (fun s => default s (PathUnescape s)) <$> tail (splitOn 47 p).

Inductive route := RouteRoot | RouteMetrics | RouteEvents.

(** The most specific pattern: the two literal ones before ["/"]. *)
Definition matchPath (p : list Z) : route :=
  if bool_decide (segments p = [bytes_of_string "api"; bytes_of_string "metrics"]) then RouteMetrics
  else if bool_decide (segments p = [bytes_of_string "events"]) then RouteEvents
  else RouteRoot.

Inductive found := Found (r : route) | Redirect (path : list Z) | MethodNotAllowed.

(** Every pattern is for GET, which includes HEAD. A path that is not clean
    is redirected before the method is looked at, except for CONNECT. *)
Definition findHandler (r : Request) : found :=
  if bool_decide (rMethod r = "CONNECT") then MethodNotAllowed else
  let p := cleanPath (rEscapedPath r) in
  if bool_decide (p <> rEscapedPath r) then Redirect p else
  if bool_decide (rMethod r = "GET") || bool_decide (rMethod r = "HEAD") then Found (matchPath p)
  else MethodNotAllowed.

(** ** dashboard.go *)

Section Handlers.
(** The snapshot of the [k]-th call of [src], and what [json] makes of it. *)
Context {S : Type} (marshal : S -> option (list Z)) (page : list Z).

(** [enc.Encode]: the text and a newline, or an error. *)
Definition Encode (v : S) : option (list Z) := b ← marshal v; Some (b ++ [10]).

Definition bearer : list Z := bytes_of_string "Bearer ".

(** The token a request carries. *)
Definition presented (r : Request) : list Z :=
  let got := Get (bytes_of_string "token") (ParseQuery (rRawQuery r)) in
  if bool_decide (got = []) then
    let got := rAuthorization r in
    if bool_decide (7 < length got)%nat && bool_decide (take 7 got = bearer) then drop 7 got else got
  else got.

Definition auth (token : list Z) (h : Request -> Response) (r : Request) : Response :=
  if bool_decide (token = []) then h r
  else if negb (ConstantTimeCompare (presented r) token) then httpError "unauthorized" 401
  else h r.

Definition rootHandler (r : Request) : Response :=
  if bool_decide (rPath r <> [47]) then httpError "404 page not found" 404
  else mkResponse 200 [("Content-Type", "text/html; charset=utf-8")] [page].

Definition metricsHandler (src : nat -> S) (r : Request) : Response :=
  mkResponse 200 [("Content-Type", "application/json")] [default [] (Encode (src 0%nat))].

Definition dataPrefix : list Z := bytes_of_string "data: ".

(** The loop of the event stream, from the [k]-th snapshot on. *)
Fixpoint stream (src : nat -> S) (k : nat) (evs : list stream_event) : list (list Z) :=
  match evs with
  | [] | RequestDone :: _ | ServerDone :: _ => []
  | Tick ok :: evs =>
      match Encode (src k) with
      | Some b => if ok then (dataPrefix ++ b ++ [10]) :: stream src (Datatypes.S k) evs else []
      | None => [dataPrefix]
      end
  end.

Definition eventsHandler (src : nat -> S) (evs : list stream_event) (r : Request) : Response :=
  if negb (rFlusher r) then httpError "streaming unsupported" 500
  else mkResponse 200 [("Content-Type", "text/event-stream"); ("Cache-Control", "no-store")] (stream src 0 evs).

Definition handler (src : nat -> S) (evs : list stream_event) (rt : route) : Request -> Response :=
  match rt with
  | RouteRoot => rootHandler
  | RouteMetrics => metricsHandler src
  | RouteEvents => eventsHandler src evs
  end.

(** One request through the router that [Serve] sets up. The [Location] of a
    redirect and the [Allow] of a refusal are left out. *)
Definition serveHTTP (token : list Z) (src : nat -> S) (evs : list stream_event) (r : Request) : Response :=
  match findHandler r with
  | Found rt => auth token (handler src evs rt) r
  | Redirect _ => mkResponse 301 [] []
  | MethodNotAllowed => httpError "Method Not Allowed" 405
  end.

(** How [ListenAndServe] ends: [Shutdown], which follows the cancellation of
    the context, makes it return [ErrServerClosed]. *)
Inductive serve_error := ErrServerClosed | ErrListen.
Inductive dash_log := LogListening (listen : string) | LogError (e : serve_error).

(** What [Serve] logs by the time it returns. *)
Definition Serve (listen : string) (err : option serve_error) : list dash_log :=
  LogListening listen ::
  match err with
  | Some ErrServerClosed | None => []
  | Some e => [LogError e]
  end.

End Handlers.

(** ** The token *)

Lemma ctDiff_acc v ps :
  foldl (fun v (p : Z * Z) => Z.lor v (Z.lxor p.1 p.2)) v ps = 0 <-> v = 0 /\ Forall (fun p => p.1 = p.2) ps.
Proof.
  revert v. induction ps as [|[a b] ps IH]; intros v; cbn [foldl].
  { rewrite list.Forall_nil. tauto. }
  rewrite IH, Z.lor_eq_0_iff, Z.lxor_eq_0_iff, list.Forall_cons. cbn. tauto.
Qed.

Lemma zip_all_eq (x y : list Z) : length x = length y -> Forall (fun p => p.1 = p.2) (zip x y) -> x = y.
Proof.
  revert y. induction x as [|a x IH]; intros [|b y]; cbn; try done.
  intros Hl [Hh Ht]%list.Forall_cons. cbn in Hh. f_equal; [done|]. apply IH; [lia|done].
Qed.

(** The comparison decides equality. *)
Lemma ConstantTimeCompare_eq x y : ConstantTimeCompare x y = true <-> x = y.
Proof.
  unfold ConstantTimeCompare, ctDiff. rewrite andb_true_iff, bool_decide_eq_true, Z.eqb_eq, ctDiff_acc. split.
  - intros (Hl & _ & Hf). by apply zip_all_eq.
  - intros <-. split_and!; [done..|]. induction x; cbn; constructor; done.
Qed.

Lemma auth_eq token h r :
  auth token h r = if bool_decide (token = [] \/ presented r = token) then h r else httpError "unauthorized" 401.
Proof.
  unfold auth. case_bool_decide as Ht; [by rewrite bool_decide_true by (by left)|].
  destruct (ConstantTimeCompare _ _) eqn:E; cbn [negb].
  - apply ConstantTimeCompare_eq in E. by rewrite bool_decide_true by (by right).
  - rewrite bool_decide_false; [done|]. intros [?|Hp]; [done|]. apply ConstantTimeCompare_eq in Hp. congruence.
Qed.

(** C24: The token gates every route. With a token configured, a request that
    does not present it gets an answer that does not depend on the metrics,
    the page or the stream: a redirect to the clean path, a refusal of the
    method, or 401. A request that presents the token, or any request when no
    token is configured, gets what the route's handler makes of it. *)
Theorem dashboard_gated token r :
  (token <> [] -> presented r <> token ->
   exists resp, rsStatus resp ∈ [301; 401; 405] /\
     forall S marshal page src evs, serveHTTP (S := S) marshal page token src evs r = resp) /\
  (token = [] \/ presented r = token -> forall rt, findHandler r = Found rt ->
   forall S marshal page src evs,
     serveHTTP (S := S) marshal page token src evs r = handler marshal page src evs rt r).
Proof.
  unfold serveHTTP. split.
  - intros Ht Hp. destruct (findHandler r) as [rt|p|].
    + exists (httpError "unauthorized" 401). split; [set_solver|]. intros. rewrite auth_eq, bool_decide_false; tauto.
    + eexists. split; [|done]. set_solver.
    + eexists. split; [|done]. set_solver.
  - intros Hp rt -> *. by rewrite auth_eq, bool_decide_true.
Qed.

(** A link that carries the token, every byte of it escaped. *)
Definition pctEncode (t : list Z) : list Z :=
  t ≫= fun x => [37; (if x / 16 <? 10 then 48 else 55) + x / 16; (if x mod 16 <? 10 then 48 else 55) + x mod 16].

Lemma hexVal_digit x : 0 <= x < 16 -> hexVal ((if x <? 10 then 48 else 55) + x) = Some x.
Proof. intros Hx. unfold hexVal, digit. zcase; cbn; zcase; (f_equal; lia) || lia. Qed.

Lemma QueryUnescape_pct t : is_bytes t -> QueryUnescape (pctEncode t) = Some t.
Proof.
  induction t as [|x t IH]; [done|]. intros [Hx Ht]%is_bytes_cons. unfold pctEncode. cbn [mbind list_bind app QueryUnescape].
  assert (0 <= x / 16 < 16 /\ 0 <= x mod 16 < 16) as [Hd Hm] by mlia.
  rewrite (hexVal_digit _ Hd), (hexVal_digit _ Hm). cbn [mbind option_bind]. fold (pctEncode t). rewrite IH by done.
  cbn. do 2 f_equal. mlia.
Qed.

Lemma pctEncode_plain t c : is_bytes t -> c ∈ pctEncode t -> c = 37 \/ 48 <= c <= 57 \/ 65 <= c <= 70.
Proof.
  intros Ht (x & Hc & Hx)%list_elem_of_bind. pose proof (proj1 (list.Forall_forall _ _) Ht _ Hx) as Hxb.
  assert (0 <= x / 16 < 16 /\ 0 <= x mod 16 < 16) as [Hd Hm] by mlia.
  rewrite !elem_of_cons in Hc. destruct Hc as [->|[->|[->|[]%elem_of_nil]]]; [by left|right|right]; zcase; lia.
Qed.

Lemma splitOn_none c s : c ∉ s -> splitOn c s = [s].
Proof.
  induction s as [|x s IH]; [done|]. intros [Hx Hs]%not_elem_of_cons. cbn.
  rewrite (proj2 (Z.eqb_neq _ _)) by done. by rewrite IH.
Qed.

Lemma existsb_none c s : c ∉ s -> existsb (Z.eqb c) s = false.
Proof.
  intros Hs. apply not_true_iff_false. intros (x & Hx & <-%Z.eqb_eq)%existsb_exists. by apply Hs, list_elem_of_In.
Qed.

Lemma cut_app c k v : c ∉ k -> cut c (k ++ c :: v) = (k, v).
Proof.
  unfold cut. intros Hk. enough (cutAt c (k ++ c :: v) = Some (k, v)) as -> by done.
  induction k as [|x k IH]; cbn; [by rewrite Z.eqb_refl|]. apply not_elem_of_cons in Hk as [Hx Hk].
  rewrite (proj2 (Z.eqb_neq _ _)) by done. by rewrite IH.
Qed.

Definition tokenKey : list Z := bytes_of_string "token".

Lemma ParseQuery_link t :
  is_bytes t -> ParseQuery (tokenKey ++ 61 :: pctEncode t) = [(tokenKey, t)].
Proof.
  intros Hb. assert (Hp : forall c, c = 38 \/ c = 59 -> c ∉ tokenKey ++ 61 :: pctEncode t).
  { intros c Hc. change tokenKey with [116; 111; 107; 101; 110].
    rewrite elem_of_app, !elem_of_cons, elem_of_nil. intros [Hin|[Hin|Hin]]; [lia..|].
    apply pctEncode_plain in Hin; [lia|done]. }
  unfold ParseQuery. rewrite splitOn_none by (apply Hp; tauto). cbn [omap list_omap].
  unfold querySetting. rewrite existsb_none by (apply Hp; tauto). rewrite bool_decide_false by done.
  rewrite cut_app by (change tokenKey with [116; 111; 107; 101; 110]; rewrite !elem_of_cons, elem_of_nil; lia).
  by rewrite QueryUnescape_pct.
Qed.

(** The dashboard's own link, [?token=...], and the header of a tool that
    speaks HTTP both present the token. *)
Lemma presented_token token r :
  is_bytes token -> token <> [] ->
  rRawQuery r = tokenKey ++ 61 :: pctEncode token \/ rRawQuery r = [] /\ rAuthorization r = bearer ++ token ->
  presented r = token.
Proof.
  intros Hb Hne [Hq|[Hq Ha]]; unfold presented; rewrite Hq.
  - rewrite ParseQuery_link by done. change (Get _ _) with token. by rewrite bool_decide_false.
  - change (Get _ _) with (@nil Z). rewrite bool_decide_true by done. rewrite Ha, length_app. change (length bearer) with 7%nat.
    destruct token as [|x token]; [done|]. rewrite bool_decide_true by (cbn; lia). cbn [andb].
    change 7%nat with (length bearer). by rewrite take_app_length, drop_app_length, bool_decide_true.
Qed.

(** ** The event stream *)

(** A reader of server-sent events: the data of a [data:] line is kept until
    an empty line ends the event. *)
Definition stripData (l : list Z) : option (list Z) :=
  if bool_decide (take 6 l = dataPrefix) then Some (drop 6 l) else None.

Fixpoint sseEvents (cur : option (list Z)) (lines : list (list Z)) : list (list Z) :=
  match lines with
  | [] => []
  | [] :: ls => match cur with Some d => d :: sseEvents None ls | None => sseEvents None ls end
  | l :: ls =>
      match stripData l with
      | Some d => sseEvents (Some (match cur with Some c => c ++ 10 :: d | None => d end)) ls
      | None => sseEvents cur ls
      end
  end.

Definition readEvents (s : list Z) : list (list Z) := sseEvents None (splitOn 10 s).

(** The ticks before the first one that ends the stream. *)
Fixpoint liveTicks (evs : list stream_event) : nat :=
  match evs with Tick true :: evs => S (liveTicks evs) | _ => 0%nat end.

Lemma splitOn_app c s r : c ∉ s -> splitOn c (s ++ c :: r) = s :: splitOn c r.
Proof.
  induction s as [|x s IH]; cbn; [by rewrite Z.eqb_refl|]. intros [Hx Hs]%not_elem_of_cons.
  rewrite (proj2 (Z.eqb_neq _ _)) by done. by rewrite IH.
Qed.

Lemma readEvents_cons b s : 10 ∉ b -> readEvents ((dataPrefix ++ (b ++ [10]) ++ [10]) ++ s) = b :: readEvents s.
Proof.
  intros Hb. unfold readEvents.
  replace ((dataPrefix ++ (b ++ [10]) ++ [10]) ++ s) with ((dataPrefix ++ b) ++ 10 :: [] ++ 10 :: s)
    by (by rewrite <- !app_assoc).
  rewrite !splitOn_app.
  - unfold stripData. cbn [sseEvents app]. change dataPrefix with [100; 97; 116; 97; 58; 32].
    cbn [app sseEvents stripData take drop]. unfold stripData. by rewrite bool_decide_true.
  - set_solver.
  - change dataPrefix with [100; 97; 116; 97; 58; 32]. rewrite elem_of_app, !elem_of_cons, elem_of_nil. intuition lia.
Qed.

(** The event stream can be read back. For a JSON encoder that always
    succeeds and whose texts contain no newline, a reader of server-sent
    events finds in the bytes of the stream exactly the snapshots of the
    ticks before the stream ends, one event per tick, in order. *)
Theorem stream_read_back {S} (marshal : S -> option (list Z)) (text : S -> list Z) src evs :
  (forall v, marshal v = Some (text v) /\ 10 ∉ text v) ->
  readEvents (concat (stream marshal src 0 evs)) = (fun k => text (src k)) <$> seq 0 (liveTicks evs).
Proof.
  intros Hm. generalize 0%nat as k. induction evs as [|e evs IH]; intros k; cbn [stream liveTicks]; [done|].
  destruct e as [| |[]]; cbn [liveTicks seq fmap list_fmap].
  - done.
  - done.
  - unfold Encode. destruct (Hm (src k)) as [-> Hn]. cbn [mbind option_bind concat].
    rewrite readEvents_cons by done. by rewrite IH.
  - unfold Encode. by destruct (Hm (src k)) as [-> _].
Qed.

(** ** Requests *)

Definition getRequest (path query authz : string) : Request :=
  mkRequest "GET" (bytes_of_string path) (bytes_of_string path) (bytes_of_string query) (bytes_of_string authz) true.

Example routes :
  findHandler (getRequest "/" "" "") = Found RouteRoot /\
  findHandler (getRequest "/api/metrics" "" "") = Found RouteMetrics /\
  findHandler (getRequest "/%65vents" "" "") = Found RouteEvents /\
  findHandler (getRequest "/events/" "" "") = Found RouteRoot /\
  findHandler (getRequest "/a/../events" "" "") = Redirect (bytes_of_string "/events") /\
  findHandler (getRequest "//api/./metrics/" "" "") = Redirect (bytes_of_string "/api/metrics/") /\
  findHandler (mkRequest "POST" (bytes_of_string "/events") (bytes_of_string "/events") [] [] true) = MethodNotAllowed.
Proof. vm_compute. repeat split. Qed.

Definition secret : list Z := bytes_of_string "s3cret".

(** An encoder of numbers below ten. *)
Definition toy_marshal (n : Z) : option (list Z) := Some [48 + n mod 10].

Lemma dashboard_gated_witness :
  (exists resp, rsStatus resp ∈ [301; 401; 405] /\
     serveHTTP toy_marshal [] secret (fun _ => 5) [] (getRequest "/api/metrics" "token=guess" "") = resp) /\
  serveHTTP toy_marshal [] secret (fun _ => 5) [] (getRequest "/api/metrics" "" "Bearer s3cret") =
    mkResponse 200 [("Content-Type", "application/json")] [[53; 10]].
Proof.
  split.
  - destruct (proj1 (dashboard_gated secret (getRequest "/api/metrics" "token=guess" ""))) as (resp & Hs & Hr);
      [by vm_compute..|]. exists resp. split; [exact Hs|apply Hr].
  - refine (proj2 (dashboard_gated secret (getRequest "/api/metrics" "" "Bearer s3cret")) _ RouteMetrics _ Z toy_marshal [] (fun _ => 5) []).
    + right. vm_compute; reflexivity.
    + vm_compute; reflexivity.
Defined.

Lemma stream_read_back_witness :
  readEvents (concat (stream toy_marshal Z.of_nat 0 [Tick true; Tick true; Tick false; Tick true])) = [[48]; [49]].
Proof.
  apply (stream_read_back toy_marshal (fun n => [48 + n mod 10]) Z.of_nat).
  intros v. split; [reflexivity|]. rewrite elem_of_cons, elem_of_nil. mlia.
Defined.
