(* ===== verification/Metrics.v ===== *)
(** * The dashboard snapshot: internal/engine/metrics.go

    What a daemon reports of itself. The theorem: taking a snapshot changes
    nothing, never fails, and shows, field by field, every path of a client,
    and every session of a server with its recently active paths. *)

From stdpp Require Import strings.
From S2P Require Import Prelude Wire Control Float64 Sched Link PathSelect Fec Classify Reorder.
From S2P Require Import Wgbridge Engine EngineLogic Client ClientSafe Server ServerSafe ServerSpec.
From S2P Require Import Text Configuration.
#[local] Open Scope Z_scope.

Record PathMetrics := mkPathMetrics {
  pmID : Z;
  pmName : string;
  pmUp : bool;
  pmRegistered : bool;
  pmSRTTMs : Q;
  pmRTTVarMs : Q;
  pmLossPct : Q;
  pmCapacityMbps : Q;
  pmWeightMbps : Q;
  pmDelayFactor : Q;
  pmQueueMs : Q;
  pmOwdAvgMs : Q;
  pmOwdJitterMs : Q;
  pmTxPackets : Z;
  pmRxPackets : Z;
  pmRxBytes : Z;
}.

Record FECMetrics := mkFECMetrics {
  fmParams : list Z;
  fmGroups : Z;
  fmParity : Z;
  fmRecovered : Z;
}.

Record SessionMetrics := mkSessionMetrics {
  smID : Z;
  smPaths : list PathMetrics;
  smReorder : Reorder.Stats;
  smFEC : option FECMetrics;
}.

Record Metrics := mkMetrics {
  mMode : string;
  mNowMs : Z;
  mSession : Z;
  mTxPackets : Z;
  mTxBytes : Z;
  mRxPackets : Z;
  mRxBytes : Z;
  mDropNoPath : Z;
  mDropUnknown : Z;
  mDropQueue : Z;
  mDropMalformed : Z;
  mCorrHits : Z;
  mCorrMiss : Z;
  mPaths : list PathMetrics;
  mReorder : option Reorder.Stats;
  mFEC : option FECMetrics;
  mSessions : list SessionMetrics;
}.

Definition fecMetrics (enc : option Encoder) (dec : option Decoder) : option FECMetrics :=
  match enc with
  | None => None
  | Some enc =>
      let '(groups, parity, params) := EncoderStats enc in
      Some (mkFECMetrics (ParamsString params) groups parity
              (match dec with Some d => RecoveredCount d | None => 0 end))
  end.

Section Metrics.
Context `{Rounding} `{Blake2s} `{ReedSolomon} `{MapOrder} `{World} `{!WorldLaws _}.

(** [float64(d.Microseconds()) / 1000] *)
Definition millis (d : Z) : Q := fdiv (ofint (Z.quot d Microsecond)) 1000.

(** The fields the callers set afterwards are arguments: id, name,
    registration and packets sent. *)
Definition pathMetrics (id : Z) (name : string) (registered : bool) (tx : Z)
    (s : Link.Snapshot) (rx : RxStats) (now : Z) : PathMetrics :=
  let '(avg, jitter) :=
    match OwdView now (3 * Second) rx with
    | Some (ew, j) => (fdiv ew 1000, fdiv j 1000)
    | None => (0%Q, 0%Q)
    end in
  let '(pkts, bytes) := Peek rx in
  mkPathMetrics id name (sUp s) registered (millis (sSRTT s)) (millis (sRTTVar s))
    (fmul (sLossEWMA s) 100) (fdiv (sCapacityBps s) 1000000) (fdiv (sWeightBps s) 1000000)
    (sDelayFactor s) (sQueueMs s) avg jitter tx pkts bytes.

Definition clientPath (t : Z) (p : Path) : PathMetrics :=
  pathMetrics (pID p) (pName p) (registered p) (pathSeq p) (LinkSnapshot (pLink p)) (pRx p) t.

(** A server path has no name. *)
Definition serverPath (t : Z) (x : Session) (p : pathState) : PathMetrics :=
  pathMetrics (psId p) "" true (default 0 (sPathSeq x !! psId p)) (LinkSnapshot (psLink p)) (psRx p) t.

Definition sessionMetrics (t : Z) (id : Z) : eng SessionMetrics :=
  x ← sessAt id;
  pids ← alivePaths id t;
  ps ← mapEach (psAt id) pids;
  mret (mkSessionMetrics (sID x) (serverPath t x <$> ps) (Reorder.Snapshot (sReorder x))
          (fecMetrics (sEnc x) (sDec x))).

Definition engineMetrics (cfg : Config) : eng Metrics :=
  t ← now;
  c ← gets Stats;
  corr ← gets correlator;
  let base mode session := mkMetrics mode (t / Millisecond) session (TxPackets c) (TxBytes c) (RxPackets c)
      (RxBytes c) (TxDropNoPath c) (RxDropUnknown c) (RxDropQueue c) (RxDropMalformed c)
      (CorrStats corr).1.1 (CorrStats corr).1.2 in
  match cfgMode cfg with
  | ModeClient =>
      ix ← allPaths;
      ps ← mapEach pathAt ix;
      b ← gets reorderBuf;
      enc ← gets fecEnc;
      dec ← gets fecDec;
      mret (base "client" (cfgSession cfg) (clientPath t <$> ps) (Some (Reorder.Snapshot b))
              (fecMetrics enc dec) [])
  | ModeServer =>
      ids ← allSessions;
      ss ← mapEach (sessionMetrics t) ids;
      mret (base "server" 0 [] None None ss)
  end.

(** ** Reading *)

(** [reads s m Φ]: [m] returns, changes nothing but the count of questions
    asked, and its value satisfies [Φ]. *)
Definition reads {A} (s : Engine) (m : eng A) (Φ : A -> Prop) : Prop :=
  exists k a, m s = Ret (set_ticks k s, [], a) /\ Φ a.

Lemma reads_bind {A B} s (m : eng A) (f : A -> eng B) Φ Ψ :
  reads s m Φ -> (forall k a, Φ a -> reads (set_ticks k s) (f a) Ψ) -> reads s (m ≫= f) Ψ.
Proof.
  intros (k & a & Hm & Ha) Hf. destruct (Hf k a Ha) as (k' & b & Hb & HΨ).
  exists k', b. split; [|done]. unfold mbind, eng_bind. by rewrite Hm, Hb.
Qed.

Lemma set_ticks_id s : set_ticks (ticks s) s = s.
Proof. by destruct s. Qed.

Lemma reads_ret {A} s (a : A) (Φ : A -> Prop) : Φ a -> reads s (mret a) Φ.
Proof. intros Ha. exists (ticks s), a. by rewrite set_ticks_id. Qed.

Lemma reads_gets {A} s (f : Engine -> A) (Φ : A -> Prop) : Φ (f s) -> reads s (gets f) Φ.
Proof. intros Ha. exists (ticks s), (f s). by rewrite set_ticks_id. Qed.

Lemma reads_ask {A} s (f : nat -> A) (Φ : A -> Prop) : (forall k, Φ (f k)) -> reads s (ask f) Φ.
Proof. intros Ha. by exists (S (ticks s)), (f (ticks s)). Qed.

Lemma reads_mapEach {A B} (f : A -> eng B) (P : A -> B -> Prop) l : forall s,
  (forall k x, x ∈ l -> reads (set_ticks k s) (f x) (P x)) -> reads s (mapEach f l) (Forall2 P l).
Proof.
  induction l as [|x l IH]; intros s Hf; cbn [mapEach]; [apply reads_ret; constructor|].
  eapply reads_bind.
  { rewrite <- (set_ticks_id s). apply Hf. by left. }
  intros k y Hy. eapply reads_bind; [apply IH|].
  - intros k' z Hz. apply (Hf k'). by right.
  - intros k' ys Hys. apply reads_ret. by constructor.
Qed.

(** ** What a snapshot shows *)

(** The paths of a session heard from within [pathStaleAfter]. *)
Definition livePaths (t : Z) (x : Session) : list pathState :=
  filter (fun p => i64 (t - pathStaleAfter) <= psLastRx p) (map_to_list (sPaths x)).*2.

(** What a path's row says, measurement by measurement: the link's estimates
    in milliseconds, percent and megabits; the one-way delay and jitter while
    the last data is at most three seconds old; the packets and bytes
    received. *)
Record path_row (t : Z) (l : Link) (rx : RxStats) (pm : PathMetrics) : Prop := {
  row_up : pmUp pm = up l;
  row_srtt : pmSRTTMs pm = fdiv (ofint (Z.quot (srtt l) 1000)) 1000;
  row_rttvar : pmRTTVarMs pm = fdiv (ofint (Z.quot (rttvar l) 1000)) 1000;
  row_loss : pmLossPct pm = fmul (lossEWMA l) 100;
  row_capacity : pmCapacityMbps pm = fdiv (capacityBpsLocked l) 1000000;
  row_weight : pmWeightMbps pm =
    fdiv (fmul (fmul (capacityBpsLocked l) (lossFactor l)) (delayFactor l)) 1000000;
  row_delay : pmDelayFactor pm = delayFactor l;
  row_queue : pmQueueMs pm = fdiv (queueUS l) 1000;
  row_owd : haveOwd rx = true -> Sub t (lastData rx) <= 3 * Second ->
    pmOwdAvgMs pm = fdiv (owdEwma rx) 1000 /\ pmOwdJitterMs pm = fdiv (owdVar rx) 1000;
  row_no_owd : haveOwd rx = false \/ 3 * Second < Sub t (lastData rx) ->
    pmOwdAvgMs pm = 0%Q /\ pmOwdJitterMs pm = 0%Q;
  row_pkts : pmRxPackets pm = rx_pkts rx;
  row_bytes : pmRxBytes pm = rx_bytes rx;
}.

Definition client_row (t : Z) (p : Path) (pm : PathMetrics) : Prop :=
  pmID pm = pID p /\ pmName pm = pName p /\ pmRegistered pm = registered p /\ pmTxPackets pm = pathSeq p /\
  path_row t (pLink p) (pRx p) pm.

Definition server_row (t : Z) (x : Session) (p : pathState) (pm : PathMetrics) : Prop :=
  pmID pm = psId p /\ pmName pm = ""%string /\ pmRegistered pm = true /\
  pmTxPackets pm = default 0 (sPathSeq x !! psId p) /\ path_row t (psLink p) (psRx p) pm.

(** The counters of a resequencing buffer, with the packets waiting now. *)
Definition reorder_row (b : Buffer Packet) (st : Reorder.Stats) : Prop :=
  Delivered st = Delivered (stats b) /\ Duplicates st = Duplicates (stats b) /\ Late st = Late (stats b) /\
  Reorder.TimedOut st = Reorder.TimedOut (stats b) /\ Overflows st = Overflows (stats b) /\ Resets st = Resets (stats b) /\
  Depth st = occupied b.

Definition fec_row (enc : option Encoder) (dec : option Decoder) (o : option FECMetrics) : Prop :=
  match enc, o with
  | None, None => True
  | Some e, Some f =>
      fmParams f = ParamsString (e_params e) /\ fmGroups f = GroupsClosed e /\ fmParity f = ParityEmitted e /\
      fmRecovered f = match dec with Some d => dRecovered d | None => 0 end
  | _, _ => False
  end.

Definition shows_session (t : Z) (x : Session) (sm : SessionMetrics) : Prop :=
  smID sm = sID x /\ reorder_row (sReorder x) (smReorder sm) /\ fec_row (sEnc x) (sDec x) (smFEC sm) /\
  exists ps, ps ≡ₚ livePaths t x /\ Forall2 (server_row t x) ps (smPaths sm).

Record shows (cfg : Config) (s : Engine) (m : Metrics) : Prop := {
  sh_tx : mTxPackets m = TxPackets (Stats s) /\ mTxBytes m = TxBytes (Stats s);
  sh_rx : mRxPackets m = RxPackets (Stats s) /\ mRxBytes m = RxBytes (Stats s);
  sh_drops : mDropNoPath m = TxDropNoPath (Stats s) /\ mDropUnknown m = RxDropUnknown (Stats s) /\
    mDropQueue m = RxDropQueue (Stats s) /\ mDropMalformed m = RxDropMalformed (Stats s);
  sh_corr : mCorrHits m = hits (correlator s) /\ mCorrMiss m = miss (correlator s);
  sh_role : exists t, reading t /\ mNowMs m = t / Millisecond /\
    match cfgMode cfg with
    | ModeClient => mMode m = "client"%string /\ mSession m = cfgSession cfg /\ mSessions m = [] /\
        Forall2 (client_row t) (paths s) (mPaths m) /\
        (exists st, mReorder m = Some st /\ reorder_row (reorderBuf s) st) /\ fec_row (fecEnc s) (fecDec s) (mFEC m)
    | ModeServer => mMode m = "server"%string /\ mPaths m = [] /\ mReorder m = None /\ mFEC m = None /\
        exists ids, ids ≡ₚ (map_to_list (sessions s)).*1 /\
          Forall2 (fun id sm => exists x, sessions s !! id = Some x /\ shows_session t x sm) ids (mSessions m)
    end;
}.

Lemma pathMetrics_row id name r tx l rx t : path_row t l rx (pathMetrics id name r tx (LinkSnapshot l) rx t).
Proof.
  unfold pathMetrics, OwdView. destruct (haveOwd rx) eqn:Ho; cbn [negb orb].
  - destruct (Z.ltb_spec (3 * Second) (Sub t (lastData rx))); constructor; cbn; try done; try lia.
    by intros [?|?]; [congruence|lia].
  - constructor; cbn; try done. congruence.
Qed.

Lemma clientPath_row t p : client_row t p (clientPath t p).
Proof.
  split_and!; [..|apply pathMetrics_row]; unfold clientPath, pathMetrics; by destruct (OwdView _ _ _) as [[]|].
Qed.
Lemma serverPath_row t x p : server_row t x p (serverPath t x p).
Proof.
  split_and!; [..|apply pathMetrics_row]; unfold serverPath, pathMetrics; by destruct (OwdView _ _ _) as [[]|].
Qed.

Lemma Forall2_fmap_row {A B} (R : A -> B -> Prop) (f : A -> B) l : (forall x, R x (f x)) -> Forall2 R l (f <$> l).
Proof. intros Hf. induction l; cbn; [constructor|by constructor]. Qed.

Lemma fecMetrics_row enc dec : fec_row enc dec (fecMetrics enc dec).
Proof. unfold fec_row, fecMetrics. destruct enc; [|done]. cbn. by destruct dec. Qed.

Lemma reads_pathAt s i p : paths s !! i = Some p -> reads s (pathAt i) (fun q => q = p).
Proof.
  intros Hp. unfold pathAt. eapply reads_bind; [by apply (reads_gets _ _ (fun ps => ps = paths s))|].
  intros k ps ->. unfold at_. destruct (Z.ltb_spec (Z.of_nat i) 0); [lia|]. rewrite Nat2Z.id, Hp. by apply reads_ret.
Qed.

Lemma reads_sessAt s id x : sessions s !! id = Some x -> reads s (sessAt id) (fun y => y = x).
Proof.
  intros Hx. unfold sessAt, lookupSession. eapply reads_bind; [by apply (reads_gets _ _ (fun o => o = Some x))|].
  intros k o ->. by apply reads_ret.
Qed.

Lemma reads_psAt s id x pid p : sessions s !! id = Some x -> sPaths x !! pid = Some p ->
  reads s (psAt id pid) (fun y => y = p).
Proof.
  intros Hx Hp. unfold psAt. eapply reads_bind; [by apply reads_sessAt|]. intros k y ->. rewrite Hp. by apply reads_ret.
Qed.

(** The traversal meets each live path once. *)
Lemma reads_alive s id x t : sessions s !! id = Some x ->
  reads s (alivePaths id t) (fun pids => exists ps, Forall2 (fun pid p => sPaths x !! pid = Some p) pids ps /\ ps ≡ₚ livePaths t x).
Proof.
  intros Hx. unfold alivePaths. eapply reads_bind; [by apply reads_sessAt|]. intros k y ->.
  eapply reads_bind; [apply (reads_ask _ _ (fun ks => ks ≡ₚ (map_to_list (sPaths x)).*1)); intros j; apply shuffle_perm|].
  intros j ks Hks. apply reads_ret.
  destruct (Permutation_map_inv fst (map_to_list (sPaths x)) Hks) as (l & -> & Hl).
  assert (Hin : Forall (fun kp => sPaths x !! kp.1 = Some kp.2) l).
  { apply list.Forall_forall. intros [a b] Hab. rewrite <- Hl in Hab. by apply elem_of_map_to_list. }
  exists (filter (fun p => i64 (t - pathStaleAfter) <= psLastRx p) l.*2). split.
  - clear Hks Hl. induction Hin as [|[a b] l Hab _ IH]; [constructor|].
    cbn [map fmap list_fmap fst snd] in *. unfold recent at 1. rewrite !filter_cons. unfold recent at 1. rewrite Hab.
    destruct (Z.leb_spec (i64 (t - pathStaleAfter)) (psLastRx b)).
    + rewrite !decide_True by done. by constructor.
    + rewrite !decide_False by (done || lia). done.
  - unfold livePaths. by rewrite <- Hl.
Qed.

Lemma reads_session s id x t : sessions s !! id = Some x ->
  reads s (sessionMetrics t id) (shows_session t x).
Proof.
  intros Hx. unfold sessionMetrics. eapply reads_bind; [by apply reads_sessAt|]. intros k y ->.
  eapply reads_bind; [by apply reads_alive|]. intros k1 pids (ps & Hps & Hl).
  eapply (reads_bind _ _ _ (fun qs => qs = ps)).
  - destruct (reads_mapEach (psAt id) (fun pid p => sPaths x !! pid = Some p) pids (set_ticks k1 (set_ticks k s)))
      as (k2 & qs & E & Hqs).
    { intros k2 pid [i Hi]%list_elem_of_lookup. destruct (Forall2_lookup_l _ _ _ _ _ Hps Hi) as (p & _ & Hp).
      destruct (reads_psAt (set_ticks k2 (set_ticks k1 (set_ticks k s))) id x pid p Hx Hp) as (k3 & q & E & ->).
      by exists k3, p. }
    exists k2, qs. split; [done|]. clear E Hl. revert qs Hqs. induction Hps as [|pid p pids ps Hp _ IH]; intros qs Hqs.
    + by inversion Hqs.
    + inversion Hqs as [|? q ? qs' Hq Hqs']; subst. f_equal; [congruence|by apply IH].
  - intros k2 qs ->. apply reads_ret. split_and!; [done|by split_and!|apply fecMetrics_row|].
    exists ps. split; [done|]. apply Forall2_fmap_row. intros p. apply serverPath_row.
Qed.

Lemma reads_metrics cfg s : reads s (engineMetrics cfg) (shows cfg s).
Proof.
  unfold engineMetrics. eapply reads_bind; [apply (reads_ask _ _ reading); intros k; by exists k|]. intros k0 t Ht.
  eapply reads_bind; [by apply (reads_gets _ _ (fun c => c = Stats s))|]. intros k1 c ->.
  eapply reads_bind; [by apply (reads_gets _ _ (fun c => c = correlator s))|]. intros k2 corr ->.
  destruct (cfgMode cfg) eqn:Em.
  - eapply reads_bind; [by apply (reads_gets _ _ (fun ix => ix = seq 0 (length (paths s))))|]. intros k3 ix ->.
    eapply (reads_bind _ _ _ (fun ps => ps = paths s)).
    { set (s0 := set_ticks k3 _).
      destruct (reads_mapEach pathAt (fun i p => paths s !! i = Some p) (seq 0 (length (paths s))) s0)
        as (k4 & ps & E & Hps).
      { intros k4 i [_ Hi]%elem_of_seq. destruct (lookup_lt_is_Some_2 (paths s) i Hi) as [p Hp].
        destruct (reads_pathAt (set_ticks k4 s0) i p Hp) as (k5 & q & E & ->). by exists k5, p. }
      exists k4, ps. split; [done|]. apply list_eq. intros i.
      destruct (decide (i < length (paths s))%nat) as [Hi|Hi].
      - destruct (Forall2_lookup_l _ _ _ i i Hps) as (p & -> & Hp); [by apply lookup_seq_lt|done].
      - apply Forall2_length in Hps. rewrite length_seq in Hps. rewrite !lookup_ge_None_2; [done|lia|lia]. }
    intros k4 ps ->. eapply reads_bind; [by apply (reads_gets _ _ (fun b => b = reorderBuf s))|]. intros k5 b ->.
    eapply reads_bind; [by apply (reads_gets _ _ (fun b => b = fecEnc s))|]. intros k6 e ->.
    eapply reads_bind; [by apply (reads_gets _ _ (fun b => b = fecDec s))|]. intros k7 d ->.
    apply reads_ret. constructor; try done. exists t. rewrite Em. split_and!; [done..| |by eexists|apply fecMetrics_row].
    apply Forall2_fmap_row. intros p. apply clientPath_row.
  - eapply (reads_bind _ _ _ (fun ids => ids ≡ₚ (map_to_list (sessions s)).*1)).
    { unfold allSessions. eapply reads_bind; [by apply (reads_gets _ _ (fun ks => ks = (map_to_list (sessions s)).*1))|].
      intros k3 ks ->. apply reads_ask. intros k4. apply shuffle_perm. }
    intros k3 ids Hids. eapply reads_bind.
    { apply (reads_mapEach _ (fun id sm => exists x, sessions s !! id = Some x /\ shows_session t x sm)).
      intros k4 id Hid. rewrite Hids in Hid. apply list_elem_of_fmap in Hid as ([id' x] & -> & Hx%elem_of_map_to_list).
      cbn [fst]. set (s0 := set_ticks k4 _). destruct (reads_session s0 id' x t Hx) as (k5 & sm & E & Hsm).
      exists k5, sm. eauto. }
    intros k4 ss Hss. apply reads_ret. constructor; try done. exists t. rewrite Em. split_and!; [done..|]. by exists ids.
Qed.

(** C39: A snapshot for the dashboard is faithful and harmless: in any state
    it returns without changing the engine or touching the world, and it shows
    the engine's own counters; on a client one row for every path, in order,
    and on a server one entry for every session with a row for exactly the
    paths heard from in the last 45 seconds (silent ones are left out). Each
    row holds, field by field, that path's own link estimates, delays and
    packet counts in the units of the dashboard, and each buffer and FEC entry
    its own counters. *)
Theorem metrics_faithful cfg s :
  exists k m, engineMetrics cfg s = Ret (set_ticks k s, [], m) /\ shows cfg s m.
Proof. apply reads_metrics. Qed.

End Metrics.
