(* ===== verification/EngineExamples.v ===== *)
(** * The engine at work

    A concrete world, runs of a client and of a server in it, and the engine
    theorems applied to those runs: their hypotheses can hold. *)

From stdpp Require Import strings.
From S2P Require Import Prelude Wire Control Float64 Sched Link PathSelect Fec FecSpec.
From S2P Require Import Classify Reorder ReorderInv ReorderTrace ReorderSpec Wgbridge Engine.
From S2P Require Import EngineLogic Client ClientSafe Lifecycle ClientSend Server ServerSafe ServerSpec.
From S2P Require Import ClientCarry ServerCarry ServerSource ClientSink EndToEnd.
From S2P Require Import Text Endpoint Configuration Keys Boot Netdev Commands Metrics.
#[local] Open Scope Z_scope.
#[local] Existing Instance exact.

(** ** A world *)

(** The clock jumps by ten minutes after sixty questions; sockets work,
    nothing is random, slabs are blank. *)
#[global] Instance toy_world : World := {|
  clock k := if decide (k < 60)%nat then 1000 * Second else 1600 * Second;
  random k := 0%Q;
  write_ok k := true;
  dial_ok k := true;
  garbage k := replicate SlabSize 0;
  shuffle k l := l;
|}.

#[global] Instance toy_world_laws : WorldLaws toy_world.
Proof.
  constructor; cbn [clock garbage shuffle toy_world].
  - intros k. case_decide; by vm_compute.
  - intros k. apply length_replicate.
  - intros k. apply Forall_replicate. by vm_compute.
  - done.
Qed.

Definition toy_config (mode : Mode) : Config := mkConfig mode toy_mac 7 42 None false (mkParams 2 1).

Lemma toy_config_ok mode : cfg_ok (toy_config mode).
Proof. by intros c Hc. Qed.

(** The state and the events an operation that returns leads to. *)
Definition ran (m : eng unit) (s : Engine) : bool := match m s with Ret _ => true | _ => false end.
Definition st (m : eng unit) (s : Engine) : Engine := match m s with Ret (s', _, _) => s' | _ => s end.
Definition evs (m : eng unit) (s : Engine) : list ev := match m s with Ret (_, es, _) => es | _ => [] end.

Lemma ran_eq m s : ran m s = true -> m s = Ret (st m s, evs m s, tt).
Proof. unfold ran, st, evs. by destruct (m s) as [[[s' es] []]| |]. Qed.

Lemma ran_bind {A} (m : eng A) s : ran (_ ← m; mret tt) s = true ->
  exists s1 a, m s = Ret (s1, evs (_ ← m; mret tt) s, a).
Proof.
  unfold ran, evs, mbind, eng_bind, mret, eng_ret. destruct (m s) as [[[s1 es] a]| |]; [|done..]. rewrite app_nil_r. eauto.
Qed.

(** An encoded control message, or nothing. *)
Definition bytes_of {E} (o : outcome E (list Z)) : list Z :=
  match o with Ret b => b | _ => [] end.

Definition toy_hello (pid : Z) (ack : bool) : list Z :=
  bytes_of (EncodeHello (mkHeader 0 0 pid 0) (mkHello 7 42 0 1000) toy_mac ack).
Definition toy_bye (pid : Z) : list Z :=
  bytes_of (EncodeBye (mkHeader 0 0 pid 0) (mkBye 7 1000) toy_mac).
Definition toy_data (pid sq : Z) : list Z :=
  data_bytes (mkDataHeader (mkHeader TypeData 0 pid 0) 7 sq 1 0 0 0) ++ [4; 0; 0; 0].

(** ** A client run *)

Abbreviation cc := (toy_config ModeClient).

Definition client_okb (o : client_op) (s : Engine) : bool :=
  match o with
  | CRx i r => bool_decide (i < np s)%nat && match r with Some d => is_bytesb d | None => true end
  | _ => true
  end.

Fixpoint client_play (ops : list client_op) (r : list ev * Engine) : option (list ev * Engine) :=
  match ops with
  | [] => Some r
  | o :: ops =>
      if client_okb o r.2 then
        match client_exec cc o r.2 with
        | Ret (s', es', _) => client_play ops (r.1 ++ es', s')
        | _ => None
        end
      else None
  end.

Lemma client_okb_ok o s : client_okb o s = true -> client_op_ok o s.
Proof.
  destruct o as [| |ch|pkt|bufs|name|i r| | | |k|l| |d]; try done. cbn.
  intros [Hi%bool_decide_eq_true Hr]%andb_prop. split; [done|]. intros d ->. by apply is_bytesb_spec.
Qed.

Lemma client_play_run ops : forall r r',
  client_run cc r.1 r.2 -> client_play ops r = Some r' -> client_run cc r'.1 r'.2.
Proof.
  induction ops as [|o ops IH]; intros [es s] r' Hr; cbn [client_play fst snd]; [by intros [= <-]|].
  destruct (client_okb o s) eqn:Ho; [|done].
  destruct (client_exec cc o s) as [[[s' es'] []]| |] eqn:E; [|done..]. apply IH.
  eapply client_step; [exact Hr|by apply client_okb_ok|exact E].
Qed.

(** The events and the state after [ops]. *)
Definition client_after (ops : list client_op) : list ev * Engine :=
  default ([], NewEngine cc 0) (client_play ops ([], NewEngine cc 0)).

Lemma client_after_run ops : client_run cc (client_after ops).1 (client_after ops).2.
Proof.
  unfold client_after. destruct (client_play ops _) as [r|] eqn:E; cbn; [|by constructor].
  eapply client_play_run; [|exact E]. constructor.
Qed.

(** Two uplinks; ciphertext is staged, then the server accepts the first. *)
Definition client_start : list client_op :=
  [COpen; CAddPath "wan0"; CAddPath "wan1"; CSend [[4; 0; 0; 0]; [4; 1; 1; 1]]].
Definition client_joined : list client_op :=
  client_start ++ [CRx 0 (Some (toy_hello 0 true)); CRx 1 (Some (toy_hello 1 true))].

Definition start_state : Engine := (client_after client_start).2.
Definition joined_state : Engine := (client_after client_joined).2.

Lemma start_run : client_run cc (client_after client_start).1 start_state.
Proof. apply client_after_run. Qed.
Lemma joined_run : client_run cc (client_after client_joined).1 joined_state.
Proof. apply client_after_run. Qed.

(** The first path before and after the server accepts it. *)
Definition accept : client_op := CRx 0 (Some (toy_hello 0 true)).
Definition accepted_state : Engine := st (client_exec cc accept) start_state.
Definition path0 (s : Engine) : Path :=
  default (mkPath 9 "" None false 0 false 0 0 0 NewLink NewRxStats) (paths s !! 0%nat).




Lemma registered_authentic_witness :
  exists dgram t hh m, accept = CRx 0 (Some dgram) /\ reading t /\
    take SlabSize dgram = AppendTag toy_mac (header_bytes hh ++ hello_body m) /\
    hType hh = TypeHelloAck /\ hPathID hh = pID (path0 start_state) /\
    heSession m = 7 /\ ClientID m = 42 /\ FreshTS (heUnixTS m) (unix t) = true.
Proof.
  refine (registered_authentic cc (client_after client_start).1 start_state accept accepted_state
    (evs (client_exec cc accept) start_state) 0 (path0 start_state) (path0 accepted_state)
    (toy_config_ok ModeClient) start_run (client_okb_ok _ _ _) (ran_eq _ _ _) _ _ _ _);
    vm_compute; reflexivity.
Defined.

(** Both paths are registered and neither is probed up yet. *)
Definition bulk_ct : list Z := 4 :: replicate 200 7.

Lemma joined_inv : inv joined_state.
Proof. by destruct (client_run_inv _ _ _ (toy_config_ok ModeClient) joined_run). Qed.

Lemma client_send_refines_witness :
  exists class s0 e0, classifyCt bulk_ct joined_state = Ret (s0, e0, class) /\ wf_class class /\
    sent_as cc class (choose class (paths joined_state)) bulk_ct joined_state
      (evs (sendOne cc bulk_ct) joined_state) (st (sendOne cc bulk_ct) joined_state).
Proof.
  refine (client_send_refines cc bulk_ct joined_state (st (sendOne cc bulk_ct) joined_state)
    (evs (sendOne cc bulk_ct) joined_state) joined_inv _ _ (ran_eq _ _ _)).
  - by vm_compute.
  - by vm_compute.
  - vm_compute; reflexivity.
Defined.

Lemma client_numbering_witness :
  only_own cc joined_state [bulk_ct; bulk_ct] (evs (clientSend cc [bulk_ct; bulk_ct]) joined_state) /\
  exists N, (N <= 2)%nat /\ numbered joined_state N (evs (clientSend cc [bulk_ct; bulk_ct]) joined_state)
    (st (clientSend cc [bulk_ct; bulk_ct]) joined_state).
Proof.
  refine (client_numbering cc [bulk_ct; bulk_ct] joined_state
    (st (clientSend cc [bulk_ct; bulk_ct]) joined_state)
    (evs (clientSend cc [bulk_ct; bulk_ct]) joined_state) joined_inv _ (ran_eq _ _ _)).
  - by vm_compute.
  - vm_compute; reflexivity.
Defined.

Lemma start_inv : inv start_state.
Proof. by destruct (client_run_inv _ _ _ (toy_config_ok ModeClient) start_run). Qed.

Lemma pending_staged_witness :
  exists s', clientSend cc [bulk_ct] start_state = Ret (s', [], tt) /\ view s' = view start_state /\
    pending s' = take pendingCap (pending start_state ++ [bulk_ct]) /\
    TxDropNoPath (Stats s') = u64 (TxDropNoPath (Stats start_state) +
      Z.of_nat (length (pending start_state) + 1 - pendingCap)).
Proof.
  refine (proj1 (pending_staged cc [bulk_ct] start_state start_inv _ _ _) _).
  - by vm_compute.
  - apply (bool_decide_unpack _). by vm_compute.
  - by vm_compute.
  - by vm_compute.
Defined.

(** Three uplinks, of which two are probed up, with different delays. *)
Definition probed (i : Z) (isUp : bool) (rtt : Z) : Path :=
  mkPath i "" (Some 0%nat) false 0 true 0 0 0
    (mkLink isUp rtt 0 true 0 1 1 0 0 [] 0 false 0 0 0 None None None 3 0 []) NewRxStats.

Definition three_paths : list Path := [probed 0 true 40000; probed 1 false 10000; probed 2 true 20000].

Lemma realtime_two_best_witness :
  choose ClassRealtime three_paths = Direct 2 (Some 0%nat) /\
  exists i j p q, choose ClassRealtime three_paths = Direct i (Some j) /\ i <> j /\
    live three_paths i p /\ live three_paths j q /\
    (forall k r, live three_paths k r -> score p <= score r) /\
    (forall k r, live three_paths k r -> k <> i -> score q <= score r).
Proof.
  split; [by vm_compute|]. apply realtime_two_best. vm_compute. lia.
Defined.

(** ** A server run *)

Abbreviation cs := (toy_config ModeServer).

Definition server_okb (o : server_op) : bool :=
  match o with SRx (Some (d, _)) => is_bytesb d | _ => true end.

Fixpoint server_play (ops : list server_op) (r : list ev * Engine) : option (list ev * Engine) :=
  match ops with
  | [] => Some r
  | o :: ops =>
      if server_okb o then
        match server_exec cs o r.2 with
        | Ret (s', es', _) => server_play ops (r.1 ++ es', s')
        | _ => None
        end
      else None
  end.

Lemma server_okb_ok o : server_okb o = true -> server_op_ok o.
Proof.
  destruct o as [| |ch|pkt|bufs ep|[[d a]|]|id| |k l| |]; try done. cbn.
  intros Hr ? ? [= <- <-]. by apply is_bytesb_spec.
Qed.

Lemma server_play_run ops : forall r r',
  server_run cs r.1 r.2 -> server_play ops r = Some r' -> server_run cs r'.1 r'.2.
Proof.
  induction ops as [|o ops IH]; intros [es s] r' Hr; cbn [server_play fst snd]; [by intros [= <-]|].
  destruct (server_okb o) eqn:Ho; [|done].
  destruct (server_exec cs o s) as [[[s' es'] []]| |] eqn:E; [|done..]. apply IH.
  eapply server_step; [exact Hr|by apply server_okb_ok|exact E].
Qed.

Definition server_after (ops : list server_op) : list ev * Engine :=
  default ([], NewEngine cs 0) (server_play ops ([], NewEngine cs 0)).

Lemma server_after_run ops : server_run cs (server_after ops).1 (server_after ops).2.
Proof.
  unfold server_after. destruct (server_play ops _) as [r|] eqn:E; cbn; [|by constructor].
  eapply server_play_run; [|exact E]. constructor.
Qed.

(** A client joins, its path moves with a DATA packet, and it leaves. *)
Definition home : AddrPort := ([192; 0; 2; 1], 4000).
Definition roam : AddrPort := ([198; 51; 100; 9], 4100).
Definition join : server_op := SRx (Some (toy_hello 0 false, home)).
Definition move : server_op := SRx (Some (toy_data 0 1, roam)).
Definition leave : server_op := SRx (Some (toy_bye 0, roam)).

Definition opened : list server_op := [SOpen].
Definition empty_server : Engine := (server_after opened).2.
Definition one_session : Engine := st (server_exec cs join) empty_server.

Definition moved_session : Engine := st (server_exec cs move) one_session.
Definition left_session : Engine := st (server_exec cs leave) one_session.
(** Ten HELLOs take the clock past its jump. *)
Definition idle_server : Engine := (server_after (opened ++ replicate 10 join)).2.

Lemma empty_run : server_run cs (server_after opened).1 empty_server.
Proof. apply server_after_run. Qed.
Definition join_events : list ev := (server_after opened).1 ++ evs (server_exec cs join) empty_server.
Lemma one_run : server_run cs join_events one_session.
Proof.
  refine (server_step cs _ _ join _ _ empty_run (server_okb_ok _ _) (ran_eq _ _ _)); vm_compute; reflexivity.
Qed.
Lemma idle_run : server_run cs (server_after (opened ++ replicate 10 join)).1 idle_server.
Proof. apply server_after_run. Qed.



Lemma server_registry_witness :
  reg one_session !! 7 = Some (42, {[0 := home]}) /\ reg moved_session !! 7 = Some (42, {[0 := roam]}) /\
  (exists t, reading t /\ received cs (take SlabSize (toy_data 0 1)) roam t (reg one_session) (reg moved_session)) /\
  (exists t, reading t /\ forall id, sessions (st (server_exec cs SReap) idle_server) !! id =
    x ← sessions idle_server !! id; (if lastSeen x <? t - sessionTimeout then None else Some x)).
Proof.
  split_and!; [vm_compute; reflexivity|vm_compute; reflexivity|..].
  - refine (server_registry cs join_events one_session move moved_session
      (evs (server_exec cs move) one_session) (toy_config_ok ModeServer) one_run
      (server_okb_ok _ _) (ran_eq (server_exec cs move) one_session _)); vm_compute; reflexivity.
  - refine (server_registry cs (server_after (opened ++ replicate 10 join)).1 idle_server SReap _
      (evs (server_exec cs SReap) idle_server) (toy_config_ok ModeServer) idle_run I
      (ran_eq (server_exec cs SReap) idle_server _)); vm_compute; reflexivity.
Defined.

Lemma session_opened_witness :
  exists dgram src t hh m, join = SRx (Some (dgram, src)) /\ reading t /\
    hello_in cs (take SlabSize dgram) t hh m /\
    heSession m = 7 /\ ClientID m = 42 /\ {[0 := home]} = ({[hPathID hh := src]} : gmap Z AddrPort).
Proof.
  refine (session_opened cs (server_after opened).1 empty_server join one_session
    (evs (server_exec cs join) empty_server) 7 42 {[0 := home]} (toy_config_ok ModeServer) empty_run
    (server_okb_ok _ _) (ran_eq (server_exec cs join) empty_server _) _ _); vm_compute; reflexivity.
Defined.

Lemma left_none : reg left_session !! 7 = None.
Proof. vm_compute; reflexivity. Qed.

Lemma session_closed_witness :
  reg left_session !! 7 = None /\
  exists dgram src t hb m, leave = SRx (Some (dgram, src)) /\ reading t /\
    bye_in cs (take SlabSize dgram) t hb m /\ bySession m = 7 /\
    delete (hPathID hb) ({[0 := home]} : gmap Z AddrPort) = ∅.
Proof.
  assert (Hs : reg one_session !! 7 = Some (42, {[0 := home]})) by (vm_compute; reflexivity).
  assert (Ho : server_op_ok leave) by (apply server_okb_ok; vm_compute; reflexivity).
  assert (Hr : ran (server_exec cs leave) one_session = true) by (vm_compute; reflexivity).
  pose proof (session_closed cs join_events one_session leave left_session
    (evs (server_exec cs leave) one_session) 7 42 {[0 := home]} (toy_config_ok ModeServer) one_run
    Ho (ran_eq _ _ Hr) Hs) as Hc.
  rewrite left_none in Hc. split; [exact left_none|]. destruct Hc as [(t & x & E & _)|Hc]; [discriminate E|exact Hc].
Defined.

Lemma path_moved_witness :
  42 = 42 /\ exists dgram t, move = SRx (Some (dgram, roam)) /\ reading t /\ valid cs (take SlabSize dgram) t 7 0.
Proof.
  refine (path_moved cs join_events one_session move moved_session
    (evs (server_exec cs move) one_session) 7 42 42 {[0 := home]} {[0 := roam]} 0 roam
    (toy_config_ok ModeServer) one_run (server_okb_ok _ _) (ran_eq (server_exec cs move) one_session _)
    _ _ _ _); vm_compute; (reflexivity || discriminate).
Defined.

Lemma reaper_exact_witness :
  sessions (st reaperTick idle_server) !! 7 = None /\
  exists t, reading t /\ forall id, sessions (st reaperTick idle_server) !! id =
    x ← sessions idle_server !! id; (if lastSeen x <? t - sessionTimeout then None else Some x).
Proof.
  split; [vm_compute; reflexivity|].
  refine (reaper_exact cs (server_after (opened ++ replicate 10 join)).1 idle_server
    (st reaperTick idle_server) (evs reaperTick idle_server) (toy_config_ok ModeServer) idle_run
    (ran_eq _ _ _)); vm_compute; reflexivity.
Defined.

(** ** A configuration *)

Definition sample_client : Configuration.Client :=
  mkClient (mkTunnel "" 0 "10.200.0.2/24" "cHJpdg==" "cGVlcg==" ["192.168.50.0/24"; "fd00::/8"])
    "203.0.113.10:51820" "change-me"
    [mkWanPath "fiber" "192.168.1.10" ""; mkWanPath "" "" "203.0.113.11:51820"]
    (mkClassify false [mkRule "udp" 5060 "realtime"]) (mkFEC false "8:3") (mkDashboard "" "").

(** A file system in which every file holds it. *)
#[local] Instance sample_loader : Loader := {|
  ReadFile _ := Some ""; DecodeClient _ := Some sample_client; DecodeServer _ := None |}.

Lemma sample_loads : LoadClient "client.yaml" = Ret (completeClient sample_client).
Proof. vm_compute; reflexivity. Qed.

Lemma client_boot_witness :
  wpName <$> cPaths (completeClient sample_client) = ["fiber"; "path1"] /\
  exists cfg, clientConfig (completeClient sample_client) (replicate 12 0) = Ret cfg /\ cfg_ok cfg /\
    cfgSession cfg <> 0 /\ mtu_fits DefaultMTU /\
    forall t, exists s es ok, addPaths (cPaths (completeClient sample_client)) (NewEngine cfg t) = Ret (s, es, ok) /\
      client_run cfg es s.
Proof.
  split; [vm_compute; reflexivity|].
  assert (Hb : is_bytes (replicate 12 0)) by (apply Forall_replicate; by vm_compute).
  destruct (client_boot "client.yaml" (completeClient sample_client) (replicate 12 0) sample_loads Hb eq_refl)
    as (cfg & E & Hc & _ & Hs & _ & Hm & Hrun).
  exists cfg. split; [exact E|]. split; [exact Hc|]. split; [exact Hs|]. split; [exact Hm|].
  intros t. destruct (Hrun t) as (s & es & ok & Ha & Hr & _). exists s, es, ok. split; [exact Ha|exact Hr].
Defined.

(** ** Starting *)

(** A machine on which everything works. *)
#[local] Instance sample_curve : Curve := {| X25519 k := Some (reverse k) |}.
#[local] Instance sample_entropy : Entropy := {| entropy n := Some (replicate n 7) |}.
#[local] Instance sample_wireguard : WireGuard := {| CreateTUN _ _ := true; IpcSet _ := true |}.
#[local] Instance sample_netlink : Netlink :=
  {| LinkByName _ := Some 3; nlParseAddr := goodPrefix; accepts _ _ := true |}.


Lemma genkey_pubkey_witness :
  exists k, GeneratePrivateKey (Some (replicate 32 7)) = Ret k /\ length k = 32%nat /\
    KeySubcommand ["genkey"] [] = Printed (KeyString k) /\
    forall rest, KeySubcommand ["pubkey"] (KeyString k ++ 10 :: rest) = printKey (PublicKey k).
Proof.
  refine (genkey_pubkey (replicate 32 7) [] eq_refl _ eq_refl). apply Forall_replicate. by vm_compute.
Defined.





(** Turns other than of receive loops are always possible. *)
Lemma allowed_polls cfg n : forall s, allowed cfg (replicate n (CPoll 0)) s.
Proof. induction n as [|n IH]; intros s; cbn [replicate allowed]; [exact I|]. split_and!; [done|exact I|]. intros; apply IH. Qed.


(** A client that is given a path, starts its loops and takes two turns. *)
Lemma life_sound_witness :
  exists es s, client_run cc es s /\
    Forall (fun l => relies l s) [clientRxLoop 0; helloLoop; clientProbeLoop; clientCtrlLoop; fecFlushLoop].
Proof.
  set (s0 := NewEngine cc 0). set (s1 := (client_after [CAddPath "wan0"]).2).
  set (e1 := evs (client_exec cc (CAddPath "wan0")) s0).
  assert (E1 : AddPath "wan0" s0 = Ret (s1, e1, true)) by (vm_compute; reflexivity).
  set (o := CRx 0 (Some (toy_hello 0 true))). set (s2 := st (client_exec cc o) s1).
  assert (E2 : client_exec cc o s1 = Ret (s2, evs (client_exec cc o) s1, tt)).
  { apply ran_eq. vm_compute; reflexivity. }
  set (s3 := st (client_exec cc CFecFlush) s2).
  assert (E3 : client_exec cc CFecFlush s2 = Ret (s3, evs (client_exec cc CFecFlush) s2, tt)).
  { apply ran_eq. vm_compute; reflexivity. }
  eexists _, s3. refine (life_sound cc _ _ s3 (life_turn cc _ _ s2 CFecFlush s3 _ (life_turn cc _ _ s1 o s2 _
    (life_run cc _ _ s1 (life_add cc _ _ s0 "wan0" s1 e1 true (life_new cc 0) E1)) _ _ E2) _ _ E3)).
  - intros l [= <-]. apply (bool_decide_unpack _). vm_compute; exact I.
  - intros i d [= _ <-]. apply is_bytesb_spec. vm_compute; reflexivity.
  - intros l [= <-]. apply (bool_decide_unpack _). vm_compute; exact I.
  - intros i d. discriminate.
Defined.

(** One pause, during which the clock moves on by ten minutes. *)
Definition long_pause : pause := mkPause (replicate 60 (CPoll 0)) false.

Lemma WaitReady_returns_witness :
  exists s' es' r, WaitReady cc waitPoll [long_pause] start_state = Ret (s', es', Some r) /\
    client_run cc ((client_after client_start).1 ++ es') s' /\
    answer (clock (ticks start_state) + waitPoll) [long_pause] s' r.
Proof.
  apply (WaitReady_returns cc waitPoll [long_pause] _ start_state (toy_config_ok ModeClient) start_run).
  - split; [apply allowed_polls|]. intros; exact I.
  - apply Z.leb_le. vm_compute; reflexivity.
  - intros s1 es E. split; [|exact I]. apply Z.leb_le.
    assert (Hb : match clientRuns cc (turns long_pause) (ticked (ticked start_state)) with
                 | Ret (s1, _, _) => clock (ticks (ticked start_state)) + waitPoll <=? clock (ticks s1)
                 | _ => true end = true) by (vm_compute; reflexivity).
    rewrite E in Hb. exact Hb.
  - apply Z.leb_le. vm_compute; reflexivity.
Defined.

(** ** The dashboard *)

Lemma client_names t (l : list Path) pms : Forall2 (client_row t) l pms -> pmName <$> pms = pName <$> l.
Proof. induction 1 as [|p pm l pms (_ & Hn & _) _ IH]; [done|]. cbn. by rewrite Hn, <- IH. Qed.

Lemma metrics_faithful_witness :
  exists k m, engineMetrics cc joined_state = Ret (set_ticks k joined_state, [], m) /\
    pmName <$> mPaths m = ["wan0"; "wan1"].
Proof.
  assert (Hn : pName <$> paths joined_state = ["wan0"; "wan1"]) by by vm_compute.
  destruct (metrics_faithful cc joined_state) as (k & m & E & Hs). exists k, m. split; [exact E|].
  destruct (sh_role _ _ _ Hs) as (t & _ & _ & Hr). cbn [cfgMode toy_config] in Hr.
  destruct Hr as (_ & _ & _ & Hp & _). rewrite (client_names _ _ _ Hp). exact Hn.
Defined.

(** ** Through the tunnel *)

(** The client's two packets fill a parity group. The network loses the first
    of them; the parity arrives from one address, the second from another. *)
Definition tunnel_in : list client_op :=
  [COpen; CAddPath "wan0"; CAddPath "wan1"; CRx 0 (Some (toy_hello 0 true)); CRx 1 (Some (toy_hello 1 true));
   CSend [[4; 0; 0; 0]; [4; 1; 1; 1]]].
Definition on_wire : list (list Z) := written (client_after tunnel_in).1.
Definition arrives (n : nat) (src : AddrPort) : server_op := SRx (Some (default [] (on_wire !! n), src)).
Definition tunnel_out : list server_op := [SOpen; join; arrives 1 home; arrives 2 roam; SRecv 0; SRecv 0].

Lemma client_play_sent ops : forall ins r r',
  client_sent cc ins r.1 r.2 -> client_play ops r = Some r' -> client_sent cc (ins ++ (ops ≫= op_sends)) r'.1 r'.2.
Proof.
  induction ops as [|o ops IH]; intros ins [es s] r' Hr; cbn [client_play fst snd].
  { intros [= <-]. by rewrite app_nil_r. }
  destruct (client_okb o s) eqn:Ho; [|done].
  destruct (client_exec cc o s) as [[[s' es'] []]| |] eqn:E; [|done..].
  cbn [mbind list_bind]. rewrite app_assoc. apply IH.
  eapply sent_step; [exact Hr|by apply client_okb_ok|exact E].
Qed.

Lemma client_after_sent ops :
  is_Some (client_play ops ([], NewEngine cc 0)) ->
  client_sent cc (ops ≫= op_sends) (client_after ops).1 (client_after ops).2.
Proof.
  unfold client_after. intros [r E]. rewrite E. apply (client_play_sent ops [] ([], NewEngine cc 0)); [constructor|exact E].
Qed.

(** The datagram an operation reads, if any, satisfies [P]. *)
Definition from_wire (P : list Z -> Prop) (o : server_op) : Prop :=
  forall dgram src, o = SRx (Some (dgram, src)) -> P dgram.

Lemma from_wire_rx (P : list Z -> Prop) dgram src : P dgram -> from_wire P (SRx (Some (dgram, src))).
Proof. by intros HP ? ? [= <- _]. Qed.

Lemma server_play_fed (P : list Z -> Prop) ops : forall r r',
  Forall (from_wire P) ops ->
  server_fed cs P r.1 r.2 -> server_play ops r = Some r' -> server_fed cs P r'.1 r'.2.
Proof.
  induction ops as [|o ops IH]; intros [es s] r' HP Hr; cbn [server_play fst snd]; [by intros [= <-]|].
  apply Forall_cons_iff in HP as [Hd HP]. destruct (server_okb o) eqn:Ho; [|done].
  destruct (server_exec cs o s) as [[[s' es'] []]| |] eqn:E; [|done..]. apply IH; [exact HP|].
  eapply fed_step; [exact Hr|by apply server_okb_ok|exact Hd|exact E].
Qed.

Lemma server_after_fed (P : list Z -> Prop) ops :
  Forall (from_wire P) ops -> server_fed cs P (server_after ops).1 (server_after ops).2.
Proof.
  unfold server_after. intros HP. destruct (server_play ops _) as [r|] eqn:E; cbn; [|by constructor].
  apply (server_play_fed P ops ([], NewEngine cs 0) r HP); [constructor|exact E].
Qed.

Lemma hello_foreign : foreign 7 (take SlabSize (toy_hello 0 false)).
Proof.
  assert (Hd : ParseDataHeader (take SlabSize (toy_hello 0 false)) = Err ErrType) by (vm_compute; reflexivity).
  assert (Hf : ParseFEC (take SlabSize (toy_hello 0 false)) = Err ErrType) by (vm_compute; reflexivity).
  split; intros ? ? E; [by rewrite Hd in E|by rewrite Hf in E].
Qed.

Lemma on_wire_length : length on_wire = 3%nat.
Proof. vm_compute; reflexivity. Qed.

Lemma on_wire_default n : (n < 3)%nat -> default [] (on_wire !! n) ∈ on_wire.
Proof.
  intros Hn. generalize on_wire on_wire_length. intros l Hl.
  destruct (lookup_lt_is_Some_2 l n) as [d E]; [by rewrite Hl|]. rewrite E. by eapply list_elem_of_lookup_2.
Qed.

Lemma tunnel_arrivals : Forall (from_wire (fun d => d ∈ on_wire \/ foreign 7 (take SlabSize d))) tunnel_out.
Proof.
  unfold tunnel_out. apply List.Forall_cons; [by intros ? ?|].
  apply List.Forall_cons; [apply from_wire_rx; right; exact hello_foreign|].
  apply List.Forall_cons; [apply from_wire_rx; left; apply on_wire_default; lia|].
  apply List.Forall_cons; [apply from_wire_rx; left; apply on_wire_default; lia|].
  apply List.Forall_cons; [by intros ? ?|]. apply List.Forall_cons; [by intros ? ?|]. apply List.Forall_nil.
Qed.

(** The lost packet was rebuilt from the parity. *)
Lemma tunnel_integrity_witness :
  ToWireGuard 7 [4; 0; 0; 0] ∈ (server_after tunnel_out).1 /\
  [4; 0; 0; 0] ∈ [[4; 0; 0; 0]; [4; 1; 1; 1]].
Proof.
  assert (Hr : ToWireGuard 7 [4; 0; 0; 0] ∈ (server_after tunnel_out).1).
  { apply list_elem_of_lookup. exists 7%nat. vm_compute; reflexivity. }
  split; [exact Hr|].
  assert (Hp : is_Some (client_play tunnel_in ([], NewEngine cc 0))).
  { apply (bool_decide_unpack _). by vm_compute. }
  refine (tunnel_integrity (WC := toy_world) (WS := toy_world) cc cs _ _ _ _ _ [4; 0; 0; 0]
    (toy_config_ok ModeClient) _ _ _ _ (client_after_sent tunnel_in Hp)
    (server_after_fed _ tunnel_out tunnel_arrivals) Hr).
  - by vm_compute.
  - by vm_compute.
  - repeat constructor; by vm_compute; lia.
  - by vm_compute.
Defined.


(** ** And back *)

(** The server answers on the session's path: the two packets fill a parity
    group. The network loses the first of them. *)
Definition back_in : list server_op := [SOpen; join; SSend [[4; 0; 0; 0]; [4; 1; 1; 1]] 7].
Definition back_wire : list (list Z) := replies (server_after back_in).1.
Definition returns (n : nat) : client_op := CRx 0 (Some (default [] (back_wire !! n))).
Definition back_out : list client_op :=
  [COpen; CAddPath "wan0"; returns 0; returns 2; returns 3; CRecv 0; CRecv 0].

(** No operation of [ops] closes session 7. *)
Fixpoint server_keeps (ops : list server_op) (s : Engine) : bool :=
  match ops with
  | [] => true
  | o :: ops =>
      match server_exec cs o s with
      | Ret (s', _, _) =>
          implb (bool_decide (is_Some (sessions s !! 7))) (bool_decide (is_Some (sessions s' !! 7))) && server_keeps ops s'
      | _ => true
      end
  end.

Lemma server_play_sent ops : forall ins r r',
  server_keeps ops r.2 = true -> server_sent cs cc ins r.1 r.2 -> server_play ops r = Some r' ->
  server_sent cs cc (ins ++ (ops ≫= op_replies cc)) r'.1 r'.2.
Proof.
  induction ops as [|o ops IH]; intros ins [es s] r' Hk Hr; cbn [server_play server_keeps fst snd] in *.
  { intros [= <-]. by rewrite app_nil_r. }
  destruct (server_okb o) eqn:Ho; [|done].
  destruct (server_exec cs o s) as [[[s' es'] []]| |] eqn:E; [|done..].
  apply andb_prop in Hk as [Hkept Hk]. cbn [mbind list_bind]. rewrite app_assoc. apply IH; [exact Hk|].
  eapply back_step; [exact Hr|by apply server_okb_ok|exact E|].
  intros Hs. rewrite bool_decide_eq_true_2 in Hkept by exact Hs. by apply bool_decide_eq_true in Hkept.
Qed.

Lemma server_after_sent ops :
  server_keeps ops (NewEngine cs 0) = true -> is_Some (server_play ops ([], NewEngine cs 0)) ->
  server_sent cs cc (ops ≫= op_replies cc) (server_after ops).1 (server_after ops).2.
Proof.
  unfold server_after. intros Hk [r E]. rewrite E.
  apply (server_play_sent ops [] ([], NewEngine cs 0)); [exact Hk|constructor|exact E].
Qed.

(** The datagram a client's operation reads, if any, satisfies [P]. *)
Definition from_net (P : list Z -> Prop) (o : client_op) : Prop :=
  forall i dgram, o = CRx i (Some dgram) -> P dgram.

Lemma client_play_fed (P : list Z -> Prop) ops : forall r r',
  Forall (from_net P) ops ->
  client_fed cc P r.1 r.2 -> client_play ops r = Some r' -> client_fed cc P r'.1 r'.2.
Proof.
  induction ops as [|o ops IH]; intros [es s] r' HP Hr; cbn [client_play fst snd]; [by intros [= <-]|].
  apply Forall_cons_iff in HP as [Hd HP]. destruct (client_okb o s) eqn:Ho; [|done].
  destruct (client_exec cc o s) as [[[s' es'] []]| |] eqn:E; [|done..]. apply IH; [exact HP|].
  eapply cfed_step; [exact Hr|by apply client_okb_ok|exact Hd|exact E].
Qed.

Lemma client_after_fed (P : list Z -> Prop) ops :
  Forall (from_net P) ops -> client_fed cc P (client_after ops).1 (client_after ops).2.
Proof.
  unfold client_after. intros HP. destruct (client_play ops _) as [r|] eqn:E; cbn; [|by constructor].
  apply (client_play_fed P ops ([], NewEngine cc 0) r HP); [constructor|exact E].
Qed.

Lemma back_wire_length : length back_wire = 4%nat.
Proof. vm_compute; reflexivity. Qed.

Lemma from_net_returns (P : list Z -> Prop) n : (n < 4)%nat ->
  from_net (fun d => d ∈ back_wire \/ P d) (returns n).
Proof.
  unfold returns. generalize back_wire back_wire_length. intros l Hl Hn i d [= _ <-]. left.
  destruct (lookup_lt_is_Some_2 l n) as [x E]; [by rewrite Hl|]. rewrite E. by eapply list_elem_of_lookup_2.
Qed.

Lemma back_arrivals : Forall (from_net (fun d => d ∈ back_wire \/ foreign 7 (take SlabSize d))) back_out.
Proof.
  unfold back_out.
  do 2 (apply List.Forall_cons; [by intros ? ?|]). do 3 (apply List.Forall_cons; [apply from_net_returns; lia|]).
  do 2 (apply List.Forall_cons; [by intros ? ?|]). apply List.Forall_nil.
Qed.

(** The reply the network lost was rebuilt from the parity. *)
Lemma downlink_integrity_witness :
  ToWireGuard 7 [4; 0; 0; 0] ∈ (client_after back_out).1 /\
  [4; 0; 0; 0] ∈ [[4; 0; 0; 0]; [4; 1; 1; 1]].
Proof.
  assert (Hr : ToWireGuard 7 [4; 0; 0; 0] ∈ (client_after back_out).1).
  { apply list_elem_of_lookup. exists 7%nat. vm_compute; reflexivity. }
  split; [exact Hr|].
  assert (Hk : server_keeps back_in (NewEngine cs 0) = true) by (vm_compute; reflexivity).
  assert (Hp : is_Some (server_play back_in ([], NewEngine cs 0))).
  { apply (bool_decide_unpack _). by vm_compute. }
  refine (downlink_integrity (WC := toy_world) (WS := toy_world) cc cs _ _ _ _ _ 7 [4; 0; 0; 0]
    (toy_config_ok ModeServer) _ _ _ (server_after_sent back_in Hk Hp)
    (client_after_fed _ back_out back_arrivals) Hr).
  - clear; by vm_compute.
  - clear; repeat constructor; by vm_compute; lia.
  - clear; by vm_compute.
Defined.

(** Ciphertext for the session goes to its one address. *)
Lemma send_isolated_witness :
  existsb (fun e => match e with Sent _ _ _ => true | _ => false end)
    (evs (_ ← bindSend cs [[4; 0; 0; 0]] (SessionEp (mkSessionEndpoint 7)); mret tt) one_session) = true /\
  forall dst b ok,
    Sent dst b ok ∈ evs (_ ← bindSend cs [[4; 0; 0; 0]] (SessionEp (mkSessionEndpoint 7)); mret tt) one_session ->
    dst = ToAddr home.
Proof.
  split; [vm_compute; reflexivity|]. intros dst b ok Hin.
  set (m := bindSend cs [[4; 0; 0; 0]] (SessionEp (mkSessionEndpoint 7))) in *.
  assert (Hr : ran (_ ← m; mret tt) one_session = true) by (vm_compute; reflexivity).
  destruct (ran_bind m one_session Hr) as (s1 & err & E).
  destruct (send_isolated cs _ _ _ _ _ _ eq_refl E) as (_ & _ & _ & Hs).
  destruct (Hs _ _ _ Hin) as (mp & pid & a & Hm & Ha & ->).
  assert (Hone : addrs 7 one_session = Some {[0 := home]}) by (vm_compute; reflexivity).
  cbn [epSession] in Hm. rewrite Hone in Hm. injection Hm as <-. apply lookup_singleton_Some in Ha as [_ <-]. reflexivity.
Defined.
